(* ===== verification/_CoqProject ===== *)
-Q . S2P
Prelude.v
GoTime.v
GoRegexp.v
ErrType.v
GoJSON.v
GoJSONProps.v
InstanceURI.v
Refresh.v
GoIO.v
Metadata.v
MetadataProps.v
Mock.v
FakeInstance.v
FakeAPI.v
Tel.v
Threads.v
Buffers.v
KeyGen.v
Options.v
Cache.v
Static.v
Lazy.v
Ahead.v
AheadInv.v
AheadProps.v
AheadLive.v
AheadCache.v
AnyCache.v
Dialer.v
DialerInv.v
DialerProps.v
DialerThms.v
DialerClient.v
DialerToy.v
DialerTel.v
DialerLedger.v
DialerLive.v
DialerOrigin.v
DialerStatic.v
NewDialer.v
PgDriver.v
