(* ===== verification/Prelude.v ===== *)
(** * The AlloyDB Go Connector, verified

    The connector dials AlloyDB instances. A caller gives an instance URI; the
    dialer ([src/dialer.go]) finds or makes a cache for the instance, gets from it a
    connection info (addresses and an ephemeral client certificate, fetched from the
    Admin API), opens a network connection, performs a TLS handshake and a metadata
    exchange over it, and returns the connection. This library models that program
    and proves what makes it correct.

    ** The program's parts and where they are

    - Package [errtype] ([src/errtype/errors.go]): [ErrType]. Error values as an
      inductive type, their constructors, rendering ([%q] quoting included) and
      unwrapping; the type [res] of outcomes, [Ret], [Fail] or [Panic].
    - Instance URIs ([src/internal/alloydb/instance.go], first part): [InstanceURI],
      on the regular expressions of [GoRegexp] (a backtracking matcher with the
      leftmost-first semantics of package [regexp]).
    - The refresh ([src/internal/alloydb/refresh.go]): [Refresh]. The two Admin API
      fetches, the assembly of the client certificate, and [connectionInfo] as a
      transition system of its two goroutines, their channels and the caller.
    - The caches behind the interface [connectionInfoCache]: [Cache] has the
      interface as type classes ([InfoCache], its laws [InfoCacheLaws], and
      [CacheMaker] with [CacheMakerLaws]) and the refresh timing. Each cache meets the
      laws for any property [P] of infos that the answers it is given have; the default
      instances take [P] to be that the info is well formed. [Lazy] is the lazy cache
      ([lazy.go]): its critical sections, and calls that overlap and wait for the mutex,
      which one of them holds while it fetches. [Ahead] is the refresh-ahead cache
      ([instance.go], second part): one transition system of the operations ever scheduled, their timers and callbacks, the
      callers of [ConnectionInfo], [ForceRefresh] and [Close]; [AheadInv] its
      invariant, [AheadProps] and [AheadLive] its theorems, [AheadCache] the proof
      that it meets the interface. [Static] is the static cache ([static.go]), from
      the bytes its reader yields: on the scanner of package [encoding/json] in
      [GoJSON], a byte state machine that builds a tree, with its lemmas in
      [GoJSONProps], it has the decoders that the struct tags ask for. [AnyCache] is
      the choice between the three (the switch in [connectionInfoCache]) and the
      reader of static data they share, as one more instance of the interface.
    - The key generator of [dialer.go]: [KeyGen].
    - The metadata exchange of [dialer.go]: [Metadata], written in the state and error
      monad of [GoIO], over an abstract connection ([NetConn]) and with the memory of
      the pooled buffers; [MetadataProps] its theorems. [Buffers] runs many exchanges
      at once, statement by statement, over one heap of buffers and the pool of
      pointers to them, which may let any of its items go.
    - The fakes of [src/internal/mock]: [Mock] has the server side of the exchange
      ([alloydb.go]) and the matching, dispatch and final check of the fake Admin API
      ([alloydbadmin.go]); [FakeInstance] the fake instance, its certificates, the
      client chains it issues, the listener and the loop that accepts; [FakeAPI] the
      two canned handlers and the server in front of them.
    - The options ([src/options.go]): [Options]; the constructor of the dialer:
      [NewDialer].
    - [Dial], [Close] and the connections of [dialer.go]: [Dialer]. Goroutines are
      programs of [Threads] over one shared world: the dialer's map and closed flag,
      all caches and connections ever made, the counters, the goroutines that update
      and record them, and what has been recorded. [Threads] also has the proof
      method, rely and guarantee. [DialerInv] has the invariant, [DialerProps] the
      rules for each action and for [Dial], [DialerThms] the theorems over all
      schedules, [DialerClient] those for one client goroutine among others that do
      not dial, [DialerLive] how many actions a call makes and when it returns, [DialerTel] the spans and the
      gauge of open connections, [DialerLedger] that latencies, failures and bytes are
      recorded for the calls that account for them, under the instance they are for, [DialerOrigin] that connections go
      where the Admin API says; [DialerToy] and [DialerStatic]
      concrete schedules.
    - Telemetry ([src/internal/tel]): [Tel]. Measures, tags and views, what is
      recorded, the registration of the views, spans, error codes and span status.
    - The database drivers ([src/driver]): [PgDriver], for both packages, on top of
      [NewDialer] and [Dialer].
    - [GoTime] is what is used of package [time].

    Record fields and functions keep the source's names, with a prefix where two
    types share one. A pointer to a refresh operation, a cache or a connection is an
    index into the list of all that were made. Integers are [Z] with the wrap-around
    written out where the code can reach it ([Duration] arithmetic, the [uint64]
    counters, the [uint32] message sizes).

    ** What the theorems show

    - URIs: what parses, with which error it fails, and that printing and parsing are
      inverse.
    - Refresh: the two concurrent fetches compose to a sequential result whatever the
      schedule, always terminate, leak no goroutine, and yield well-formed infos made of
      the API's answers for the instance.
    - Lazy cache: it refines a memo that callers can drop; calls that overlap are a
      sequential run of it, in the order in which they return; and while one fetches the
      others wait, whatever their contexts, and the cache does not change.
    - Refresh-ahead cache: at most one refresh is scheduled or running, and one is as
      long as the cache is open, due at exactly the time that the refresh before it
      sets; a valid info is only replaced by a newly fetched one;
      results never change once published; callers get well-formed infos and are
      released by the operation they wait for, unless it was stopped; after [Close]
      all callbacks end within eight steps and at most one more refresh calls the
      Admin API; a refresh inside its call of the Admin API is ended by nothing but
      the call's return.
    - Static cache: what it holds or which error it fails with for any bytes; decoding
      the text of static data gives the data back and does not depend on the order of
      Go's maps; the shared reader serves one cache only.
    - Metadata exchange: the pooled buffers are invisible when reads fill their slice;
      the pool keeps its buffers on every path, the connection its deadline-free
      state; the client and the fake server understand each other. Concurrent
      exchanges do not interfere: no buffer is in two hands, and each does to its own
      connection what it would do alone.
    - Dialer: on every schedule of dials, closes and background work, what a
      successful dial returns and that its address and certificates are those the Admin
      API (or the static data) gave for that instance, that a failed one closes its connection (with one
      exception), that caches belong to their instance, that the counters of open
      connections are right when their goroutines have run, that the measurements
      recorded are those the calls that returned account for, with the tags of their
      instance and dialer, that every span is ended, that every call makes a bounded
      number of actions (and returns when its context is done if its cache heeds
      contexts, which the lazy one does not), and that [Close] is final. When one goroutine makes the dials and closes in
      sequence no cache is leaked, whatever the others do.
    - Construction: what [NewDialer] makes of any list of options is a function of which
      options were given: for each setting the last one that sets it, or all that add to
      it, and the error of the first that fails.
    - Telemetry, drivers and fakes: every measurement is exported by one view with all
      its tags; a failed refresh is reported with the code of its error; opening a data
      source name dials the instance it names with the driver's own dialer, and
      registers it once; the fake Admin API counts the calls it expects, and a refresh
      against it yields the fake instance's addresses and a chain signed up to its root.
    - Where the code does not do what it means to, the theorem says what it does:
      [force_abandons_caller], [lazy_waits_for_fetch], [response_size_from_buffer], [remove_leaks_cache],
      [close_races], [keep_alive_leaks_conn], [static_reader_once],
      [static_second_instance], [static_empty_address], [open_connections_stale],
      [refresh_status_unknown], [refresh_unbounded].

    ** Parameters

    Code outside the repository is a parameter: [CryptoLib] (X.509, PEM, RSA), and
    [X509Lib] with the laws [X509Laws] where certificates are created; the Admin API
    client, and for one that talks HTTP to the fake [RestLib] with the laws [RestLaws]
    (its routes, and that messages are decoded as they were encoded); [ProtoLib] (the
    encoding of two messages, with the laws [ProtoLaws]), [NetConn] (with the law of
    [io.Reader], [NetConnLaws], and [FullReads] where a theorem needs it), the rate
    limiter, and the environments of the dialer's actions. Modules named [Toy...] instantiate them, so that the witnesses compute.

    ** Termination and bounds

    No definition uses fuel: the recursive ones are structural, and loops that run
    for ever (the refresh cycle) are transition systems, with termination stated as a
    bound on the length of schedules. The return of a cache's [ConnectionInfo], and its
    [ForceRefresh], are the actions of a dial that can be blocked.

    ** What is not modelled

    Of the test doubles, the TLS listener and the HTTP server themselves; of telemetry,
    OpenCensus itself (export, the tags a context already carries, times of spans); the
    debug interfaces and messages, which have no effect on the rest. Of
    [encoding/json] what the code uses: [Unmarshal] into strings, slices of strings,
    structs of these, maps of raw messages; error values other than syntax errors keep
    their text, without the byte offsets that Go also stores. In [Dialer] the whole
    metadata exchange is one action, and so is a batch of steps of a cache's own
    threads; their steps are modelled in [Buffers] and [Ahead]. For the exchange [exchanges_isolated] justifies this: on the
    connections of different goroutines any interleaving of the steps has the outcome of
    the sequential routine. A cache made without a key, which only follows a panic of the
    key generation, panics when it is made and not at its first refresh.

    In [Ahead] the result of a refresh is the input of the action [Reply]: the cache has
    the client and the timeout, and the theorems on the dialer say what holds when
    results are those of that client's [connectionInfo] ([AheadCache], [DialerOrigin]).
    A panic in one of the two goroutines of [connectionInfo], which only a library's
    can be, reaches the caller in [Refresh]; in Go it ends the process.

    Possible extensions: a single client's sequence of calls as a refinement of an
    abstract dialer, and the metadata exchange of [Dial] as several actions. *)

From Stdlib Require Export Ascii String ZArith Lia.
From stdpp Require Export base tactics list gmap strings numbers option.

#[global] Open Scope Z_scope.

(** ** Go values

    A Go [string] is a sequence of bytes, a Go [[]byte] as well; a byte is an
    [ascii] (eight booleans), a string the [string] of the Standard Library. *)
Abbreviation byte := ascii.
Abbreviation bytes := (list ascii).

(** [[]byte(s)] and [string(b)]. *)
Abbreviation to_bytes := list_ascii_of_string.
Abbreviation of_bytes := string_of_list_ascii.

(** ** Machine integers: a w-bit integer is a [Z] with its wrap-around. *)
Definition uint_wrap (w x : Z) : Z := x mod 2 ^ w.
Definition int_wrap (w x : Z) : Z := (x + 2 ^ (w - 1)) mod 2 ^ w - 2 ^ (w - 1).

Definition maxInt64 : Z := 2 ^ 63 - 1.
Definition minInt64 : Z := - 2 ^ 63.
Definition is_int64 (x : Z) : Prop := minInt64 <= x <= maxInt64.
Definition maxUint64 : Z := 2 ^ 64 - 1.

Lemma int64_wrap_id x : is_int64 x -> int_wrap 64 x = x.
Proof.
  unfold is_int64, int_wrap, minInt64, maxInt64; intros H.
  rewrite Z.mod_small; lia.
Qed.

Lemma uint_wrap_id w x : 0 <= x < 2 ^ w -> uint_wrap w x = x.
Proof. apply Z.mod_small. Qed.

Lemma uint_wrap_range w x : 0 <= w -> 0 <= uint_wrap w x < 2 ^ w.
Proof. intros ?; apply Z.mod_pos_bound; lia. Qed.

(** ** Automation *)

Create HintDb conn discriminated.
Create Rewrite HintDb conn.

(** Case analysis on the innermost scrutinee of the goal or of a hypothesis. *)
Ltac case_goal :=
  match goal with
  | |- context [match ?x with _ => _ end] =>
      lazymatch x with
      | context [match _ with _ => _ end] => fail
      | _ => destruct x eqn:?
      end
  end.

Ltac case_hyp H :=
  match type of H with
  | context [match ?x with _ => _ end] =>
      lazymatch x with
      | context [match _ with _ => _ end] => fail
      | _ => destruct x eqn:?
      end
  end.

(** Boolean comparisons of [Z] to propositions. *)
Ltac zbool :=
  repeat match goal with
  | H : (_ <? _) = true |- _ => apply Z.ltb_lt in H
  | H : (_ <? _) = false |- _ => apply Z.ltb_ge in H
  | H : (_ <=? _) = true |- _ => apply Z.leb_le in H
  | H : (_ <=? _) = false |- _ => apply Z.leb_gt in H
  | H : (_ =? _) = true |- _ => apply Z.eqb_eq in H
  | H : (_ =? _) = false |- _ => apply Z.eqb_neq in H
  | H : (_ && _)%bool = true |- _ => apply andb_true_iff in H; destruct H
  | H : (_ || _)%bool = false |- _ => apply orb_false_iff in H; destruct H
  | H : negb _ = true |- _ => apply negb_true_iff in H
  | H : negb _ = false |- _ => apply negb_false_iff in H
  end.

(** ** Strings *)

Lemma of_bytes_app (a b : bytes) : of_bytes (a ++ b) = (of_bytes a +:+ of_bytes b)%string.
Proof. induction a as [|x a IH]; simpl; [done|]. by rewrite IH. Qed.

Lemma to_bytes_app (a b : string) : to_bytes (a +:+ b) = to_bytes a ++ to_bytes b.
Proof. induction a as [|x a IH]; simpl; [done|]. by rewrite IH. Qed.

Lemma of_to_bytes (s : string) : of_bytes (to_bytes s) = s.
Proof. apply string_of_list_ascii_of_string. Qed.

Lemma to_of_bytes (b : bytes) : to_bytes (of_bytes b) = b.
Proof. apply list_ascii_of_string_of_list_ascii. Qed.

#[export] Instance to_bytes_inj : Inj (=) (=) to_bytes.
Proof. intros a b H. by rewrite <- (of_to_bytes a), H, of_to_bytes. Qed.

#[export] Hint Rewrite of_bytes_app to_bytes_app of_to_bytes to_of_bytes : conn.
