(* ===== verification/GoTime.v ===== *)
(** * Package [time]: what the connector uses of it

    An instant is the number of nanoseconds since January 1 of year 1 UTC, the
    zero value of [time.Time]. Every comparison the connector makes has one
    operand without a monotonic reading (a certificate's [NotAfter], or a value
    stripped by [UTC()]), so wall clock readings are all there is to compare.
    A [time.Duration] is an [int64] number of nanoseconds; arithmetic on it wraps
    and [Time.Sub] saturates, as the package documents. *)
From S2P Require Import Prelude.

Definition Time : Set := Z.
Definition Duration : Set := Z.

#[export] Instance Time_eq_dec : EqDecision Time := Z.eq_dec.
#[export] Instance Duration_eq_dec : EqDecision Duration := Z.eq_dec.

Definition Nanosecond : Duration := 1.
Definition Millisecond : Duration := 1000000.
Definition Second : Duration := 1000 * Millisecond.
Definition Minute : Duration := 60 * Second.
Definition Hour : Duration := 60 * Minute.

(** The zero [time.Time]. *)
Definition zeroTime : Time := 0.

Definition After (t u : Time) : bool := (u <? t).
Definition Before (t u : Time) : bool := (t <? u).
Definition Add (t : Time) (d : Duration) : Time := t + d.

(** [Sub] returns the closest [Duration] to [t - u]. *)
Definition Sub (t u : Time) : Duration := Z.max minInt64 (Z.min maxInt64 (t - u)).

(** [Duration] arithmetic is [int64] arithmetic; division truncates. *)
Definition durSub (a b : Duration) : Duration := int_wrap 64 (a - b).
Definition durQuot (a b : Duration) : Duration := Z.quot a b.
Definition Milliseconds (d : Duration) : Z := Z.quot d Millisecond.

Lemma Sub_int64 t u : is_int64 (Sub t u).
Proof. unfold is_int64, Sub, minInt64, maxInt64; lia. Qed.

Lemma Sub_lt_iff t u d : minInt64 < d <= maxInt64 -> Sub t u < d <-> t - u < d.
Proof. unfold Sub; lia. Qed.

Lemma Sub_le t u : minInt64 <= t - u -> Sub t u <= t - u.
Proof. unfold Sub; lia. Qed.

Lemma After_spec t u : After t u = true <-> u < t.
Proof. apply Z.ltb_lt. Qed.

Lemma After_false t u : After t u = false <-> t <= u.
Proof. apply Z.ltb_ge. Qed.

Lemma Before_spec t u : Before t u = true <-> t < u.
Proof. apply Z.ltb_lt. Qed.

Lemma Before_false t u : Before t u = false <-> u <= t.
Proof. apply Z.ltb_ge. Qed.

(** The constants as numerals, for [lia]. *)
Ltac time_consts :=
  unfold Hour, Minute, Second, Millisecond, Nanosecond, zeroTime, Time, Duration in *.
