(* ===== verification/GoRegexp.v ===== *)
(** * Package [regexp]: leftmost-first matching with submatches

    The fragment of the syntax the connector's pattern is written in: literals,
    [p+] for a byte class [p], sequence, [r?] and capturing groups. [all_matches]
    lists every way a pattern can consume a prefix of the input, in the order a
    backtracking search tries them (greedy operators prefer more), together with
    the submatches; [FindSubmatch] takes the first of them at the leftmost
    position that has one, which is what the package documents.

    The package decodes UTF-8 and matches code points. The classes and literals
    of the pattern only mention ASCII characters, no byte of a multi-byte
    sequence (valid or not) is ASCII, and every group is delimited by an ASCII
    literal or by the end of a greedy run, so matching bytes finds the same
    submatches. *)
From S2P Require Import Prelude.
#[local] Open Scope nat_scope.

Inductive regexp :=
| RLit (w : bytes)
| RPlus (p : byte -> bool)
| RCat (r1 r2 : regexp)
| ROpt (r : regexp)
| RGroup (n : nat) (r : regexp).

Definition submatches := gmap nat bytes.

(** [strip w s] removes the prefix [w] of [s]. *)
Fixpoint strip (w s : bytes) : option bytes :=
  match w, s with
  | [], _ => Some s
  | x :: w', y :: s' => if decide (x = y) then strip w' s' else None
  | _ :: _, [] => None
  end.

(** The rests after a non-empty run of [p], longest run first. *)
Fixpoint plus_rests (p : byte -> bool) (s : bytes) : list bytes :=
  match s with
  | x :: s' => if p x then plus_rests p s' ++ [s'] else []
  | [] => []
  end.

(** What was consumed between the input [s] and the rest [s']. *)
Definition consumed (s s' : bytes) : bytes := take (length s - length s') s.

Fixpoint all_matches (r : regexp) (s : bytes) (c : gmap nat bytes)
    : list (bytes * gmap nat bytes) :=
  match r with
  | RLit w => match strip w s with Some s' => [(s', c)] | None => [] end
  | RPlus p => (fun s' => (s', c)) <$> plus_rests p s
  | RCat r1 r2 => all_matches r1 s c ≫= fun m => all_matches r2 m.1 m.2
  | ROpt r => all_matches r s c ++ [(s, c)]
  | RGroup n r => (fun m => (m.1, <[n := consumed s m.1]> m.2)) <$> all_matches r s c
  end.

(** Group 0 is the whole match; the search is not anchored. *)
Definition match_here (r : regexp) (s : bytes) : option (gmap nat bytes) :=
  snd <$> head (all_matches (RGroup 0 r) s ∅).

Fixpoint FindSubmatch (r : regexp) (s : bytes) : option (gmap nat bytes) :=
  match match_here r s with
  | Some c => Some c
  | None => match s with [] => None | _ :: s' => FindSubmatch r s' end
  end.

(** ** The building blocks *)

Lemma strip_Some w s s' : strip w s = Some s' <-> s = w ++ s'.
Proof.
  revert s; induction w as [|x w IH]; intros [|y s]; simpl.
  1,2: split; congruence.
  - split; discriminate.
  - case_decide; subst; [rewrite IH|]; split; congruence.
Qed.

Lemma elem_of_plus_rests p s s' :
  s' ∈ plus_rests p s <-> exists run, s = run ++ s' /\ run <> [] /\ Forall (fun x => p x = true) run.
Proof.
  revert s'; induction s as [|x s IH]; intros s'; simpl.
  - split; [by rewrite elem_of_nil|]. intros ([|] & ? & ? & _); done.
  - destruct (p x) eqn:Hp.
    + rewrite elem_of_app, IH, list_elem_of_singleton. split.
      * intros [(run & -> & _ & Hrun)| ->]; [exists (x :: run)|exists [x]];
          repeat split; auto.
      * intros ([|y run] & Heq & Hne & Hrun); [done|]; simplify_eq/=.
        apply list.Forall_cons_1 in Hrun as [_ Hrun].
        destruct run as [|z run]; [by right|left]. by exists (z :: run).
    + split; [by rewrite elem_of_nil|].
      intros ([|y run] & Heq & Hne & Hrun); [done|]; simplify_eq/=.
      apply list.Forall_cons_1 in Hrun as [? _]; congruence.
Qed.

Lemma consumed_app m s : consumed (m ++ s) s = m.
Proof.
  unfold consumed. rewrite length_app.
  replace (length m + length s - length s) with (length m) by lia.
  apply take_app_length.
Qed.

(** Every match leaves a suffix of the input. *)
Lemma all_matches_suffix r s c m :
  m ∈ all_matches r s c -> exists pre, s = pre ++ m.1.
Proof.
  revert s c m; induction r as [w|p|r1 IH1 r2 IH2|r IH|n r IH]; intros s c m; simpl.
  - destruct (strip w s) as [s'|] eqn:E; [|by rewrite elem_of_nil].
    rewrite list_elem_of_singleton; intros ->. apply strip_Some in E; eauto.
  - rewrite list_elem_of_fmap. intros (s' & -> & (run & -> & _)%elem_of_plus_rests); eauto.
  - rewrite list_elem_of_bind. intros (m1 & H2 & H1).
    apply IH1 in H1 as [pre1 ->]. apply IH2 in H2 as [pre2 E].
    exists (pre1 ++ pre2). by rewrite E, <- app_assoc.
  - rewrite elem_of_app, list_elem_of_singleton. intros [H| ->]; [by eapply IH|by exists []].
  - rewrite list_elem_of_fmap. intros (m' & -> & H). by eapply IH in H.
Qed.

(** ** The leftmost match *)

Lemma match_here_Some r s c :
  match_here r s = Some c <->
  exists s' c', head (all_matches r s ∅) = Some (s', c') /\ c = <[0 := consumed s s']> c'.
Proof.
  unfold match_here; simpl. destruct (all_matches r s ∅) as [|[s' c'] l]; simpl; split.
  - done.
  - by intros (? & ? & ? & _).
  - intros [= <-]; eauto.
  - intros (? & ? & [= <- <-] & ->); eauto.
Qed.

Lemma match_here_None r s : match_here r s = None <-> all_matches r s ∅ = [].
Proof. unfold match_here; simpl. by destruct (all_matches r s ∅). Qed.

Lemma FindSubmatch_unfold r s :
  FindSubmatch r s =
    match match_here r s with
    | Some c => Some c
    | None => match s with [] => None | _ :: s' => FindSubmatch r s' end
    end.
Proof. by destruct s. Qed.

Lemma FindSubmatch_here r s c : match_here r s = Some c -> FindSubmatch r s = Some c.
Proof. intros H. by rewrite FindSubmatch_unfold, H. Qed.

Lemma FindSubmatch_Some r s c :
  FindSubmatch r s = Some c <->
  exists pre s', s = pre ++ s' /\ match_here r s' = Some c /\
    forall pre1 s1, s = pre1 ++ s1 -> length pre1 < length pre -> match_here r s1 = None.
Proof.
  induction s as [|x s IH]; rewrite FindSubmatch_unfold.
  - split.
    + destruct (match_here r []) eqn:E; [intros [= <-]|done].
      exists [], []; repeat split; auto; simpl; lia.
    + intros ([|] & s' & Heq & Hm & _); simplify_eq/=; by rewrite Hm.
  - destruct (match_here r (x :: s)) as [c0|] eqn:E.
    + split; [intros [= <-]; exists [], (x :: s); repeat split; auto; simpl; lia|].
      intros ([|y pre] & s' & Heq & Hm & Hmin); simplify_eq/=; [congruence|].
      specialize (Hmin [] (y :: pre ++ s') eq_refl ltac:(simpl; lia)); congruence.
    + rewrite IH. split.
      * intros (pre & s' & -> & Hm & Hmin). exists (x :: pre), s'; repeat split; auto.
        intros [|y pre1] s1 Heq Hlen; simplify_eq/=; [done|]. eapply Hmin; eauto; lia.
      * intros ([|y pre] & s' & Heq & Hm & Hmin); simplify_eq/=.
        exists pre, s'; repeat split; auto. intros pre1 s1 Heq Hlen.
        apply (Hmin (y :: pre1)); simpl; [by rewrite Heq|lia].
Qed.

Lemma FindSubmatch_None r s :
  FindSubmatch r s = None <-> forall pre s', s = pre ++ s' -> all_matches r s' ∅ = [].
Proof.
  induction s as [|x s IH]; rewrite FindSubmatch_unfold.
  - setoid_rewrite <- match_here_None. destruct (match_here r []) eqn:E.
    + split; [done|]. intros H. by rewrite (H [] []) in E.
    + split; [|done]. by intros _ [|] [|] ?.
  - setoid_rewrite <- match_here_None in IH. setoid_rewrite <- match_here_None.
    destruct (match_here r (x :: s)) eqn:E.
    + split; [done|]. intros H. by rewrite (H [] (x :: s)) in E.
    + rewrite IH. split.
      * intros H [|y pre] s' Heq; simplify_eq/=; eauto.
      * intros H pre s' ->. by apply (H (x :: pre)).
Qed.

(** ** Cutting the input at the end of a match

    Dropping a tail [z] from the input keeps, in the same order, the matches
    that do not reach into it. *)
Definition cut (z : bytes) (m : bytes * gmap nat bytes) : option (bytes * gmap nat bytes) :=
  if decide (z `suffix_of` m.1) then Some (take (length m.1 - length z) m.1, m.2) else None.

Lemma cut_app z s c : cut z (s ++ z, c) = Some (s, c).
Proof.
  unfold cut; simpl. rewrite decide_True by (by exists s).
  rewrite length_app. replace (length s + length z - length z) with (length s) by lia.
  by rewrite take_app_length.
Qed.

Lemma cut_short z m : length m.1 < length z -> cut z m = None.
Proof.
  intros H. unfold cut. rewrite decide_False; [done|].
  intros Hs%suffix_length. lia.
Qed.

Lemma cut_Some z m m' : cut z m = Some m' -> m = (m'.1 ++ z, m'.2).
Proof.
  unfold cut. case_decide as Hs; [|done]. destruct Hs as [k E], m as [s c]; simplify_eq/=.
  intros [= <-]; simpl. f_equal. rewrite length_app.
  replace (length k + length z - length z) with (length k) by lia.
  by rewrite take_app_length.
Qed.

Lemma strip_cut w s z : length w <= length s -> strip w (s ++ z) = (fun t => t ++ z) <$> strip w s.
Proof.
  revert s; induction w as [|x w IH]; intros [|y s]; simpl; intros H; try done; [lia|].
  case_decide; [apply IH; lia|done].
Qed.

Lemma plus_rests_app p s z :
  exists l, plus_rests p (s ++ z) = l ++ ((fun t => t ++ z) <$> plus_rests p s) /\
    Forall (fun t => length t < length z) l.
Proof.
  induction s as [|x s (l & IH & Hl)]; simpl.
  - exists (plus_rests p z). rewrite app_nil_r. split; [done|].
    apply list.Forall_forall. intros t (run & -> & Hne & _)%elem_of_plus_rests.
    rewrite length_app. destruct run; simpl; [done|lia].
  - destruct (p x); [|by exists []]. exists l. rewrite IH, fmap_app, <- app_assoc. done.
Qed.

Lemma consumed_cut s t z : consumed (s ++ z) (t ++ z) = consumed s t.
Proof.
  unfold consumed. rewrite !length_app.
  replace (length s + length z - (length t + length z)) with (length s - length t) by lia.
  by rewrite take_app_le by lia.
Qed.

Lemma omap_step {A B} (f : A -> option B) x l :
  omap f (x :: l) = match f x with Some y => y :: omap f l | None => omap f l end.
Proof. done. Qed.

Lemma omap_bind_cut {A B C} (f : A -> list B) (g : B -> option C) (l : list A) :
  omap g (l ≫= f) = l ≫= fun x => omap g (f x).
Proof. induction l; [done|]. by rewrite !bind_cons, omap_app, IHl. Qed.

Lemma bind_omap {A B C} (g : A -> option B) (f : B -> list C) (h : A -> list C) l :
  (forall x, x ∈ l -> h x = match g x with Some y => f y | None => [] end) ->
  (l ≫= h) = omap g l ≫= f.
Proof.
  induction l as [|x l IH]; intros H; [done|].
  rewrite bind_cons, (H x) by (by left).
  rewrite IH by (intros; apply H; by right).
  simpl. destruct (g x); simpl; by rewrite ?bind_cons.
Qed.

Lemma all_matches_short r s c z :
  length s < length z -> omap (cut z) (all_matches r s c) = [].
Proof.
  intros H. destruct (omap (cut z) (all_matches r s c)) as [|m' l] eqn:E; [done|].
  assert (m' ∈ omap (cut z) (all_matches r s c)) as Hm by (rewrite E; by left).
  apply list_elem_of_omap in Hm as (m & Hm & Hc).
  apply all_matches_suffix in Hm as [pre ->]. apply cut_Some in Hc as ->; simpl in *.
  rewrite !length_app in H. lia.
Qed.

Lemma all_matches_cut r s c z :
  omap (cut z) (all_matches r (s ++ z) c) = all_matches r s c.
Proof.
  revert s c; induction r as [w|p|r1 IH1 r2 IH2|r IH|n r IH]; intros s c; simpl.
  - destruct (decide (length w <= length s)) as [Hle|Hgt].
    + rewrite strip_cut by done. destruct (strip w s); simpl; [by rewrite cut_app|done].
    + destruct (strip w s) as [s'|] eqn:E.
      { apply strip_Some in E as ->. rewrite length_app in Hgt; lia. }
      destruct (strip w (s ++ z)) as [s'|] eqn:E'; simpl; [|done].
      rewrite cut_short; [done|]. simpl. apply strip_Some, (f_equal length) in E'.
      rewrite !length_app in E'. lia.
  - destruct (plus_rests_app p s z) as (l & -> & Hl).
    rewrite fmap_app, omap_app.
    assert (omap (cut z) ((fun s' => (s', c)) <$> l) = []) as ->.
    { induction Hl; [done|]. by rewrite fmap_cons, omap_step, cut_short. }
    rewrite app_nil_l. induction (plus_rests p s) as [|t ts IHt]; [done|].
    rewrite !fmap_cons, omap_step, cut_app. f_equal. exact IHt.
  - rewrite omap_bind_cut, <- (IH1 s c). apply bind_omap. intros m Hm.
    destruct (cut z m) as [m'|] eqn:Hc.
    + apply cut_Some in Hc as ->; simpl. apply IH2.
    + apply all_matches_suffix in Hm as [pre Hpre].
      destruct (decide (length m.1 < length z)); [by apply all_matches_short|].
      exfalso. unfold cut in Hc. case_decide as Hs; [done|]. apply Hs.
      assert (z `suffix_of` pre ++ m.1) as Hz by (rewrite <- Hpre; by exists s).
      destruct Hz as [k Hk]. apply app_eq_inv in Hk as [(k' & _ & Hk)|(k' & _ & Hk)].
      * rewrite Hk, length_app in n. destruct k'; simpl in *; [|lia]. by exists [].
      * by exists k'.
  - rewrite omap_app, IH; simpl. by rewrite cut_app.
  - rewrite <- (IH s c). induction (all_matches r (s ++ z) c) as [|m l IHl]; [done|].
    rewrite fmap_cons, !omap_step, IHl. destruct (cut z m) as [m'|] eqn:Hc.
    + apply cut_Some in Hc as ->; simpl.
      by rewrite cut_app, consumed_cut.
    + unfold cut in *; simpl in *. by case_decide.
Qed.

(** A pattern that matches at the start of [m ++ z] with rest [z] matches [m]
    in the same way. *)
Lemma match_here_cut r m z c' :
  head (all_matches r (m ++ z) ∅) = Some (z, c') ->
  match_here r m = Some (<[0 := m]> c').
Proof.
  intros H. rewrite match_here_Some. exists [], c'. split.
  - rewrite <- (all_matches_cut r m ∅ z).
    destruct (all_matches r (m ++ z) ∅) as [|m0 l]; [done|].
    injection H as ->. rewrite omap_step. by rewrite (cut_app z [] c' : cut z (z, c') = _).
  - f_equal. pose proof (consumed_app m []) as E. by rewrite app_nil_r in E.
Qed.
