(* ===== verification/ErrType.v ===== *)
(** * Errors: package [errtype] ([src/errtype/errors.go]) and Go error values

    [error] has a constructor for each concrete error type the connector builds
    or inspects. [Error] renders an error as its method of that name does,
    [chain] is the list an error and its successive [Unwrap]s form, [errorsAs]
    is [errors.As] at the type [*googleapi.Error]. *)
From S2P Require Import Prelude.
#[local] Open Scope string_scope.
#[local] Open Scope list_scope.
#[local] Open Scope Z_scope.

(** ** [strconv.Quote], the verb [%q] *)
Section Quote.
(** [strconv.IsPrint] on code points outside ASCII: a table of the Unicode
    standard. *)
Variable isPrint : Z -> bool.

Definition byteval (b : byte) : Z := Z.of_N (N_of_ascii b).
Definition byteof (z : Z) : byte := ascii_of_N (Z.to_N z).

Definition hexDigit (n : Z) : byte :=
  byteof (if n <? 10 then 48 + n else 87 + n).

(** The lower [n] hexadecimal digits of [r]. *)
Fixpoint hexDigits (n : nat) (r : Z) : bytes :=
  match n with
  | O => []
  | S n' => hexDigits n' (r / 16) ++ [hexDigit (r mod 16)]
  end.

Definition inRange (lo hi : Z) (b : byte) : bool :=
  ((lo <=? byteval b) && (byteval b <=? hi))%bool.

(** [utf8.DecodeRuneInString]: code point and width of the first rune, [None]
    for an encoding error (rune [U+FFFD] of width 1). *)
Definition decodeRune (s : bytes) : option (Z * nat) :=
  match s with
  | [] => None
  | b0 :: t =>
    let v0 := byteval b0 in
    if v0 <? 128 then Some (v0, 1%nat) else
    match t with
    | b1 :: t1 =>
      let c b := byteval b - 128 in
      if inRange 194 223 b0 then
        if inRange 128 191 b1 then Some ((v0 - 192) * 64 + c b1, 2%nat) else None
      else if inRange 224 239 b0 then
        let lo := if v0 =? 224 then 160 else 128 in
        let hi := if v0 =? 237 then 159 else 191 in
        match t1 with
        | b2 :: _ =>
          if (inRange lo hi b1 && inRange 128 191 b2)%bool
          then Some ((v0 - 224) * 4096 + c b1 * 64 + c b2, 3%nat) else None
        | [] => None
        end
      else if inRange 240 244 b0 then
        let lo := if v0 =? 240 then 144 else 128 in
        let hi := if v0 =? 244 then 143 else 191 in
        match t1 with
        | b2 :: b3 :: _ =>
          if (inRange lo hi b1 && inRange 128 191 b2 && inRange 128 191 b3)%bool
          then Some ((v0 - 240) * 262144 + c b1 * 4096 + c b2 * 64 + c b3, 4%nat) else None
        | _ => None
        end
      else None
    | [] => None
    end
  end.

(** What one rune [r], encoded by the bytes [enc], becomes inside quotes. *)
Definition escapeRune (r : Z) (enc : bytes) : bytes :=
  if ((r =? 34) || (r =? 92))%bool then [byteof 92; byteof r]
  else if (if r <? 128 then (32 <=? r) && (r <? 127) else isPrint r)%bool then enc
  else if r =? 7 then to_bytes "\a"
  else if r =? 8 then to_bytes "\b"
  else if r =? 12 then to_bytes "\f"
  else if r =? 10 then to_bytes "\n"
  else if r =? 13 then to_bytes "\r"
  else if r =? 9 then to_bytes "\t"
  else if r =? 11 then to_bytes "\v"
  else if ((r <? 32) || (r =? 127))%bool then to_bytes "\x" ++ hexDigits 2 r
  else if r <? 65536 then to_bytes "\u" ++ hexDigits 4 r
  else to_bytes "\U" ++ hexDigits 8 r.

(** [skip] counts the bytes of the current rune still to be passed over. *)
Fixpoint quoteBody (skip : nat) (s : bytes) : bytes :=
  match s with
  | [] => []
  | b :: t =>
    match skip with
    | S k => quoteBody k t
    | O =>
      match decodeRune s with
      | Some (r, w) => escapeRune r (take w s) ++ quoteBody (pred w) t
      | None => to_bytes "\x" ++ hexDigits 2 (byteval b) ++ quoteBody 0 t
      end
    end
  end.

Definition quote (s : string) : string :=
  of_bytes (byteof 34 :: quoteBody 0 (to_bytes s) ++ [byteof 34]).
End Quote.

(** ** Error values *)

(** [errtype.genericError] *)
Record genericError := { Message : string; ConnName : string }.

(** [googleapi.Error], what the connector reads of it; [Rendered] is what its own
    [Error] method returns. *)
Record googleapiError := {
  Code : Z; ErrMessage : string; Reasons : list string; Rendered : string }.

#[warnings="-register-all"]
Inductive error :=
| ErrorsNew (text : string)                     (* errors.New, fmt.Errorf without %w, foreign errors *)
| ErrDialerClosed                               (* the package variable of that name *)
| ErrInvalidPEM                                 (* errInvalidPEM *)
| ContextCanceled                               (* context.Canceled *)
| ContextDeadlineExceeded                       (* context.DeadlineExceeded *)
| WrapError (pre : string) (err : error)        (* fmt.Errorf("<pre>%w", err) *)
| ConfigError (g : genericError)
| RefreshError (g : genericError) (Err : option error)
| DialError (g : genericError) (Err : option error)
| APIError (e : googleapiError).

Definition NewConfigError (msg cn : string) : error :=
  ConfigError {| Message := "Config error: " +:+ msg; ConnName := cn |}.

Definition NewRefreshError (msg cn : string) (err : option error) : error :=
  RefreshError {| Message := msg; ConnName := cn |} err.

Definition NewDialError (msg cn : string) (err : option error) : error :=
  DialError {| Message := msg; ConnName := cn |} err.

(** Rendering. *)
Section Rendering.
Variable isPrint : Z -> bool.

Definition genericError_Error (e : genericError) : string :=
  Message e +:+ " (instance URI = " +:+ quote isPrint (ConnName e) +:+ ")".

Fixpoint Error (e : error) : string :=
  match e with
  | ErrorsNew text => text
  | ErrDialerClosed => "alloydbconn: dialer is closed"
  | ErrInvalidPEM => "certificate is not a valid PEM"
  | ContextCanceled => "context canceled"
  | ContextDeadlineExceeded => "context deadline exceeded"
  | WrapError pre err => pre +:+ Error err
  | ConfigError g => genericError_Error g
  | RefreshError g None => "Refresh error: " +:+ genericError_Error g
  | RefreshError g (Some err) =>
      "Refresh error: " +:+ genericError_Error g +:+ ": " +:+ Error err
  | DialError g None => "Dial error: " +:+ genericError_Error g
  | DialError g (Some err) =>
      "Dial error: " +:+ genericError_Error g +:+ ": " +:+ Error err
  | APIError e => Rendered e
  end.
End Rendering.

Definition RefreshError_Unwrap (e : error) : option error :=
  match e with RefreshError _ err => err | _ => None end.

Definition DialError_Unwrap (e : error) : option error :=
  match e with DialError _ err => err | _ => None end.

(** [errors.Unwrap]: dispatch on the concrete type. A [ConfigError] has no
    [Unwrap] method. *)
Definition Unwrap (e : error) : option error :=
  match e with
  | WrapError _ err => Some err
  | RefreshError _ _ => RefreshError_Unwrap e
  | DialError _ _ => DialError_Unwrap e
  | _ => None
  end.

Fixpoint chain (e : error) : list error :=
  e :: match e with
       | WrapError _ err => chain err
       | RefreshError _ (Some err) | DialError _ (Some err) => chain err
       | _ => []
       end.

(** [errors.As] at [*googleapi.Error]: the first of the chain of that type. *)
Definition isAPIError (e : error) : option googleapiError :=
  match e with APIError a => Some a | _ => None end.

Definition errorsAs (e : error) : option googleapiError :=
  head (omap isAPIError (chain e)).

Lemma chain_unfold e : chain e = e :: from_option chain [] (Unwrap e).
Proof. by destruct e as [| | | | | | |? []|? []|]. Qed.

Lemma errorsAs_unfold e :
  errorsAs e = match isAPIError e with Some a => Some a | None => Unwrap e ≫= errorsAs end.
Proof.
  unfold errorsAs. rewrite chain_unfold. simpl.
  destruct (isAPIError e); simpl; [done|]. by destruct (Unwrap e).
Qed.

(** ** Results of Go functions

    A call of a function that returns [(T, error)] returns a value, returns an
    error, or panics. *)
Inductive res (A : Type) :=
| Ret (a : A)
| Fail (e : error)
| Panic (why : string).
Arguments Ret {_} _.
Arguments Fail {_} _.
Arguments Panic {_} _.

#[export] Instance res_bind : MBind res := fun A B f m =>
  match m with Ret a => f a | Fail e => Fail e | Panic w => Panic w end.
#[export] Instance res_ret : MRet res := @Ret.
#[export] Instance res_fmap : FMap res := fun A B f m =>
  match m with Ret a => Ret (f a) | Fail e => Fail e | Panic w => Panic w end.

(** [if err != nil { return f(err) }] *)
Definition wrapErr {A} (f : error -> error) (m : res A) : res A :=
  match m with Fail e => Fail (f e) | _ => m end.

(** The [err] a deferred closure sees. *)
Definition errOf {A} (m : res A) : option error :=
  match m with Fail e => Some e | _ => None end.

Definition isRet {A} (m : res A) : bool := match m with Ret _ => true | _ => false end.
Definition isPanic {A} (m : res A) : bool := match m with Panic _ => true | _ => false end.

Lemma bind_Ret {A B} (m : res A) (f : A -> res B) b :
  m ≫= f = Ret b <-> exists a, m = Ret a /\ f a = Ret b.
Proof.
  destruct m; simpl; split; try done; try (by intros (? & ? & ?)); [eauto|].
  by intros (? & [= <-] & ?).
Qed.

Lemma wrapErr_Ret {A} f (m : res A) a : wrapErr f m = Ret a <-> m = Ret a.
Proof. by destruct m. Qed.

Lemma isPanic_bind {A B} (m : res A) (f : A -> res B) :
  isPanic m = false -> (forall a, m = Ret a -> isPanic (f a) = false) -> isPanic (m ≫= f) = false.
Proof. destruct m; simpl; auto. Qed.

Lemma isPanic_wrapErr {A} f (m : res A) : isPanic (wrapErr f m) = isPanic m.
Proof. by destruct m. Qed.

#[export] Hint Rewrite @wrapErr_Ret @isPanic_wrapErr : conn.

(** ** What a rendered name cannot contain *)

(** An ASCII control character. *)
Definition isControl (b : byte) : bool := (byteval b <? 32) || (byteval b =? 127).

Lemma byteval_byteof z : 0 <= z < 256 -> byteval (byteof z) = z.
Proof.
  intros H. unfold byteval, byteof. rewrite N_ascii_embedding by lia. lia.
Qed.

Lemma byteof_byteval b : byteof (byteval b) = b.
Proof. unfold byteof, byteval. by rewrite N2Z.id, ascii_N_embedding. Qed.

Lemma byteval_range b : 0 <= byteval b < 256.
Proof. unfold byteval. pose proof (N_ascii_bounded b). lia. Qed.

Lemma hexDigits_printable n r : 0 <= r -> Forall (fun b => isControl b = false) (hexDigits n r).
Proof.
  revert r; induction n as [|n IH]; intros r Hr; simpl; [constructor|].
  apply list.Forall_app; split; [apply IH; by apply Z.div_pos|].
  constructor; [|constructor]. unfold hexDigit, isControl.
  pose proof (Z.mod_pos_bound r 16 ltac:(lia)).
  destruct (Z.ltb_spec (r mod 16) 10); rewrite byteval_byteof by lia;
    apply orb_false_iff; split; [apply Z.ltb_ge|apply Z.eqb_neq|apply Z.ltb_ge|apply Z.eqb_neq]; lia.
Qed.

Lemma hexDigits_length n r : length (hexDigits n r) = n.
Proof.
  revert r; induction n as [|n IH]; intros r; simpl; [done|].
  rewrite length_app, IH. simpl. lia.
Qed.

(** A decoded rune is one ASCII byte or has no ASCII byte in its encoding. *)
Lemma decodeRune_bytes b t r w :
  decodeRune (b :: t) = Some (r, w) ->
  (r = byteval b /\ w = 1%nat /\ byteval b < 128) \/
  (0 <= r /\ Forall (fun x => 128 <= byteval x) (take w (b :: t))).
Proof.
  unfold decodeRune. pose proof (byteval_range b).
  destruct (Z.ltb_spec (byteval b) 128); [intros [= <- <-]; by left|]. intros Hd; right.
  unfold inRange in Hd. repeat case_hyp Hd; simplify_eq; zbool; split;
    try (simpl; repeat constructor; try lia);
    repeat match goal with H : (if ?c then _ else _) <= _ |- _ => destruct c end; lia.
Qed.

Lemma escapeRune_printable isPrint r enc :
  0 <= r -> (r < 128 -> enc = [byteof r] \/ Forall (fun x => 128 <= byteval x) enc) ->
  (128 <= r -> Forall (fun x => 128 <= byteval x) enc) ->
  Forall (fun b => isControl b = false) (escapeRune isPrint r enc).
Proof.
  intros Hr Hlo Hhi.
  assert (forall l, Forall (fun x => 128 <= byteval x) l -> Forall (fun b => isControl b = false) l)
    as Hbig.
  { intros l Hl. eapply list.Forall_impl; [exact Hl|]. cbv beta; intros b Hb.
    apply orb_false_iff; split; [apply Z.ltb_ge|apply Z.eqb_neq]; lia. }
  unfold escapeRune.
  destruct (_ || _)%bool eqn:E1.
  { repeat constructor; apply orb_true_iff in E1 as [E1%Z.eqb_eq|E1%Z.eqb_eq]; by subst. }
  destruct (if r <? 128 then _ else _) eqn:E2.
  { destruct (Z.ltb_spec r 128); [|by apply Hbig, Hhi].
    destruct (Hlo ltac:(lia)) as [->|]; [|by apply Hbig]. zbool.
    repeat constructor. unfold isControl. rewrite byteval_byteof by lia.
    apply orb_false_iff; split; [apply Z.ltb_ge|apply Z.eqb_neq]; lia. }
  repeat match goal with |- Forall _ (if ?c then _ else _) => destruct c end;
    cbn [list_ascii_of_string app]; repeat (constructor; [done|]);
    by apply hexDigits_printable || constructor.
Qed.

Lemma quoteBody_printable isPrint skip s :
  Forall (fun b => isControl b = false) (quoteBody isPrint skip s).
Proof.
  revert skip; induction s as [|b s IH]; intros [|k]; cbn -[decodeRune hexDigits take];
    try constructor; [|apply IH].
  destruct (decodeRune (b :: s)) as [[r w]|] eqn:E.
  - apply list.Forall_app; split; [|apply IH].
    pose proof (byteval_range b) as Hb.
    apply decodeRune_bytes in E as [(-> & -> & Hlt)|(Hr & Hall)].
    + apply escapeRune_printable; [lia| |lia]. intros _; left; simpl.
      by rewrite byteof_byteval.
    + apply escapeRune_printable; auto.
  - repeat (constructor; [done|]). apply list.Forall_app; split; [|apply IH].
    apply hexDigits_printable. apply byteval_range.
Qed.

(** Text without control characters. *)
Definition printable (s : string) : Prop := Forall (fun b => isControl b = false) (to_bytes s).

Lemma printable_app a b : printable (a +:+ b) <-> printable a /\ printable b.
Proof. unfold printable. rewrite to_bytes_app. apply list.Forall_app. Qed.

Lemma quote_printable isPrint s : printable (quote isPrint s).
Proof.
  unfold printable, quote. rewrite to_of_bytes.
  constructor; [done|]. apply list.Forall_app; split; [apply quoteBody_printable|].
  by repeat constructor.
Qed.

(** Closes [printable] of literals and of parts known to be printable. *)
Ltac printable_parts :=
  rewrite ?printable_app; split_and?; auto; try (by apply quote_printable);
  try (by repeat constructor).

Lemma genericError_printable isPrint g :
  printable (Message g) -> printable (genericError_Error isPrint g).
Proof. intros H. unfold genericError_Error. printable_parts. Qed.

(** ** Properties *)

(** The message a connector error shows never carries a control character of the
    connection name it was built with (no forged log lines), as long as the fixed
    parts of the text and the errors it wraps have none: an invariant of the whole
    chain. *)
Fixpoint clean (e : error) : Prop :=
  match e with
  | ErrorsNew text => printable text
  | WrapError pre err => printable pre /\ clean err
  | ConfigError g => printable (Message g)
  | RefreshError g err | DialError g err =>
      printable (Message g) /\ match err with Some e' => clean e' | None => True end
  | APIError e => printable (Rendered e)
  | _ => True
  end.

Lemma clean_Error_printable isPrint e : clean e -> printable (Error isPrint e).
Proof.
  revert e. fix IH 1.
  intros [t| | | | |pre err|g|g [err|]|g [err|]|a]; simpl; try done; try (by repeat constructor);
    try (intros [? ?]); try (by apply genericError_printable);
    try (intros H); printable_parts; by apply genericError_printable.
Qed.
