(* ===== verification/GoJSON.v ===== *)
(** * Package [encoding/json]: reading JSON

    The scanner of the package as it is, a state machine fed one byte at a time, which
    here also builds the value it recognises; and the unquoting of string literals. A
    literal is kept as the text it was written with, as the package keeps it until a
    value is stored; the text of a value that is unmarshalled later (a
    [json.RawMessage]) is represented by the value: [scan_text] says that scanning the
    text again yields the value again. *)
From S2P Require Import Prelude ErrType.
#[local] Open Scope string_scope.
#[local] Open Scope list_scope.
#[local] Open Scope Z_scope.

(** ** Values *)

(** Literals are the texts of strings (quotes included), numbers, [true], [false] and
    [null]; the keys of an object are string literals, in the order of the text. *)
#[warnings="-register-all"]
Inductive json :=
| JLit (lit : bytes)
| JArr (l : list json)
| JObj (m : list (bytes * json)).

(** Induction that reaches the values inside arrays and objects. *)
Lemma json_nested_ind (P : json -> Prop) :
  (forall lit, P (JLit lit)) -> (forall l, Forall P l -> P (JArr l)) ->
  (forall m, Forall (fun kv => P kv.2) m -> P (JObj m)) -> forall j, P j.
Proof.
  intros Hl Ha Ho. fix IH 1. intros [lit|l|m]; [apply Hl|apply Ha|apply Ho].
  - induction l as [|j l IHl]; constructor; [apply IH|exact IHl].
  - induction m as [|[k j] m IHm]; constructor; [apply IH|exact IHm].
Qed.

(** ** Bytes *)

Definition isSpace (c : byte) : bool :=
  bool_decide (c ∈ [" "; "009"; "013"; "010"]%char).
Definition isDigit (c : byte) : bool := inRange 48 57 c.
Definition isHex (c : byte) : bool := inRange 48 57 c || inRange 97 102 c || inRange 65 70 c.

(** [strconv.IsPrint] on Latin-1. *)
Definition isPrintLatin1 (r : Z) : bool :=
  ((32 <=? r) && (r <? 127)) || ((161 <=? r) && (r <=? 255) && negb (r =? 173)).

(** [utf8.EncodeRune], for a code point that is one. *)
Definition encodeRune (r : Z) : bytes :=
  if r <? 128 then [byteof r]
  else if r <? 2048 then [byteof (192 + r / 64); byteof (128 + r mod 64)]
  else if r <? 65536 then
    [byteof (224 + r / 4096); byteof (128 + r / 64 mod 64); byteof (128 + r mod 64)]
  else [byteof (240 + r / 262144); byteof (128 + r / 4096 mod 64);
        byteof (128 + r / 64 mod 64); byteof (128 + r mod 64)].

(** [quoteChar]: the byte is the code point of its value. *)
Definition quoteChar (c : byte) : bytes :=
  if bool_decide (c = "'"%char) then to_bytes "'\''"
  else if bool_decide (byteval c = 34) then ["'"; c; "'"]%char
  else to_bytes "'" ++ escapeRune isPrintLatin1 (byteval c) (encodeRune (byteval c)) ++ to_bytes "'".

(** ** Literals *)

(** Where the scanner is inside a literal. [InWord w r] is inside the word [w] with [r]
    still to come, [InStringEscU n] inside [\uXXXX] with [n+1] digits to come. *)
Inductive lstate :=
| InString | InStringEsc | InStringEscU (n : nat)
| Neg | Num1 | Num0 | Dot | Dot0 | Exp | ExpSign | Exp0
| InWord (w : string) (r : bytes).

(** What a byte does to a literal: it goes on, it is the literal's last, it comes after
    the literal (only numbers end that way), it is an error. *)
Inductive lres := LNext (l : lstate) | LLast | LAfter | LErr (context : bytes).

Definition wordErr (w : string) (c : byte) : lres :=
  LErr (to_bytes ("in literal " +:+ w +:+ " (expecting '") ++ [c] ++ to_bytes "')").

Definition litStep (l : lstate) (c : byte) : lres :=
  match l with
  | InString =>
      if byteval c =? 34 then LLast
      else if byteval c =? 92 then LNext InStringEsc
      else if byteval c <? 32 then LErr (to_bytes "in string literal")
      else LNext InString
  | InStringEsc =>
      if bool_decide (c ∈ to_bytes "bfnrt\/") || (byteval c =? 34) then LNext InString
      else if bool_decide (c = "u"%char) then LNext (InStringEscU 3)
      else LErr (to_bytes "in string escape code")
  | InStringEscU n =>
      if isHex c then LNext (match n with S n => InStringEscU n | O => InString end)
      else LErr (to_bytes "in \u hexadecimal character escape")
  | Neg =>
      if byteval c =? 48 then LNext Num0
      else if isDigit c then LNext Num1
      else LErr (to_bytes "in numeric literal")
  | Num1 | Num0 =>
      if (match l with Num1 => isDigit c | _ => false end) then LNext Num1
      else if bool_decide (c = "."%char) then LNext Dot
      else if bool_decide (c ∈ to_bytes "eE") then LNext Exp
      else LAfter
  | Dot => if isDigit c then LNext Dot0 else LErr (to_bytes "after decimal point in numeric literal")
  | Dot0 =>
      if isDigit c then LNext Dot0
      else if bool_decide (c ∈ to_bytes "eE") then LNext Exp
      else LAfter
  | Exp =>
      if bool_decide (c ∈ to_bytes "+-") then LNext ExpSign
      else if isDigit c then LNext Exp0
      else LErr (to_bytes "in exponent of numeric literal")
  | ExpSign => if isDigit c then LNext Exp0 else LErr (to_bytes "in exponent of numeric literal")
  | Exp0 => if isDigit c then LNext Exp0 else LAfter
  | InWord w (x :: r) =>
      if bool_decide (c = x) then match r with [] => LLast | _ => LNext (InWord w r) end
      else wordErr w x
  | InWord w [] => LErr []
  end.

(** The state after the first byte of a literal. *)
Definition beginLit (c : byte) : option lstate :=
  if byteval c =? 34 then Some InString
  else if bool_decide (c = "-"%char) then Some Neg
  else if bool_decide (c = "0"%char) then Some Num0
  else if bool_decide (c = "t"%char) then Some (InWord "true" (to_bytes "rue"))
  else if bool_decide (c = "f"%char) then Some (InWord "false" (to_bytes "alse"))
  else if bool_decide (c = "n"%char) then Some (InWord "null" (to_bytes "ull"))
  else if isDigit c then Some Num1
  else None.

(** States in which a number may end. *)
Definition numEnd (l : lstate) : bool :=
  match l with Num1 | Num0 | Dot0 | Exp0 => true | _ => false end.

(** Running a literal: [None] when a byte is not part of it, [Some None] when it is
    complete. *)
Fixpoint litRun (st : option lstate) (s : bytes) : option (option lstate) :=
  match s with
  | [] => Some st
  | c :: s =>
    match st with
    | None => None
    | Some l => match litStep l c with
                | LNext l => litRun (Some l) s
                | LLast => litRun None s
                | _ => None
                end
    end
  end.

Definition litOK (s : bytes) : bool :=
  match s with
  | [] => false
  | c :: s => match beginLit c ≫= fun l => litRun (Some l) s with
              | Some None => true
              | Some (Some l) => numEnd l
              | None => false
              end
  end.

Definition isQuoted (s : bytes) : bool :=
  match s with c :: _ => byteval c =? 34 | [] => false end.

(** ** The scanner *)

Inductive sstate :=
| BeginValueOrEmpty | BeginValue | BeginStringOrEmpty | BeginString | EndValue | EndTop
| InLit (l : lstate).

(** The parse state ([parseObjectKey], [parseObjectValue], [parseArrayValue]) with what
    has been read of the object or array. *)
Inductive frame :=
| ObjKey (m : list (bytes * json))
| ObjVal (m : list (bytes * json)) (key : bytes)
| ArrVal (l : list json).

(** [cur] is the literal being read or the value just completed. *)
Record scanner := { sStep : sstate; parseState : list frame; cur : option json }.

Definition maxNestingDepth : Z := 10000.

Definition errAt (c : byte) (context : bytes) : error :=
  ErrorsNew (of_bytes (to_bytes "invalid character " ++ quoteChar c ++ to_bytes " " ++ context)).

Definition goTo (st : sstate) (s : scanner) : error + scanner :=
  inr {| sStep := st; parseState := parseState s; cur := cur s |}.

Definition pushParseState (c : byte) (f : frame) (st : sstate) (s : scanner) : error + scanner :=
  if Z.of_nat (length (f :: parseState s)) <=? maxNestingDepth
  then inr {| sStep := st; parseState := f :: parseState s; cur := None |}
  else inl (errAt c (to_bytes "exceeded max depth")).

(** [popParseState]: the array or object [j] is complete. *)
Definition popParseState (j : json) (rest : list frame) : error + scanner :=
  inr {| sStep := match rest with [] => EndTop | _ => EndValue end; parseState := rest; cur := Some j |}.

Definition stateBeginString (s : scanner) (c : byte) : error + scanner :=
  if isSpace c then inr s
  else if byteval c =? 34
       then inr {| sStep := InLit InString; parseState := parseState s; cur := Some (JLit [c]) |}
       else inl (errAt c (to_bytes "looking for beginning of object key string")).

Definition stateEndTop (s : scanner) (c : byte) : error + scanner :=
  if isSpace c then goTo EndTop s else inl (errAt c (to_bytes "after top-level value")).

Definition stateEndValue (s : scanner) (c : byte) : error + scanner :=
  match parseState s with
  | [] => stateEndTop s c
  | f :: fs =>
    if isSpace c then goTo EndValue s
    else match f with
    | ObjKey m =>
        match cur s with
        | Some (JLit k) =>
            if bool_decide (c = ":"%char)
            then inr {| sStep := BeginValue; parseState := ObjVal m k :: fs; cur := None |}
            else inl (errAt c (to_bytes "after object key"))
        | _ => inl (errAt c (to_bytes "after object key"))
        end
    | ObjVal m k =>
        let m := match cur s with Some j => m ++ [(k, j)] | None => m end in
        if bool_decide (c = ","%char)
        then inr {| sStep := BeginString; parseState := ObjKey m :: fs; cur := None |}
        else if bool_decide (c = "}"%char) then popParseState (JObj m) fs
        else inl (errAt c (to_bytes "after object key:value pair"))
    | ArrVal l =>
        let l := match cur s with Some j => l ++ [j] | None => l end in
        if bool_decide (c = ","%char)
        then inr {| sStep := BeginValue; parseState := ArrVal l :: fs; cur := None |}
        else if bool_decide (c = "]"%char) then popParseState (JArr l) fs
        else inl (errAt c (to_bytes "after array element"))
    end
  end.

Definition stateBeginValue (s : scanner) (c : byte) : error + scanner :=
  if isSpace c then inr s
  else if bool_decide (c = "{"%char) then pushParseState c (ObjKey []) BeginStringOrEmpty s
  else if bool_decide (c = "["%char) then pushParseState c (ArrVal []) BeginValueOrEmpty s
  else match beginLit c with
       | Some l => inr {| sStep := InLit l; parseState := parseState s; cur := Some (JLit [c]) |}
       | None => inl (errAt c (to_bytes "looking for beginning of value"))
       end.

(** [s.step(s, c)] *)
Definition step (s : scanner) (c : byte) : error + scanner :=
  match sStep s with
  | BeginValueOrEmpty =>
      if isSpace c then inr s
      else if bool_decide (c = "]"%char) then stateEndValue s c
      else stateBeginValue s c
  | BeginValue => stateBeginValue s c
  | BeginStringOrEmpty =>
      if isSpace c then inr s
      else if bool_decide (c = "}"%char) then
        match parseState s with
        | ObjKey m :: fs => popParseState (JObj m) fs
        | _ => inl (errAt c [])
        end
      else stateBeginString s c
  | BeginString => stateBeginString s c
  | EndValue => stateEndValue s c
  | EndTop => stateEndTop s c
  | InLit l =>
      let more st := inr {| sStep := st; parseState := parseState s;
                            cur := match cur s with Some (JLit t) => Some (JLit (t ++ [c])) | o => o end |} in
      match litStep l c with
      | LNext l => more (InLit l)
      | LLast => more EndValue
      | LAfter => stateEndValue s c
      | LErr context => inl (errAt c context)
      end
  end.

Definition reset : scanner := {| sStep := BeginValue; parseState := []; cur := None |}.

Fixpoint steps (s : scanner) (data : bytes) : error + scanner :=
  match data with
  | [] => inr s
  | c :: data => match step s c with inl e => inl e | inr s => steps s data end
  end.

Definition unexpectedEnd : error := ErrorsNew "unexpected end of JSON input".

(** [s.eof()]: one more space, which ends a number. *)
Definition eof (s : scanner) : error + json :=
  let s := match sStep s with EndTop => inr s | _ => step s " "%char end in
  match s with
  | inl e => inl e
  | inr s => match sStep s, cur s with EndTop, Some j => inr j | _, _ => inl unexpectedEnd end
  end.

(** [checkValid], and the value of the text. *)
Definition scan (data : bytes) : error + json :=
  match steps reset data with inl e => inl e | inr s => eof s end.

(** ** String literals: [unquoteBytes] *)

Definition hexVal (c : byte) : Z :=
  if inRange 48 57 c then byteval c - 48
  else if inRange 97 102 c then byteval c - 87
  else byteval c - 55.

(** [getu4]: the value of [\uXXXX] at the start of the text. *)
Definition getu4 (s : bytes) : option Z :=
  match s with
  | b :: u :: a0 :: a1 :: a2 :: a3 :: _ =>
      if (byteval b =? 92) && bool_decide (u = "u"%char) && isHex a0 && isHex a1 && isHex a2 && isHex a3
      then Some (hexVal a0 * 4096 + hexVal a1 * 256 + hexVal a2 * 16 + hexVal a3) else None
  | _ => None
  end.

Definition replacementChar : Z := 65533.
Definition isSurrogate (r : Z) : bool := (55296 <=? r) && (r <? 57344).

(** [utf16.DecodeRune], when the halves are a pair. *)
Definition decodePair (r1 r2 : Z) : option Z :=
  if (55296 <=? r1) && (r1 <? 56320) && (56320 <=? r2) && (r2 <? 57344)
  then Some ((r1 - 55296) * 1024 + (r2 - 56320) + 65536) else None.

(** A [\uXXXX] escape at the start of [s]: the bytes it stands for, and if it took a
    second one with it. *)
Definition unescapeU (s : bytes) : option (bytes * bool) :=
  match getu4 s with
  | None => None
  | Some r =>
    if isSurrogate r then
      match getu4 (drop 6 s) ≫= decodePair r with
      | Some r => Some (encodeRune r, true)
      | None => Some (encodeRune replacementChar, false)
      end
    else Some (encodeRune r, false)
  end.

(** The byte that a one-letter escape stands for. *)
Definition unescape (c : byte) : option byte :=
  if bool_decide (c ∈ to_bytes "\/'") || (byteval c =? 34) then Some c
  else if bool_decide (c = "b"%char) then Some "008"%char
  else if bool_decide (c = "f"%char) then Some "012"%char
  else if bool_decide (c = "n"%char) then Some "010"%char
  else if bool_decide (c = "r"%char) then Some "013"%char
  else if bool_decide (c = "t"%char) then Some "009"%char
  else None.

(** What the text between the quotes stands for; [skip] bytes have been dealt with. *)
Fixpoint unquoteBody (skip : nat) (s : bytes) : option bytes :=
  match s with
  | [] => Some []
  | c :: t =>
    match skip with
    | S k => unquoteBody k t
    | O =>
      if byteval c =? 92 then
        match t with
        | [] => None
        | u :: _ =>
          if bool_decide (u = "u"%char) then
            match unescapeU s with
            | Some (b, two) => app b <$> unquoteBody (if two then 11 else 5) t
            | None => None
            end
          else match unescape u with
               | Some b => cons b <$> unquoteBody 1 t
               | None => None
               end
        end
      else if (byteval c =? 34) || (byteval c <? 32) then None
      else match decodeRune s with
           | Some (_, w) => app (take w s) <$> unquoteBody (pred w) t
           | None => app (encodeRune replacementChar) <$> unquoteBody 0 t
           end
    end
  end.

Definition unquote (lit : bytes) : option bytes :=
  match lit with
  | c :: t =>
    match rev t with
    | d :: r => if (byteval c =? 34) && (byteval d =? 34) then unquoteBody 0 (rev r) else None
    | [] => None
    end
  | [] => None
  end.
