(* ===== verification/GoJSONProps.v ===== *)
(** * Package [encoding/json]: what the scanner guarantees

    Every value the scanner yields is well formed, so that no literal fails to unquote;
    the text of a well-formed value scans to the value; a string written as a literal
    reads back as the string. *)
From S2P Require Import Prelude ErrType GoJSON.
#[local] Open Scope string_scope.
#[local] Open Scope list_scope.
#[local] Open Scope Z_scope.

(** ** Well-formed values, and their text *)

(** The key of an object. *)
Definition keyOK (k : bytes) : Prop := litOK k = true /\ isQuoted k = true.

(** Values nested at most [n] deep. *)
#[warnings="-register-all"]
Inductive wf : Z -> json -> Prop :=
| wf_lit n lit : litOK lit = true -> wf n (JLit lit)
| wf_arr n l : 0 < n -> Forall (wf (n - 1)) l -> wf n (JArr l)
| wf_obj n m : 0 < n -> Forall (fun kv => keyOK kv.1 /\ wf (n - 1) kv.2) m -> wf n (JObj m).

Fixpoint commas (l : list bytes) : bytes :=
  match l with
  | [] => []
  | [x] => x
  | x :: l => x ++ [","%char] ++ commas l
  end.

(** The text without spaces. *)
Fixpoint text (j : json) : bytes :=
  match j with
  | JLit lit => lit
  | JArr l => ["["%char] ++ commas (map text l) ++ ["]"%char]
  | JObj m => ["{"%char] ++ commas (map (fun '(k, v) => k ++ [":"%char] ++ text v) m) ++ ["}"%char]
  end.

(** ** Soundness of the scanner *)

Lemma litRun_app st s1 s2 : litRun st (s1 ++ s2) = litRun st s1 ≫= fun st => litRun st s2.
Proof.
  revert st; induction s1 as [|c s1 IH]; intros [l|]; simpl; try done. by destruct (litStep l c).
Qed.

Lemma litStep_after l c : litStep l c = LAfter -> numEnd l = true.
Proof.
  destruct l as [| |n| | | | | | | | |w [|x r]]; simpl; try done; repeat (case_match; simpl); try done.
Qed.

(** [t] is the part before the state [l] of a literal. *)
Definition litPrefix (t : bytes) (l : lstate) : Prop :=
  exists c s l0, t = c :: s /\ beginLit c = Some l0 /\ litRun (Some l0) s = Some (Some l).

Lemma litPrefix_next t l c l' : litPrefix t l -> litStep l c = LNext l' -> litPrefix (t ++ [c]) l'.
Proof.
  intros (c0 & s & l0 & -> & Hb & Hr) Hs. exists c0, (s ++ [c]), l0. split_and!; [done..|].
  rewrite litRun_app, Hr; simpl. by rewrite Hs.
Qed.

Lemma litPrefix_last t l c : litPrefix t l -> litStep l c = LLast -> litOK (t ++ [c]) = true.
Proof.
  intros (c0 & s & l0 & -> & Hb & Hr) Hs. simpl. rewrite Hb; simpl.
  rewrite litRun_app, Hr; simpl. by rewrite Hs.
Qed.

Lemma litPrefix_num t l : litPrefix t l -> numEnd l = true -> litOK t = true.
Proof. intros (c0 & s & l0 & -> & Hb & Hr) Hn. simpl. rewrite Hb; simpl. by rewrite Hr. Qed.

Lemma isQuoted_app s t : isQuoted s = true -> isQuoted (s ++ t) = true.
Proof. by destruct s. Qed.

(** What is kept in a frame of a stack of height [h]. *)
Definition frameOK (h : Z) (f : frame) : Prop :=
  let mem := Forall (fun kv => keyOK kv.1 /\ wf (maxNestingDepth - h) kv.2) in
  match f with
  | ObjKey m => mem m
  | ObjVal m k => mem m /\ keyOK k
  | ArrVal l => Forall (wf (maxNestingDepth - h)) l
  end.

Fixpoint framesOK (fs : list frame) : Prop :=
  match fs with
  | [] => True
  | f :: fs' => Z.of_nat (length fs) <= maxNestingDepth /\ frameOK (Z.of_nat (length fs)) f /\ framesOK fs'
  end.

Definition atKey (fs : list frame) : Prop := exists m fs', fs = ObjKey m :: fs'.

(** The value [j] is the current one, under the frames [fs]. *)
Definition curOK (fs : list frame) (j : json) : Prop :=
  wf (maxNestingDepth - Z.of_nat (length fs)) j /\ (atKey fs -> exists k, j = JLit k /\ isQuoted k = true).

(** The frames below the top one wait for a value, not for a key. *)
Definition noKeyBelow (fs : list frame) : Prop := Forall (fun f => forall m, f <> ObjKey m) (tail fs).

Definition scannerOK (s : scanner) : Prop :=
  let fs := parseState s in
  framesOK fs /\ noKeyBelow fs /\
  match sStep s with
  | BeginValue => cur s = None /\ ~ atKey fs
  | BeginValueOrEmpty => cur s = None /\ exists l fs', fs = ArrVal l :: fs'
  | BeginStringOrEmpty | BeginString => cur s = None /\ atKey fs
  | EndValue => exists j, cur s = Some j /\ curOK fs j
  | EndTop => fs = [] /\ exists j, cur s = Some j /\ wf maxNestingDepth j
  | InLit l => exists t, cur s = Some (JLit t) /\ litPrefix t l /\ (atKey fs -> isQuoted t = true)
  end.

Lemma wf_weaken n n' j : wf n j -> n <= n' -> wf n' j.
Proof.
  revert n n'. induction j as [lit|l IH|m IH] using json_nested_ind; intros n n' Hw Hle;
    inversion Hw as [? ? Hl|? ? Hn Hl|? ? Hn Hl]; subst; constructor; try done; try lia;
    rewrite list.Forall_forall in *; intros x Hx.
  - apply (IH x Hx (n - 1)); [by apply Hl|lia].
  - destruct (Hl x Hx) as [Hk Hv]. split; [done|]. apply (IH x Hx (n - 1)); [done|lia].
Qed.

Lemma noKeyBelow_atKey f fs : noKeyBelow (f :: fs) -> ~ atKey fs.
Proof.
  intros Hk (m & fs' & ->). apply list.Forall_cons in Hk as [Hk _]. by apply (Hk m).
Qed.

Lemma noKeyBelow_pop f fs : noKeyBelow (f :: fs) -> noKeyBelow fs.
Proof. unfold noKeyBelow; simpl. destruct fs; simpl; [constructor|]. by intros ?%list.Forall_cons_1%proj2. Qed.

Lemma noKeyBelow_push f fs : noKeyBelow fs -> ~ atKey fs -> noKeyBelow (f :: fs).
Proof.
  unfold noKeyBelow; simpl. destruct fs as [|g fs]; intros Hk Hn; constructor; [|done].
  intros m ->. apply Hn. by eexists _, _.
Qed.

(** An object or array that is complete, one level up. *)
Lemma popParseState_ok j f fs s' :
  framesOK (f :: fs) -> noKeyBelow (f :: fs) -> wf (maxNestingDepth - Z.of_nat (length fs)) j ->
  popParseState j fs = inr s' -> scannerOK s'.
Proof.
  intros (Hlen & _ & Hfs) Hnk Hj [= <-]. pose proof (noKeyBelow_atKey f fs Hnk) as Hk.
  apply noKeyBelow_pop in Hnk. split_and!; simpl; [done..|].
  destruct fs as [|g fs].
  - split; [done|]. exists j. split; [done|]. by rewrite Z.sub_0_r in Hj.
  - exists j. by split_and!.
Qed.

(** Replacing the top frame. *)
Lemma framesOK_top f g fs :
  framesOK (f :: fs) -> frameOK (Z.of_nat (length (f :: fs))) g -> framesOK (g :: fs).
Proof. intros (? & _ & ?) Hg. by split_and!. Qed.

Lemma stateEndValue_ok s c s' j :
  framesOK (parseState s) -> noKeyBelow (parseState s) -> cur s = Some j -> curOK (parseState s) j ->
  stateEndValue s c = inr s' -> scannerOK s'.
Proof.
  intros Hfs Hnk Hcur [Hw Hkey]. unfold stateEndValue. rewrite Hcur.
  destruct (parseState s) as [|f fs] eqn:Hps.
  { unfold stateEndTop. destruct (isSpace c); [|done]. intros [= <-].
    split_and!; simpl; rewrite ?Hps; [done..|]. split; [done|]. exists j. split; [done|].
    by rewrite Z.sub_0_r in Hw. }
  pose proof Hfs as (Hlen & Hf & Hrest).
  assert (0 < maxNestingDepth - Z.of_nat (length fs)) as Hpos by (simpl length in Hlen; lia).
  assert (maxNestingDepth - Z.of_nat (length (f :: fs)) = maxNestingDepth - Z.of_nat (length fs) - 1)
    as Hdep by (simpl length; lia).
  destruct (isSpace c).
  { intros [= <-]. split_and!; simpl; rewrite ?Hps; [done..|]. by exists j. }
  destruct f as [m|m k|l]; cbn [frameOK] in Hf; rewrite ?Hdep in *.
  - destruct Hkey as (k & -> & Hk); [by eexists _, _|]. case_bool_decide; [|done]. intros [= <-].
    unfold scannerOK; cbn [parseState sStep cur]. split_and!; [|done..|].
    + eapply framesOK_top; [exact Hfs|]. cbn [frameOK]. rewrite Hdep. split; [done|]. split; [|done].
      by inversion Hw.
    + by intros (? & ? & [=]).
  - assert (Forall (fun kv => keyOK kv.1 /\ wf (maxNestingDepth - Z.of_nat (length fs) - 1) kv.2) (m ++ [(k, j)]))
      as Hm by (apply list.Forall_app; split; [apply Hf|apply Forall_singleton; split; [apply Hf|done]]).
    repeat case_bool_decide; [| |done].
    + intros [= <-]. unfold scannerOK; cbn [parseState sStep cur].
      split_and!; [|done..|by eexists _, _].
      eapply framesOK_top; [exact Hfs|]. cbn [frameOK]. by rewrite Hdep.
    + intros Hpop. eapply popParseState_ok; [exact Hfs|done| |exact Hpop]. by constructor.
  - assert (Forall (wf (maxNestingDepth - Z.of_nat (length fs) - 1)) (l ++ [j]))
      as Hl by (apply list.Forall_app; split; [done|by repeat constructor]).
    repeat case_bool_decide; [| |done].
    + intros [= <-]. unfold scannerOK; cbn [parseState sStep cur].
      split_and!; [|done..|by intros (? & ? & [=])].
      eapply framesOK_top; [exact Hfs|]. cbn [frameOK]. by rewrite Hdep.
    + intros Hpop. eapply popParseState_ok; [exact Hfs|done| |exact Hpop]. by constructor.
Qed.

Lemma stateBeginString_ok s c s' :
  scannerOK s -> sStep s = BeginStringOrEmpty \/ sStep s = BeginString ->
  stateBeginString s c = inr s' -> scannerOK s'.
Proof.
  intros Hs Hst. pose proof Hs as (Hfs & Hnk & Hm).
  assert (cur s = None /\ atKey (parseState s)) as [Hc Hk] by (by destruct Hst as [E|E]; rewrite E in Hm).
  unfold stateBeginString. destruct (isSpace c); [by intros [= <-]|].
  destruct (Z.eqb_spec (byteval c) 34) as [Hq|]; [|done]. intros [= <-].
  unfold scannerOK; cbn [parseState sStep cur]. split_and!; [done..|]. exists [c].
  split_and!; [done| |by intros _; simpl; rewrite Hq]. exists c, [], InString.
  split_and!; [done| |done]. unfold beginLit. by rewrite Hq.
Qed.

Lemma pushParseState_ok c f st s s' :
  framesOK (parseState s) -> noKeyBelow (parseState s) -> ~ atKey (parseState s) ->
  (st = BeginStringOrEmpty /\ f = ObjKey [] \/ st = BeginValueOrEmpty /\ f = ArrVal []) ->
  pushParseState c f st s = inr s' -> scannerOK s'.
Proof.
  intros Hfs Hnk Hk Hf. unfold pushParseState. destruct (Z.leb_spec (Z.of_nat (length (f :: parseState s))) maxNestingDepth);
    [|done]. intros [= <-]. unfold scannerOK; cbn [parseState sStep cur].
  split_and!; [by destruct Hf as [[_ ->]|[_ ->]]; split_and!; try constructor|by apply noKeyBelow_push|].
  destruct Hf as [[-> ->]|[-> ->]]; by split; [|eexists _, _].
Qed.

Lemma stateBeginValue_ok s c s' :
  scannerOK s -> cur s = None -> ~ atKey (parseState s) ->
  stateBeginValue s c = inr s' -> scannerOK s'.
Proof.
  intros Hs Hc Hk. pose proof Hs as (Hfs & Hnk & _).
  unfold stateBeginValue. destruct (isSpace c); [by intros [= <-]|].
  case_bool_decide; [apply pushParseState_ok; auto|].
  case_bool_decide; [apply pushParseState_ok; auto|].
  destruct (beginLit c) as [l|] eqn:Hl; [|done]. intros [= <-].
  unfold scannerOK; cbn [parseState sStep cur]. split_and!; [done..|]. exists [c].
  split_and!; [done| |by intros ?]. by exists c, [], l.
Qed.

Lemma step_ok s c s' : scannerOK s -> step s c = inr s' -> scannerOK s'.
Proof.
  intros Hs. pose proof Hs as (Hfs & Hnk & Hst). unfold step.
  destruct (sStep s) as [| | | | | |l] eqn:E.
  - destruct Hst as [Hc (l & fs & Hl)]. destruct (isSpace c) eqn:Hsp; [by intros [= <-]|].
    case_bool_decide as Hb.
    + unfold stateEndValue. rewrite Hl, Hsp, Hc. subst c. rewrite Hl in *. cbn -[popParseState].
      eapply popParseState_ok; [exact Hfs|done|]. destruct Hfs as (Hlen & Hf & _). simpl length in *.
      constructor; [lia|]. cbn [frameOK] in Hf.
      by replace (maxNestingDepth - Z.of_nat (length fs) - 1) with (maxNestingDepth - Z.of_nat (S (length fs))) by lia.
    + apply stateBeginValue_ok; [done..|]. rewrite Hl. by intros (? & ? & [=]).
  - destruct Hst as [Hc Hk]. by apply stateBeginValue_ok.
  - destruct Hst as [Hc Hk]. destruct (isSpace c); [by intros [= <-]|].
    case_bool_decide; [|by apply stateBeginString_ok; auto].
    destruct Hk as (m & fs & Hm). rewrite Hm in *.
    eapply popParseState_ok; [exact Hfs|done|]. destruct Hfs as (Hlen & Hf & _). simpl length in *.
    constructor; [lia|]. cbn [frameOK] in Hf.
    by replace (maxNestingDepth - Z.of_nat (length fs) - 1) with (maxNestingDepth - Z.of_nat (S (length fs))) by lia.
  - apply stateBeginString_ok; auto.
  - destruct Hst as (j & Hc & Hj). by apply (stateEndValue_ok s c s' j).
  - destruct Hst as (Hn & j & Hc & Hj). unfold stateEndTop. destruct (isSpace c); [|done]. intros [= <-].
    unfold scannerOK; cbn [parseState sStep cur]. split_and!; [done..|]. by exists j.
  - destruct Hst as (t & Hc & Hp & Hq). rewrite Hc. destruct (litStep l c) as [l'| | |] eqn:Hl; [| | |done].
    + intros [= <-]. unfold scannerOK; cbn [parseState sStep cur]. split_and!; [done..|]. exists (t ++ [c]).
      split_and!; [done|by eapply litPrefix_next|]. intros Hk. by apply isQuoted_app, Hq.
    + intros [= <-]. unfold scannerOK; cbn [parseState sStep cur]. split_and!; [done..|]. exists (JLit (t ++ [c])).
      split; [done|]. split; [constructor; by eapply litPrefix_last|]. intros Hk. eexists; split; [done|].
      by apply isQuoted_app, Hq.
    + apply (stateEndValue_ok s c s' (JLit t)); [done..|]. split; [|eauto].
      constructor. eapply litPrefix_num; [exact Hp|by eapply litStep_after].
Qed.

Lemma steps_ok s data s' : scannerOK s -> steps s data = inr s' -> scannerOK s'.
Proof.
  revert s; induction data as [|c data IH]; intros s Hs; simpl; [by intros [= <-]|].
  destruct (step s c) as [e|s1] eqn:E; [done|]. apply IH. by eapply step_ok.
Qed.

Lemma scan_wf data j : scan data = inr j -> wf maxNestingDepth j.
Proof.
  unfold scan. destruct (steps reset data) as [e|s] eqn:E; [done|].
  assert (scannerOK s) as Hs.
  { eapply steps_ok; [|exact E]. split; [done|]. split; [constructor|]. by split; [|intros (? & ? & [=])]. }
  assert (forall s1, scannerOK s1 -> (match sStep s1, cur s1 with EndTop, Some j => inr j | _, _ => inl unexpectedEnd end) = inr j
    -> wf maxNestingDepth j) as Htop.
  { intros s1 (_ & _ & H1). destruct (sStep s1); try done. destruct H1 as (_ & j1 & -> & Hj). by intros [= ->]. }
  unfold eof. destruct (sStep s) eqn:Hst; try (destruct (step s " "%char) as [e|s1] eqn:E1; [done|]; apply Htop; by eapply step_ok).
  by apply Htop.
Qed.

(** ** The text of a value scans to the value *)

(** The value [j] has been read: the scanner is behind it, or inside a number. *)
Definition behind (s : scanner) (j : json) (fs : list frame) : Prop :=
  parseState s = fs /\ cur s = Some j /\
  match sStep s with
  | EndValue => True
  | EndTop => fs = []
  | InLit l => numEnd l = true
  | _ => False
  end.

Definition isEnd (c : byte) : bool := bool_decide (c ∈ [","; ":"; "]"; "}"; " "]%char).

Lemma litStep_end l c : numEnd l = true -> isEnd c = true -> litStep l c = LAfter.
Proof.
  intros Hl Hc%bool_decide_eq_true. repeat (apply elem_of_cons in Hc as [-> | Hc]); try by destruct l.
  by apply not_elem_of_nil in Hc.
Qed.

(** Behind a value, and before one, under the top frame [f]. *)
Definition at_end (f : frame) (fs : list frame) (j : json) : scanner :=
  {| sStep := EndValue; parseState := f :: fs; cur := Some j |}.
Definition at_begin (st : sstate) (f : frame) (fs : list frame) : scanner :=
  {| sStep := st; parseState := f :: fs; cur := None |}.

(** Behind a value, [c] is treated as in the state [EndValue]. *)
Lemma behind_step s j f fs c :
  behind s j (f :: fs) -> isEnd c = true ->
  step s c = stateEndValue (at_end f fs j) c.
Proof.
  intros (Hp & Hc & Hs) He. unfold step. destruct (sStep s) as [| | | | | |l] eqn:E; try done;
    [|rewrite (litStep_end l c Hs He)]; unfold stateEndValue, goTo, at_end; cbn [parseState cur]; by rewrite Hp, Hc.
Qed.

Lemma steps_app s a b : steps s (a ++ b) = match steps s a with inl e => inl e | inr s => steps s b end.
Proof. revert s; induction a as [|c a IH]; intros s; simpl; [done|]. by destruct (step s c). Qed.

(** A literal from its second byte on. *)
Lemma steps_lit l t s rest fs :
  litRun (Some l) rest = Some None \/ (exists l', litRun (Some l) rest = Some (Some l') /\ numEnd l' = true) ->
  sStep s = InLit l -> cur s = Some (JLit t) -> parseState s = fs ->
  exists s', steps s rest = inr s' /\ parseState s' = fs /\ cur s' = Some (JLit (t ++ rest)) /\
    (sStep s' = EndValue \/ exists l', sStep s' = InLit l' /\ numEnd l' = true).
Proof.
  revert l t s. induction rest as [|c rest IH]; intros l t s Hr Hs Hc Hp.
  - simpl in Hr. exists s. rewrite app_nil_r. split_and!; [done..|]. right.
    destruct Hr as [|(l' & [= <-] & ?)]; [done|eauto].
  - cbn [steps litRun] in *. unfold step. rewrite Hs, Hc.
    destruct (litStep l c) as [l'| | |]; [| |by destruct Hr as [|(? & ? & ?)]..].
    + destruct (IH l' (t ++ [c]) {| sStep := InLit l'; parseState := parseState s; cur := Some (JLit (t ++ [c])) |})
        as (s' & E & H1 & H2 & H3); [done..|].
      exists s'. rewrite <- app_assoc in H2. by split_and!.
    + destruct rest; [|by destruct Hr as [|(? & ? & ?)]].
      eexists. split; [done|]. cbn [parseState cur sStep]. split_and!; [done..|]. by left.
Qed.

(** The bytes with which a value may begin. *)
Definition isBegin (c : byte) : bool :=
  bool_decide (c = "{"%char) || bool_decide (c = "["%char) || bool_decide (is_Some (beginLit c)).

Lemma isBegin_other c : isBegin c = true -> isSpace c = false /\ c <> "]"%char /\ c <> "}"%char.
Proof.
  intros Hb. split_and!; [|by intros ->..]. apply bool_decide_eq_false. intros Hc.
  repeat (apply elem_of_cons in Hc as [-> | Hc]; [done|]). by apply not_elem_of_nil in Hc.
Qed.

Lemma text_begin n j : wf n j -> exists c t, text j = c :: t /\ isBegin c = true.
Proof.
  intros [m lit Hl|m l _ _|m o _ _]; simpl; [|by eexists _, _..].
  destruct lit as [|c t]; [done|]. exists c, t. split; [done|]. unfold isBegin.
  simpl in Hl. destruct (beginLit c) as [l|] eqn:Hb; [|done].
  rewrite !orb_true_iff. right. apply bool_decide_eq_true. by eexists.
Qed.

(** Where a value is expected, and where it may also be missing. *)
Lemma step_beginValue s c :
  (sStep s = BeginValue \/ sStep s = BeginValueOrEmpty) -> isBegin c = true ->
  step s c = stateBeginValue s c.
Proof.
  intros Hs (Hsp & Hb & _)%isBegin_other. unfold step. destruct Hs as [-> | ->]; [done|].
  by rewrite Hsp, bool_decide_false.
Qed.

Lemma steps_litValue s lit fs :
  (sStep s = BeginValue \/ sStep s = BeginValueOrEmpty) -> parseState s = fs -> litOK lit = true ->
  exists s', steps s lit = inr s' /\ parseState s' = fs /\ cur s' = Some (JLit lit) /\
    (sStep s' = EndValue \/ exists l', sStep s' = InLit l' /\ numEnd l' = true).
Proof.
  intros Hs Hp Hl. destruct (text_begin 0 (JLit lit) ltac:(by constructor)) as (c & t & [= ->] & Hb).
  cbn [steps]. rewrite step_beginValue by done. unfold stateBeginValue.
  destruct (isBegin_other c Hb) as (-> & _ & _). simpl in Hl.
  destruct (beginLit c) as [l|] eqn:Hbl; [|done]. simpl in Hl.
  rewrite !bool_decide_false by (by intros ->).
  apply (steps_lit l [c]); [|done..].
  destruct (litRun (Some l) t) as [[l'|]|]; [right; eauto|by left|done].
Qed.

(** A value read in the middle of a text, [n] the number of frames above it. *)
Definition reads (n : nat) (j : json) : Prop :=
  forall s fs, (sStep s = BeginValue \/ sStep s = BeginValueOrEmpty) -> parseState s = fs ->
  length fs = n -> exists s', steps s (text j) = inr s' /\ behind s' j fs.

Definition popped (j : json) (fs : list frame) : scanner :=
  {| sStep := match fs with [] => EndTop | _ => EndValue end; parseState := fs; cur := Some j |}.

(** What ends a value inside an array and inside an object. *)
Lemma arr_comma l fs j : stateEndValue (at_end (ArrVal l) fs j) ","%char = inr (at_begin BeginValue (ArrVal (l ++ [j])) fs).
Proof. done. Qed.
Lemma arr_close l fs j : stateEndValue (at_end (ArrVal l) fs j) "]"%char = inr (popped (JArr (l ++ [j])) fs).
Proof. done. Qed.
Lemma obj_colon m fs k : stateEndValue (at_end (ObjKey m) fs (JLit k)) ":"%char = inr (at_begin BeginValue (ObjVal m k) fs).
Proof. done. Qed.
Lemma obj_comma m k fs j : stateEndValue (at_end (ObjVal m k) fs j) ","%char = inr (at_begin BeginString (ObjKey (m ++ [(k, j)])) fs).
Proof. done. Qed.
Lemma obj_close m k fs j : stateEndValue (at_end (ObjVal m k) fs j) "}"%char = inr (popped (JObj (m ++ [(k, j)])) fs).
Proof. done. Qed.

Lemma steps_elems x l acc s fs :
  reads (S (length fs)) x -> Forall (reads (S (length fs))) l ->
  (sStep s = BeginValue \/ sStep s = BeginValueOrEmpty) -> parseState s = ArrVal acc :: fs ->
  steps s (commas (map text (x :: l)) ++ ["]"%char]) = inr (popped (JArr (acc ++ x :: l)) fs).
Proof.
  revert x acc s. induction l as [|y l IH]; intros x acc s Hx Hl Hs Hp;
    destruct (Hx s _ Hs Hp eq_refl) as (s' & E & Hb).
  - cbn [map commas]. rewrite steps_app, E. cbn [steps]. by rewrite (behind_step _ _ _ _ _ Hb).
  - apply list.Forall_cons in Hl as [Hy Hl].
    change (commas (map text (x :: y :: l))) with (text x ++ [","%char] ++ commas (map text (y :: l))).
    rewrite <- !app_assoc, steps_app, E. cbn [app steps]. rewrite (behind_step _ _ _ _ _ Hb), arr_comma by done.
    rewrite (IH y (acc ++ [x])) by (done || by left). by rewrite <- app_assoc.
Qed.

(** The key of a member, up to its colon. *)
Lemma steps_key k acc s fs :
  keyOK k -> (sStep s = BeginString \/ sStep s = BeginStringOrEmpty) -> parseState s = ObjKey acc :: fs ->
  steps s (k ++ [":"%char]) = inr (at_begin BeginValue (ObjVal acc k) fs).
Proof.
  intros [Hk Hq] Hs Hp. destruct k as [|c t]; [done|]. simpl in Hq. rewrite <- app_comm_cons. cbn [steps].
  assert (isSpace c = false) as Hsp.
  { apply bool_decide_eq_false. intros Hc.
    repeat (apply elem_of_cons in Hc as [-> | Hc]; [done|]). by apply not_elem_of_nil in Hc. }
  assert (step s c = inr {| sStep := InLit InString; parseState := parseState s; cur := Some (JLit [c]) |}) as ->.
  { unfold step. assert (bool_decide (c = "}"%char) = false) as Hb by (by apply bool_decide_eq_false; intros ->).
    destruct Hs as [-> | ->]; rewrite ?Hsp, ?Hb; unfold stateBeginString; by rewrite Hsp, Hq. }
  simpl in Hk. unfold beginLit in Hk. rewrite Hq in Hk; simpl in Hk.
  destruct (steps_lit InString [c] {| sStep := InLit InString; parseState := parseState s; cur := Some (JLit [c]) |} t (ObjKey acc :: fs))
    as (s' & E & H1 & H2 & H3); [|done..|].
  { destruct (litRun (Some InString) t) as [[l'|]|]; [right; eauto|by left|done]. }
  assert (behind s' (JLit (c :: t)) (ObjKey acc :: fs)) as Hb.
  { split_and!; [by rewrite H1|done|]. by destruct H3 as [-> | (l' & -> & ?)]. }
  rewrite steps_app, E. cbn [steps]. by rewrite (behind_step _ _ _ _ _ Hb), obj_colon.
Qed.

Definition member (kv : bytes * json) : bytes := kv.1 ++ [":"%char] ++ text kv.2.

Lemma steps_members kv m acc s fs :
  keyOK kv.1 -> reads (S (length fs)) kv.2 ->
  Forall (fun kv => keyOK kv.1 /\ reads (S (length fs)) kv.2) m ->
  (sStep s = BeginString \/ sStep s = BeginStringOrEmpty) -> parseState s = ObjKey acc :: fs ->
  steps s (commas (map member (kv :: m)) ++ ["}"%char]) = inr (popped (JObj (acc ++ kv :: m)) fs).
Proof.
  revert kv acc s. induction m as [|kv' m IH]; intros [k v] acc s Hk Hv Hm Hs Hp; simpl in Hk, Hv.
  - change (commas (map member [(k, v)])) with (k ++ [":"%char] ++ text v).
    rewrite <- !app_assoc, (app_assoc k), steps_app, (steps_key k acc s fs) by done.
    destruct (Hv (at_begin BeginValue (ObjVal acc k) fs) (ObjVal acc k :: fs)) as (s' & E & Hb); [by left|done..|].
    rewrite steps_app, E. cbn [steps]. by rewrite (behind_step _ _ _ _ _ Hb).
  - apply list.Forall_cons in Hm as [[Hk' Hv'] Hm].
    change (commas (map member ((k, v) :: kv' :: m)))
      with ((k ++ [":"%char] ++ text v) ++ [","%char] ++ commas (map member (kv' :: m))).
    rewrite <- !app_assoc, (app_assoc k), steps_app, (steps_key k acc s fs) by done.
    destruct (Hv (at_begin BeginValue (ObjVal acc k) fs) (ObjVal acc k :: fs)) as (s' & E & Hb); [by left|done..|].
    rewrite steps_app, E. cbn [app steps]. rewrite (behind_step _ _ _ _ _ Hb), obj_comma by done.
    rewrite (IH kv' (acc ++ [(k, v)])) by (done || by left). by rewrite <- app_assoc.
Qed.

Lemma text_obj m : text (JObj m) = ["{"%char] ++ commas (map member m) ++ ["}"%char].
Proof. simpl. do 3 f_equal. apply map_ext. by intros [k v]. Qed.

Lemma popped_behind j fs : behind (popped j fs) j fs.
Proof. split_and!; simpl; [done..|]. by destruct fs. Qed.

Lemma begin_arr s :
  Z.of_nat (S (length (parseState s))) <= maxNestingDepth ->
  stateBeginValue s "["%char = inr (at_begin BeginValueOrEmpty (ArrVal []) (parseState s)).
Proof. intros Hd%Z.leb_le. unfold stateBeginValue, pushParseState. simpl length. by rewrite Hd. Qed.

Lemma begin_obj s :
  Z.of_nat (S (length (parseState s))) <= maxNestingDepth ->
  stateBeginValue s "{"%char = inr (at_begin BeginStringOrEmpty (ObjKey []) (parseState s)).
Proof. intros Hd%Z.leb_le. unfold stateBeginValue, pushParseState. simpl length. by rewrite Hd. Qed.

Lemma steps_text j n : wf (maxNestingDepth - Z.of_nat n) j -> reads n j.
Proof.
  revert n. induction j as [lit|l IH|m IH] using json_nested_ind; intros n Hw s fs Hs Hp Hn.
  - inversion Hw as [? ? Hl| |]; subst. destruct (steps_litValue s lit _ Hs eq_refl Hl) as (s' & E & H1 & H2 & H3).
    exists s'. split; [done|]. split_and!; [done..|]. by destruct H3 as [-> | (l' & -> & ?)].
  - inversion Hw as [|? ? Hpos Hl|]; subst. cbn [text app steps].
    rewrite step_beginValue, begin_arr by (done || lia).
    assert (maxNestingDepth - Z.of_nat (length (parseState s)) - 1 = maxNestingDepth - Z.of_nat (S (length (parseState s))))
      as Hd by lia. rewrite Hd in Hl.
    destruct l as [|x l]; [eexists; split; [reflexivity|apply popped_behind]|].
    apply list.Forall_cons in Hl as [Hx Hl]. apply list.Forall_cons in IH as [IHx IHl].
    rewrite (steps_elems x l [] _ (parseState s)); [|by apply IHx| |by right|done].
    + eexists; split; [reflexivity|apply popped_behind].
    + rewrite list.Forall_forall in *. intros y Hy. apply (IHl y Hy). by apply Hl.
  - inversion Hw as [| |? ? Hpos Hm]; subst. rewrite text_obj. cbn [app steps].
    rewrite step_beginValue, begin_obj by (done || lia).
    assert (maxNestingDepth - Z.of_nat (length (parseState s)) - 1 = maxNestingDepth - Z.of_nat (S (length (parseState s))))
      as Hd by lia. rewrite Hd in Hm.
    destruct m as [|x m]; [eexists; split; [reflexivity|apply popped_behind]|].
    apply list.Forall_cons in Hm as [[Hk Hx] Hm]. apply list.Forall_cons in IH as [IHx IHm].
    rewrite (steps_members x m [] _ (parseState s)); [|done|by apply IHx| |by right|done].
    + eexists; split; [reflexivity|apply popped_behind].
    + rewrite list.Forall_forall in *. intros y Hy. destruct (Hm y Hy) as [Hky Hvy]. split; [done|]. by apply (IHm y Hy).
Qed.

Lemma stateEndTop_space s : stateEndTop s " "%char = goTo EndTop s.
Proof. done. Qed.

(** Scanning the text of a well-formed value yields the value. *)
Lemma scan_text j : wf maxNestingDepth j -> scan (text j) = inr j.
Proof.
  intros Hw. destruct (steps_text j 0 ltac:(by rewrite Z.sub_0_r) reset []) as (s & E & Hp & Hc & Hs); [by left|done..|].
  unfold scan. rewrite E. unfold eof, step.
  destruct (sStep s) as [| | | | | |l] eqn:Hst; try done.
  - unfold stateEndValue. by rewrite Hp, stateEndTop_space; simpl; rewrite Hc.
  - by rewrite Hst, Hc.
  - rewrite (litStep_end l " "%char Hs) by done. unfold stateEndValue. by rewrite Hp, stateEndTop_space; simpl; rewrite Hc.
Qed.

(** ** String literals *)

Lemma unquoteBody_skip k s : unquoteBody k s = unquoteBody 0 (drop k s).
Proof. revert k; induction s as [|c s IH]; intros [|k]; simpl drop; try done. apply IH. Qed.

Definition isStr (l : lstate) : bool :=
  match l with InString | InStringEsc | InStringEscU _ => true | _ => false end.

Lemma litStep_str l c : isStr l = true ->
  match litStep l c with
  | LNext l' => isStr l' = true
  | LLast => l = InString /\ byteval c = 34
  | LAfter => False
  | LErr _ => True
  end.
Proof.
  destruct l as [| |n| | | | | | | | |]; try done; intros _; simpl.
  - destruct (Z.eqb_spec (byteval c) 34); [done|]. by repeat case_match; simplify_eq.
  - by repeat case_match; simplify_eq.
  - destruct (isHex c); [by destruct n|done].
Qed.

(** A complete string literal is its body between two quotes. *)
Lemma litRun_closed l t :
  isStr l = true -> litRun (Some l) t = Some None ->
  exists body d, t = body ++ [d] /\ byteval d = 34 /\ litRun (Some l) body = Some (Some InString).
Proof.
  revert l; induction t as [|c t IH]; intros l Hl; simpl; [done|].
  pose proof (litStep_str l c Hl) as Hs. destruct (litStep l c) as [l'| | |] eqn:E; try done.
  - intros Ht. destruct (IH l' Hs Ht) as (body & d & -> & Hd & Hb). exists (c :: body), d.
    split_and!; [done..|]. simpl. by rewrite E.
  - destruct Hs as [-> Hc]. destruct t; [|done]. intros _. by exists [], c.
Qed.

Lemma litRun_high x y :
  Forall (fun b => 128 <= byteval b) x -> litRun (Some InString) (x ++ y) = litRun (Some InString) y.
Proof.
  induction 1 as [|c x Hc Hx IH]; [done|]. simpl.
  rewrite (proj2 (Z.eqb_neq _ _)), (proj2 (Z.eqb_neq (byteval c) 92)), (proj2 (Z.ltb_ge _ _)) by lia. done.
Qed.

(** Four digits of an escape. *)
Lemma litRun_hex n t :
  litRun (Some (InStringEscU n)) t = Some (Some InString) ->
  exists ds t', t = ds ++ t' /\ length ds = S n /\ Forall (fun c => isHex c = true) ds /\
    litRun (Some InString) t' = Some (Some InString).
Proof.
  revert t; induction n as [|n IH]; intros [|c t]; simpl; try done; destruct (isHex c) eqn:Hc; try done.
  - intros Ht. exists [c], t. by repeat constructor.
  - intros Ht. destruct (IH t Ht) as (ds & t' & -> & Hn & Hds & Ht'). exists (c :: ds), t'.
    split_and!; simpl; [done|by rewrite Hn|by constructor|done].
Qed.

(** An escape that was scanned is there. *)
Lemma litRun_escape s :
  litRun (Some InString) s = Some (Some InString) ->
  match s with
  | c :: u :: t =>
      byteval c = 92 -> if bool_decide (u = "u"%char)
        then (exists r, getu4 s = Some r) /\ litRun (Some InString) (drop 6 s) = Some (Some InString)
        else (exists b, unescape u = Some b) /\ litRun (Some InString) t = Some (Some InString)
  | [c] => byteval c <> 92
  | [] => True
  end.
Proof.
  destruct s as [|c [|u t]]; [done| |].
  - simpl. intros Hr Hc. by rewrite Hc in Hr.
  - intros Hr Hc. simpl in Hr. rewrite Hc in Hr; simpl in Hr. destruct (bool_decide_reflect (u = "u"%char)) as [-> |Hu].
    + simpl in Hr. destruct (litRun_hex 3 t Hr) as (ds & t' & -> & Hn & Hds & Ht').
      destruct ds as [|d0 [|d1 [|d2 [|d3 [|]]]]]; try done.
      rewrite !list.Forall_cons in Hds. destruct Hds as (H0 & H1 & H2 & H3 & _).
      split; [|done]. eexists. unfold getu4; cbn [app]. rewrite Hc, H0, H1, H2, H3. reflexivity.
    + case_hyp Hr; [|done]. rename Heqb into Hb. split; [|done].
      unfold unescape. apply orb_true_iff in Hb as [Hb | ->]; [|rewrite orb_true_r; eauto].
      apply bool_decide_eq_true in Hb.
      repeat (apply elem_of_cons in Hb as [-> | Hb]; [by eexists|]). by apply not_elem_of_nil in Hb.
Qed.

Lemma unquoteBody_ok s :
  litRun (Some InString) s = Some (Some InString) -> exists b, unquoteBody 0 s = Some b.
Proof.
  remember (length s) as n eqn:Hn. revert s Hn. induction n as [n IH] using lt_wf_ind. intros s -> Hr.
  destruct s as [|c t]; [by eexists|]. pose proof (litRun_escape _ Hr) as He.
  assert (forall k, litRun (Some InString) (drop k t) = Some (Some InString) -> exists b, unquoteBody k t = Some b)
    as Hgo.
  { intros k Hk. rewrite unquoteBody_skip. eapply IH; [|done|exact Hk]. rewrite length_drop. simpl. lia. }
  cbn [unquoteBody]. destruct (Z.eqb_spec (byteval c) 92) as [Hc|Hc].
  - destruct t as [|u t]; [done|]. specialize (He Hc). destruct (bool_decide (u = "u"%char)).
    + destruct He as [[r Hr1] Hr2]. unfold unescapeU. rewrite Hr1.
      change (drop 5 (u :: t)) with (drop 6 (c :: u :: t)) in Hgo.
      assert (exists b, unquoteBody 5 (u :: t) = Some b) as [b5 H5] by (by apply Hgo).
      destruct (isSurrogate r); [|rewrite H5; by eexists].
      destruct (getu4 (drop 6 (c :: u :: t)) ≫= decodePair r) as [r2|] eqn:Hp; [|rewrite H5; by eexists].
      assert (exists b, unquoteBody 11 (u :: t) = Some b) as [b11 H11]; [|rewrite H11; by eexists].
      apply Hgo. change (drop 11 (u :: t)) with (drop (6 + 6) (c :: u :: t)).
      apply litRun_escape in Hr2. rewrite <- drop_drop.
      destruct (drop 6 (c :: u :: t)) as [|c2 [|u2 t2]]; [done..|].
      destruct (getu4 (c2 :: u2 :: t2)) as [r'|] eqn:Hg; [|done].
      unfold getu4 in Hg. do 4 (destruct t2 as [|? t2]; [done|]).
      destruct (Z.eqb_spec (byteval c2) 92) as [Hc2|]; [|done].
      destruct (bool_decide (u2 = "u"%char)); [|done]. by apply Hr2.
    + destruct He as [[b ->] Ht]. destruct (Hgo 1%nat) as [b' ->]; [done|]. by eexists.
  - simpl in Hr. rewrite (proj2 (Z.eqb_neq (byteval c) 92)) in Hr by done.
    destruct (byteval c =? 34); [by destruct t|].
    destruct (byteval c <? 32); [done|]. simpl orb. cbv iota.
    destruct (decodeRune (c :: t)) as [[r w]|] eqn:Hd.
    + destruct (Hgo (pred w)) as [b ->]; [|by eexists].
      apply decodeRune_bytes in Hd as [(_ & -> & _)|[_ Hall]]; [done|].
      rewrite <- (take_drop (pred w) t), litRun_high in Hr; [done|].
      destruct w; [constructor|]. simpl in Hall. by apply list.Forall_cons in Hall as [_ ?].
    + destruct (Hgo 0%nat) as [b ->]; [done|]. by eexists.
Qed.

(** No literal the scanner lets pass fails to unquote: the panic of the package for
    this case is unreachable. *)
Lemma unquote_ok lit : keyOK lit -> exists b, unquote lit = Some b.
Proof.
  intros [Hl Hq]. destruct lit as [|c t]; [done|]. simpl in Hl, Hq. unfold beginLit in Hl. rewrite Hq in Hl.
  simpl in Hl. destruct (litRun (Some InString) t) as [[l|]|] eqn:E; [| |done].
  - exfalso. assert (isStr l = true) as Hs; [|by destruct l].
    clear Hl. assert (forall l0, isStr l0 = true -> litRun (Some l0) t = Some (Some l) -> isStr l = true) as Hk; [|by eapply (Hk InString)].
    clear. induction t as [|d t IH]; intros l0 Hl0; simpl; [by intros [= <-]|].
    pose proof (litStep_str l0 d Hl0) as Hs. destruct (litStep l0 d); try done; [by apply IH|by destruct t].
  - apply litRun_closed in E as (body & d & -> & Hd & Hb); [|done].
    unfold unquote. rewrite rev_unit, Hq, (proj2 (Z.eqb_eq _ _) Hd). simpl. rewrite rev_involutive.
    by apply unquoteBody_ok.
Qed.

(** *** Writing strings *)

(** Well-formed UTF-8. *)
Fixpoint utf8From (skip : nat) (s : bytes) : bool :=
  match s with
  | [] => true
  | c :: t =>
    match skip with
    | S k => utf8From k t
    | O => match decodeRune s with Some (_, w) => utf8From (pred w) t | None => false end
    end
  end.
Definition validUTF8 (s : string) : bool := utf8From 0 (to_bytes s).

Definition escByte (c : byte) : bytes :=
  if (byteval c =? 34) || (byteval c =? 92) then ["\"%char; c]
  else if byteval c <? 32 then to_bytes "\u00" ++ hexDigits 2 (byteval c)
  else [c].

Definition escBody (s : bytes) : bytes := mjoin (map escByte s).

Definition quoteJSON (s : string) : bytes := [byteof 34] ++ escBody (to_bytes s) ++ [byteof 34].

Lemma escByte_high c : 128 <= byteval c -> escByte c = [c].
Proof.
  intros Hc. unfold escByte.
  by rewrite (proj2 (Z.eqb_neq _ _)), (proj2 (Z.eqb_neq (byteval c) 92)), (proj2 (Z.ltb_ge _ _)) by lia.
Qed.

Lemma escBody_high x y : Forall (fun b => 128 <= byteval b) x -> escBody (x ++ y) = x ++ escBody y.
Proof.
  induction 1 as [|c x Hc Hx IH]; [done|]. unfold escBody in *; simpl. by rewrite escByte_high, IH.
Qed.

(** A check over all bytes. *)
Lemma byte_all (P : byte -> bool) :
  forallb (fun n => P (ascii_of_nat n)) (seq 0 256) = true -> forall c, P c = true.
Proof.
  intros Hall c. rewrite <- (ascii_nat_embedding c). rewrite forallb_forall in Hall. apply Hall.
  apply in_seq. pose proof (nat_ascii_bounded c). lia.
Qed.

(** What an escaped ASCII byte unquotes to, whatever follows. *)
Lemma unquote_escByte c s :
  byteval c < 128 -> unquoteBody 0 (escByte c ++ s) = cons c <$> unquoteBody 0 s.
Proof.
  intros Hc. unfold escByte.
  destruct ((byteval c =? 34) || (byteval c =? 92))%bool eqn:Hq.
  { assert (forall d, implb ((byteval d =? 34) || (byteval d =? 92))
      (negb (bool_decide (d = "u"%char)) && bool_decide (unescape d = Some d)) = true) as Hall
      by (apply byte_all; vm_compute; reflexivity).
    specialize (Hall c). rewrite Hq in Hall. simpl in Hall. apply andb_true_iff in Hall as [Hu Hd].
    apply negb_true_iff in Hu. apply bool_decide_eq_true in Hd.
    cbn [app unquoteBody]. rewrite Hu, Hd. done. }
  apply orb_false_iff in Hq as [H34 H92].
  destruct (Z.ltb_spec (byteval c) 32) as [Hlt|Hge].
  - assert (forall d, implb (byteval d <? 32)
      (bool_decide (getu4 (to_bytes "\u00" ++ hexDigits 2 (byteval d)) = Some (byteval d)) &&
       bool_decide (encodeRune (byteval d) = [d]) && negb (isSurrogate (byteval d)))) as Hall.
    { intros d. apply Is_true_true. revert d. apply byte_all. vm_compute; reflexivity. }
    specialize (Hall c). rewrite (proj2 (Z.ltb_lt _ _) Hlt) in Hall. cbn [implb] in Hall.
    rewrite !Is_true_true, !andb_true_iff, !bool_decide_eq_true, negb_true_iff in Hall.
    destruct Hall as [[Hg He] Hs]. pose proof (hexDigits_length 2 (byteval c)) as Hlen.
    destruct (hexDigits 2 (byteval c)) as [|a [|b [|]]]; try done.
    assert (unescapeU (to_bytes "\u00" ++ [a; b] ++ s) = Some ([c], false)) as Hu.
    { unfold unescapeU. change (getu4 (to_bytes "\u00" ++ [a; b] ++ s)) with (getu4 (to_bytes "\u00" ++ [a; b])).
      by rewrite Hg, Hs, He. }
    rewrite <- app_assoc. cbn -[unescapeU] in Hu |- *. rewrite Hu. done.
  - cbn [app unquoteBody]. rewrite H34, H92, (proj2 (Z.ltb_ge _ _) Hge). simpl orb. cbv iota.
    unfold decodeRune. rewrite (proj2 (Z.ltb_lt _ _) Hc). done.
Qed.

(** Decoding a rune looks at its own bytes only. *)
Lemma decodeRune_take s r w x :
  decodeRune s = Some (r, w) -> decodeRune (take w s ++ x) = Some (r, w).
Proof.
  destruct s as [|b0 t]; [done|]. unfold decodeRune at 1. destruct (byteval b0 <? 128) eqn:E0.
  { intros [= <- <-]. simpl. by rewrite E0. }
  destruct t as [|b1 t1]; [done|].
  destruct (inRange 194 223 b0) eqn:E1.
  { destruct (inRange 128 191 b1) eqn:E2; [|done]. intros [= <- <-]. simpl. by rewrite E0, E1, E2. }
  destruct (inRange 224 239 b0) eqn:E2.
  { destruct t1 as [|b2 t2]; [done|].
    destruct (inRange _ _ b1 && inRange 128 191 b2)%bool eqn:E3; [|done]. intros [= <- <-].
    simpl. by rewrite E0, E1, E2, E3. }
  destruct (inRange 240 244 b0) eqn:E3; [|done].
  destruct t1 as [|b2 [|b3 t3]]; [done..|].
  destruct (inRange _ _ b1 && inRange 128 191 b2 && inRange 128 191 b3)%bool eqn:E4; [|done].
  intros [= <- <-]. simpl. by rewrite E0, E1, E2, E3, E4.
Qed.

Lemma decodeRune_width s r w : decodeRune s = Some (r, w) -> (1 <= w <= length s)%nat.
Proof.
  unfold decodeRune. intros Hd. repeat case_hyp Hd; simplify_eq; simpl; lia.
Qed.

Lemma utf8From_skip k s : utf8From k s = utf8From 0 (drop k s).
Proof. revert k; induction s as [|c s IH]; intros [|k]; simpl drop; try done. apply IH. Qed.

Lemma unquote_escBody s : utf8From 0 s = true -> unquoteBody 0 (escBody s) = Some s.
Proof.
  remember (length s) as n eqn:Hn. revert s Hn. induction n as [n IH] using lt_wf_ind. intros s -> Hv.
  destruct s as [|c t]; [done|]. cbn [utf8From] in Hv.
  destruct (decodeRune (c :: t)) as [[r w]|] eqn:Hd; [|done]. rewrite utf8From_skip in Hv.
  pose proof (decodeRune_bytes c t r w Hd) as Hb.
  destruct (Z.ltb_spec (byteval c) 128) as [Hlo|Hhi].
  - assert (w = 1%nat) as ->.
    { unfold decodeRune in Hd. rewrite (proj2 (Z.ltb_lt _ _) Hlo) in Hd. by simplify_eq. }
    change (escBody (c :: t)) with (escByte c ++ escBody t). rewrite unquote_escByte by done.
    by rewrite (IH (length t)); [|simpl; lia|done|].
  - destruct Hb as [(_ & _ & ?)|[_ Hall]]; [lia|].
    pose proof (decodeRune_width _ _ _ Hd) as Hw. destruct w as [|w]; [lia|].
    assert (c :: t = take (S w) (c :: t) ++ drop w t) as Hst by (symmetry; apply (take_drop (S w) (c :: t))).
    rewrite Hst at 1. rewrite escBody_high by done.
    pose proof (decodeRune_take _ _ _ (escBody (drop w t)) Hd) as Hd'.
    cbn [take app] in Hd' |- *. cbn [unquoteBody].
    rewrite (proj2 (Z.eqb_neq (byteval c) 92)), (proj2 (Z.eqb_neq (byteval c) 34)),
      (proj2 (Z.ltb_ge (byteval c) 32)) by lia.
    simpl orb. cbv iota. rewrite Hd'. cbn [pred].
    assert (length (take w t) = w) as Hlen by (rewrite length_take; simpl in Hw; lia).
    rewrite unquoteBody_skip, drop_app_length' by done.
    rewrite (IH (length (drop w t))); [|rewrite length_drop; simpl; lia|done|done].
    cbn [take fmap option_fmap option_map]. rewrite take_app_length' by done. cbn [app]. by rewrite take_drop.
Qed.

Lemma litRun_escByte c s :
  litRun (Some InString) (escByte c ++ s) = litRun (Some InString) s.
Proof.
  assert (forall d, match litRun (Some InString) (escByte d) with Some (Some InString) => true | _ => false end = true) as Hall
    by (apply byte_all; vm_compute; reflexivity).
  rewrite litRun_app. specialize (Hall c). by destruct (litRun (Some InString) (escByte c)) as [[[]|]|].
Qed.

Lemma quoteJSON_key s : keyOK (quoteJSON s).
Proof.
  split; [|done]. unfold quoteJSON. simpl. unfold beginLit. simpl.
  enough (litRun (Some InString) (escBody (to_bytes s) ++ [byteof 34]) = Some None) as -> by done.
  induction (to_bytes s) as [|c l IH]; [done|].
  change (escBody (c :: l)) with (escByte c ++ escBody l). by rewrite <- app_assoc, litRun_escByte.
Qed.

Lemma unquote_quoteJSON s : validUTF8 s = true -> unquote (quoteJSON s) = Some (to_bytes s).
Proof.
  intros Hv. unfold unquote, quoteJSON. cbn [app]. rewrite rev_unit. simpl. rewrite rev_involutive.
  by apply unquote_escBody.
Qed.
