(* ===== verification/InstanceURI.v ===== *)
(** * Instance URIs ([src/internal/alloydb/instance.go], [ParseInstURI])

    The record, its two renderings, the pattern and the parser, and what the
    parser accepts: [wf_uri] describes the records it produces, [uri_bytes] the
    text they are found in. *)
From S2P Require Import Prelude GoRegexp ErrType.
#[local] Open Scope string_scope.
#[local] Open Scope list_scope.

Record InstanceURI := {
  project : string; region : string; cluster : string; name : string }.

#[export] Instance InstanceURI_eq_dec : EqDecision InstanceURI.
Proof. solve_decision. Defined.

(** Instance URIs are the keys of the dialer's cache. *)
#[export] Instance InstanceURI_countable : Countable InstanceURI.
Proof.
  apply (inj_countable' (fun i => (project i, region i, cluster i, name i))
    (fun '(p, r, c, n) => {| project := p; region := r; cluster := c; name := n |})).
  by intros [].
Defined.

(** [InstanceURI.URI] *)
Definition URI (i : InstanceURI) : string :=
  "projects/" +:+ project i +:+ "/locations/" +:+ region i +:+
  "/clusters/" +:+ cluster i +:+ "/instances/" +:+ name i.

(** [InstanceURI.String] *)
Definition URI_String (i : InstanceURI) : string :=
  project i +:+ "/" +:+ region i +:+ "/" +:+ cluster i +:+ "/" +:+ name i.

(** The zero value a failing parse returns. *)
Definition zeroURI : InstanceURI := {| project := ""; region := ""; cluster := ""; name := "" |}.

(** [[^:]], byte-wise. *)
Definition colon : byte := ":"%char.
Definition notColon (b : byte) : bool := bool_decide (b <> colon).

(** [instURIRegex]:
    [projects/([^:]+(:[^:]+)?)/locations/([^:]+)/clusters/([^:]+)/instances/([^:]+)] *)
Definition instURIRegex : regexp :=
  RCat (RLit (to_bytes "projects/"))
  (RCat (RGroup 1 (RCat (RPlus notColon)
           (ROpt (RGroup 2 (RCat (RLit (to_bytes ":")) (RPlus notColon))))))
  (RCat (RLit (to_bytes "/locations/"))
  (RCat (RGroup 3 (RPlus notColon))
  (RCat (RLit (to_bytes "/clusters/"))
  (RCat (RGroup 4 (RPlus notColon))
  (RCat (RLit (to_bytes "/instances/"))
        (RGroup 5 (RPlus notColon)))))))).

Definition invalidURI : string :=
  "invalid instance URI, expected projects/<PROJECT>/locations/<REGION>/clusters/<CLUSTER>/instances/<INSTANCE>".

(** [m[n]]: a group that took no part in the match is [nil], the empty string. *)
Definition submatch (m : gmap nat bytes) (n : nat) : string := of_bytes (default [] (m !! n)).

Definition ParseInstURI (cn : string) : res InstanceURI :=
  let b := to_bytes cn in
  match FindSubmatch instURIRegex b with
  | None => Fail (NewConfigError invalidURI cn)
  | Some m =>
      Ret {| project := submatch m 1; region := submatch m 3;
             cluster := submatch m 4; name := submatch m 5 |}
  end.

(** ** What the parser accepts *)

(** A non-empty run without a colon. *)
Definition segment (b : bytes) : Prop := b <> [] /\ Forall (fun x => notColon x = true) b.

(** A project is a segment or, domain-scoped, two segments joined by a colon. *)
Definition projectOK (b : bytes) : Prop :=
  segment b \/ exists d p, b = d ++ colon :: p /\ segment d /\ segment p.

Definition wf_uri (i : InstanceURI) : Prop :=
  projectOK (to_bytes (project i)) /\ segment (to_bytes (region i)) /\
  segment (to_bytes (cluster i)) /\ segment (to_bytes (name i)).

Lemma to_bytes_URI i :
  to_bytes (URI i) = to_bytes "projects/" ++ to_bytes (project i) ++ to_bytes "/locations/" ++
    to_bytes (region i) ++ to_bytes "/clusters/" ++ to_bytes (cluster i) ++
    to_bytes "/instances/" ++ to_bytes (name i).
Proof. unfold URI. by rewrite !to_bytes_app. Qed.

Lemma match_plus p s c m :
  m ∈ all_matches (RPlus p) s c <->
  exists run, s = run ++ m.1 /\ run <> [] /\ Forall (fun x => p x = true) run /\ m.2 = c.
Proof.
  simpl. rewrite list_elem_of_fmap. setoid_rewrite elem_of_plus_rests. destruct m as [s' c']; simpl.
  split.
  - intros (? & [= -> ->] & run & ? & ? & ?). by exists run.
  - intros (run & ? & ? & ? & ->). exists s'; split; [done|]. by exists run.
Qed.

Lemma match_lit w s c m : m ∈ all_matches (RLit w) s c <-> s = w ++ m.1 /\ m.2 = c.
Proof.
  simpl. destruct m as [s' c']. destruct (strip w s) as [t|] eqn:E; simpl.
  - apply strip_Some in E as ->. rewrite list_elem_of_singleton. split; [by intros [= -> ->]|].
    by intros [->%app_inv_head ->].
  - rewrite elem_of_nil. split; [done|]. intros [H ->].
    assert (strip w s = Some s') by (by apply strip_Some). congruence.
Qed.

Lemma match_cat r1 r2 s c m :
  m ∈ all_matches (RCat r1 r2) s c <->
  exists m1, m1 ∈ all_matches r1 s c /\ m ∈ all_matches r2 m1.1 m1.2.
Proof. simpl. rewrite list_elem_of_bind. split; intros (? & ? & ?); eauto. Qed.

Lemma match_group n r s c m :
  m ∈ all_matches (RGroup n r) s c <->
  exists m1, m1 ∈ all_matches r s c /\ m = (m1.1, <[n := consumed s m1.1]> m1.2).
Proof. simpl. rewrite list_elem_of_fmap. split; intros (? & ? & ?); eauto. Qed.

Lemma consumed_cons x q s : consumed (x :: q ++ s) s = x :: q.
Proof. apply (consumed_app (x :: q)). Qed.

Lemma consumed_mid d x q s : consumed (d ++ x :: q ++ s) s = d ++ x :: q.
Proof. pose proof (consumed_app (d ++ x :: q) s) as E. by rewrite <- app_assoc in E. Qed.

Lemma match_opt r s c m :
  m ∈ all_matches (ROpt r) s c <-> m ∈ all_matches r s c \/ m = (s, c).
Proof. simpl. by rewrite elem_of_app, list_elem_of_singleton. Qed.

#[local] Arguments all_matches : simpl never.

(** Group [n] over a class: the run it captures. *)
Lemma match_group_plus n p s c m :
  m ∈ all_matches (RGroup n (RPlus p)) s c <->
  exists run, s = run ++ m.1 /\ run <> [] /\ Forall (fun x => p x = true) run /\
    m.2 = <[n := run]> c.
Proof.
  rewrite match_group. setoid_rewrite match_plus. destruct m as [s' c']; simpl. split.
  - intros ([s1 c1] & (run & -> & ? & ? & ->) & [= -> ->]); simpl in *.
    exists run. by rewrite consumed_app.
  - intros (run & -> & ? & ? & ->). exists (s', c); simpl. rewrite consumed_app.
    split; [by exists run|done].
Qed.

(** Group 1: the project. *)
Lemma match_project s c m :
  m ∈ all_matches (RGroup 1 (RCat (RPlus notColon)
        (ROpt (RGroup 2 (RCat (RLit (to_bytes ":")) (RPlus notColon)))))) s c <->
  exists p, s = p ++ m.1 /\
    ((segment p /\ m.2 = <[1%nat := p]> c) \/
     exists d q, p = d ++ colon :: q /\ segment d /\ segment q /\
       m.2 = <[1%nat := p]> (<[2%nat := colon :: q]> c)).
Proof.
  rewrite match_group. setoid_rewrite match_cat. setoid_rewrite match_plus.
  destruct m as [s' c']; simpl. split.
  - intros ([s1 c1] & ([s2 c2] & (d & -> & ? & ? & ->) & Hopt) & [= -> ->]); simpl in *.
    apply match_opt in Hopt as [Ho|[= -> ->]].
    + apply (match_group 2 (RCat _ _) _ _ (_, _)) in Ho as ([s3 c3] & Hm & [= -> ->]).
      apply match_cat in Hm as ([s4 c4] & [Hl Hc]%match_lit & (q & Hq & ? & ? & Hc')%match_plus).
      simpl in *; subst. exists (d ++ colon :: q). rewrite <- app_assoc; simpl.
      split; [done|]. right; exists d, q. repeat split; auto.
      by rewrite consumed_cons, consumed_mid.
    + exists d. split; [done|]. left. by rewrite consumed_app.
  - intros (p & -> & [[[? ?] ->]|(d & q & -> & [? ?] & [? ?] & ->)]).
    + exists (s', c); simpl. rewrite consumed_app. split; [|done].
      exists (s', c); simpl; split; [by exists p|]. apply match_opt. by right.
    + exists (s', <[2%nat := colon :: q]> c); simpl. rewrite consumed_app. split; [|done].
      exists ((colon :: q) ++ s', c); simpl. rewrite <- app_assoc. split; [by exists d|].
      apply match_opt; left. apply match_group. exists (s', c).
      rewrite match_cat. setoid_rewrite match_lit. setoid_rewrite match_plus. split.
      * exists (q ++ s', c); simpl. split; [done|]. by exists q.
      * simpl. by rewrite consumed_cons.
Qed.

(** The record a set of submatches stands for, as the parser builds it. *)
Definition uri_of (m : gmap nat bytes) : InstanceURI :=
  {| project := submatch m 1; region := submatch m 3;
     cluster := submatch m 4; name := submatch m 5 |}.

Lemma submatch_eq m n b : m !! n = Some b -> submatch m n = of_bytes b.
Proof. intros H. unfold submatch. by rewrite H. Qed.

Lemma uri_of_eq m p r c n :
  m !! 1%nat = Some p -> m !! 3%nat = Some r -> m !! 4%nat = Some c -> m !! 5%nat = Some n ->
  uri_of m = {| project := of_bytes p; region := of_bytes r;
                cluster := of_bytes c; name := of_bytes n |}.
Proof.
  intros. unfold uri_of.
  by erewrite (submatch_eq m 1), (submatch_eq m 3), (submatch_eq m 4), (submatch_eq m 5).
Qed.

Lemma match_uri_sound s m :
  m ∈ all_matches instURIRegex s ∅ ->
  wf_uri (uri_of m.2) /\ s = to_bytes (URI (uri_of m.2)) ++ m.1.
Proof.
  unfold instURIRegex. destruct m as [z cs]; cbn [fst snd]. intros H.
  apply match_cat in H as ([s1 c1] & [H1 Hc1]%match_lit & H).
  apply match_cat in H as ([s2 c2] & (p & H2 & Hp)%match_project & H).
  apply match_cat in H as ([s3 c3] & [H3 Hc3]%match_lit & H).
  apply match_cat in H as ([s4 c4] & (r & H4 & Hr1 & Hr2 & Hc4)%match_group_plus & H).
  apply match_cat in H as ([s5 c5] & [H5 Hc5]%match_lit & H).
  apply match_cat in H as ([s6 c6] & (c & H6 & Hk1 & Hk2 & Hc6)%match_group_plus & H).
  apply match_cat in H as ([s7 c7] & [H7 Hc7]%match_lit & H).
  apply match_group_plus in H as (n & H8 & Hn1 & Hn2 & Hc8); cbn [fst snd] in *; subst.
  assert (projectOK p /\ c2 !! 1%nat = Some p) as [Hp' Hc2].
  { destruct Hp as [[? ->]|(d & q & -> & ? & ? & ->)]; rewrite lookup_insert_eq;
      (split; [|done]); [by left|right; eauto]. }
  rewrite (uri_of_eq _ p r c n) by (by simplify_map_eq).
  rewrite to_bytes_URI; unfold wf_uri; cbn [project region cluster name].
  rewrite !to_of_bytes. split; [done|].
  by rewrite <- !app_assoc.
Qed.

Lemma match_uri_complete i z :
  wf_uri i -> exists cs, (z, cs) ∈ all_matches instURIRegex (to_bytes (URI i) ++ z) ∅ /\ uri_of cs = i.
Proof.
  intros (Hp & [Hr1 Hr2] & [Hk1 Hk2] & [Hn1 Hn2]).
  rewrite to_bytes_URI, <- !app_assoc.
  set (p := to_bytes (project i)) in *. set (r := to_bytes (region i)) in *.
  set (c := to_bytes (cluster i)) in *. set (n := to_bytes (name i)) in *.
  assert (exists c2, c2 !! 1%nat = Some p /\ forall s', (s', c2) ∈
    all_matches (RGroup 1 (RCat (RPlus notColon)
        (ROpt (RGroup 2 (RCat (RLit (to_bytes ":")) (RPlus notColon)))))) (p ++ s') ∅)
    as (c2 & Hc2 & Hm2).
  { destruct Hp as [?|(d & q & Hpe & ? & ?)].
    - exists (<[1%nat := p]> ∅). rewrite lookup_insert_eq; split; [done|]. intros s'.
      apply match_project. exists p; split; [done|]. by left.
    - exists (<[1%nat := p]> (<[2%nat := colon :: q]> ∅)). rewrite lookup_insert_eq; split; [done|].
      intros s'. apply match_project. exists p; split; [done|].
      right. by exists d, q. }
  exists (<[5%nat := n]> (<[4%nat := c]> (<[3%nat := r]> c2))). split.
  - unfold instURIRegex. apply match_cat. eexists (_, _); split; [by apply match_lit|].
    apply match_cat. eexists (_, _); split; [apply Hm2|].
    apply match_cat. eexists (_, _); split; [by apply match_lit|].
    apply match_cat. eexists (_, _); split; [apply match_group_plus; exists r; split_and!; done|].
    apply match_cat. eexists (_, _); split; [by apply match_lit|].
    apply match_cat. eexists (_, _); split; [apply match_group_plus; exists c; split_and!; done|].
    apply match_cat. eexists (_, _); split; [by apply match_lit|].
    apply match_group_plus. by exists n.
  - rewrite (uri_of_eq _ p r c n) by (by simplify_map_eq).
    unfold p, r, c, n. rewrite !of_to_bytes. by destruct i.
Qed.

Lemma head_cat r1 r2 s c m :
  head (all_matches (RCat r1 r2) s c) = Some m ->
  exists m1, m1 ∈ all_matches r1 s c /\ head (all_matches r2 m1.1 m1.2) = Some m.
Proof.
  change (all_matches (RCat r1 r2) s c)
    with (all_matches r1 s c ≫= fun m1 => all_matches r2 m1.1 m1.2).
  induction (all_matches r1 s c) as [|m1 l IH]; [done|].
  rewrite bind_cons. destruct (all_matches r2 m1.1 m1.2) as [|m2 l2] eqn:E.
  - intros (m' & ? & ?)%IH. exists m'; split; [by right|done].
  - intros [= ->]. exists m1; split; [by left|]. by rewrite E.
Qed.

Lemma head_plus_rests p s s' :
  head (plus_rests p s) = Some s' -> match s' with [] => True | x :: _ => p x = false end.
Proof.
  revert s'; induction s as [|x s IH]; intros s'; simpl; [done|].
  destruct (p x) eqn:E; [|done]. destruct (plus_rests p s) as [|t l] eqn:Ep; simpl.
  - intros [= <-]. destruct s as [|y s]; [done|]. simpl in Ep.
    destruct (p y); [|done]. by apply app_nil in Ep as [_ ?].
  - intros [= <-]. by apply IH.
Qed.

(** The parser's last group runs up to a colon or the end of the input. *)
Lemma head_uri_rest s z cs :
  head (all_matches instURIRegex s ∅) = Some (z, cs) ->
  match z with [] => True | x :: _ => x = colon end.
Proof.
  unfold instURIRegex. intros H.
  do 7 apply head_cat in H as (?m & _ & H).
  change (all_matches (RGroup 5 (RPlus notColon)) ?s ?c) with
    ((fun m => (m.1, <[5%nat := consumed s m.1]> m.2)) <$> ((fun s' => (s', c)) <$> plus_rests notColon s)) in H.
  destruct (plus_rests notColon _) as [|t l] eqn:E; [done|]. injection H as -> _.
  pose proof (head_plus_rests notColon _ z ltac:(by rewrite E)) as Hz.
  destruct z as [|x z]; [done|]. unfold notColon in Hz.
  apply bool_decide_eq_false in Hz. by apply dec_stable in Hz.
Qed.

(** ** The parser as a whole *)

Lemma ParseInstURI_Ret s i :
  ParseInstURI s = Ret i <->
  exists pre rest z cs, to_bytes s = pre ++ rest /\
    head (all_matches instURIRegex rest ∅) = Some (z, cs) /\ i = uri_of cs /\
    forall pre1 s1, to_bytes s = pre1 ++ s1 -> (length pre1 < length pre)%nat ->
      match_here instURIRegex s1 = None.
Proof.
  unfold ParseInstURI. split.
  - destruct (FindSubmatch instURIRegex (to_bytes s)) as [m|] eqn:E; [|done]. intros [= <-].
    apply FindSubmatch_Some in E as (pre & rest & Hs & Hm & Hmin).
    apply match_here_Some in Hm as (z & cs & Hh & ->).
    exists pre, rest, z, cs. split_and!; auto. unfold uri_of, submatch. by simplify_map_eq.
  - intros (pre & rest & z & cs & Hs & Hh & -> & Hmin).
    assert (FindSubmatch instURIRegex (to_bytes s) = Some (<[0%nat := consumed rest z]> cs)) as ->.
    { apply FindSubmatch_Some. exists pre, rest. split_and!; auto.
      apply match_here_Some. eauto. }
    unfold uri_of, submatch. by simplify_map_eq.
Qed.

Lemma ParseInstURI_noPanic s : isPanic (ParseInstURI s) = false.
Proof. unfold ParseInstURI. by case_match. Qed.

Lemma of_bytes_inj_r s b : to_bytes s = b -> s = of_bytes b.
Proof. intros <-. by rewrite of_to_bytes. Qed.

Lemma parse_decompose s i :
  ParseInstURI s = Ret i ->
  exists pre z, to_bytes s = pre ++ to_bytes (URI i) ++ z /\ wf_uri i /\
    (match z with [] => True | x :: _ => x = colon end).
Proof.
  intros (pre & rest & z & cs & Hs & Hh & -> & _)%ParseInstURI_Ret.
  assert ((z, cs) ∈ all_matches instURIRegex rest ∅) as [Hwf Hrest]%match_uri_sound.
  { destruct (all_matches instURIRegex rest ∅) as [|m l]; [done|]. injection Hh as ->. by left. }
  apply head_uri_rest in Hh. exists pre, z. by rewrite Hs, Hrest.
Qed.

(** When the text starts with a URI, the match is found right there. *)
Lemma parse_here i z :
  wf_uri i -> exists z' j, ParseInstURI (of_bytes (to_bytes (URI i) ++ z)) = Ret j /\
    to_bytes (URI i) ++ z = to_bytes (URI j) ++ z' /\ wf_uri j /\
    (match z' with [] => True | x :: _ => x = colon end).
Proof.
  intros Hwf. destruct (match_uri_complete i z Hwf) as (cs0 & Hin & _).
  destruct (all_matches instURIRegex (to_bytes (URI i) ++ z) ∅) as [|[z' cs] l] eqn:E;
    [by apply elem_of_nil in Hin|].
  exists z', (uri_of cs). split.
  - apply ParseInstURI_Ret. exists [], (to_bytes (URI i) ++ z), z', cs.
    rewrite to_of_bytes, E. split_and!; auto. simpl; lia.
  - destruct (match_uri_sound (to_bytes (URI i) ++ z) (z', cs)) as [? Heq].
    { rewrite E. by left. }
    split_and!; auto. apply (head_uri_rest (to_bytes (URI i) ++ z) z' cs). by rewrite E.
Qed.

(** C29: what a successful parse means. The text contains, at some position, the URI
    of the result, every component of which is non-empty and free of colons but for
    the one of a domain-scoped project, and the name extends to a colon or to the
    end of the text. *)
Theorem ParseInstURI_sound s i (H : ParseInstURI s = Ret i) :
  exists pre post, s = (pre +:+ URI i +:+ post)%string /\ wf_uri i /\
    (post = "" \/ exists t, post = String colon t).
Proof.
  apply parse_decompose in H as (pre & z & Hs & Hwf & Hz).
  exists (of_bytes pre), (of_bytes z). split_and!; [|done|].
  - apply of_bytes_inj_r in Hs. rewrite Hs, !of_bytes_app, of_to_bytes. done.
  - destruct z as [|x z]; [by left|right]. subst x. by exists (of_bytes z).
Qed.

(** C28: the parser fails exactly on the texts that contain no instance URI, with a
    [ConfigError] that names the text; it never panics. *)
Theorem ParseInstURI_error s :
  match ParseInstURI s with
  | Ret _ => exists pre i post, wf_uri i /\ s = (pre +:+ URI i +:+ post)%string
  | Fail e => e = NewConfigError invalidURI s /\
              forall pre i post, wf_uri i -> s <> (pre +:+ URI i +:+ post)%string
  | Panic _ => False
  end.
Proof.
  destruct (ParseInstURI s) as [i|e|w] eqn:E.
  - apply parse_decompose in E as (pre & z & Hs & Hwf & _).
    exists (of_bytes pre), i, (of_bytes z). split; [done|].
    apply of_bytes_inj_r in Hs. rewrite Hs, !of_bytes_app, of_to_bytes. done.
  - unfold ParseInstURI in E.
    destruct (FindSubmatch instURIRegex (to_bytes s)) eqn:Ef; [done|].
    injection E as <-. split; [done|]. intros pre i post Hwf ->.
    rewrite !to_bytes_app in Ef.
    pose proof (proj1 (FindSubmatch_None _ _) Ef (to_bytes pre) _ eq_refl) as Hnil.
    destruct (match_uri_complete i (to_bytes post) Hwf) as (cs & Hin & _).
    rewrite Hnil in Hin. by apply elem_of_nil in Hin.
  - by pose proof (ParseInstURI_noPanic s) as Hp; rewrite E in Hp.
Qed.

(** The URI of a parsed instance parses back to it, whatever text it was found
    in and whichever way the greedy pattern split it. *)
Theorem ParseInstURI_canonical s i (H : ParseInstURI s = Ret i) :
  ParseInstURI (URI i) = Ret i.
Proof.
  apply ParseInstURI_Ret in H as (pre & rest & z & cs & Hs & Hh & -> & _).
  assert ((z, cs) ∈ all_matches instURIRegex rest ∅) as [Hwf Hrest]%match_uri_sound.
  { destruct (all_matches instURIRegex rest ∅) as [|m l]; [done|]. injection Hh as ->. by left. }
  cbn [fst snd] in *. subst rest. apply match_here_cut in Hh.
  unfold ParseInstURI. rewrite (FindSubmatch_here _ _ _ Hh).
  f_equal. unfold submatch. by rewrite !lookup_insert_ne by done.
Qed.

(** *** Components without slashes *)

Definition slash : byte := "/"%char.
Definition slashes (b : bytes) : nat := length (filter (fun x => x = slash) b).
Definition noSlash (s : string) : Prop := slashes (to_bytes s) = 0%nat.

Lemma slashes_app a b : slashes (a ++ b) = (slashes a + slashes b)%nat.
Proof. unfold slashes. by rewrite list.filter_app, length_app. Qed.

Lemma slashes_cons x b : slashes (x :: b) = ((if decide (x = slash) then 1 else 0) + slashes b)%nat.
Proof. unfold slashes. rewrite list.filter_cons. by case_decide. Qed.

(** Two texts cut at their first slash. *)
Lemma app_slash_inj a b x y :
  slashes a = 0%nat -> slashes b = 0%nat -> a ++ slash :: x = b ++ slash :: y -> a = b /\ x = y.
Proof.
  revert b; induction a as [|c a IH]; intros [|d b]; simpl; rewrite ?slashes_cons.
  - by intros _ _ [= ->].
  - intros _ Hb [= <- _]. by rewrite decide_True in Hb.
  - intros Ha _ [= -> _]. by rewrite decide_True in Ha.
  - intros Ha Hb [= -> E]. case_decide; [lia|].
    by apply IH in E as [-> ->]; [|lia..].
Qed.

(** A URI seen as its slash-separated fields. *)
Lemma to_bytes_URI_fields i :
  to_bytes (URI i) = to_bytes "projects" ++ slash :: to_bytes (project i) ++
    slash :: to_bytes "locations" ++ slash :: to_bytes (region i) ++
    slash :: to_bytes "clusters" ++ slash :: to_bytes (cluster i) ++
    slash :: to_bytes "instances" ++ slash :: to_bytes (name i).
Proof. by rewrite to_bytes_URI. Qed.

Lemma slashes_URI i :
  slashes (to_bytes (URI i)) = (7 + slashes (to_bytes (project i)) + slashes (to_bytes (region i)) +
    slashes (to_bytes (cluster i)) + slashes (to_bytes (name i)))%nat.
Proof.
  rewrite to_bytes_URI, !slashes_app.
  change (slashes (to_bytes "projects/")) with 1%nat.
  change (slashes (to_bytes "/locations/")) with 2%nat.
  change (slashes (to_bytes "/clusters/")) with 2%nat.
  change (slashes (to_bytes "/instances/")) with 2%nat. lia.
Qed.

Lemma segment_no_colon n z :
  segment (n ++ z) -> match z with [] => True | x :: _ => x = colon end -> z = [].
Proof.
  intros [_ H] Hz. destruct z as [|x z]; [done|]. subst x.
  apply list.Forall_app in H as [_ H]. apply list.Forall_cons_1 in H as [H _]. done.
Qed.

(** C30: round trip. The URI of a record with well-formed, slash-free components
    parses back to exactly this record. *)
Theorem ParseInstURI_URI i (Hwf : wf_uri i)
    (Hs : noSlash (project i) /\ noSlash (region i) /\ noSlash (cluster i) /\ noSlash (name i)) :
  ParseInstURI (URI i) = Ret i.
Proof.
  destruct (parse_here i [] Hwf) as (z & j & Hj & Heq & _ & Hz).
  rewrite app_nil_r in *. rewrite of_to_bytes in Hj. rewrite Hj. f_equal.
  destruct Hs as (Hp & Hr & Hk & Hn). unfold noSlash in *.
  pose proof (f_equal slashes Heq) as Hc. rewrite slashes_app, !slashes_URI in Hc.
  rewrite !to_bytes_URI_fields in Heq.
  repeat (rewrite <- app_assoc in Heq || rewrite <- app_comm_cons in Heq).
  do 7 (apply app_slash_inj in Heq as [? Heq]; [|done || lia..]).
  destruct Hwf as (_ & _ & _ & Hseg). rewrite Heq in Hseg.
  apply segment_no_colon in Hseg as ->; [|done]. rewrite app_nil_r in Heq.
  destruct i, j; simpl in *. f_equal; by apply (inj to_bytes).
Qed.

Lemma ParseInstURI_sound_witness :
  let s := "xx projects/google.com:proj/locations/reg/clusters/clust/instances/name:rest"%string in
  let i := {| project := "google.com:proj"; region := "reg"; cluster := "clust"; name := "name" |} in
  ParseInstURI s = Ret i /\
  exists pre post, s = (pre +:+ URI i +:+ post)%string /\ wf_uri i /\
    (post = "" \/ exists t, post = String colon t).
Proof.
  intros s i. assert (ParseInstURI s = Ret i) as H by (vm_compute; reflexivity).
  split; [exact H|]. exact (ParseInstURI_sound s i H).
Defined.

(** A region with a slash: the greedy project group takes the first fields. *)
Lemma ParseInstURI_canonical_witness :
  let s := "projects/a/locations/b/locations/c/clusters/d/instances/e"%string in
  let i := {| project := "a/locations/b"; region := "c"; cluster := "d"; name := "e" |} in
  ParseInstURI s = Ret i /\ ParseInstURI (URI i) = Ret i.
Proof.
  intros s i. assert (ParseInstURI s = Ret i) as H by (vm_compute; reflexivity).
  split; [exact H|]. exact (ParseInstURI_canonical s i H).
Defined.

Lemma ParseInstURI_URI_witness :
  let i := {| project := "google.com:proj"; region := "reg"; cluster := "clust"; name := "name" |} in
  ParseInstURI (URI i) = Ret i.
Proof.
  intros i. apply (ParseInstURI_URI i).
  - unfold wf_uri. split_and!;
      [right; exists (to_bytes "google.com"), (to_bytes "proj")|..];
      try split_and!; try split; try done; repeat constructor.
  - split_and!; reflexivity.
Defined.
