(* ===== verification/Refresh.v ===== *)
(** * Fetching connection info ([src/internal/alloydb/refresh.go])

    [fetchInstanceInfo] and [fetchClientCertificate] are functions of the Admin
    API's answers; [connectionInfo], which runs them in two goroutines and selects
    on two channels and a context, is a transition system whose schedules are
    lists of actions. *)
From S2P Require Import Prelude GoTime ErrType InstanceURI.
#[local] Open Scope string_scope.
#[local] Open Scope list_scope.
#[local] Open Scope Z_scope.

(** ** Packages that are not modelled: [crypto/x509], [crypto/tls], [encoding/pem]

    Certificates and keys are opaque; the functions the connector calls are
    arguments of the model. *)
Class CryptoLib := {
  Certificate : Type;                                (* x509.Certificate *)
  PrivateKey : Type;                                 (* rsa.PrivateKey *)
  NotAfter : Certificate -> Time;
  ParseCertificate : bytes -> res Certificate;
  MarshalPKCS1PublicKey : PrivateKey -> bytes;       (* of its public half *)
  MarshalPKCS1PrivateKey : PrivateKey -> bytes;
  pemEncode : string -> bytes -> res string;         (* block type, block bytes *)
  pemEncodeToMemory : string -> bytes -> string;
  pemDecode : string -> option bytes;                (* bytes of the first block *)
  KeyPair : string -> string -> res (list bytes * PrivateKey)  (* tls.X509KeyPair *)
}.

(** The Admin API client, at one call: its two methods. *)
Record GetConnectionInfoResponse := {
  IpAddress : string; PublicIpAddress : string; PscDnsName : string; InstanceUid : string }.

Record GenerateClientCertificateRequest := {
  Parent : string; PublicKeyPEM : string; CertDuration : Duration; UseMetadataExchange : bool }.

Record GenerateClientCertificateResponse := {
  PemCertificateChain : list string; CaCert : string }.

Record AlloyDBAdminClient := {
  GetConnectionInfo : string -> res GetConnectionInfoResponse;
  GenerateClientCertificate :
    GenerateClientCertificateRequest -> res GenerateClientCertificateResponse }.

(** ** Instance metadata *)

Definition PublicIP : string := "PUBLIC".
Definition PrivateIP : string := "PRIVATE".
Definition PSC : string := "PSC".

Record instanceInfo := { ipAddrs : gmap string string; uid : string }.

Definition zeroInstanceInfo : instanceInfo := {| ipAddrs := ∅; uid := "" |}.

(** [if addr := ...; addr != "" { ipAddrs[k] = addr }] *)
Definition addAddr (k addr : string) (m : gmap string string) : gmap string string :=
  if decide (addr = "") then m else <[k := addr]> m.

Definition fetchInstanceInfo (cl : AlloyDBAdminClient) (inst : InstanceURI) : res instanceInfo :=
  let req := "projects/" +:+ project inst +:+ "/locations/" +:+ region inst +:+
             "/clusters/" +:+ cluster inst +:+ "/instances/" +:+ name inst in
  wrapErr (fun err => NewRefreshError "failed to get instance metadata" (URI_String inst) (Some err))
    (GetConnectionInfo cl req) ≫= fun resp =>
  let m := ∅ in
  let m := addAddr PrivateIP (IpAddress resp) m in
  let m := addAddr PublicIP (PublicIpAddress resp) m in
  let m := addAddr PSC (PscDnsName resp) m in
  if decide (size m = 0%nat) then
    Fail (NewConfigError "cannot connect to instance - it has no supported IP addresses"
            (URI_String inst))
  else Ret {| ipAddrs := m; uid := InstanceUid resp |}.

(** ** Channels *)

(** A channel of capacity 1. *)
Record chan (A : Type) := { buf : option A; closed : bool }.
Arguments buf {_} _.
Arguments closed {_} _.
Definition newChan {A} : chan A := {| buf := None; closed := false |}.

(** A receive from a channel of capacity 1: the buffered value, the zero value
    when it is closed and drained ([Some None]), or it blocks. *)
Definition recv {A} (c : chan A) : option (option A * chan A) :=
  match buf c with
  | Some v => Some (Some v, {| buf := None; closed := closed c |})
  | None => if closed c then Some (None, c) else None
  end.

(** A send: blocks while the buffer is full. *)
Definition send {A} (v : A) (c : chan A) : option (chan A) :=
  match buf c with Some _ => None | None => Some {| buf := Some v; closed := closed c |} end.

Definition close {A} (c : chan A) : chan A := {| buf := buf c; closed := true |}.

Section Certificates.
Context `{CryptoLib}.

(** [tls.Certificate] *)
Record tlsCertificate := {
  tlsChain : list bytes; tlsKey : option PrivateKey; Leaf : option Certificate }.

Record clientCertificate := {
  certChain : tlsCertificate; caCert : Certificate; expiry : Time }.

Definition parseCert (cert : string) : res Certificate :=
  match pemDecode cert with
  | None => Fail ErrInvalidPEM
  | Some b => ParseCertificate b
  end.

Definition createFailed (inst : InstanceURI) (err : error) : error :=
  NewRefreshError "create ephemeral cert failed" (URI_String inst) (Some err).

Definition newClientCertificate (inst : InstanceURI) (keyPEM : string) (chain : list string)
    (caCertRaw : string) : res clientCertificate :=
  let certPEMBlock := String.concat (String "010" "") chain in
  wrapErr (createFailed inst) (KeyPair certPEMBlock keyPEM) ≫= fun '(der, key) =>
  match pemDecode caCertRaw with
  | None => Fail (createFailed inst (ErrorsNew "no PEM data found in the ca cert"))
  | Some caBytes =>
    wrapErr (createFailed inst) (ParseCertificate caBytes) ≫= fun ca =>
    match chain with
    | [] => Panic "index out of range [0] with length 0"
    | first :: _ =>
      match pemDecode first with
      | None => Fail (createFailed inst (ErrorsNew "no PEM data found in the client cert"))
      | Some clientBytes =>
        wrapErr (createFailed inst) (ParseCertificate clientBytes) ≫= fun clientCert =>
        Ret {| certChain := {| tlsChain := der; tlsKey := Some key; Leaf := Some clientCert |};
               caCert := ca;
               expiry := NotAfter clientCert |}
      end
    end
  end.

Definition fetchClientCertificate (cl : AlloyDBAdminClient) (inst : InstanceURI)
    (key : PrivateKey) (disableMetadataExchange : bool) : res clientCertificate :=
  pemEncode "RSA PUBLIC KEY" (MarshalPKCS1PublicKey key) ≫= fun pub =>
  let req := {|
    Parent := "projects/" +:+ project inst +:+ "/locations/" +:+ region inst +:+
              "/clusters/" +:+ cluster inst;
    PublicKeyPEM := pub;
    CertDuration := Second * 3600;
    UseMetadataExchange := negb disableMetadataExchange |} in
  wrapErr (createFailed inst) (GenerateClientCertificate cl req) ≫= fun resp =>
  let keyPEM := pemEncodeToMemory "RSA PRIVATE KEY" (MarshalPKCS1PrivateKey key) in
  newClientCertificate inst keyPEM (PemCertificateChain resp) (CaCert resp).

(** [adminAPIClient]: the state a refresh reads. *)
Record adminAPIClient := {
  client : AlloyDBAdminClient; key : PrivateKey; dialerID : string;
  disableMetadataExchange : bool }.

Definition newAdminAPIClient (c : AlloyDBAdminClient) (k : PrivateKey) (id : string)
    (disable : bool) : adminAPIClient :=
  {| client := c; key := k; dialerID := id; disableMetadataExchange := disable |}.

(** A [*x509.CertPool] is [nil] or the list of certificates added to it. *)
Record ConnectionInfo := {
  Instance : InstanceURI;
  IPAddrs : gmap string string;
  ClientCert : tlsCertificate;
  RootCAs : option (list Certificate);
  Expiration : Time }.

Definition zeroConnectionInfo : ConnectionInfo :=
  {| Instance := zeroURI; IPAddrs := ∅;
     ClientCert := {| tlsChain := []; tlsKey := None; Leaf := None |};
     RootCAs := None; Expiration := zeroTime |}.

(** ** [connectionInfo]: two producers, one consumer, a context *)

(** A producer goroutine: about to send what it fetched, about to close its
    channel (the deferred call), finished. *)
Inductive producer := Fetching | Sent | Finished.

(** The calling goroutine: at the first select, at the second, returned. *)
Inductive consumer :=
| SelectMd
| SelectCert (info : instanceInfo)
| Returned (r : res ConnectionInfo).

Record refreshState := {
  mdG : producer; mdCh : chan (res instanceInfo);
  certG : producer; certCh : chan (res clientCertificate);
  ctxErr : option error;
  mainG : consumer }.

Inductive refreshAction :=
| MdSend | MdClose | CertSend | CertClose
| CtxDone (e : error)
| MainRecv     (* the receive case of the current select *)
| MainCtx.     (* its [<-ctx.Done()] case *)

(** The last lines of [connectionInfo]. *)
Definition assemble (i : InstanceURI) (info : instanceInfo) (cc : clientCertificate)
    : ConnectionInfo :=
  {| Instance := i; IPAddrs := ipAddrs info; ClientCert := certChain cc;
     RootCAs := Some [caCert cc]; Expiration := expiry cc |}.

Section ConnectionInfo.
(** The instance, and what the two fetches return in this run. (A fetch that panics, which
    only a library's code can make it do, ends the process in Go, wherever the others are;
    here its panic takes the way of its result.) *)
Context (i : InstanceURI) (mdOut : res instanceInfo) (certOut : res clientCertificate).

Definition refreshInit : refreshState :=
  {| mdG := Fetching; mdCh := newChan; certG := Fetching; certCh := newChan;
     ctxErr := None; mainG := SelectMd |}.

Definition afterMd (r : option (res instanceInfo)) : consumer :=
  match r with
  | None => SelectCert zeroInstanceInfo
  | Some (Ret info) => SelectCert info
  | Some (Fail e) => Returned (Fail (WrapError "failed to get instance IP address: " e))
  | Some (Panic w) => Returned (Panic w)
  end.

Definition afterCert (info : instanceInfo) (r : option (res clientCertificate)) : consumer :=
  match r with
  | None => Returned (Panic "nil pointer dereference")
  | Some (Ret cc) => Returned (Ret (assemble i info cc))
  | Some (Fail e) => Returned (Fail (WrapError "fetch ephemeral cert failed: " e))
  | Some (Panic w) => Returned (Panic w)
  end.

Definition refreshExec (a : refreshAction) (s : refreshState) : option refreshState :=
  match a with
  | MdSend =>
    match mdG s with
    | Fetching =>
      (fun c => {| mdG := Sent; mdCh := c; certG := certG s; certCh := certCh s;
                   ctxErr := ctxErr s; mainG := mainG s |}) <$> send mdOut (mdCh s)
    | _ => None
    end
  | MdClose =>
    match mdG s with
    | Sent => Some {| mdG := Finished; mdCh := close (mdCh s); certG := certG s;
                      certCh := certCh s; ctxErr := ctxErr s; mainG := mainG s |}
    | _ => None
    end
  | CertSend =>
    match certG s with
    | Fetching =>
      (fun c => {| mdG := mdG s; mdCh := mdCh s; certG := Sent; certCh := c;
                   ctxErr := ctxErr s; mainG := mainG s |}) <$> send certOut (certCh s)
    | _ => None
    end
  | CertClose =>
    match certG s with
    | Sent => Some {| mdG := mdG s; mdCh := mdCh s; certG := Finished;
                      certCh := close (certCh s); ctxErr := ctxErr s; mainG := mainG s |}
    | _ => None
    end
  | CtxDone e =>
    match ctxErr s with
    | None => Some {| mdG := mdG s; mdCh := mdCh s; certG := certG s; certCh := certCh s;
                      ctxErr := Some e; mainG := mainG s |}
    | Some _ => None
    end
  | MainRecv =>
    match mainG s with
    | SelectMd =>
      '(r, c) ← recv (mdCh s);
      Some {| mdG := mdG s; mdCh := c; certG := certG s; certCh := certCh s;
              ctxErr := ctxErr s; mainG := afterMd r |}
    | SelectCert info =>
      '(r, c) ← recv (certCh s);
      Some {| mdG := mdG s; mdCh := mdCh s; certG := certG s; certCh := c;
              ctxErr := ctxErr s; mainG := afterCert info r |}
    | Returned _ => None
    end
  | MainCtx =>
    match mainG s, ctxErr s with
    | (SelectMd | SelectCert _), Some e =>
      Some {| mdG := mdG s; mdCh := mdCh s; certG := certG s; certCh := certCh s;
              ctxErr := ctxErr s;
              mainG := Returned (Fail (WrapError "refresh failed: " e)) |}
    | _, _ => None
    end
  end.

(** A schedule: the actions in the order they happen. *)
Fixpoint refreshRun (acts : list refreshAction) (s : refreshState) : option refreshState :=
  match acts with
  | [] => Some s
  | a :: acts => refreshExec a s ≫= refreshRun acts
  end.

(** What [connectionInfo] returns when its context is not done. *)
Definition connectionInfoResult : res ConnectionInfo :=
  wrapErr (WrapError "failed to get instance IP address: ") mdOut ≫= fun info =>
  wrapErr (WrapError "fetch ephemeral cert failed: ") certOut ≫= fun cc =>
  Ret (assemble i info cc).

(** The result once the calling goroutine has returned. *)
Definition returned (s : refreshState) : option (res ConnectionInfo) :=
  match mainG s with Returned r => Some r | _ => None end.
End ConnectionInfo.

(** [adminAPIClient.connectionInfo] with an undisturbed context. *)
Definition connectionInfo (c : adminAPIClient) (i : InstanceURI) : res ConnectionInfo :=
  connectionInfoResult i (fetchInstanceInfo (client c) i)
    (fetchClientCertificate (client c) i (key c) (disableMetadataExchange c)).
End Certificates.

(** ** Instance metadata: what a successful answer is turned into *)

(** The address the API's answer gives for an IP type. *)
Definition respAddr (r : GetConnectionInfoResponse) (k : string) : option string :=
  let nonEmpty s := if decide (s = "") then None else Some s in
  if decide (k = PrivateIP) then nonEmpty (IpAddress r)
  else if decide (k = PublicIP) then nonEmpty (PublicIpAddress r)
  else if decide (k = PSC) then nonEmpty (PscDnsName r)
  else None.

Lemma addrs_lookup r k :
  addAddr PSC (PscDnsName r) (addAddr PublicIP (PublicIpAddress r)
    (addAddr PrivateIP (IpAddress r) ∅)) !! k = respAddr r k.
Proof.
  unfold addAddr, respAddr.
  repeat case_decide; subst; by simplify_map_eq.
Qed.

(** The metadata fetch asks for exactly the instance's URI. It succeeds iff the
    API answers with at least one address, and then maps each IP type to the
    non-empty address given for it; otherwise it returns a [RefreshError] that wraps
    the API's error or, for an answer without addresses, a [ConfigError]. *)
Theorem fetchInstanceInfo_spec cl inst :
  match GetConnectionInfo cl (URI inst) with
  | Ret r =>
    match fetchInstanceInfo cl inst with
    | Ret info => uid info = InstanceUid r /\ (forall k, ipAddrs info !! k = respAddr r k) /\
                  exists k a, ipAddrs info !! k = Some a /\ a <> ""
    | Fail e => (forall k, respAddr r k = None) /\
        e = NewConfigError "cannot connect to instance - it has no supported IP addresses"
              (URI_String inst)
    | Panic _ => False
    end
  | Fail e => fetchInstanceInfo cl inst =
      Fail (NewRefreshError "failed to get instance metadata" (URI_String inst) (Some e))
  | Panic w => fetchInstanceInfo cl inst = Panic w
  end.
Proof.
  unfold fetchInstanceInfo. fold (URI inst).
  destruct (GetConnectionInfo cl (URI inst)) as [r|e|w]; cbn [wrapErr mbind res_bind]; try done.
  case_decide as Hsz.
  - split; [|done]. intros k. apply map_size_empty_iff in Hsz.
    by rewrite <- addrs_lookup, Hsz, lookup_empty.
  - cbn [uid ipAddrs]. split_and!; [done|apply addrs_lookup|].
    destruct (map_choose (addAddr PSC (PscDnsName r) (addAddr PublicIP (PublicIpAddress r)
      (addAddr PrivateIP (IpAddress r) ∅)))) as (k & a & Hka).
    { intros He. apply Hsz. by rewrite He, map_size_empty. }
    exists k, a. split; [done|]. rewrite addrs_lookup in Hka. unfold respAddr in Hka.
    repeat case_decide; by simplify_eq.
Qed.

Section Proofs.
Context `{CryptoLib}.

Definition clientCertSpec inst keyPEM chain caRaw (r : res clientCertificate) : Prop :=
  match r with
  | Ret cc => exists first rest der k caB leafB leaf,
      chain = first :: rest /\
      KeyPair (String.concat (String "010" "") chain) keyPEM = Ret (der, k) /\
      pemDecode caRaw = Some caB /\ ParseCertificate caB = Ret (caCert cc) /\
      pemDecode first = Some leafB /\ ParseCertificate leafB = Ret leaf /\
      certChain cc = {| tlsChain := der; tlsKey := Some k; Leaf := Some leaf |} /\
      expiry cc = NotAfter leaf
  | Fail e => exists cause, e = createFailed inst cause
  | Panic _ => False
  end.

(** A client certificate is built from the key pair of the whole chain, the CA
    certificate, and the first certificate of the chain, which becomes the leaf and
    whose [NotAfter] is the expiry. A failure is a [RefreshError] with a cause. The
    index into the chain cannot be out of range, as [tls.X509KeyPair] refuses text
    without a PEM block. *)
Lemma newClientCertificate_spec inst keyPEM chain caRaw :
  (forall k, isRet (KeyPair "" k) = false) -> (forall t k, isPanic (KeyPair t k) = false) ->
  (forall b, isPanic (ParseCertificate b) = false) ->
  clientCertSpec inst keyPEM chain caRaw (newClientCertificate inst keyPEM chain caRaw).
Proof.
  intros HKeyPair HnoPanic HParse. unfold newClientCertificate, clientCertSpec.
  pose proof (HnoPanic (String.concat (String "010" "") chain) keyPEM) as Hnp.
  destruct (KeyPair (String.concat (String "010" "") chain) keyPEM) as [[der k]|e|w] eqn:Hk;
    cbn [wrapErr mbind res_bind]; [|eauto|done].
  destruct (pemDecode caRaw) as [caB|] eqn:Hca; [|eauto].
  pose proof (HParse caB) as Hpa.
  destruct (ParseCertificate caB) as [ca|e|w] eqn:Hpca; cbn [wrapErr mbind res_bind];
    [|eauto|done].
  destruct chain as [|first rest].
  { specialize (HKeyPair keyPEM). cbn in Hk. by rewrite Hk in HKeyPair. }
  destruct (pemDecode first) as [lB|] eqn:Hl; [|eauto].
  pose proof (HParse lB) as Hpl.
  destruct (ParseCertificate lB) as [leaf|e|w] eqn:Hpleaf; cbn [wrapErr mbind res_bind];
    [|eauto|done].
  exists first, rest, der, k, caB, lB, leaf. by split_and!.
Qed.

(** ** Schedules of [connectionInfo] *)

Section Schedules.
Context (i : InstanceURI) (mdOut : res instanceInfo) (certOut : res clientCertificate).
Local Abbreviation exec := (refreshExec i mdOut certOut).
Local Abbreviation run := (refreshRun i mdOut certOut).
Local Abbreviation result := (connectionInfoResult i mdOut certOut).

(** The channel of a producer that sends [out]: before the send it is new; after
    it, it holds the value until the consumer has taken it. *)
Definition chanOk {A} (out : A) (g : producer) (c : chan A) (unread : bool) : Prop :=
  match g with
  | Fetching => c = newChan
  | Sent => closed c = false /\ (unread = true -> buf c = Some out)
  | Finished => closed c = true /\ (unread = true -> buf c = Some out)
  end.

Definition mdUnread (m : consumer) : bool :=
  match m with SelectMd => true | _ => false end.
Definition certUnread (m : consumer) : bool :=
  match m with SelectMd | SelectCert _ => true | _ => false end.

Definition consumerOk (s : refreshState) : Prop :=
  match mainG s with
  | SelectMd => True
  | SelectCert info => mdOut = Ret info /\ mdG s <> Fetching
  | Returned r => r = result \/
      exists e, ctxErr s = Some e /\ r = Fail (WrapError "refresh failed: " e)
  end.

Definition refreshInv (s : refreshState) : Prop :=
  chanOk mdOut (mdG s) (mdCh s) (mdUnread (mainG s)) /\
  chanOk certOut (certG s) (certCh s) (certUnread (mainG s)) /\
  consumerOk s.

Lemma chanOk_weaken {A} (out : A) g c u : chanOk out g c u -> chanOk out g c false.
Proof. destruct g; simpl; [done|..]; intros [? _]; by split. Qed.

Lemma chanOk_recv {A} (out : A) g c r c' :
  chanOk out g c true -> recv c = Some (r, c') ->
  g <> Fetching /\ r = Some out /\ chanOk out g c' false.
Proof.
  unfold recv. destruct g; simpl.
  - by intros ->.
  - intros [Hc Hb]. rewrite Hb by done. intros [= <- <-]; simpl. by split_and!.
  - intros [Hc Hb]. rewrite Hb by done. intros [= <- <-]; simpl. by split_and!.
Qed.

Lemma refreshInv_init : refreshInv refreshInit.
Proof. by split_and!. Qed.

Lemma refreshInv_exec a s s' : refreshInv s -> exec a s = Some s' -> refreshInv s'.
Proof.
  destruct s as [mg mc cg cc ce mm]; unfold refreshInv, consumerOk; simpl.
  intros (Hmd & Hcert & Hmain) He. destruct a; simpl in He.
  - destruct mg; simplify_eq. simpl in Hmd; subst mc; simplify_eq/=.
    split_and!; auto. destruct mm; [done|by destruct Hmain|done].
  - destruct mg; simplify_eq/=. split_and!; auto; [tauto|]. destruct mm; [done|by destruct Hmain|done].
  - destruct cg; simplify_eq. simpl in Hcert; subst cc; simplify_eq/=. split_and!; auto.
  - destruct cg; simplify_eq/=. split_and!; auto. tauto.
  - destruct ce; simplify_eq/=. split_and!; auto. destruct mm; auto.
    destruct Hmain as [?|(? & ? & ?)]; [by left|done].
  - destruct mm as [|info|]; simplify_eq/=.
    + destruct (recv mc) as [[r c]|] eqn:Er; simplify_eq/=.
      eapply chanOk_recv in Er as (Hg & -> & Hc); [|done]. unfold connectionInfoResult, afterMd.
      destruct mdOut; simpl; split_and!; eauto using chanOk_weaken.
    + destruct (recv cc) as [[r c]|] eqn:Er; simplify_eq/=.
      destruct Hmain as [-> Hmg].
      eapply chanOk_recv in Er as (Hg & -> & Hc); [|done]. unfold connectionInfoResult, afterCert.
      destruct certOut; simpl; split_and!; eauto using chanOk_weaken.
  - destruct mm as [|info|], ce; simplify_eq/=; split_and!; eauto using chanOk_weaken.
Qed.

Lemma refreshInv_run acts s s' : refreshInv s -> run acts s = Some s' -> refreshInv s'.
Proof.
  revert s; induction acts as [|a acts IH]; simpl; intros s Hi; [by intros [= <-]|].
  destruct (exec a s) as [s1|] eqn:E; simpl; [|done]. eauto using refreshInv_exec.
Qed.

(** Work left: every action but the environment's uses some up. *)
Definition producerLeft (g : producer) : nat :=
  match g with Fetching => 2 | Sent => 1 | Finished => 0 end%nat.
Definition consumerLeft (m : consumer) : nat :=
  match m with SelectMd => 2 | SelectCert _ => 1 | Returned _ => 0 end%nat.
Definition workLeft (s : refreshState) : nat :=
  (producerLeft (mdG s) + producerLeft (certG s) + consumerLeft (mainG s) +
   match ctxErr s with None => 1 | Some _ => 0 end)%nat.

Lemma refreshExec_decreases a s s' : exec a s = Some s' -> (workLeft s' < workLeft s)%nat.
Proof.
  destruct s as [mg mc cg cc ce mm]; unfold workLeft; destruct a; simpl; intros He.
  - destruct mg, (send mdOut mc); simplify_eq/=; lia.
  - destruct mg; simplify_eq/=; lia.
  - destruct cg, (send certOut cc); simplify_eq/=; lia.
  - destruct cg; simplify_eq/=; lia.
  - destruct ce; simplify_eq/=; lia.
  - destruct mm as [|info|]; [| |done].
    + destruct (recv mc) as [[r c]|]; simplify_eq/=. destruct r as [[| |]|]; simpl; lia.
    + destruct (recv cc) as [[r c]|]; simplify_eq/=. destruct r as [[| |]|]; simpl; lia.
  - destruct mm, ce; simplify_eq/=; lia.
Qed.

Lemma refresh_stuck s :
  refreshInv s ->
  (forall a, (forall e, a <> CtxDone e) -> exec a s = None) ->
  mdG s = Finished /\ certG s = Finished /\ exists r, mainG s = Returned r.
Proof.
  destruct s as [mg mc cg cc ce mm]; intros (Hmd & Hcert & Hmain) Hstuck; simpl in *.
  assert (mg = Finished) as ->.
  { destruct mg; simpl in *; [|by specialize (Hstuck MdClose ltac:(done))|done].
    subst mc. by specialize (Hstuck MdSend ltac:(done)). }
  assert (cg = Finished) as ->.
  { destruct cg; simpl in *; [|by specialize (Hstuck CertClose ltac:(done))|done].
    subst cc. by specialize (Hstuck CertSend ltac:(done)). }
  split_and!; [done|done|]. specialize (Hstuck MainRecv ltac:(done)).
  destruct mm as [|info|r]; [| |by exists r]; simpl in *.
  - destruct Hmd as [? Hb]. unfold recv in Hstuck. by rewrite Hb in Hstuck.
  - destruct Hcert as [? Hb]. unfold recv in Hstuck. by rewrite Hb in Hstuck.
Qed.
End Schedules.
End Proofs.

(** C11: whatever the interleaving of the two fetches, the calling goroutine and the
    context, what [connectionInfo] returns is the assembled result of the two
    fetches (the metadata error first, each wrapped), or the wrapped error of a
    context that is done. *)
Theorem connectionInfo_outcome `{CryptoLib} i mdOut certOut acts s r
    (Hrun : refreshRun i mdOut certOut acts refreshInit = Some s)
    (Hret : returned s = Some r) :
  r = connectionInfoResult i mdOut certOut \/
  exists e, ctxErr s = Some e /\ r = Fail (WrapError "refresh failed: " e).
Proof.
  pose proof (refreshInv_run i mdOut certOut _ _ _ (refreshInv_init _ _ _) Hrun) as (_ & _ & Hm).
  unfold consumerOk in Hm. unfold returned in Hret. by destruct (mainG s); simplify_eq.
Qed.

(** C23: termination without leaks. Every schedule is finite (each action uses up
    work), and a schedule that can only be continued by the context ends with the
    caller returned and both goroutines finished: no send ever blocks, even when
    the caller has returned early and nobody receives. *)
Theorem connectionInfo_terminates `{CryptoLib} i mdOut certOut acts s
    (Hrun : refreshRun i mdOut certOut acts refreshInit = Some s) :
  (length acts + workLeft s <= 7)%nat /\
  ((forall a, (forall e, a <> CtxDone e) -> refreshExec i mdOut certOut a s = None) ->
   mdG s = Finished /\ certG s = Finished /\ exists r, returned s = Some r).
Proof.
  split.
  - change 7%nat with (workLeft refreshInit). revert Hrun.
    generalize refreshInit as s0. induction acts as [|a acts IH]; simpl; intros s0 Hrun.
    + injection Hrun as ->. lia.
    + destruct (refreshExec i mdOut certOut a s0) as [s1|] eqn:E; simpl in Hrun; [|done].
      apply refreshExec_decreases in E. apply IH in Hrun. lia.
  - intros Hstuck.
    pose proof (refreshInv_run i mdOut certOut _ _ _ (refreshInv_init _ _ _) Hrun) as Hi.
    destruct (refresh_stuck i mdOut certOut s Hi Hstuck) as (? & ? & r & Hr).
    split_and!; auto. exists r. unfold returned. by rewrite Hr.
Qed.

(** What every connection info a refresh yields satisfies: it is for the requested
    instance, has an address, a leaf certificate whose [NotAfter] is the expiration,
    and a pool with one root. *)
Definition infoOK `{CryptoLib} (i : InstanceURI) (ci : ConnectionInfo) : Prop :=
  Instance ci = i /\ IPAddrs ci <> ∅ /\
  (exists leaf, Leaf (ClientCert ci) = Some leaf /\ Expiration ci = NotAfter leaf) /\
  exists ca, RootCAs ci = Some [ca].

(** Also when the API's answers change between the two requests. *)
Lemma result_infoOK `{CryptoLib} a b k disable i ci :
  connectionInfoResult i (fetchInstanceInfo a i) (fetchClientCertificate b i k disable) = Ret ci -> infoOK i ci.
Proof.
  unfold connectionInfoResult. intros Hci.
  apply bind_Ret in Hci as (info & Hmd%wrapErr_Ret & Hci).
  apply bind_Ret in Hci as (cc & Hcc%wrapErr_Ret & [= <-]).
  unfold infoOK, assemble; simpl. split_and!; [done| | |eauto].
  - unfold fetchInstanceInfo in Hmd. apply bind_Ret in Hmd as (r & _ & Hr).
    case_decide as Hsz; [done|]. injection Hr as <-; simpl. intros He.
    by rewrite He, map_size_empty in Hsz.
  - unfold fetchClientCertificate in Hcc.
    apply bind_Ret in Hcc as (pub & _ & Hcc). apply bind_Ret in Hcc as (resp & _ & Hcc).
    unfold newClientCertificate in Hcc. apply bind_Ret in Hcc as ([der k'] & _ & Hcc).
    destruct (pemDecode (CaCert resp)); [|done]. apply bind_Ret in Hcc as (ca & _ & Hcc).
    destruct (PemCertificateChain resp) as [|first rest]; [done|].
    destruct (pemDecode first); [|done]. apply bind_Ret in Hcc as (leaf & _ & [= <-]).
    by exists leaf.
Qed.

(** The info's addresses are those client [a] is given for the instance, and its
    certificates those client [b] is issued for the instance's cluster and key [k]. *)
Definition issued `{CryptoLib} (a b : AlloyDBAdminClient) (k : PrivateKey) (disable : bool)
    (i : InstanceURI) (ci : ConnectionInfo) : Prop :=
  exists resp req cert cc,
    GetConnectionInfo a (URI i) = Ret resp /\ (forall t, IPAddrs ci !! t = respAddr resp t) /\
    Parent req = "projects/" +:+ project i +:+ "/locations/" +:+ region i +:+ "/clusters/" +:+ cluster i /\
    pemEncode "RSA PUBLIC KEY" (MarshalPKCS1PublicKey k) = Ret (PublicKeyPEM req) /\
    UseMetadataExchange req = negb disable /\
    GenerateClientCertificate b req = Ret cert /\
    newClientCertificate i (pemEncodeToMemory "RSA PRIVATE KEY" (MarshalPKCS1PrivateKey k))
      (PemCertificateChain cert) (CaCert cert) = Ret cc /\
    ClientCert ci = certChain cc /\ RootCAs ci = Some [caCert cc] /\ Expiration ci = expiry cc.

Lemma result_issued `{CryptoLib} a b k disable i ci :
  connectionInfoResult i (fetchInstanceInfo a i) (fetchClientCertificate b i k disable) = Ret ci ->
  issued a b k disable i ci.
Proof.
  unfold connectionInfoResult. intros Hci.
  apply bind_Ret in Hci as (info & Hmd%wrapErr_Ret & Hci).
  apply bind_Ret in Hci as (cc & Hcc%wrapErr_Ret & [= <-]).
  unfold fetchClientCertificate in Hcc. apply bind_Ret in Hcc as (pub & Hpub & Hcc). cbv zeta in Hcc.
  apply bind_Ret in Hcc as (cert & Hcert%wrapErr_Ret & Hcc).
  pose proof (fetchInstanceInfo_spec a i) as Hspec. rewrite Hmd in Hspec.
  destruct (GetConnectionInfo a (URI i)) as [resp|e|t] eqn:Hget; [|done..]. destruct Hspec as (_ & Haddr & _).
  unfold issued. rewrite Hget. eexists resp, _, cert, cc. split_and!; [done|exact Haddr|..|exact Hcert|exact Hcc|done|done|done]; done.
Qed.

(** C21: a successful refresh yields a well-formed connection info for the instance
    that was asked for: its addresses are those of the API's answer, its certificates
    those the API issued for the instance's cluster and the client's key. *)
Theorem connectionInfo_OK `{CryptoLib} c i ci (Hci : connectionInfo c i = Ret ci) :
  infoOK i ci /\ issued (client c) (client c) (key c) (disableMetadataExchange c) i ci.
Proof. split; [by eapply result_infoOK|by apply result_issued]. Qed.

(** ** Concrete inputs

    A toy certificate library: a certificate is its [NotAfter], the number of bytes
    of its text in hours; a PEM block is any non-empty text. *)
Module Toy.
Definition lib : CryptoLib := {|
  Certificate := Z;
  PrivateKey := Z;
  NotAfter := fun c => c;
  ParseCertificate := fun b => Ret (Z.of_nat (length b) * Hour);
  MarshalPKCS1PublicKey := fun _ => to_bytes "pub";
  MarshalPKCS1PrivateKey := fun _ => to_bytes "key";
  pemEncode := fun ty b => Ret (ty +:+ of_bytes b);
  pemEncodeToMemory := fun ty b => ty +:+ of_bytes b;
  pemDecode := fun s => if decide (s = "") then None else Some (to_bytes s);
  KeyPair := fun t k => if decide (t = "") then Fail (ErrorsNew "no PEM data")
                        else Ret ([to_bytes t], Z.of_nat (String.length k)) |}.

Definition uri : InstanceURI :=
  {| project := "p"; region := "r"; cluster := "c"; name := "n" |}.

Definition api : AlloyDBAdminClient := {|
  GetConnectionInfo := fun _ =>
    Ret {| IpAddress := "10.0.0.1"; PublicIpAddress := ""; PscDnsName := ""; InstanceUid := "u" |};
  GenerateClientCertificate := fun _ =>
    Ret {| PemCertificateChain := ["leaf"; "ca"]; CaCert := "ca" |} |}.

Definition admin : adminAPIClient (H := lib) := newAdminAPIClient (H := lib) api 0 "id" false.
End Toy.

(** The certificate arrives first; the metadata error is returned all the same. *)
Lemma connectionInfo_outcome_witness :
  let md := Fail ErrInvalidPEM in
  let cert := fetchClientCertificate (H := Toy.lib) Toy.api Toy.uri 0 false in
  exists s r, refreshRun Toy.uri md cert [CertSend; CertClose; MdSend; MainRecv] refreshInit = Some s /\
    returned s = Some r /\
    (r = connectionInfoResult Toy.uri md cert \/
     exists e, ctxErr s = Some e /\ r = Fail (WrapError "refresh failed: " e)).
Proof.
  eexists _, _. split; [reflexivity|]. split; [reflexivity|].
  eapply (connectionInfo_outcome (H := Toy.lib) Toy.uri (Fail ErrInvalidPEM)
    (fetchClientCertificate (H := Toy.lib) Toy.api Toy.uri 0 false)
    [CertSend; CertClose; MdSend; MainRecv]); reflexivity.
Defined.

(** The caller gives up at once; both producers still finish. *)
Lemma connectionInfo_terminates_witness :
  let md := fetchInstanceInfo Toy.api Toy.uri in
  let cert := fetchClientCertificate (H := Toy.lib) Toy.api Toy.uri 0 false in
  let acts := [CtxDone ContextCanceled; MainCtx; MdSend; CertSend; MdClose; CertClose] in
  exists s, refreshRun Toy.uri md cert acts refreshInit = Some s /\
  (length acts + workLeft s <= 7)%nat /\
  ((forall a, (forall e, a <> CtxDone e) -> refreshExec Toy.uri md cert a s = None) ->
   mdG s = Finished /\ certG s = Finished /\ exists r, returned s = Some r).
Proof.
  eexists. split; [reflexivity|].
  eapply (connectionInfo_terminates (H := Toy.lib) Toy.uri (fetchInstanceInfo Toy.api Toy.uri)
    (fetchClientCertificate (H := Toy.lib) Toy.api Toy.uri 0 false)); reflexivity.
Defined.

Lemma connectionInfo_OK_witness :
  exists ci, connectionInfo (H := Toy.lib) Toy.admin Toy.uri = Ret ci /\
  infoOK (H := Toy.lib) Toy.uri ci /\ issued (H := Toy.lib) Toy.api Toy.api 0 false Toy.uri ci.
Proof.
  eexists. split; [reflexivity|].
  apply (connectionInfo_OK (H := Toy.lib) Toy.admin Toy.uri). reflexivity.
Defined.
