(* ===== verification/GoIO.v ===== *)
(** * State and errors, big-endian integers, connections

    [St S] is the state and error monad the imperative routines are written in; a
    [Panic] unwinds like an error, through the same deferred calls. [NetConn] is the
    part of [net.Conn] the connector uses, over an abstract connection state. *)
From S2P Require Import Prelude GoTime ErrType.
#[local] Open Scope list_scope.
#[local] Open Scope Z_scope.

(** ** The monad *)

Definition St (S A : Type) : Type := S -> res A * S.

#[export] Instance St_ret {S} : MRet (St S) := fun A a s => (Ret a, s).
#[export] Instance St_bind {S} : MBind (St S) := fun A B f m s =>
  match m s with
  | (Ret a, s') => f a s'
  | (Fail e, s') => (Fail e, s')
  | (Panic w, s') => (Panic w, s')
  end.

Definition lift {S A} (r : res A) : St S A := fun s => (r, s).
(** [if err != nil { return err }] *)
Definition orFail {S} (e : option error) : St S unit :=
  lift (match e with Some e => Fail e | None => Ret () end).
(** [defer clean()] around the rest of a function: it runs on every path. *)
Definition deferred {S A} (clean : S -> S) (body : St S A) : St S A := fun s =>
  let '(r, s') := body s in (r, clean s').

Lemma lift_bind {S A B} (r : res A) (k : A -> St S B) s :
  (lift r ≫= k) s = match r with Ret a => k a s | Fail e => (Fail e, s) | Panic w => (Panic w, s) end.
Proof. by destruct r. Qed.

Lemma bind_eq {S A B} (m : St S A) (k : A -> St S B) s :
  (m ≫= k) s = match m s with
               | (Ret a, s') => k a s' | (Fail e, s') => (Fail e, s') | (Panic w, s') => (Panic w, s')
               end.
Proof. done. Qed.

(** Running a sequence up to a value. *)
Lemma bind_to {S A B} (m : St S A) (k : A -> St S B) s a s' :
  m s = (Ret a, s') -> (m ≫= k) s = k a s'.
Proof. intros E. unfold mbind, St_bind. by rewrite E. Qed.

Lemma bind_assoc {S A B D} (m : St S A) (k : A -> St S B) (h : B -> St S D) s :
  (m ≫= (fun a => k a ≫= h)) s = ((m ≫= k) ≫= h) s.
Proof. unfold mbind, St_bind. by destruct (m s) as [[] ?]. Qed.

Lemma deferred_eq {S A} clean (m : St S A) s : deferred clean m s = ((m s).1, clean (m s).2).
Proof. unfold deferred. by destruct (m s). Qed.

(** A property of the state that both parts keep. *)
Lemma bind_keeps {S A B} (Q : S -> Prop) (m : St S A) (k : A -> St S B) s :
  Q (m s).2 -> (forall a s', Q s' -> Q (k a s').2) -> Q ((m ≫= k) s).2.
Proof. unfold mbind, St_bind. destruct (m s) as [[a|e|w] s']; simpl; auto. Qed.

Lemma deferred_keeps {S A} (Q Q' : S -> Prop) clean (m : St S A) s :
  Q (m s).2 -> (forall s', Q s' -> Q' (clean s')) -> Q' (deferred clean m s).2.
Proof. unfold deferred. destruct (m s) as [r s']; simpl; auto. Qed.

(** ** [binary.BigEndian] *)

Definition PutUint32 (v : Z) : bytes :=
  [byteof (v / 2 ^ 24 mod 256); byteof (v / 2 ^ 16 mod 256);
   byteof (v / 2 ^ 8 mod 256); byteof (v mod 256)].

Definition Uint32 (b : bytes) : Z :=
  match b with
  | b0 :: b1 :: b2 :: b3 :: _ =>
      byteval b3 + byteval b2 * 2 ^ 8 + byteval b1 * 2 ^ 16 + byteval b0 * 2 ^ 24
  | _ => 0
  end.

Lemma Uint32_PutUint32 v : 0 <= v < 2 ^ 32 -> Uint32 (PutUint32 v) = v.
Proof.
  intros Hv. unfold Uint32, PutUint32.
  rewrite !byteval_byteof by (apply Z.mod_pos_bound; lia).
  pose proof (Z.div_mod v (2 ^ 8) ltac:(lia)) as E0.
  pose proof (Z.div_mod (v / 2 ^ 8) (2 ^ 8) ltac:(lia)) as E1.
  pose proof (Z.div_mod (v / 2 ^ 16) (2 ^ 8) ltac:(lia)) as E2.
  rewrite Z.div_div in E1, E2 by lia.
  assert (v / 2 ^ 24 mod 256 = v / 2 ^ 24) as E3.
  { apply Z.mod_small. split; [apply Z.div_pos; lia|apply Z.div_lt_upper_bound; lia]. }
  change (2 ^ 8 * 2 ^ 8) with (2 ^ 16) in E1. change (2 ^ 16 * 2 ^ 8) with (2 ^ 24) in E2.
  change 256 with (2 ^ 8) in *. lia.
Qed.

Lemma Uint32_range b : 0 <= Uint32 b < 2 ^ 32.
Proof.
  unfold Uint32. destruct b as [|b0 [|b1 [|b2 [|b3 b]]]]; try lia.
  pose proof (byteval_range b0). pose proof (byteval_range b1).
  pose proof (byteval_range b2). pose proof (byteval_range b3). lia.
Qed.

(** ** [net.Conn] *)

(** [Read] is given the length of the slice and yields the bytes it stored there. A
    deadline of [None] is the zero time, no deadline. *)
Class NetConn (C : Type) := {
  connSetDeadline : option Time -> C -> option error * C;
  connWrite : bytes -> C -> Z * option error * C;
  connRead : nat -> C -> bytes * option error * C;
}.

(** What [io.Reader] documents: at most as many bytes as there is room for. *)
Class NetConnLaws (C : Type) `{!NetConn C} := {
  connRead_le n c : (length (connRead n c).1.1 <= n)%nat;
}.

(** Connections whose successful reads fill the slice, as [io.ReadFull] would. *)
Class FullReads (C : Type) `{!NetConn C} := {
  connRead_full n c : (connRead n c).1.2 = None -> length (connRead n c).1.1 = n;
}.

(** A connection that keeps a log of the calls made on it. *)
Inductive connCall :=
| CallSetDeadline (t : option Time)
| CallWrite (b : bytes)
| CallRead (n : nat).

#[export] Instance traced {C} `{!NetConn C} : NetConn (C * list connCall) := {
  connSetDeadline t c :=
    let '(e, c') := connSetDeadline t c.1 in (e, (c', c.2 ++ [CallSetDeadline t]));
  connWrite b c := let '(r, c') := connWrite b c.1 in (r, (c', c.2 ++ [CallWrite b]));
  connRead n c := let '(r, c') := connRead n c.1 in (r, (c', c.2 ++ [CallRead n]));
}.
