(* ===== verification/Metadata.v ===== *)
(** * The metadata exchange ([src/dialer.go])

    The client builds its request in a pooled 16 KiB buffer and reads the response
    into the same memory, so the model keeps the array a slice stands on: the pooled
    one, or a fresh one once [append] had to allocate. *)
From S2P Require Import Prelude GoTime ErrType GoIO.
#[local] Open Scope string_scope.
#[local] Open Scope list_scope.
#[local] Open Scope Z_scope.

(** ** Messages ([connectorspb]) *)
Inductive authType := DB_NATIVE | AUTO_IAM.

Record MetadataExchangeRequest := {
  reqUserAgent : string; reqAuthType : authType; reqOauth2Token : string }.

Inductive responseCode := RespOK | RespOther (code : Z).
Record MetadataExchangeResponse := { ResponseCode : responseCode; respError : string }.

#[export] Instance responseCode_eq_dec : EqDecision responseCode.
Proof. solve_decision. Defined.

(** Package [proto]: an encoding of the two messages. *)
Class ProtoLib := {
  marshalRequest : MetadataExchangeRequest -> res bytes;
  sizeRequest : MetadataExchangeRequest -> Z;
  unmarshalRequest : bytes -> res MetadataExchangeRequest;
  marshalResponse : MetadataExchangeResponse -> res bytes;
  sizeResponse : MetadataExchangeResponse -> Z;
  unmarshalResponse : bytes -> res MetadataExchangeResponse;
}.

(** What the package documents: [Size] is the length of the encoding, and decoding
    inverts encoding. *)
Class ProtoLaws `{ProtoLib} := {
  sizeRequest_ok r m : marshalRequest r = Ret m -> sizeRequest r = Z.of_nat (length m);
  sizeResponse_ok r m : marshalResponse r = Ret m -> sizeResponse r = Z.of_nat (length m);
  unmarshalRequest_ok r m : marshalRequest r = Ret m -> unmarshalRequest m = Ret r;
  unmarshalResponse_ok r m : marshalResponse r = Ret m -> unmarshalResponse m = Ret r;
}.

Definition ioTimeout : Duration := 30 * Second.
Definition maxMessageSize : nat := (16 * 1024)%nat.
#[global] Arguments maxMessageSize : simpl never.
#[global] Arguments PutUint32 : simpl never.
#[global] Opaque maxMessageSize.

(** ** Buffers *)

(** [buffer]: the arrays of the slices in the [sync.Pool]. *)
Definition pool : Type := list bytes.

Definition newBuffer : pool := [].

(** [Get] takes an arbitrary item or calls [New]. *)
Definition bufferGet (choice : option nat) (p : pool) : bytes * pool :=
  match choice ≫= (fun i => (fun a => (a, delete i p)) <$> p !! i) with
  | Some r => r
  | None => (replicate maxMessageSize zero, p)
  end.

Definition bufferPut (b : bytes) (p : pool) : pool := b :: p.

(** What the routine works on: the connection, the pool, the array of [*b], and the
    array of [buf] when [append] has allocated one. *)
Record exchangeState (C : Type) := {
  xConn : C; xPool : pool; xBuf : bytes; xFresh : option bytes }.
Arguments xConn {C}. Arguments xPool {C}. Arguments xBuf {C}. Arguments xFresh {C}.
Arguments Build_exchangeState {C}.

Section Exchange.
Context {C : Type} `{!NetConn C} `{ProtoLib}.
Implicit Types s : exchangeState C.

Definition setConn (c : C) s : exchangeState C :=
  {| xConn := c; xPool := xPool s; xBuf := xBuf s; xFresh := xFresh s |}.

(** The array [buf] stands on; all its slices start at its first byte. *)
Definition bufArray s : bytes := default (xBuf s) (xFresh s).
Definition setArray (a : bytes) s : exchangeState C :=
  match xFresh s with
  | Some _ => {| xConn := xConn s; xPool := xPool s; xBuf := xBuf s; xFresh := Some a |}
  | None => {| xConn := xConn s; xPool := xPool s; xBuf := a; xFresh := None |}
  end.

(** Storing bytes at the start of a slice. *)
Definition store (b a : bytes) : bytes := b ++ drop (length b) a.

Definition getBuf (choice : option nat) : St (exchangeState C) unit := fun s =>
  let '(a, p) := bufferGet choice (xPool s) in
  (Ret (), {| xConn := xConn s; xPool := p; xBuf := a; xFresh := None |}).

Definition putBuf s : exchangeState C :=
  {| xConn := xConn s; xPool := bufferPut (xBuf s) (xPool s); xBuf := []; xFresh := None |}.

(** [binary.BigEndian.PutUint32(buf, v)] on a [buf] of the array's length. *)
Definition putSize (v : Z) : St (exchangeState C) unit := fun s =>
  if (4 <=? length (bufArray s))%nat
  then (Ret (), setArray (store (PutUint32 v) (bufArray s)) s)
  else (Panic "index out of range", s).

(** [buf[:n]] *)
Definition reslice (n : Z) : St (exchangeState C) unit := fun s =>
  if n <=? Z.of_nat (length (bufArray s)) then (Ret (), s)
  else (Panic "slice bounds out of range", s).

(** [append(buf[:4], m...)]: in place when it fits, else in a new array of a
    sufficient capacity [grow n]. *)
Definition appendBuf (grow : nat -> nat) (m : bytes) : St (exchangeState C) unit := fun s =>
  let a := bufArray s in
  let n := (4 + length m)%nat in
  if (n <=? length a)%nat then (Ret (), setArray (take 4 a ++ m ++ drop n a) s)
  else (Ret (), {| xConn := xConn s; xPool := xPool s; xBuf := xBuf s;
                   xFresh := Some (take 4 a ++ m ++ replicate (grow n - n) zero) |}).

Definition setDeadline (t : option Time) : St (exchangeState C) unit := fun s =>
  let '(e, c) := connSetDeadline t (xConn s) in orFail e (setConn c s).

(** [defer conn.SetDeadline(time.Time{})] *)
Definition clearDeadline s : exchangeState C := (setDeadline None s).2.

(** [conn.Write(buf)] for a [buf] of length [n] *)
Definition writeBuf (n : nat) : St (exchangeState C) unit := fun s =>
  let '(_, e, c) := connWrite (take n (bufArray s)) (xConn s) in orFail e (setConn c s).

(** [conn.Read(b)] for a slice [b] of length [n], and the contents of such a slice *)
Definition readInto (n : nat) : St (exchangeState C) unit := fun s =>
  let '(b, e, c) := connRead n (xConn s) in
  orFail e (setArray (store b (bufArray s)) (setConn c s)).
Definition loadBuf (n : nat) : St (exchangeState C) bytes := fun s =>
  (Ret (take n (bufArray s)), s).
Definition readBuf (n : nat) : St (exchangeState C) bytes := readInto n ≫= fun _ => loadBuf n.

Lemma readBuf_eq n s :
  readBuf n s =
    let '(b, e, c) := connRead n (xConn s) in
    let s' := setArray (store b (bufArray s)) (setConn c s) in
    (orFail e ≫= fun _ => lift (Ret (take n (bufArray s')))) s'.
Proof.
  unfold readBuf, readInto, loadBuf. rewrite bind_eq.
  destruct (connRead n (xConn s)) as [[b e] c]. by destruct e.
Qed.

(** [if mdxResp.GetResponseCode() != OK { return errors.New(mdxResp.GetError()) }] *)
Definition checkResponse (r : MetadataExchangeResponse) : res unit :=
  if decide (ResponseCode r <> RespOK) then Fail (ErrorsNew (respError r)) else Ret ().

(** The dialer's fields the exchange reads. *)
Record exchangeConfig := {
  xToken : res string;        (* [d.iamTokenSource.Token()] *)
  xUseIAMAuthN : bool;
  xUserAgent : string }.

Definition exchangeRequest (d : exchangeConfig) (tok : string) : MetadataExchangeRequest :=
  {| reqUserAgent := xUserAgent d;
     reqAuthType := if xUseIAMAuthN d then AUTO_IAM else DB_NATIVE;
     reqOauth2Token := tok |}.

(** Reading and judging the response. *)
Definition exchangeResponse : St (exchangeState C) unit :=
  reslice 4 ≫= fun _ => readBuf 4 ≫= fun buf =>
  let respSize := Uint32 buf in
  reslice respSize ≫= fun _ => readBuf (Z.to_nat respSize) ≫= fun resp =>
  lift (unmarshalResponse resp) ≫= fun mdxResp => lift (checkResponse mdxResp).

(** [now1] and [now2] are the clock when the deadlines are set. *)
Definition exchangeIO (now1 now2 : Time) (n : nat) : St (exchangeState C) unit :=
  setDeadline (Some (Add now1 ioTimeout)) ≫= fun _ =>
  deferred clearDeadline (
    writeBuf n ≫= fun _ =>
    setDeadline (Some (Add now2 ioTimeout)) ≫= fun _ =>
    deferred clearDeadline exchangeResponse).

Definition metadataExchange (d : exchangeConfig) (choice : option nat) (grow : nat -> nat)
    (now1 now2 : Time) : St (exchangeState C) unit :=
  lift (xToken d) ≫= fun tok =>
  let req := exchangeRequest d tok in
  lift (marshalRequest req) ≫= fun m =>
  getBuf choice ≫= fun _ =>
  deferred putBuf (
    putSize (uint_wrap 32 (sizeRequest req)) ≫= fun _ =>
    appendBuf grow m ≫= fun _ =>
    exchangeIO now1 now2 (4 + length m)).
End Exchange.

(** ** The reference: the exchange without buffers

    The same protocol with every message in memory of its own. *)
Section Reference.
Context {C : Type} `{!NetConn C} `{ProtoLib}.

Definition refDeadline (t : option Time) : St C unit := fun c =>
  let '(e, c') := connSetDeadline t c in orFail e c'.
Definition refClear (c : C) : C := (refDeadline None c).2.
Definition refWrite (b : bytes) : St C unit := fun c =>
  let '(_, e, c') := connWrite b c in orFail e c'.
Definition refRead (n : nat) : St C bytes := fun c =>
  let '(b, e, c') := connRead n c in (orFail e ≫= fun _ => lift (Ret b)) c'.

(** [limit] is the longest response there is room for. *)
Definition refResponse (limit : Z) : St C unit :=
  refRead 4 ≫= fun hdr =>
  let n := Uint32 hdr in
  (if n <=? limit then mret () else lift (Panic "slice bounds out of range")) ≫= fun _ =>
  refRead (Z.to_nat n) ≫= fun resp =>
  lift (unmarshalResponse resp) ≫= fun r => lift (checkResponse r).

Definition refExchange (d : exchangeConfig) (room : nat -> Z) (now1 now2 : Time) : St C unit :=
  lift (xToken d) ≫= fun tok =>
  lift (marshalRequest (exchangeRequest d tok)) ≫= fun m =>
  refDeadline (Some (Add now1 ioTimeout)) ≫= fun _ =>
  deferred refClear (
    refWrite (PutUint32 (Z.of_nat (length m)) ++ m) ≫= fun _ =>
    refDeadline (Some (Add now2 ioTimeout)) ≫= fun _ =>
    deferred refClear (refResponse (room (4 + length m)%nat))).
End Reference.

(** ** The buffers are invisible *)

(** Every pooled buffer has its full size. *)
Definition poolOK (p : pool) : Prop := Forall (fun b => length b = maxMessageSize) p.

Lemma bufferGet_OK choice p :
  poolOK p -> length (bufferGet choice p).1 = maxMessageSize /\ poolOK (bufferGet choice p).2.
Proof.
  intros Hp. unfold bufferGet.
  destruct choice as [i|]; simpl; [|by rewrite length_replicate].
  destruct (p !! i) as [a|] eqn:Hi; simpl; [|by rewrite length_replicate].
  split; [by apply (list.Forall_lookup_1 _ _ _ _ Hp Hi)|by apply Forall_delete].
Qed.

(** The capacity of [buf] after [append]. *)
Definition room (grow : nat -> nat) (n : nat) : nat :=
  if (n <=? maxMessageSize)%nat then maxMessageSize else Nat.max n (grow n).

Section Refinement.
Context {C : Type} `{!NetConn C, !NetConnLaws C} `{ProtoLib}.
Implicit Types s : exchangeState C.

(** From states in [Q], [m] does to the connection what [n] does, returns what it
    returns, and ends in [Q']. *)
Definition sim {A} (Q : exchangeState C -> Prop) (m : St (exchangeState C) A) (n : St C A)
    (Q' : exchangeState C -> Prop) : Prop :=
  forall s, Q s -> (m s).1 = (n (xConn s)).1 /\ xConn (m s).2 = (n (xConn s)).2 /\ Q' (m s).2.

Definition capIs (L : nat) s : Prop := length (bufArray s) = L.

Lemma sim_bind {A B} Q Q1 Q2 (m : St _ A) n (k : A -> St _ B) k' :
  sim Q m n Q1 -> (forall a, sim Q1 (k a) (k' a) Q2) -> (forall s, Q1 s -> Q2 s) ->
  sim Q (m ≫= k) (n ≫= k') Q2.
Proof.
  intros Hm Hk Hw s Hs. destruct (Hm s Hs) as (E1 & E2 & Hq). unfold mbind, St_bind.
  destruct (m s) as [r s1], (n (xConn s)) as [r' c1]; simpl in *; subst.
  destruct r'; simpl; [by apply Hk|auto..].
Qed.

Lemma sim_deferred {A} Q Q1 Q2 (m : St _ A) n clean clean' :
  sim Q m n Q1 -> (forall s, Q1 s -> xConn (clean s) = clean' (xConn s) /\ Q2 (clean s)) ->
  sim Q (deferred clean m) (deferred clean' n) Q2.
Proof.
  intros Hm Hc s Hs. destruct (Hm s Hs) as (E1 & E2 & Hq). unfold deferred.
  destruct (m s) as [r s1], (n (xConn s)) as [r' c1]; simpl in *; subst.
  by destruct (Hc s1 Hq) as [-> ?].
Qed.

Lemma sim_lift {A} Q (r : res A) : sim Q (lift r) (lift r) Q.
Proof. by intros s Hs. Qed.

Lemma sim_deadline a t :
  sim (fun s => bufArray s = a) (setDeadline t) (refDeadline t) (fun s => bufArray s = a).
Proof.
  intros s Hs. unfold setDeadline, refDeadline.
  destruct (connSetDeadline t (xConn s)) as [e c]; simpl. by destruct e.
Qed.

Lemma sim_deadline_cap L t : sim (capIs L) (setDeadline t) (refDeadline t) (capIs L).
Proof.
  intros s Hs. destruct (sim_deadline (bufArray s) t s eq_refl) as (E1 & E2 & E3).
  split_and!; [done..|]. unfold capIs. by rewrite E3.
Qed.

Lemma sim_clear L s :
  capIs L s -> xConn (clearDeadline s) = refClear (xConn s) /\ capIs L (clearDeadline s).
Proof. intros Hs. destruct (sim_deadline_cap L None s Hs) as (_ & E & Hq). by split. Qed.

Lemma sim_write a b n :
  take n a = b -> sim (fun s => bufArray s = a) (writeBuf n) (refWrite b) (fun s => bufArray s = a).
Proof.
  intros Hb s Hs. unfold writeBuf, refWrite. rewrite Hs, Hb.
  destruct (connWrite b (xConn s)) as [[k e] c]; simpl. by destruct e.
Qed.

Lemma bufArray_setArray a s : bufArray (setArray a s) = a.
Proof. unfold bufArray, setArray. by destruct (xFresh s). Qed.

Lemma xConn_setArray a s : xConn (setArray a s) = xConn s.
Proof. unfold setArray. by destruct (xFresh s). Qed.

Lemma length_store b a : (length b <= length a)%nat -> length (store b a) = length a.
Proof. intros Hle. unfold store. rewrite length_app, length_drop. lia. Qed.

(** Reading leaves the capacity; a read that fills the slice leaves nothing else in
    it. *)
Lemma sim_read `{!FullReads C} L n :
  (n <= L)%nat -> sim (capIs L) (readBuf n) (refRead n) (capIs L).
Proof.
  intros Hn s Hs. rewrite readBuf_eq. unfold refRead. pose proof (connRead_le n (xConn s)) as Hle.
  pose proof (connRead_full n (xConn s)) as Hfull.
  destruct (connRead n (xConn s)) as [[b e] c]; simpl in *.
  change (bufArray (setConn c s)) with (bufArray s) in *.
  assert (capIs L (setArray (store b (bufArray s)) (setConn c s))) as Hcap.
  { unfold capIs in *. rewrite bufArray_setArray, length_store; lia. }
  unfold mbind, St_bind; destruct e; simpl; rewrite xConn_setArray; split_and!; try done.
  rewrite bufArray_setArray. unfold store. by rewrite take_app_length' by (by rewrite Hfull).
Qed.

Lemma sim_reslice L n :
  sim (capIs L) (reslice n)
    (if n <=? Z.of_nat L then mret () else lift (Panic "slice bounds out of range")) (capIs L).
Proof. intros s Hs. unfold reslice. rewrite Hs. by case_match. Qed.

Lemma sim_response `{!FullReads C} L :
  (4 <= L)%nat -> sim (capIs L) exchangeResponse (refResponse (Z.of_nat L)) (capIs L).
Proof.
  intros HL. unfold exchangeResponse, refResponse.
  assert (forall (k : bytes -> St (exchangeState C) unit) n, sim (capIs L) (readBuf 4 ≫= k) n (capIs L) ->
    sim (capIs L) (reslice 4 ≫= fun _ : unit => readBuf 4 ≫= k) n (capIs L)) as Hskip.
  { intros k n Hk s Hs. specialize (Hk s Hs). unfold mbind at 1 3 5, St_bind at 1 3 5, reslice.
    rewrite Hs, (proj2 (Z.leb_le 4 (Z.of_nat L))) by lia. exact Hk. }
  apply Hskip. clear Hskip.
  apply (sim_bind _ (capIs L)); [by apply sim_read| |done]. intros hdr. cbv zeta.
  pose proof (Uint32_range hdr) as Hr. destruct (Z.leb_spec (Uint32 hdr) (Z.of_nat L)) as [Hle|Hgt].
  - apply (sim_bind _ (capIs L)); [|intros _|done].
    { pose proof (sim_reslice L (Uint32 hdr)) as Hs. by rewrite (proj2 (Z.leb_le _ _)) in Hs by lia. }
    apply (sim_bind _ (capIs L)); [apply sim_read; lia| |done]. intros resp.
    apply (sim_bind _ (capIs L)); [apply sim_lift| |done]. intros r. apply sim_lift.
  - intros s Hs. unfold mbind, St_bind, reslice. rewrite Hs.
    by rewrite (proj2 (Z.leb_gt _ _)) by lia.
Qed.

Lemma sim_IO `{!FullReads C} a m now1 now2 :
  take (4 + length m) a = PutUint32 (Z.of_nat (length m)) ++ m -> (4 <= length a)%nat ->
  sim (fun s => bufArray s = a) (exchangeIO now1 now2 (4 + length m))
    (refDeadline (Some (Add now1 ioTimeout)) ≫= fun _ =>
     deferred refClear (
       refWrite (PutUint32 (Z.of_nat (length m)) ++ m) ≫= fun _ =>
       refDeadline (Some (Add now2 ioTimeout)) ≫= fun _ =>
       deferred refClear (refResponse (Z.of_nat (length a)))))
    (capIs (length a)).
Proof.
  intros Htake Hlen. unfold exchangeIO.
  assert (forall s, bufArray s = a -> capIs (length a) s) as Hweak by (by intros s <-).
  eapply sim_bind; [apply sim_deadline|intros _|done].
  eapply sim_deferred; [|apply sim_clear].
  eapply sim_bind; [by apply sim_write|intros _|done].
  eapply sim_bind; [apply sim_deadline|intros _|done].
  eapply sim_deferred; [|apply sim_clear].
  intros s Hs. by apply sim_response, Hweak.
Qed.
End Refinement.

Section Prepare.
Context {C : Type} `{!NetConn C} `{ProtoLib}.
Implicit Types s : exchangeState C.

(** What the request looks like in memory. *)
Lemma prepare_buf grow (m : bytes) v s :
  length (bufArray s) = maxMessageSize -> xFresh s = None ->
  exists s1, (putSize v ≫= fun _ => appendBuf grow m) s = (Ret (), s1) /\
    xConn s1 = xConn s /\ xPool s1 = xPool s /\ length (xBuf s1) = maxMessageSize /\
    take (4 + length m) (bufArray s1) = PutUint32 v ++ m /\
    length (bufArray s1) = room grow (4 + length m).
Proof.
  destruct s as [c p b f]; simpl xFresh; intros Hlen ->; unfold bufArray in Hlen; simpl in Hlen.
  assert (4 <= maxMessageSize)%nat as H4 by (apply Nat.leb_le; vm_compute; reflexivity).
  assert (length (store (PutUint32 v) b) = maxMessageSize) as Hl1.
  { rewrite length_store; [done|]. simpl. lia. }
  assert (take 4 (store (PutUint32 v) b) = PutUint32 v) as Ht1 by done.
  unfold mbind, St_bind, putSize, bufArray at 1 2; cbn [xFresh xBuf from_option id].
  rewrite (proj2 (Nat.leb_le _ _)) by lia.
  set (a := store (PutUint32 v) b) in *. cbn [setArray xFresh xConn xPool].
  unfold appendBuf, room, bufArray at 1 2 3 4; cbn [xFresh xBuf from_option id]. rewrite Hl1, Ht1.
  assert (length (PutUint32 v) = 4%nat) as Hp by done.
  set (h := PutUint32 v) in *.
  destruct (Nat.leb_spec (4 + length m) maxMessageSize); eexists; (split; [reflexivity|]);
    unfold bufArray; cbn [setArray xFresh xConn xPool xBuf from_option id];
    rewrite !length_app, ?length_drop, ?length_replicate, ?Hl1, ?Hp;
    split_and!; try done; try lia; rewrite app_assoc; apply take_app_length';
    rewrite length_app; lia.
Qed.
End Prepare.

Section Whole.
Context {C : Type} `{!NetConn C, !NetConnLaws C} `{ProtoLib}.
Implicit Types s : exchangeState C.

(** The sizes the protocol can express. *)
Definition requestFits (d : exchangeConfig) : Prop :=
  forall tok m, xToken d = Ret tok -> marshalRequest (exchangeRequest d tok) = Ret m ->
    Z.of_nat (length m) < 2 ^ 32.

Lemma metadataExchange_ref `{!FullReads C, !ProtoLaws} d choice grow now1 now2 s :
  poolOK (xPool s) -> requestFits d ->
  let r := metadataExchange d choice grow now1 now2 s in
  let ref := refExchange d (fun n => Z.of_nat (room grow n)) now1 now2 (xConn s) in
  r.1 = ref.1 /\ xConn r.2 = ref.2.
Proof.
  intros Hp Hfit. cbv zeta. unfold metadataExchange, refExchange. rewrite !lift_bind.
  destruct (xToken d) as [tok|e|w] eqn:Htok; [|done..]. cbv zeta. rewrite !lift_bind.
  destruct (marshalRequest (exchangeRequest d tok)) as [m|e|w] eqn:Hm; [|done..].
  rewrite (sizeRequest_ok _ _ Hm), uint_wrap_id by (specialize (Hfit tok m Htok Hm); lia).
  destruct (bufferGet_OK choice _ Hp) as [Hlen _].
  destruct (bufferGet choice (xPool s)) as [a p] eqn:Hget; simpl in Hlen.
  set (s0 := {| xConn := xConn s; xPool := p; xBuf := a; xFresh := None |}).
  rewrite (bind_to (getBuf choice) _ s () s0) by (unfold getBuf; by rewrite Hget).
  destruct (prepare_buf grow m (Z.of_nat (length m)) s0 Hlen eq_refl)
    as (s1 & E1 & Hc & _ & _ & Htake & Hroom).
  rewrite deferred_eq, bind_assoc, (bind_to _ _ _ _ _ E1), <- Hroom.
  assert (4 <= length (bufArray s1))%nat as H4.
  { pose proof (f_equal length Htake) as Hl. rewrite length_take, length_app in Hl.
    change (length (PutUint32 _)) with 4%nat in Hl. lia. }
  destruct (sim_IO (bufArray s1) m now1 now2 Htake H4 s1 eq_refl) as (R1 & R2 & _).
  change (xConn s) with (xConn s0). by rewrite <- Hc.
Qed.

End Whole.
