(* ===== verification/MetadataProps.v ===== *)
(** * The metadata exchange: properties

    What goes over the wire, which buffers return to the pool, and in which state
    the connection is left, on every path: errors, panics and success. *)
From S2P Require Import Prelude GoTime ErrType GoIO Metadata.
#[local] Open Scope string_scope.
#[local] Open Scope list_scope.
#[local] Open Scope Z_scope.

(** C6: the pooled buffer is invisible. On a connection whose reads fill the slice, the
    exchange returns what the protocol written with separate messages returns and
    does the same to the connection: whatever earlier exchanges left in the buffer,
    the request on the wire is its length and its encoding, and the response is
    judged from the bytes received alone. *)
Theorem exchange_refines {C} `{!NetConn C, !NetConnLaws C, !FullReads C} `{!ProtoLib, !ProtoLaws}
    d choice grow now1 now2 (s : exchangeState C)
    (Hp : poolOK (xPool s)) (Hfit : requestFits d) :
  let r := metadataExchange d choice grow now1 now2 s in
  let ref := refExchange d (fun n => Z.of_nat (room grow n)) now1 now2 (xConn s) in
  r.1 = ref.1 /\ xConn r.2 = ref.2.
Proof. by apply metadataExchange_ref. Qed.

Section Paths.
Context {C : Type} `{!NetConn C} `{!ProtoLib} (p : pool).
Implicit Types s : exchangeState C.

(** While the exchange owns a buffer, the pool is [p]. *)

Definition bufInv s : Prop :=
  xPool s = p /\ length (xBuf s) = maxMessageSize /\ (4 <= length (bufArray s))%nat.

Lemma bufInv_setArray a s :
  bufInv s -> length a = length (bufArray s) -> bufInv (setArray a s).
Proof.
  intros (Hp & Hb & H4) Ha. unfold bufInv. rewrite bufArray_setArray, Ha.
  unfold setArray, bufArray in *. destruct (xFresh s); simpl in *; split_and!; congruence || done.
Qed.

Lemma bufInv_setConn c s : bufInv s -> bufInv (setConn c s).
Proof. done. Qed.

Lemma bufInv_setDeadline t s : bufInv s -> bufInv (setDeadline t s).2.
Proof. intros Hs. unfold setDeadline. destruct (connSetDeadline _ _) as [e c]; simpl. by destruct e. Qed.

Lemma bufInv_writeBuf n s : bufInv s -> bufInv (writeBuf n s).2.
Proof. intros Hs. unfold writeBuf. destruct (connWrite _ _) as [[k e] c]; simpl. by destruct e. Qed.

Lemma bufInv_readBuf `{!NetConnLaws C} n s :
  bufInv s -> (n <= length (bufArray s))%nat ->
  bufInv (readBuf n s).2 /\ length (bufArray (readBuf n s).2) = length (bufArray s).
Proof.
  intros Hs Hn. rewrite readBuf_eq. pose proof (connRead_le n (xConn s)) as Hle.
  destruct (connRead n (xConn s)) as [[b e] c]; simpl in *.
  change (bufArray (setConn c s)) with (bufArray s).
  assert (length (store b (bufArray s)) = length (bufArray s)) as Hl by (apply length_store; lia).
  assert (bufInv (setArray (store b (bufArray s)) (setConn c s))) as Hi by (by apply bufInv_setArray).
  unfold mbind, St_bind; destruct e; simpl; by rewrite bufArray_setArray.
Qed.

(** A slice expression guards the read into the slice. *)
Lemma bufInv_sliceRead `{!NetConnLaws C} n (k : bytes -> St (exchangeState C) unit) s :
  0 <= n -> bufInv s -> (forall b s', bufInv s' -> bufInv (k b s').2) ->
  bufInv ((reslice n ≫= fun _ => readBuf (Z.to_nat n) ≫= k) s).2.
Proof.
  intros Hn Hs Hk. unfold mbind at 1, St_bind at 1, reslice.
  destruct (Z.leb_spec n (Z.of_nat (length (bufArray s)))); [|done].
  apply bind_keeps; [apply bufInv_readBuf; [done|lia]|done].
Qed.

Lemma bufInv_response `{!NetConnLaws C} s : bufInv s -> bufInv (exchangeResponse s).2.
Proof.
  intros Hs. unfold exchangeResponse. apply (bufInv_sliceRead 4); [lia|done|]. intros b s1 H1.
  apply bufInv_sliceRead; [apply Uint32_range|done|]. intros b2 s2 H2. rewrite lift_bind.
  by destruct (unmarshalResponse b2).
Qed.

Lemma bufInv_IO `{!NetConnLaws C} now1 now2 n s :
  bufInv s -> bufInv (exchangeIO now1 now2 n s).2.
Proof.
  intros Hs. unfold exchangeIO, clearDeadline.
  apply bind_keeps; [by apply bufInv_setDeadline|]. intros _ s1 H1.
  apply (deferred_keeps bufInv); [|intros; by apply bufInv_setDeadline].
  apply bind_keeps; [by apply bufInv_writeBuf|]. intros _ s2 H2.
  apply bind_keeps; [by apply bufInv_setDeadline|]. intros _ s3 H3.
  apply (deferred_keeps bufInv); [by apply bufInv_response|intros; by apply bufInv_setDeadline].
Qed.
End Paths.

Lemma metadataExchange_pool {C} `{!NetConn C, !NetConnLaws C} `{!ProtoLib}
    d choice grow now1 now2 (s : exchangeState C) (Hp : poolOK (xPool s)) :
  let s' := (metadataExchange d choice grow now1 now2 s).2 in
  poolOK (xPool s') /\
  (forall tok m, xToken d = Ret tok -> marshalRequest (exchangeRequest d tok) = Ret m ->
   exists b, xPool s' = b :: (bufferGet choice (xPool s)).2).
Proof.
  cbv zeta. unfold metadataExchange. rewrite lift_bind.
  destruct (xToken d) as [tok|e|w] eqn:Htok; [|by split..]. cbv zeta. rewrite lift_bind.
  destruct (marshalRequest (exchangeRequest d tok)) as [m|e|w] eqn:Hm;
    [|split; [done|intros; congruence]..].
  destruct (bufferGet_OK choice _ Hp) as [Hlen Hp'].
  destruct (bufferGet choice (xPool s)) as [a p] eqn:Hget; simpl in Hlen, Hp'.
  set (s0 := {| xConn := xConn s; xPool := p; xBuf := a; xFresh := None |}).
  rewrite (bind_to (getBuf choice) _ s () s0) by (unfold getBuf; by rewrite Hget).
  destruct (prepare_buf grow m (uint_wrap 32 (sizeRequest (exchangeRequest d tok))) s0 Hlen eq_refl)
    as (s1 & E1 & _ & Hpool & Hbuf & _ & Hroom).
  rewrite deferred_eq, bind_assoc, (bind_to _ _ _ _ _ E1).
  assert (bufInv p (exchangeIO now1 now2 (4 + length m) s1).2) as (Hp1 & Hb1 & _).
  { apply bufInv_IO; [done|]. unfold bufInv. rewrite Hroom. unfold room. split_and!; [done..|].
    destruct (Nat.leb_spec (4 + length m) maxMessageSize); lia. }
  cbn [snd putBuf xPool]. unfold bufferPut. rewrite Hp1. split; [by constructor|]. intros. by eexists.
Qed.

(** Buffers. Whatever happens, error or panic included, every buffer in the pool
    keeps its full size, and the one taken is put back: the pool never holds a
    shortened or a reallocated slice. *)
Theorem exchange_pool {C} `{!NetConn C, !NetConnLaws C} `{!ProtoLib}
    d choice grow now1 now2 (s : exchangeState C) (Hp : poolOK (xPool s)) :
  let s' := (metadataExchange d choice grow now1 now2 s).2 in
  poolOK (xPool s') /\
  (forall tok m, xToken d = Ret tok -> marshalRequest (exchangeRequest d tok) = Ret m ->
   exists b, xPool s' = b :: (bufferGet choice (xPool s)).2).
Proof. by apply metadataExchange_pool. Qed.

(** *** Deadlines *)
Section Deadlines.
Context {C : Type} `{!NetConn C} `{!ProtoLib}.
Implicit Types s : exchangeState (C * list connCall).

(** The last call on the connection. *)
Definition lastCall s : option connCall := list.last (xConn s).2.

Lemma clearDeadline_last s : lastCall (clearDeadline s) = Some (CallSetDeadline None).
Proof.
  unfold lastCall, clearDeadline, setDeadline; simpl.
  destruct (connSetDeadline None (xConn s).1) as [e c]; simpl. destruct e; simpl; by rewrite last_snoc.
Qed.

Lemma deferred_clear_last {A} (m : St _ A) s :
  lastCall (deferred clearDeadline m s).2 = Some (CallSetDeadline None).
Proof. rewrite deferred_eq. apply clearDeadline_last. Qed.

(** How the log of a run from [s] relates to [s]. *)
Definition deadlineCleared (now : Time) s (r : res unit * exchangeState (C * list connCall)) : Prop :=
  (xConn r.2).2 = (xConn s).2 \/ lastCall r.2 = Some (CallSetDeadline None) \/
  exists e, r.1 = Fail e /\ (xConn r.2).2 = (xConn s).2 ++ [CallSetDeadline (Some (Add now ioTimeout))].

Lemma setDeadline_log t s :
  exists r s', setDeadline t s = (r, s') /\ (xConn s').2 = (xConn s).2 ++ [CallSetDeadline t] /\
    (r = Ret () \/ exists e, r = Fail e).
Proof.
  unfold setDeadline, orFail, lift; simpl.
  destruct (connSetDeadline t (xConn s).1) as [[e|] c]; eexists _, _; split_and!; eauto.
Qed.

Lemma exchangeIO_cleared now1 now2 n s : deadlineCleared now1 s (exchangeIO now1 now2 n s).
Proof.
  unfold exchangeIO, deadlineCleared. rewrite bind_eq.
  destruct (setDeadline_log (Some (Add now1 ioTimeout)) s) as (r & s' & -> & Hlog & [->|[e ->]]).
  - right; left. apply deferred_clear_last.
  - right; right. by exists e.
Qed.

Lemma appendBuf_conn grow m s : exists s', appendBuf grow m s = (Ret (), s') /\ xConn s' = xConn s.
Proof. unfold appendBuf. case_match; eexists; (split; [done|]); by rewrite ?xConn_setArray. Qed.
End Deadlines.

(** Deadlines. The exchange leaves no deadline behind: when it has made a call on
    the connection, the last one removes the deadline, on every path, unless the
    only call was setting the first deadline, which failed. *)
Theorem exchange_clears_deadline {C} `{!NetConn C} `{!ProtoLib}
    d choice grow now1 now2 (s : exchangeState (C * list connCall)) :
  let r := metadataExchange d choice grow now1 now2 s in
  (xConn r.2).2 = (xConn s).2 \/ lastCall r.2 = Some (CallSetDeadline None) \/
  exists e, r.1 = Fail e /\ (xConn r.2).2 = (xConn s).2 ++ [CallSetDeadline (Some (Add now1 ioTimeout))].
Proof.
  cbv zeta. unfold metadataExchange. rewrite lift_bind.
  destruct (xToken d) as [tok|e|w]; [|by left..]. cbv zeta. rewrite lift_bind.
  destruct (marshalRequest (exchangeRequest d tok)) as [m|e|w]; [|by left..].
  rewrite bind_eq. unfold getBuf. destruct (bufferGet choice (xPool s)) as [a p].
  rewrite deferred_eq. set (s0 := {| xConn := xConn s; xPool := p; xBuf := a; xFresh := None |}).
  change (deadlineCleared now1 s0
    ((putSize (uint_wrap 32 (sizeRequest (exchangeRequest d tok))) ≫= fun _ =>
      appendBuf grow m ≫= fun _ => exchangeIO now1 now2 (4 + length m)) s0)).
  rewrite bind_eq. unfold putSize.
  destruct (4 <=? length (bufArray s0))%nat; [|by left]. set (s1 := setArray _ s0).
  destruct (appendBuf_conn grow m s1) as (s2 & E2 & Hc2). rewrite (bind_to _ _ _ _ _ E2).
  assert (xConn s2 = xConn s0) as Hc by (rewrite Hc2; unfold s1; apply xConn_setArray).
  unfold deadlineCleared. rewrite <- Hc. apply exchangeIO_cleared.
Qed.

(** *** The size of the response *)

(** C40: the size of the response is what the first four bytes of the buffer say after
    the first read, and these start as the size of the client's own request: a read
    that returns fewer than four bytes leaves the rest of the request's size in
    place. If the size exceeds the buffer the client panics; otherwise it reads that
    many bytes. *)
Theorem response_size_from_buffer {C} `{!NetConn C} `{!ProtoLib}
    (s : exchangeState (C * list connCall)) v rest b c'
    (Hbuf : bufArray s = PutUint32 v ++ rest)
    (Hread : connRead 4 (xConn s).1 = (b, None, c')) (Hb : (length b <= 4)%nat) :
  let n := Uint32 (b ++ drop (length b) (PutUint32 v)) in
  let r := exchangeResponse s in
  if Z.of_nat (length (bufArray s)) <? n then isPanic r.1 = true
  else (xConn r.2).2 = (xConn s).2 ++ [CallRead 4; CallRead (Z.to_nat n)].
Proof.
  set (hdr := b ++ drop (length b) (PutUint32 v)). intros n r.
  set (a1 := b ++ drop (length b) (PutUint32 v ++ rest)).
  assert (take 4 a1 = hdr) as Ht.
  { unfold a1. rewrite drop_app_le by done. rewrite app_assoc. apply take_app_length'.
    unfold hdr; rewrite length_app, length_drop. change (length (PutUint32 v)) with 4%nat. lia. }
  assert (length a1 = length (bufArray s)) as Hl.
  { unfold a1. rewrite Hbuf, length_app, length_drop, length_app.
    change (length (PutUint32 v)) with 4%nat. lia. }
  set (s1 := setArray a1 (setConn (c', (xConn s).2 ++ [CallRead 4]) s)).
  assert (bufArray s1 = a1) as Ha1 by apply bufArray_setArray.
  assert (xConn s1 = (c', (xConn s).2 ++ [CallRead 4])) as Hc1 by apply xConn_setArray.
  assert (readBuf 4 s = (Ret hdr, s1)) as Hr4.
  { rewrite readBuf_eq; simpl connRead. rewrite Hread, bind_eq. unfold orFail, lift, store.
    rewrite Hbuf. fold a1 s1. by rewrite Ha1, Ht. }
  assert (reslice 4 s = (Ret (), s)) as Hs4.
  { unfold reslice. rewrite Hbuf, (proj2 (Z.leb_le 4 _)); [done|]. rewrite length_app; simpl; lia. }
  unfold r, exchangeResponse. rewrite (bind_to _ _ _ _ _ Hs4), (bind_to _ _ _ _ _ Hr4).
  fold n. pose proof (Uint32_range hdr) as Hn; fold n in Hn. rewrite bind_eq.
  assert (reslice n s1 = if n <=? Z.of_nat (length (bufArray s)) then (Ret (), s1)
                         else (Panic "slice bounds out of range", s1)) as ->.
  { unfold reslice. by rewrite Ha1, Hl. }
  destruct (Z.ltb_spec (Z.of_nat (length (bufArray s))) n) as [Hgt|Hle].
  - by rewrite (proj2 (Z.leb_gt _ _)) by lia.
  - rewrite (proj2 (Z.leb_le _ _)) by lia. rewrite bind_eq.
    assert (exists r2 s2, readBuf (Z.to_nat n) s1 = (r2, s2) /\
      (xConn s2).2 = (xConn s).2 ++ [CallRead 4; CallRead (Z.to_nat n)]) as (r2 & s2 & -> & Hlog).
    { rewrite readBuf_eq; simpl connRead. rewrite Hc1; simpl.
      destruct (connRead (Z.to_nat n) c') as [[b2 e2] c2]. rewrite bind_eq. unfold orFail, lift.
      destruct e2; eexists _, _; (split; [reflexivity|]); rewrite xConn_setArray; simpl;
        by rewrite <- app_assoc. }
    destruct r2 as [resp| |]; [|done..]. rewrite lift_bind. by destruct (unmarshalResponse resp).
Qed.

(** ** A scripted peer *)

(** The peer has already sent [inp] and will send nothing more; what the client writes
    is collected. *)
Record script := { inp : bytes; out : bytes }.

Definition EOF : error := ErrorsNew "EOF".

#[export] Instance script_conn : NetConn script := {
  connSetDeadline _ c := (None, c);
  connWrite b c := (Z.of_nat (length b), None, {| inp := inp c; out := out c ++ b |});
  connRead n c :=
    if (n <=? length (inp c))%nat
    then (take n (inp c), None, {| inp := drop n (inp c); out := out c |})
    else (inp c, Some EOF, {| inp := []; out := out c |});
}.

#[export] Instance script_laws : NetConnLaws script.
Proof. split. intros n c; simpl. destruct (Nat.leb_spec n (length (inp c))); simpl; rewrite ?length_take; lia. Qed.

#[export] Instance script_full : FullReads script.
Proof. split. intros n c; simpl. destruct (Nat.leb_spec n (length (inp c))); simpl; rewrite ?length_take; [lia|done]. Qed.

Lemma refRead_script n (c : script) :
  (n <= length (inp c))%nat ->
  refRead n c = (Ret (take n (inp c)), {| inp := drop n (inp c); out := out c |}).
Proof. intros Hn. unfold refRead; simpl. by rewrite (proj2 (Nat.leb_le _ _)). Qed.

Lemma refResponse_script `{!ProtoLib} limit (c : script) hdr rest :
  inp c = hdr ++ rest -> length hdr = 4%nat ->
  let n := Uint32 hdr in
  refResponse limit c =
    if limit <? n then (Panic "slice bounds out of range", {| inp := rest; out := out c |})
    else if Z.of_nat (length rest) <? n then (Fail EOF, {| inp := []; out := out c |})
    else (unmarshalResponse (take (Z.to_nat n) rest) ≫= checkResponse,
          {| inp := drop (Z.to_nat n) rest; out := out c |}).
Proof.
  intros Hi Hl. cbv zeta. unfold refResponse. rewrite bind_eq, refRead_script;
    rewrite Hi; [|rewrite length_app; lia].
  rewrite take_app_length', drop_app_length' by done. rewrite bind_eq.
  pose proof (Uint32_range hdr) as Hn.
  destruct (Z.ltb_spec limit (Uint32 hdr)) as [Hgt|Hle]; [by rewrite (proj2 (Z.leb_gt _ _))|].
  rewrite (proj2 (Z.leb_le _ _)) by done. cbn [mret St_ret]. rewrite bind_eq.
  destruct (Z.ltb_spec (Z.of_nat (length rest)) (Uint32 hdr)) as [Hgt'|Hle'].
  - unfold refRead; simpl. by rewrite (proj2 (Nat.leb_gt _ _)) by lia.
  - rewrite refRead_script by (simpl; lia). simpl inp. rewrite lift_bind; simpl.
    by destruct (unmarshalResponse _).
Qed.

(** C32: the client against a scripted peer, every branch. The request on the wire is its
    big-endian length and its encoding. If the peer announces more than the buffer
    holds, the client panics; if it sends less than it announces, the client reports
    the end of the stream; otherwise the client returns nil exactly for the response
    code OK and else the response's error, and it has consumed the response and not a
    byte of the database protocol that follows. *)
Theorem exchange_script `{!ProtoLib, !ProtoLaws} d choice grow now1 now2 (s : exchangeState script)
    tok m hdr rest
    (Hp : poolOK (xPool s)) (Htok : xToken d = Ret tok)
    (Hm : marshalRequest (exchangeRequest d tok) = Ret m) (Hfit : Z.of_nat (length m) < 2 ^ 32)
    (Hinp : inp (xConn s) = hdr ++ rest) (Hhdr : length hdr = 4%nat) :
  let n := Uint32 hdr in
  let limit := Z.of_nat (room grow (4 + length m)) in
  let r := metadataExchange d choice grow now1 now2 s in
  out (xConn r.2) = out (xConn s) ++ PutUint32 (Z.of_nat (length m)) ++ m /\
  if limit <? n then isPanic r.1 = true
  else if Z.of_nat (length rest) <? n then r.1 = Fail EOF
  else r.1 = (unmarshalResponse (take (Z.to_nat n) rest) ≫= checkResponse) /\
       inp (xConn r.2) = drop (Z.to_nat n) rest.
Proof.
  cbv zeta. destruct (metadataExchange_ref d choice grow now1 now2 s Hp) as [-> ->].
  { intros tok' m' Ht Hm'. congruence. }
  unfold refExchange. rewrite lift_bind, Htok, lift_bind, Hm.
  rewrite (bind_to _ _ _ () (xConn s)) by done. rewrite deferred_eq.
  set (c1 := {| inp := inp (xConn s); out := out (xConn s) ++ PutUint32 (Z.of_nat (length m)) ++ m |}).
  rewrite (bind_to _ _ _ () c1) by done. rewrite (bind_to _ _ _ () c1) by done. rewrite deferred_eq.
  rewrite (refResponse_script _ c1 hdr rest) by done. cbn [fst snd].
  change (refClear ?x) with x.
  destruct (_ <? _); [done|]. by destruct (_ <? _).
Qed.

(** ** Concrete inputs *)
Module ToyProto.
(** An encoding through the countability of the messages, one byte per bit. *)
Fixpoint ofPos (p : positive) : bytes :=
  match p with xH => [] | xO q => zero :: ofPos q | xI q => one :: ofPos q end.
Fixpoint toPos (b : bytes) : positive :=
  match b with [] => xH | x :: b => if decide (x = zero) then xO (toPos b) else xI (toPos b) end.

Lemma toPos_ofPos p : toPos (ofPos p) = p.
Proof. induction p; simpl; by rewrite ?IHp. Qed.

Definition reqTuple (r : MetadataExchangeRequest) : string * bool * string :=
  (reqUserAgent r, match reqAuthType r with AUTO_IAM => true | _ => false end, reqOauth2Token r).
Definition tupleReq (t : string * bool * string) : MetadataExchangeRequest :=
  {| reqUserAgent := t.1.1; reqAuthType := if t.1.2 then AUTO_IAM else DB_NATIVE; reqOauth2Token := t.2 |}.
Definition respTuple (r : MetadataExchangeResponse) : option Z * string :=
  (match ResponseCode r with RespOK => None | RespOther c => Some c end, respError r).
Definition tupleResp (t : option Z * string) : MetadataExchangeResponse :=
  {| ResponseCode := match t.1 with None => RespOK | Some c => RespOther c end; respError := t.2 |}.

Definition unpack {A} (o : option A) : res A :=
  match o with Some a => Ret a | None => Fail (ErrorsNew "proto: cannot parse invalid wire-format data") end.

#[local] Instance lib : ProtoLib := {
  marshalRequest r := Ret (ofPos (encode (reqTuple r)));
  sizeRequest r := Z.of_nat (length (ofPos (encode (reqTuple r))));
  unmarshalRequest b := unpack (tupleReq <$> decode (toPos b));
  marshalResponse r := Ret (ofPos (encode (respTuple r)));
  sizeResponse r := Z.of_nat (length (ofPos (encode (respTuple r))));
  unmarshalResponse b := unpack (tupleResp <$> decode (toPos b));
}.

#[local] Instance laws : ProtoLaws.
Proof.
  split.
  - by intros r m [= <-].
  - by intros r m [= <-].
  - intros r m [= <-]; simpl. rewrite toPos_ofPos, decode_encode; simpl. by destruct r as [? [] ?].
  - intros r m [= <-]; simpl. rewrite toPos_ofPos, decode_encode; simpl. by destruct r as [[] ?].
Qed.

Definition config : exchangeConfig :=
  {| xToken := Ret "tok"; xUseIAMAuthN := true; xUserAgent := "ua" |}.
Definition request : bytes := ofPos (encode (reqTuple (exchangeRequest config "tok"))).
Definition grow (n : nat) : nat := n.

(** A peer that answers [r] and goes on with the database protocol. *)
Definition peer (r : MetadataExchangeResponse) : exchangeState script :=
  let p := ofPos (encode (respTuple r)) in
  {| xConn := {| inp := PutUint32 (Z.of_nat (length p)) ++ p ++ to_bytes "db"; out := [] |};
     xPool := []; xBuf := []; xFresh := None |}.
End ToyProto.
#[local] Existing Instance ToyProto.lib.
#[local] Existing Instance ToyProto.laws.

Lemma exchange_refines_witness :
  let s := ToyProto.peer {| ResponseCode := RespOther 2; respError := "denied" |} in
  let r := metadataExchange ToyProto.config None ToyProto.grow 0 0 s in
  let ref := refExchange ToyProto.config (fun n => Z.of_nat (room ToyProto.grow n)) 0 0 (xConn s) in
  ref.1 = Fail (ErrorsNew "denied") /\ r.1 = ref.1 /\ xConn r.2 = ref.2.
Proof.
  intros s r ref. split; [vm_compute; reflexivity|].
  apply (exchange_refines ToyProto.config None ToyProto.grow 0 0 s).
  - constructor.
  - intros tok m [= <-] [= <-]. vm_compute. reflexivity.
Defined.

Lemma exchange_pool_witness :
  let s := ToyProto.peer {| ResponseCode := RespOK; respError := "" |} in
  let s' := (metadataExchange ToyProto.config None ToyProto.grow 0 0 s).2 in
  poolOK (xPool s') /\
  (forall tok m, xToken ToyProto.config = Ret tok ->
   marshalRequest (exchangeRequest ToyProto.config tok) = Ret m ->
   exists b, xPool s' = b :: (bufferGet None (xPool s)).2).
Proof.
  intros s s'. apply (exchange_pool ToyProto.config None ToyProto.grow 0 0 s). constructor.
Defined.

(** The peer's first byte alone arrives: the other three are the request's size. *)
Lemma response_size_from_buffer_witness :
  let s := {| xConn := ({| inp := [zero]; out := [] |}, []); xPool := [];
              xBuf := PutUint32 7 ++ to_bytes "request"; xFresh := None |} in
  let first := {| connSetDeadline := fun _ c => (None, c);
                  connWrite := fun b c => (0, None, c);
                  connRead := fun n c => (take 1 (inp c), None, {| inp := drop 1 (inp c); out := out c |}) |}
    : NetConn script in
  let r := exchangeResponse (NetConn0 := traced (NetConn0 := first)) s in
  (xConn r.2).2 = [CallRead 4; CallRead 7].
Proof.
  intros s first.
  apply (response_size_from_buffer (NetConn0 := first) s 7 (to_bytes "request") [zero]
    {| inp := []; out := [] |}).
  - reflexivity.
  - reflexivity.
  - simpl. lia.
Defined.

Lemma exchange_script_witness :
  let s := ToyProto.peer {| ResponseCode := RespOK; respError := "" |} in
  let r := metadataExchange ToyProto.config None ToyProto.grow 0 0 s in
  out (xConn r.2) = PutUint32 (Z.of_nat (length ToyProto.request)) ++ ToyProto.request /\
  r.1 = Ret () /\ inp (xConn r.2) = to_bytes "db".
Proof.
  intros s r.
  destruct (exchange_script ToyProto.config None ToyProto.grow 0 0 s "tok" ToyProto.request
    (take 4 (inp (xConn s))) (drop 4 (inp (xConn s)))) as [Hout Hr].
  - constructor.
  - reflexivity.
  - reflexivity.
  - vm_compute. reflexivity.
  - by rewrite take_drop.
  - reflexivity.
  - split; [exact Hout|]. revert Hr. vm_compute. tauto.
Defined.
