(* ===== verification/Mock.v ===== *)
(** * The fake server ([src/internal/mock])

    The server side of the metadata exchange ([alloydb.go]) and the HTTP server that
    answers the Admin API calls of a test ([alloydbadmin.go]): a list of expected
    requests with the number of calls left for each. *)
From stdpp Require Import pretty.
From S2P Require Import Prelude GoTime ErrType GoIO Metadata MetadataProps.
#[local] Open Scope string_scope.
#[local] Open Scope list_scope.
#[local] Open Scope Z_scope.

(** ** The server side of the metadata exchange *)
Section Server.
Context {C : Type} `{!NetConn C} `{!ProtoLib}.

Definition wantBytes (verb : string) (n want : Z) : error :=
  ErrorsNew (verb +:+ " " +:+ pretty n +:+ " bytes, want = " +:+ pretty want).

(** [n, err := conn.Read(buf)] into [make([]byte, size)], both checked. *)
Definition serverRead (size : Z) : St C bytes := fun c =>
  let '(b, e, c') := connRead (Z.to_nat size) c in
  (orFail e ≫= fun _ =>
   let n := Z.of_nat (length b) in
   if n =? size then mret (store b (replicate (Z.to_nat size) zero))
   else lift (Fail (wantBytes "read" n size))) c'.

(** [n, err = conn.Write(buf)], both checked. *)
Definition serverWrite (buf : bytes) : St C unit := fun c =>
  let '(n, e, c') := connWrite buf c in
  (orFail e ≫= fun _ =>
   if n =? Z.of_nat (length buf) then mret ()
   else lift (Fail (wantBytes "write" n (Z.of_nat (length buf))))) c'.

Definition okResponse : MetadataExchangeResponse := {| ResponseCode := RespOK; respError := "" |}.

Definition serverExchange : St C unit :=
  serverRead 4 ≫= fun msgSize =>
  let size := Uint32 msgSize in
  serverRead size ≫= fun buf =>
  lift (unmarshalRequest buf) ≫= fun _ =>
  lift (marshalResponse okResponse) ≫= fun data =>
  serverWrite (PutUint32 (uint_wrap 32 (sizeResponse okResponse)) ++ data).
End Server.

(** *** A client and a server *)

(** A connection to the server: it runs when the client has written, on what was
    written, and its output can then be read. The server's own result is kept. *)
Record piped := { toClient : bytes; served : option (res unit) }.

#[export] Instance piped_conn `{!ProtoLib} : NetConn piped := {
  connSetDeadline _ c := (None, c);
  connWrite b c :=
    let '(r, srv) := serverExchange {| inp := b; out := [] |} in
    (Z.of_nat (length b), None, {| toClient := toClient c ++ out srv; served := Some r |});
  connRead n c :=
    if (n <=? length (toClient c))%nat
    then (take n (toClient c), None, {| toClient := drop n (toClient c); served := served c |})
    else (toClient c, Some EOF, {| toClient := []; served := served c |});
}.

#[export] Instance piped_laws `{!ProtoLib} : NetConnLaws piped.
Proof. split. intros n c; simpl. destruct (Nat.leb_spec n (length (toClient c))); simpl; rewrite ?length_take; lia. Qed.

#[export] Instance piped_full `{!ProtoLib} : FullReads piped.
Proof. split. intros n c; simpl. destruct (Nat.leb_spec n (length (toClient c))); simpl; rewrite ?length_take; [lia|done]. Qed.

Lemma serverRead_script `{!ProtoLib} (b rest o : bytes) :
  serverRead (Z.of_nat (length b)) {| inp := b ++ rest; out := o |} =
    (Ret b, {| inp := rest; out := o |}).
Proof.
  unfold serverRead; simpl. rewrite Nat2Z.id, (proj2 (Nat.leb_le _ _)) by (rewrite length_app; lia).
  rewrite bind_eq; simpl. rewrite take_app_length, drop_app_length, Z.eqb_refl.
  unfold store. rewrite drop_ge, app_nil_r by (rewrite length_replicate; lia). done.
Qed.

(** What the server answers to a well-formed request. *)
Lemma serverExchange_ok `{!ProtoLib, !ProtoLaws} req m rm :
  marshalRequest req = Ret m -> Z.of_nat (length m) < 2 ^ 32 ->
  marshalResponse okResponse = Ret rm -> Z.of_nat (length rm) < 2 ^ 32 ->
  serverExchange {| inp := PutUint32 (Z.of_nat (length m)) ++ m; out := [] |} =
    (Ret (), {| inp := []; out := PutUint32 (Z.of_nat (length rm)) ++ rm |}).
Proof.
  intros Hm Hml Hrm Hrl. unfold serverExchange.
  rewrite (bind_to _ _ _ _ _ (serverRead_script (PutUint32 (Z.of_nat (length m))) m [])).
  cbv zeta. rewrite Uint32_PutUint32 by lia.
  pose proof (serverRead_script m [] []) as Hr. rewrite app_nil_r in Hr.
  rewrite (bind_to _ _ _ _ _ Hr), lift_bind, (unmarshalRequest_ok _ _ Hm), lift_bind, Hrm.
  rewrite (sizeResponse_ok _ _ Hrm), uint_wrap_id by lia.
  unfold serverWrite. cbn [connWrite script_conn]. rewrite bind_eq. unfold orFail, lift. rewrite Z.eqb_refl. done.
Qed.

(** Round trip. Against the fake server the client's exchange succeeds, and so does
    the server's, which has decoded the request: the two sides agree on the framing
    and the messages, for every user agent, token and authentication type. *)
Theorem exchange_roundtrip `{!ProtoLib, !ProtoLaws} d choice grow now1 now2 (s : exchangeState piped)
    tok m rm
    (Hp : poolOK (xPool s)) (Hnew : toClient (xConn s) = [])
    (Htok : xToken d = Ret tok)
    (Hm : marshalRequest (exchangeRequest d tok) = Ret m) (Hml : Z.of_nat (length m) < 2 ^ 32)
    (Hrm : marshalResponse okResponse = Ret rm) (Hrl : (length rm <= maxMessageSize)%nat) :
  let r := metadataExchange d choice grow now1 now2 s in
  r.1 = Ret () /\ xConn r.2 = {| toClient := []; served := Some (Ret ()) |}.
Proof.
  cbv zeta. destruct (metadataExchange_ref d choice grow now1 now2 s Hp) as [-> ->].
  { intros tok' m' Ht Hm'. congruence. }
  assert (Z.of_nat (length rm) < 2 ^ 32) as Hrl'.
  { assert (Z.of_nat maxMessageSize < 2 ^ 32) by (vm_compute; reflexivity). lia. }
  unfold refExchange. rewrite lift_bind, Htok, lift_bind, Hm.
  rewrite (bind_to _ _ _ () (xConn s)) by done. rewrite deferred_eq.
  set (c1 := {| toClient := PutUint32 (Z.of_nat (length rm)) ++ rm; served := Some (Ret ()) |}).
  assert (refWrite (PutUint32 (Z.of_nat (length m)) ++ m) (xConn s) = (Ret (), c1)) as Hw.
  { unfold refWrite. cbn [connWrite piped_conn].
    rewrite (serverExchange_ok _ m rm Hm Hml Hrm Hrl'). simpl out. by rewrite Hnew. }
  rewrite (bind_to _ _ _ _ _ Hw). rewrite (bind_to _ _ _ () c1) by done. rewrite deferred_eq.
  assert (length rm <= room grow (4 + length m))%nat as Hroom.
  { unfold room. destruct (Nat.leb_spec (4 + length m) maxMessageSize); lia. }
  unfold refResponse.
  set (c2 := {| toClient := rm; served := Some (Ret ()) |}).
  set (c3 := {| toClient := []; served := Some (Ret ()) |}).
  assert (refRead 4 c1 = (Ret (PutUint32 (Z.of_nat (length rm))), c2)) as Hr1 by done.
  assert (refRead (length rm) c2 = (Ret rm, c3)) as Hr2.
  { unfold refRead; simpl. rewrite Nat.leb_refl, firstn_all, drop_all. done. }
  rewrite (bind_to _ _ _ _ _ Hr1). cbv zeta. rewrite Uint32_PutUint32 by lia.
  rewrite (proj2 (Z.leb_le _ _)) by lia.
  rewrite (bind_to _ _ _ () c2) by done. rewrite Nat2Z.id, (bind_to _ _ _ _ _ Hr2).
  rewrite lift_bind, (unmarshalResponse_ok _ _ Hrm). done.
Qed.

#[local] Existing Instance ToyProto.lib.
#[local] Existing Instance ToyProto.laws.

Lemma exchange_roundtrip_witness :
  let s := {| xConn := {| toClient := []; served := None |}; xPool := []; xBuf := []; xFresh := None |} in
  let r := metadataExchange ToyProto.config None ToyProto.grow 0 0 s in
  r.1 = Ret () /\ xConn r.2 = {| toClient := []; served := Some (Ret ()) |}.
Proof.
  intros s.
  apply (exchange_roundtrip ToyProto.config None ToyProto.grow 0 0 s "tok" ToyProto.request
    (ToyProto.ofPos (encode (ToyProto.respTuple okResponse)))).
  - constructor.
  - reflexivity.
  - reflexivity.
  - reflexivity.
  - vm_compute. reflexivity.
  - reflexivity.
  - apply Nat.leb_le. vm_compute. reflexivity.
Defined.

(** ** The fake Admin API ([alloydbadmin.go]) *)

(** An expected request: an empty method or path matches any; [reqCt] calls are left. *)
Record Request := { reqMethod : string; reqPath : string; reqCt : Z }.

(** [Request.matches], which counts the call when it matches. *)
Definition matches (r : Request) (method path : string) : bool * Request :=
  if (negb (bool_decide (reqMethod r = "")) && negb (bool_decide (reqMethod r = method)))%bool then (false, r)
  else if (negb (bool_decide (reqPath r = "")) && negb (bool_decide (reqPath r = path)))%bool then (false, r)
  else if reqCt r <=? 0 then (false, r)
  else (true, {| reqMethod := reqMethod r; reqPath := reqPath r; reqCt := reqCt r - 1 |}).

(** The handler of [HTTPClient]: the first request that matches handles the call; without
    one the server answers 501. *)
Fixpoint dispatch (requests : list Request) (method path : string) : option nat * list Request :=
  match requests with
  | [] => (None, [])
  | r :: rs =>
      let '(ok, r') := matches r method path in
      if ok then (Some 0%nat, r' :: rs)
      else let '(i, rs') := dispatch rs method path in (S <$> i, r' :: rs')
  end.

Fixpoint dispatchAll (requests : list Request) (hs : list (string * string)) : list (option nat) * list Request :=
  match hs with
  | [] => ([], requests)
  | (m, p) :: hs => let '(i, rs) := dispatch requests m p in
                    let '(idx, rs) := dispatchAll rs hs in (i :: idx, rs)
  end.

(** [cleanup]: the first expected request with calls left. *)
Fixpoint cleanupFrom (pos : nat) (requests : list Request) : option (nat * Z) :=
  match requests with
  | [] => None
  | r :: rs => if 0 <? reqCt r then Some (pos, reqCt r) else cleanupFrom (S pos) rs
  end.
Definition cleanup : list Request -> option (nat * Z) := cleanupFrom 0.

(** How often request [j] handled a call. *)
Definition handled (j : nat) (idx : list (option nat)) : Z :=
  Z.of_nat (length (filter (fun i => i = Some j) idx)).

Lemma matches_spec r m p :
  (matches r m p).2 = if (matches r m p).1 then {| reqMethod := reqMethod r; reqPath := reqPath r; reqCt := reqCt r - 1 |} else r.
Proof. unfold matches. by repeat case_match. Qed.

Lemma matches_true r m p : (matches r m p).1 = true -> 0 < reqCt r.
Proof. unfold matches. repeat case_match; simpl; try done. intros _. zbool. lia. Qed.

Lemma dispatch_spec rs m p j r :
  rs !! j = Some r ->
  exists r', (dispatch rs m p).2 !! j = Some r' /\
    reqCt r' = reqCt r - (if decide ((dispatch rs m p).1 = Some j) then 1 else 0) /\ (0 <= reqCt r -> 0 <= reqCt r').
Proof.
  revert j. induction rs as [|x rs IH]; intros j Hj; [done|]. simpl.
  pose proof (matches_spec x m p) as Hs. pose proof (matches_true x m p) as Ht.
  destruct (matches x m p) as [ok x'] eqn:E; simpl in Hs, Ht. destruct ok; subst x'.
  - destruct j as [|j]; simplify_eq/=.
    + eexists. split; [done|]. simpl. specialize (Ht eq_refl). split; lia.
    + exists r. split; [done|]. split; [lia|done].
  - destruct j as [|j]; simplify_eq/=.
    + exists r. destruct (dispatch rs m p) as [i rs']; simpl. split; [done|].
      rewrite decide_False by (by destruct i). split; [lia|done].
    + destruct (IH j Hj) as (r' & Hr' & Hct & Hnn). destruct (dispatch rs m p) as [i rs']; simpl in *.
      exists r'. split; [done|]. split; [|done]. rewrite Hct. f_equal.
      destruct i as [k|]; simpl; repeat case_decide; congruence.
Qed.

Lemma dispatchAll_spec rs hs j r :
  rs !! j = Some r ->
  exists r', (dispatchAll rs hs).2 !! j = Some r' /\
    reqCt r' = reqCt r - handled j (dispatchAll rs hs).1 /\ (0 <= reqCt r -> 0 <= reqCt r').
Proof.
  revert rs r. induction hs as [|[m p] hs IH]; intros rs r Hj; simpl.
  - exists r. unfold handled. rewrite filter_nil. simpl. split; [done|]. split; [lia|done].
  - destruct (dispatch_spec rs m p j r Hj) as (r1 & Hr1 & Hct1 & Hnn1).
    destruct (dispatch rs m p) as [i rs1]; simpl in *.
    destruct (IH rs1 r1 Hr1) as (r2 & Hr2 & Hct2 & Hnn2).
    destruct (dispatchAll rs1 hs) as [idx rs2]; simpl in *. exists r2. split; [done|]. split; [|by auto].
    unfold handled in *. rewrite list.filter_cons. destruct (decide (i = Some j)); simpl; lia.
Qed.

Lemma cleanupFrom_None pos rs : cleanupFrom pos rs = None <-> Forall (fun r => reqCt r <= 0) rs.
Proof.
  revert pos. induction rs as [|r rs IH]; intros pos; simpl; [by split|].
  rewrite list.Forall_cons, <- (IH (S pos)). destruct (Z.ltb_spec 0 (reqCt r)); split; try done; [|by intros []].
  intros [? _]. lia.
Qed.

(** The fake Admin API counts. Of the calls the server gets, each expected request
    handles at most as many as it allows, and the cleanup reports no error exactly when
    every expected request was called that many times. *)
Theorem mock_counts_calls rs hs
    (Hpos : Forall (fun r => 0 <= reqCt r) rs) :
  let out := dispatchAll rs hs in
  (forall j r, rs !! j = Some r -> handled j out.1 <= reqCt r) /\
  (cleanup out.2 = None <-> forall j r, rs !! j = Some r -> handled j out.1 = reqCt r).
Proof.
  cbv zeta. assert (forall j r, rs !! j = Some r -> 0 <= reqCt r) as Hnn.
  { intros j r Hj. by apply (list.Forall_lookup_1 _ _ _ _ Hpos Hj). }
  assert (length (dispatchAll rs hs).2 = length rs) as Hlen.
  { clear Hpos Hnn. revert rs. induction hs as [|[m p] hs IH]; intros rs; simpl; [done|].
    assert (length (dispatch rs m p).2 = length rs) as Hd.
    { induction rs as [|x rs IHr]; simpl; [done|]. destruct (matches x m p) as [[] x']; simpl; [done|].
      destruct (dispatch rs m p); simpl in *. by rewrite IHr. }
    destruct (dispatch rs m p) as [i rs1]; simpl in Hd. specialize (IH rs1).
    destruct (dispatchAll rs1 hs); simpl in *. congruence. }
  split.
  - intros j r Hj. destruct (dispatchAll_spec rs hs j r Hj) as (r' & _ & Hct & Hge).
    specialize (Hge (Hnn j r Hj)). lia.
  - unfold cleanup. rewrite cleanupFrom_None, list.Forall_lookup. split.
    + intros Hall j r Hj. destruct (dispatchAll_spec rs hs j r Hj) as (r' & Hr' & Hct & Hge).
      specialize (Hge (Hnn j r Hj)). specialize (Hall j r' Hr'). simpl in Hall. lia.
    + intros Hall j r' Hr'. assert (is_Some (rs !! j)) as [r Hj].
      { apply lookup_lt_is_Some. rewrite <- Hlen. by eapply lookup_lt_Some. }
      destruct (dispatchAll_spec rs hs j r Hj) as (r2 & Hr2 & Hct & _). simplify_eq.
      rewrite Hct, (Hall j r Hj). simpl. lia.
Qed.

Lemma mock_counts_calls_witness :
  let rs := [{| reqMethod := "GET"; reqPath := "/i"; reqCt := 1 |}; {| reqMethod := ""; reqPath := ""; reqCt := 2 |}] in
  let out := dispatchAll rs [("GET", "/i"); ("GET", "/i"); ("POST", "/c"); ("POST", "/c")] in
  out.1 = [Some 0%nat; Some 1%nat; Some 1%nat; None] /\
  (forall j r, rs !! j = Some r -> handled j out.1 <= reqCt r) /\
  (cleanup out.2 = None <-> forall j r, rs !! j = Some r -> handled j out.1 = reqCt r).
Proof.
  intros rs out. split; [reflexivity|]. apply (mock_counts_calls rs). repeat constructor; simpl; lia.
Defined.
