(* ===== verification/FakeInstance.v ===== *)
(** * The fake instance ([src/internal/mock/alloydb.go])

    The instance a test runs against: its addresses and names, its three certificates,
    the client certificates it issues, and the loop of its server proxy. Package
    [crypto/x509] is a parameter, with what it documents as laws. *)
From S2P Require Import Prelude GoTime ErrType InstanceURI Refresh GoIO Metadata MetadataProps Mock.
#[local] Open Scope string_scope.
#[local] Open Scope list_scope.
#[local] Open Scope Z_scope.

(** ** [crypto/x509], the part that creates certificates *)
Inductive KeyUsage := KeyUsageCertSign | KeyUsageCRLSign | KeyUsageDigitalSignature.
Inductive ExtKeyUsage := ExtKeyUsageClientAuth.

(** An [x509.Certificate] the code writes down, as a template. *)
Record certTemplate (Name : Type) := {
  tSerialNumber : Z; tSubject : option Name; tIssuer : option Name;
  tNotBefore : Time; tNotAfter : Time; tIsCA : bool; tKeyUsage : list KeyUsage;
  tExtKeyUsage : list ExtKeyUsage; tBasicConstraintsValid : bool; tIPAddresses : list string }.
Arguments tSerialNumber {Name}. Arguments tSubject {Name}. Arguments tIssuer {Name}.
Arguments tNotBefore {Name}. Arguments tNotAfter {Name}. Arguments tIsCA {Name}.
Arguments tKeyUsage {Name}. Arguments tExtKeyUsage {Name}.
Arguments tBasicConstraintsValid {Name}. Arguments tIPAddresses {Name}.

Class X509Lib `{CryptoLib} := {
  PublicKey : Type;                                  (* rsa.PublicKey *)
  Name : Type;                                       (* pkix.Name *)
  commonName : string -> Name;                       (* pkix.Name{CommonName: s} *)
  publicKey : PrivateKey -> PublicKey;
  Subject : Certificate -> Name;
  Raw : Certificate -> bytes;
  CertPublicKey : Certificate -> PublicKey;
  SignedBy : Certificate -> PublicKey -> Prop;       (* the signature verifies *)
  ParsePKCS1PublicKey : bytes -> res PublicKey;
  (* random bytes, template, parent, public key, signing key *)
  CreateCertificate : bytes -> certTemplate Name -> certTemplate Name + Certificate ->
    PublicKey -> PrivateKey -> res bytes;
}.

(** Certificates hold times to the second. *)
Definition truncSecond (t : Time) : Time := t - t mod Second.

(** What the packages document. *)
Class X509Laws `{X509Lib} := {
  created_ok rand t parent pub priv der :
    CreateCertificate rand t parent pub priv = Ret der ->
    exists c, ParseCertificate der = Ret c /\ Raw c = der /\
      NotAfter c = truncSecond (tNotAfter t) /\ CertPublicKey c = pub /\
      SignedBy c (publicKey priv) /\ (forall n, tSubject t = Some n -> Subject c = n);
  publicKey_ok k : ParsePKCS1PublicKey (MarshalPKCS1PublicKey k) = Ret (publicKey k);
  pemEncode_ok ty b : pemEncode ty b = Ret (pemEncodeToMemory ty b);
  pemDecode_ok ty b : pemDecode (pemEncodeToMemory ty b) = Some b;
  (* the key pair of a chain whose first certificate is for the key *)
  KeyPair_ok der ders c k :
    ParseCertificate der = Ret c -> CertPublicKey c = publicKey k ->
    KeyPair (String.concat (String "010" "") (map (pemEncodeToMemory "CERTIFICATE") (der :: ders)))
      (pemEncodeToMemory "RSA PRIVATE KEY" (MarshalPKCS1PrivateKey k)) = Ret (der :: ders, k);
}.

Section Fake.
Context `{X509Lib}.

(** The table of [unicode.IsPrint], for the texts of errors. *)
Context (isPrint : Z -> bool).

(** ** The instance *)
Record FakeAlloyDBInstance := {
  fProject : string; fRegion : string; fCluster : string; fName : string;
  fIPAddrs : gmap string string; fUid : string; fServerName : string; fCertExpiry : Time;
  fRootCACert : Certificate; fRootKey : PrivateKey;
  fIntermedCert : Certificate; fIntermedKey : PrivateKey;
  fServerCert : Certificate; fServerKey : PrivateKey }.

(** The fields that options set; they run before the certificates are made. *)
Record fakeConfig := {
  fcIPAddrs : gmap string string; fcServerName : string; fcCertExpiry : Time }.

Definition Option := fakeConfig -> fakeConfig.

Definition setIP (k addr : string) : Option := fun f =>
  {| fcIPAddrs := <[k := addr]> (fcIPAddrs f); fcServerName := fcServerName f; fcCertExpiry := fcCertExpiry f |}.
Definition WithPublicIP (addr : string) : Option := setIP "PUBLIC" addr.
Definition WithPrivateIP (addr : string) : Option := setIP "PRIVATE" addr.
Definition WithPSC (addr : string) : Option := setIP "PSC" addr.
Definition WithServerName (name : string) : Option := fun f =>
  {| fcIPAddrs := fcIPAddrs f; fcServerName := name; fcCertExpiry := fcCertExpiry f |}.
Definition WithCertExpiry (expiry : Time) : Option := fun f =>
  {| fcIPAddrs := fcIPAddrs f; fcServerName := fcServerName f; fcCertExpiry := expiry |}.

(** [String], with the instance's four names *)
Definition fakeString (f : FakeAlloyDBInstance) : string :=
  "projects/" +:+ fProject f +:+ "/locations/" +:+ fRegion f +:+
  "/clusters/" +:+ fCluster f +:+ "/instances/" +:+ fName f.

(** [if err != nil { panic(err) }] *)
Definition must {A} (m : res A) : res A := match m with Fail e => Panic (Error isPrint e) | m => m end.

(** [mustGenerateKey], given what [rsa.GenerateKey] returns *)
Definition mustGenerateKey (generated : res PrivateKey) : res PrivateKey := must generated.

(** The clock at its readings, the random bytes, [AddDate(0, 0, 1)] in the local time
    zone, and the keys made when the package is initialised. *)
Record fakeEnv := {
  feNow : nat -> Time; feRand : nat -> bytes; feNextDay : Time -> Time;
  feRootCAKey : PrivateKey; feIntermedCAKey : PrivateKey; feServerKey : PrivateKey }.

(** The template of one of the fake's own certificates. *)
Definition caTemplate (env : fakeEnv) (k : nat) (cn : string) (ips : list string) : certTemplate Name :=
  {| tSerialNumber := 0; tSubject := Some (commonName cn); tIssuer := None;
     tNotBefore := feNow env k; tNotAfter := feNextDay env (feNow env (S k)); tIsCA := true;
     tKeyUsage := [KeyUsageCertSign; KeyUsageCRLSign]; tExtKeyUsage := [];
     tBasicConstraintsValid := true; tIPAddresses := ips |}.

(** [x509.CreateCertificate] and [x509.ParseCertificate], each checked. *)
Definition createAndParse (rand : bytes) t parent pub priv : res Certificate :=
  must (CreateCertificate rand t parent pub priv) ≫= fun signed => must (ParseCertificate signed).

Definition fakeDefaults (now : Time) : fakeConfig :=
  {| fcIPAddrs := {[ "PRIVATE" := "127.0.0.1" ]};
     fcServerName := "00000000-0000-0000-0000-000000000000.server.alloydb";
     fcCertExpiry := Add now (24 * Hour) |}.

Definition NewFakeInstance (env : fakeEnv) (proj reg clust name : string) (opts : list Option)
    : res FakeAlloyDBInstance :=
  let f := foldl (fun f o => o f) (fakeDefaults (feNow env 0)) opts in
  let rootTemplate := caTemplate env 1 "root.alloydb" [] in
  createAndParse (feRand env 0) rootTemplate (inl rootTemplate)
    (publicKey (feRootCAKey env)) (feRootCAKey env) ≫= fun rootCert =>
  createAndParse (feRand env 1) (caTemplate env 3 "client.alloydb" []) (inr rootCert)
    (publicKey (feIntermedCAKey env)) (feRootCAKey env) ≫= fun intermedCert =>
  createAndParse (feRand env 2) (caTemplate env 5 (fcServerName f) ["127.0.0.1"]) (inr rootCert)
    (publicKey (feServerKey env)) (feRootCAKey env) ≫= fun serverCert =>
  Ret {| fProject := proj; fRegion := reg; fCluster := clust; fName := name;
         fIPAddrs := fcIPAddrs f; fUid := "00000000-0000-0000-0000-000000000000";
         fServerName := fcServerName f; fCertExpiry := fcCertExpiry f;
         fRootCACert := rootCert; fRootKey := feRootCAKey env;
         fIntermedCert := intermedCert; fIntermedKey := feIntermedCAKey env;
         fServerCert := serverCert; fServerKey := feServerKey env |}.

(** ** Client certificates *)
Definition clientTemplate (f : FakeAlloyDBInstance) (now : Time) : certTemplate Name :=
  {| tSerialNumber := 0; tSubject := None; tIssuer := Some (Subject (fIntermedCert f));
     tNotBefore := now; tNotAfter := fCertExpiry f; tIsCA := false;
     tKeyUsage := [KeyUsageDigitalSignature]; tExtKeyUsage := [ExtKeyUsageClientAuth];
     tBasicConstraintsValid := false; tIPAddresses := [] |}.

(** [pem.Encode] into a buffer, its error dropped *)
Definition pemBuffer (ty : string) (b : bytes) : string :=
  match pemEncode ty b with Ret s => s | _ => "" end.

Definition GeneratePEMCertificateChain (f : FakeAlloyDBInstance) (now : Time) (rand : bytes) (pub : PublicKey)
    : res (list string) :=
  CreateCertificate rand (clientTemplate f now) (inr (fIntermedCert f)) pub (fIntermedKey f) ≫= fun cert =>
  Ret [pemBuffer "CERTIFICATE" cert; pemBuffer "CERTIFICATE" (Raw (fIntermedCert f));
       pemBuffer "CERTIFICATE" (Raw (fRootCACert f))].

(** ** The server proxy *)

(** [tls.Config] of the listener; [ClientAuth] is [RequireAndVerifyClientCert]. *)
Record proxyTLS := {
  pxChain : list bytes; pxKey : PrivateKey; pxLeaf : Certificate;
  pxServerName : string; pxClientCAs : list Certificate }.

Definition proxyConfig (f : FakeAlloyDBInstance) : proxyTLS :=
  {| pxChain := [Raw (fServerCert f); Raw (fRootCACert f)]; pxKey := fServerKey f;
     pxLeaf := fServerCert f; pxServerName := "127.0.0.1"; pxClientCAs := [fRootCACert f] |}.

(** [tryListen]: [outs] are the outcomes of [tls.Listen], one per attempt; the time
    slept is counted. [t.Fatalf] ends the test. *)
Fixpoint tryListen {L} (outs : list (res L)) (slept : Duration) : res L * Duration :=
  match outs with
  | [] => (Panic "failed to start listener", slept)
  | Ret ln :: _ => (Ret ln, slept)
  | _ :: outs => tryListen outs (slept + 500 * Millisecond)
  end.

Section Proxy.
Context {C : Type} `{!NetConn C} `{!ProtoLib}.

(** The goroutine that accepts: in each round, whether its context is done and what
    [Accept] yields. It returns the connections it has closed, each as it left it, and
    whether it still runs. *)
Fixpoint acceptLoop (f : FakeAlloyDBInstance) (rounds : list (bool * res C)) : list C * bool :=
  match rounds with
  | [] => ([], true)
  | (true, _) :: _ => ([], false)
  | (false, Ret c) :: rounds =>
    let '(r, c) := serverExchange c in
    match r with
    | Ret _ =>
      let c := (connWrite (to_bytes (fName f)) c).2 in
      let '(closed, running) := acceptLoop f rounds in (c :: closed, running)
    | _ => ([c], false)
    end
  | (false, _) :: _ => ([], false)
  end.
End Proxy.
End Fake.

(** ** Well-formed instances *)
Section Props.
Context `{X509Laws} (isPrint : Z -> bool).

(** The root signs itself, the issuer of client certificates and the server's
    certificate; the certificates are for the keys kept with them. *)
Record fakeOK (f : FakeAlloyDBInstance) : Prop := {
  root_parses : ParseCertificate (Raw (fRootCACert f)) = Ret (fRootCACert f);
  root_key : CertPublicKey (fRootCACert f) = publicKey (fRootKey f);
  root_signed : SignedBy (fRootCACert f) (CertPublicKey (fRootCACert f));
  intermed_key : CertPublicKey (fIntermedCert f) = publicKey (fIntermedKey f);
  intermed_signed : SignedBy (fIntermedCert f) (CertPublicKey (fRootCACert f));
  server_key : CertPublicKey (fServerCert f) = publicKey (fServerKey f);
  server_signed : SignedBy (fServerCert f) (CertPublicKey (fRootCACert f));
  server_subject : Subject (fServerCert f) = commonName (fServerName f);
}.

Lemma must_Ret {A} (m : res A) a : must isPrint m = Ret a -> m = Ret a.
Proof. by destruct m. Qed.

Lemma createAndParse_ok rand t parent pub priv c :
  createAndParse isPrint rand t parent pub priv = Ret c ->
  ParseCertificate (Raw c) = Ret c /\ CertPublicKey c = pub /\ SignedBy c (publicKey priv) /\
  forall n, tSubject t = Some n -> Subject c = n.
Proof.
  intros (der & Hder%must_Ret & Hc%must_Ret)%bind_Ret.
  destruct (created_ok _ _ _ _ _ _ Hder) as (c' & Hp & Hraw & _ & Hpub & Hs & Hsub).
  rewrite Hc in Hp. injection Hp as <-. by rewrite Hraw.
Qed.

Lemma NewFakeInstance_ok env proj reg clust name opts f :
  NewFakeInstance isPrint env proj reg clust name opts = Ret f -> fakeOK f.
Proof.
  unfold NewFakeInstance. intros (root & Hr & Hf)%bind_Ret. apply bind_Ret in Hf as (im & Hi & Hf).
  apply bind_Ret in Hf as (srv & Hs & Hf). injection Hf as <-.
  apply createAndParse_ok in Hr as (Hr1 & Hr2 & Hr3 & _).
  apply createAndParse_ok in Hi as (_ & Hi2 & Hi3 & _).
  apply createAndParse_ok in Hs as (_ & Hs2 & Hs3 & Hs4).
  split; simpl; try done; try by rewrite Hr2. by apply Hs4.
Qed.

(** The chain issued for a key: the client certificate, its issuer, and the root. *)
Lemma chain_ok f now rand pub chain :
  GeneratePEMCertificateChain f now rand pub = Ret chain -> fakeOK f ->
  exists der leaf, chain = map (pemEncodeToMemory "CERTIFICATE") [der; Raw (fIntermedCert f); Raw (fRootCACert f)] /\
    ParseCertificate der = Ret leaf /\ NotAfter leaf = truncSecond (fCertExpiry f) /\
    CertPublicKey leaf = pub /\ SignedBy leaf (CertPublicKey (fIntermedCert f)).
Proof.
  intros (der & Hder & [= <-])%bind_Ret Hok.
  destruct (created_ok _ _ _ _ _ _ Hder) as (leaf & Hp & _ & Hn & Hpub & Hs & _).
  exists der, leaf. unfold pemBuffer. rewrite !pemEncode_ok. split_and!; try done.
  by rewrite (intermed_key f Hok).
Qed.

(** *** The proxy *)
Section Proxy.
Context {C : Type} `{!NetConn C} `{!ProtoLib}.

(** A connection after its exchange and the instance's name. *)
Definition answered (f : FakeAlloyDBInstance) (c : C) : C :=
  (connWrite (to_bytes (fName f)) (serverExchange c).2).2.

(** The proxy serves the connections in order, up to the first whose exchange fails:
    that one is closed and ends the proxy. *)
Lemma acceptLoop_serves f (cs : list C) rest :
  Forall (fun c => isRet (serverExchange c).1 = true) cs ->
  acceptLoop f (map (fun c => (false, Ret c)) cs ++ rest) =
    (map (answered f) cs ++ (acceptLoop f rest).1, (acceptLoop f rest).2).
Proof.
  induction 1 as [|c cs Hc _ IH]; simpl; [by destruct (acceptLoop f rest)|].
  unfold answered at 1. destruct (serverExchange c) as [[u|e|p] c']; simpl in *; [|done..]. by rewrite IH.
Qed.

Lemma acceptLoop_fails f (c : C) rest :
  isRet (serverExchange c).1 = false ->
  acceptLoop f ((false, Ret c) :: rest) = ([(serverExchange c).2], false).
Proof. simpl. by destruct (serverExchange c) as [[u|e|p] c']. Qed.
End Proxy.
End Props.
