(* ===== verification/FakeAPI.v ===== *)
(** * The fake Admin API ([src/internal/mock/alloydbadmin.go])

    The two canned handlers and the server that dispatches to them; what a refresh
    gets from them. JSON texts are written as [encoding/json] writes them; package
    [protojson] and the generated client of the Admin API are parameters. *)
From stdpp Require Import sorting.
From S2P Require Import Prelude GoTime ErrType GoJSON InstanceURI Refresh GoIO Metadata MetadataProps Mock FakeInstance.
#[local] Open Scope string_scope.
#[local] Open Scope list_scope.
#[local] Open Scope Z_scope.

(** ** HTTP *)
Record httpRequest := { hqMethod : string; hqPath : string; hqBody : res bytes }.
Record httpResponse := { hrStatus : Z; hrBody : bytes }.

(** [http.Error(resp, text, http.StatusBadRequest)] *)
Definition badRequest (text : string) : res httpResponse :=
  Ret {| hrStatus := 400; hrBody := to_bytes text ++ [byteof 10] |}.

(** ** [json.Marshal] of a [map[string]string] *)

(** A byte below 128 that the encoder leaves alone; [<], [>] and [&] it does not. *)
Definition htmlSafe (c : byte) : bool :=
  (32 <=? byteval c) && negb (bool_decide (byteval c ∈ [34; 38; 60; 62; 92])).

Definition escapeASCII (c : byte) : bytes :=
  if htmlSafe c then [c]
  else if bool_decide (byteval c ∈ [34; 92]) then [byteof 92; c]
  else if byteval c =? 8 then to_bytes "\b"
  else if byteval c =? 12 then to_bytes "\f"
  else if byteval c =? 10 then to_bytes "\n"
  else if byteval c =? 13 then to_bytes "\r"
  else if byteval c =? 9 then to_bytes "\t"
  else to_bytes "\u00" ++ hexDigits 2 (byteval c).

(** [appendString], between the quotes. The next [skip] bytes belong to a rune that has
    been dealt with; they are written if [keep]. *)
Fixpoint stringBody (keep : bool) (skip : nat) (s : bytes) : bytes :=
  match s with
  | [] => []
  | c :: t =>
    match skip with
    | S k => (if keep then [c] else []) ++ stringBody keep k t
    | O =>
      if byteval c <? 128 then escapeASCII c ++ stringBody true 0 t
      else match decodeRune s with
           | None => to_bytes "\ufffd" ++ stringBody true 0 t
           | Some (r, w) =>
             if (r =? 8232) || (r =? 8233)
             then to_bytes "\u202" ++ hexDigits 1 (r mod 16) ++ stringBody false (pred w) t
             else c :: stringBody true (pred w) t
           end
    end
  end.

Definition marshalString (s : string) : bytes :=
  [byteof 34] ++ stringBody true 0 (to_bytes s) ++ [byteof 34].

(** The entries sorted by key. *)
Definition keyLe (x y : string * string) : Prop := String.leb x.1 y.1 = true.
#[local] Instance keyLe_dec : RelDecision keyLe := fun x y => bool_eq_dec (String.leb x.1 y.1) true.
Definition sortedEntries (m : gmap string string) : list (string * string) :=
  merge_sort keyLe (map_to_list m).

Fixpoint joinEntries (l : list (string * string)) : bytes :=
  match l with
  | [] => []
  | [(k, v)] => marshalString k ++ to_bytes ":" ++ marshalString v
  | (k, v) :: l => marshalString k ++ to_bytes ":" ++ marshalString v ++ to_bytes "," ++ joinEntries l
  end.

Definition marshalStringMap (m : gmap string string) : bytes :=
  to_bytes "{" ++ joinEntries (sortedEntries m) ++ to_bytes "}".

(** ** The client's side and [protojson] *)
Class RestLib := {
  restClient : (httpRequest -> res httpResponse) -> AlloyDBAdminClient;
  decodeInfo : bytes -> res GetConnectionInfoResponse;
  encodeCertRequest : GenerateClientCertificateRequest -> bytes;
  decodeCertRequest : bytes -> res GenerateClientCertificateRequest;
  encodeCertResponse : GenerateClientCertificateResponse -> res bytes;  (* json.Encoder *)
  decodeCertResponse : bytes -> res GenerateClientCertificateResponse;
}.

(** The routes of the API, and the messages of certificate requests. *)
Class RestLaws `{RestLib} := {
  rest_info serve parent b :
    serve {| hqMethod := "GET"; hqPath := "/v1alpha/" +:+ parent +:+ "/connectionInfo"; hqBody := Ret [] |} =
      Ret {| hrStatus := 200; hrBody := b |} ->
    GetConnectionInfo (restClient serve) parent = decodeInfo b;
  rest_generate serve req b :
    serve {| hqMethod := "POST"; hqPath := "/v1alpha/" +:+ Parent req +:+ ":generateClientCertificate";
             hqBody := Ret (encodeCertRequest req) |} = Ret {| hrStatus := 200; hrBody := b |} ->
    GenerateClientCertificate (restClient serve) req = decodeCertResponse b;
  certRequest_ok req : decodeCertRequest (encodeCertRequest req) = Ret req;
  certResponse_ok resp b : encodeCertResponse resp = Ret b -> decodeCertResponse b = Ret resp;
}.

Section Server.
Context `{X509Lib} `{RestLib}.
Context (isPrint : Z -> bool) (showRequest : httpRequest -> string).

(** A [Request] with its handler. *)
Record fakeRequest := { frReq : Request; frHandle : httpRequest -> res httpResponse }.

(** ** [InstanceGetSuccess] *)

(** The key of the answer for an IP type; other types are left out. *)
Definition addressKey (ipType : string) : option string :=
  if decide (ipType = "PRIVATE") then Some "ipAddress"
  else if decide (ipType = "PUBLIC") then Some "publicIpAddress"
  else if decide (ipType = "PSC") then Some "psc_dns_name"
  else None.

Definition instanceFields (f : FakeAlloyDBInstance) : gmap string string :=
  <["instanceUid" := fUid f]>
    (map_fold (fun ipType addr m => match addressKey ipType with Some k => <[k := addr]> m | None => m end)
       ∅ (fIPAddrs f)).

Definition InstanceGetSuccess (f : FakeAlloyDBInstance) (ct : Z) : fakeRequest :=
  {| frReq := {| reqMethod := "GET";
                 reqPath := "/v1alpha/projects/" +:+ fProject f +:+ "/locations/" +:+ fRegion f +:+
                            "/clusters/" +:+ fCluster f +:+ "/instances/" +:+ fName f +:+ "/connectionInfo";
                 reqCt := ct |};
     frHandle _ := Ret {| hrStatus := 200; hrBody := marshalStringMap (instanceFields f) |} |}.

(** ** [CreateEphemeralSuccess] *)

(** [if err != nil { http.Error(resp, fmt.Errorf(pre + "%w", err).Error(), 400); return }] *)
Definition orBad {A} (pre : string) (m : res A) (k : A -> res httpResponse) : res httpResponse :=
  match m with
  | Ret a => k a
  | Fail err => badRequest (Error isPrint (WrapError pre err))
  | Panic p => Panic p
  end.

Definition ephemeralHandle (f : FakeAlloyDBInstance) (now : Time) (rand : bytes) (req : httpRequest)
    : res httpResponse :=
  orBad "unable to read body: " (hqBody req) (fun b =>
  orBad "invalid or unexpected json: " (decodeCertRequest b) (fun rreq =>
  match pemDecode (PublicKeyPEM rreq) with
  | None => badRequest "unable to decode CSR: %!w(<nil>)"
  | Some bl =>
    orBad "unable to decode CSR: " (ParsePKCS1PublicKey bl) (fun pub =>
    orBad "unable to create certificate: " (GeneratePEMCertificateChain f now rand pub) (fun chain =>
    match list.last chain with
    | None => Panic "index out of range [-1]"
    | Some ca =>
      orBad "unable to encode response: "
        (encodeCertResponse {| PemCertificateChain := chain; CaCert := ca |}) (fun body =>
      Ret {| hrStatus := 200; hrBody := body |})
    end))
  end)).

Definition CreateEphemeralSuccess (f : FakeAlloyDBInstance) (ct : Z) (now : Time) (rand : bytes) : fakeRequest :=
  {| frReq := {| reqMethod := "POST";
                 reqPath := "/v1alpha/projects/" +:+ fProject f +:+ "/locations/" +:+ fRegion f +:+
                            "/clusters/" +:+ fCluster f +:+ ":generateClientCertificate";
                 reqCt := ct |};
     frHandle := ephemeralHandle f now rand |}.

(** ** [HTTPClient]: one request of the server, and its expectations after it *)
Definition serveHTTP (rs : list fakeRequest) (hq : httpRequest) : res httpResponse * list fakeRequest :=
  let '(i, reqs) := dispatch (map frReq rs) (hqMethod hq) (hqPath hq) in
  let rs' := zip_with (fun r q => {| frReq := q; frHandle := frHandle r |}) rs reqs in
  match i ≫= fun j => rs !! j with
  | Some r => (frHandle r hq, rs')
  | None => (Ret {| hrStatus := 501;
                    hrBody := to_bytes ("unexpected request sent to mock client: " +:+ showRequest hq) |}, rs')
  end.
End Server.

(** ** A refresh against the fake *)
Section Refreshed.
Context `{X509Laws} `{RestLaws}.
Context (isPrint : Z -> bool) (showRequest : httpRequest -> string).

(** What a JSON object with the API's keys means. *)
Definition infoOf (m : gmap string string) : GetConnectionInfoResponse :=
  {| IpAddress := default "" (m !! "ipAddress"); PublicIpAddress := default "" (m !! "publicIpAddress");
     PscDnsName := default "" (m !! "psc_dns_name"); InstanceUid := default "" (m !! "instanceUid") |}.

Lemma addressKey_inj t u k : addressKey t = Some k -> addressKey u = Some k -> t = u.
Proof. unfold addressKey. repeat case_decide; congruence. Qed.

Lemma instanceFields_address f t k :
  addressKey t = Some k -> instanceFields f !! k = fIPAddrs f !! t.
Proof.
  intros Hk. unfold instanceFields. rewrite lookup_insert_ne.
  2:{ intros <-. unfold addressKey in Hk. repeat case_decide; done. }
  revert t k Hk. apply (map_fold_weak_ind (fun r m => forall t k, addressKey t = Some k -> r !! k = m !! t));
    [done|].
  intros u a m r Hu IH t k Hk. destruct (decide (t = u)) as [->|Hne].
  - rewrite Hk. by rewrite !lookup_insert_eq.
  - rewrite (lookup_insert_ne m) by done. destruct (addressKey u) as [k'|] eqn:Hu'; [|by apply IH].
    rewrite lookup_insert_ne; [by apply IH|]. intros ->. by eapply Hne, addressKey_inj.
Qed.

(** The addresses a client is to find: the fake's, where there is one. *)
Definition fakeAddr (f : FakeAlloyDBInstance) (t : string) : option string :=
  fIPAddrs f !! t ≫= fun a => if decide (a = "") then None else Some a.

Lemma infoOf_address f t :
  t ∈ [PrivateIP; PublicIP; PSC] -> respAddr (infoOf (instanceFields f)) t = fakeAddr f t.
Proof.
  rewrite !elem_of_cons, elem_of_nil. intros Ht. unfold respAddr, fakeAddr, infoOf; cbn [IpAddress PublicIpAddress PscDnsName].
  rewrite (instanceFields_address f "PRIVATE"), (instanceFields_address f "PUBLIC"),
    (instanceFields_address f "PSC") by done.
  destruct Ht as [->|[->|[->|[]]]]; unfold PrivateIP, PublicIP, PSC; repeat rewrite decide_False by done;
    rewrite decide_True by done; by destruct (fIPAddrs f !! _).
Qed.

Definition fakeURI (f : FakeAlloyDBInstance) : InstanceURI :=
  {| project := fProject f; region := fRegion f; cluster := fCluster f; name := fName f |}.

Lemma matches_self r method path :
  reqMethod r = method -> reqPath r = path -> 0 < reqCt r -> (matches r method path).1 = true.
Proof.
  intros <- <- Hct. unfold matches. rewrite (bool_decide_true (reqMethod r = reqMethod r)),
    (bool_decide_true (reqPath r = reqPath r)) by done. simpl negb. rewrite !andb_false_r.
  by rewrite (proj2 (Z.leb_gt _ _)).
Qed.

Lemma matches_method r method path :
  reqMethod r <> "" -> reqMethod r <> method -> matches r method path = (false, r).
Proof. intros Hne Hm. unfold matches.
  by rewrite (bool_decide_false (reqMethod r = "")), (bool_decide_false (reqMethod r = method)) by done.
Qed.

Lemma string_app_assoc (a b c : string) : a +:+ (b +:+ c) = (a +:+ b) +:+ c.
Proof. induction a as [|x a IH]; [done|]. change (String x (a +:+ (b +:+ c)) = String x ((a +:+ b) +:+ c)). by f_equal. Qed.

(** The two requests of a refresh reach the two handlers. *)
Section Requests.
Context (f : FakeAlloyDBInstance) (n m : Z) (now : Time) (rand : bytes).
Hypothesis n_pos : 0 < n.
Hypothesis m_pos : 0 < m.

Definition fakeServer : list fakeRequest :=
  [InstanceGetSuccess f n; CreateEphemeralSuccess isPrint f m now rand].
Definition fakeServe (hq : httpRequest) : res httpResponse := (serveHTTP showRequest fakeServer hq).1.

Lemma serve_info :
  fakeServe {| hqMethod := "GET"; hqPath := "/v1alpha/" +:+ URI (fakeURI f) +:+ "/connectionInfo"; hqBody := Ret [] |} =
    Ret {| hrStatus := 200; hrBody := marshalStringMap (instanceFields f) |}.
Proof.
  unfold fakeServe, serveHTTP, fakeServer. cbn [map dispatch hqMethod hqPath].
  pose proof (matches_self (frReq (InstanceGetSuccess f n)) "GET"
    ("/v1alpha/" +:+ URI (fakeURI f) +:+ "/connectionInfo") eq_refl) as Hm.
  destruct (matches (frReq (InstanceGetSuccess f n)) _ _) as [[] r]; [done|].
  cut (false = true); [done|]. apply Hm; [|done]. unfold URI, fakeURI; simpl.
  by rewrite <- !string_app_assoc.
Qed.

Lemma serve_certificate b :
  fakeServe {| hqMethod := "POST";
      hqPath := "/v1alpha/" +:+ ("projects/" +:+ fProject f +:+ "/locations/" +:+ fRegion f +:+
                 "/clusters/" +:+ fCluster f) +:+ ":generateClientCertificate"; hqBody := b |} =
    ephemeralHandle isPrint f now rand
      {| hqMethod := "POST";
         hqPath := "/v1alpha/" +:+ ("projects/" +:+ fProject f +:+ "/locations/" +:+ fRegion f +:+
                 "/clusters/" +:+ fCluster f) +:+ ":generateClientCertificate"; hqBody := b |}.
Proof.
  set (path := "/v1alpha/" +:+ _).
  unfold fakeServe, serveHTTP, fakeServer. cbn [map dispatch hqMethod hqPath].
  rewrite (matches_method (frReq (InstanceGetSuccess f n))) by done.
  pose proof (matches_self (frReq (CreateEphemeralSuccess isPrint f m now rand)) "POST" path eq_refl) as Hm.
  destruct (matches (frReq (CreateEphemeralSuccess isPrint f m now rand)) "POST" path) as [[] r]; [done|].
  cut (false = true); [done|]. apply Hm; [|done]. unfold path; simpl. by rewrite <- !string_app_assoc.
Qed.

(** What the handler answers to the client's request for key [k]. *)
Lemma ephemeral_ok k pub chain ca dis body :
  pub = pemEncodeToMemory "RSA PUBLIC KEY" (MarshalPKCS1PublicKey k) ->
  GeneratePEMCertificateChain f now rand (publicKey k) = Ret chain -> list.last chain = Some ca ->
  encodeCertResponse {| PemCertificateChain := chain; CaCert := ca |} = Ret body ->
  let req := {| Parent := "projects/" +:+ fProject f +:+ "/locations/" +:+ fRegion f +:+
                          "/clusters/" +:+ fCluster f;
                PublicKeyPEM := pub; CertDuration := Second * 3600; UseMetadataExchange := dis |} in
  GenerateClientCertificate (restClient fakeServe) req =
    Ret {| PemCertificateChain := chain; CaCert := ca |}.
Proof.
  intros -> Hchain Hlast Hbody req.
  rewrite (rest_generate fakeServe req body); [by apply certResponse_ok|].
  subst req. cbn [Parent]. rewrite serve_certificate. unfold ephemeralHandle; cbn [hqBody orBad].
  rewrite certRequest_ok. cbn [orBad PublicKeyPEM]. rewrite pemDecode_ok, publicKey_ok. cbn [orBad].
  rewrite Hchain. cbn [orBad]. rewrite Hlast, Hbody. done.
Qed.
End Requests.
End Refreshed.

(** C20: the fake stands for the API. A refresh that asks a server with the two canned
    requests of a fake instance succeeds, and the connection info is the fake's: its
    non-empty addresses, its expiry to the second, its root as the only trusted one, and
    the chain it issued for the client's own key. The root has signed the certificate
    the fake server shows, and, through its intermediate, the client's. *)
Theorem fake_refresh `{X509Laws} `{RestLaws} isPrint showRequest
    env proj reg clust name opts f now rand n m k id dis chain ca body
    (Hnew : NewFakeInstance isPrint env proj reg clust name opts = Ret f)
    (Hn : 0 < n) (Hm : 0 < m)
    (Haddr : exists t a, t ∈ [PrivateIP; PublicIP; PSC] /\ fakeAddr f t = Some a)
    (Hinfo : decodeInfo (marshalStringMap (instanceFields f)) = Ret (infoOf (instanceFields f)))
    (Hchain : GeneratePEMCertificateChain f now rand (publicKey k) = Ret chain)
    (Hca : list.last chain = Some ca)
    (Hbody : encodeCertResponse {| PemCertificateChain := chain; CaCert := ca |} = Ret body) :
  let api := restClient (fakeServe isPrint showRequest f n m now rand) in
  exists ci leaf der,
    connectionInfo (newAdminAPIClient api k id dis) (fakeURI f) = Ret ci /\
    (forall t, t ∈ [PrivateIP; PublicIP; PSC] -> IPAddrs ci !! t = fakeAddr f t) /\
    Expiration ci = truncSecond (fCertExpiry f) /\
    RootCAs ci = Some [fRootCACert f] /\
    ClientCert ci = {| tlsChain := [der; Raw (fIntermedCert f); Raw (fRootCACert f)];
                       tlsKey := Some k; Leaf := Some leaf |} /\
    SignedBy leaf (CertPublicKey (fIntermedCert f)) /\
    SignedBy (fIntermedCert f) (CertPublicKey (fRootCACert f)) /\
    SignedBy (fServerCert f) (CertPublicKey (fRootCACert f)).
Proof.
  intros api. pose proof (NewFakeInstance_ok isPrint _ _ _ _ _ _ _ Hnew) as Hok.
  destruct (chain_ok f now rand _ _ Hchain Hok) as (der & leaf & Hch & Hp & Hexp & Hpub & Hsig).
  assert (GetConnectionInfo api (URI (fakeURI f)) = Ret (infoOf (instanceFields f))) as Hget.
  { rewrite <- Hinfo. apply rest_info. by apply serve_info. }
  pose proof (fetchInstanceInfo_spec api (fakeURI f)) as Hmd. rewrite Hget in Hmd.
  destruct (fetchInstanceInfo api (fakeURI f)) as [info|e|w] eqn:Hfetch; [|exfalso|done].
  2:{ destruct Hmd as [Hnone _]. destruct Haddr as (t & a & Ht & Ha).
      specialize (Hnone t). rewrite infoOf_address in Hnone by done. congruence. }
  destruct Hmd as (_ & Haddrs & _).
  assert (fetchClientCertificate api (fakeURI f) k dis = Ret {|
    certChain := {| tlsChain := [der; Raw (fIntermedCert f); Raw (fRootCACert f)];
                    tlsKey := Some k; Leaf := Some leaf |};
    caCert := fRootCACert f; expiry := truncSecond (fCertExpiry f) |}) as Hcert.
  { unfold fetchClientCertificate. rewrite pemEncode_ok. cbn [mbind res_bind].
    unfold api. cbn [fakeURI project region cluster].
    rewrite (ephemeral_ok isPrint showRequest f n m now rand Hm k _ chain ca (negb dis) body) by done.
    cbn [wrapErr mbind res_bind PemCertificateChain CaCert]. unfold newClientCertificate.
    subst chain. cbn [map list.last] in Hca. injection Hca as <-.
    rewrite (KeyPair_ok der [Raw (fIntermedCert f); Raw (fRootCACert f)] leaf k) by done.
    cbn [wrapErr mbind res_bind map]. rewrite !pemDecode_ok, (root_parses f Hok). cbn [wrapErr mbind res_bind].
    rewrite Hp. cbn [wrapErr mbind res_bind]. by rewrite Hexp. }
  eexists _, leaf, der. unfold connectionInfo, connectionInfoResult.
  cbn [client key disableMetadataExchange newAdminAPIClient]. rewrite Hfetch, Hcert. split; [reflexivity|].
  unfold assemble; cbn [IPAddrs Expiration RootCAs ClientCert ipAddrs certChain caCert expiry].
  split_and!; try done.
  - intros t Ht. rewrite Haddrs. by apply infoOf_address.
  - apply (intermed_signed f Hok).
  - apply (server_signed f Hok).
Qed.

(** ** Concrete inputs

    A toy of the packages: certificates, keys and messages through countability; JSON
    objects are scanned. *)
Module ToyFake.
Import ToyProto.

Definition cert : Type := Z * Z * Z * string.   (* NotAfter, key, signer, subject *)
Definition newline : byte := byteof 10.

Definition pack {A} `{Countable A} (a : A) : bytes := ofPos (encode a).
Definition unpackAs {A} `{Countable A} (b : bytes) : option A := decode (toPos b).

Lemma unpack_pack {A} `{Countable A} (a : A) : unpackAs (pack a) = Some a.
Proof. unfold unpackAs, pack. by rewrite toPos_ofPos, decode_encode. Qed.

Definition pemText (b : bytes) : string := of_bytes (pack b).
Definition pemBytes (s : string) : option bytes := unpackAs (to_bytes s).

Lemma pemBytes_text b : pemBytes (pemText b) = Some b.
Proof. unfold pemBytes, pemText. rewrite to_of_bytes. apply unpack_pack. Qed.

Fixpoint lines (line : bytes) (s : bytes) : list bytes :=
  match s with
  | [] => [line]
  | c :: s => if decide (c = newline) then line :: lines [] s else lines (line ++ [c]) s
  end.

Lemma lines_app line a s :
  Forall (fun c => c <> newline) a -> lines line (a ++ s) = lines (line ++ a) s.
Proof.
  intros Ha. revert line. induction Ha as [|c a Hc _ IH]; intros line; simpl; [by rewrite app_nil_r|].
  by rewrite decide_False, IH, <- app_assoc.
Qed.

Lemma pack_lines {A} `{Countable A} (a : A) : Forall (fun c => c <> newline) (pack a).
Proof. unfold pack. induction (encode a) as [p IH|p IH|]; simpl; [by constructor..|constructor]. Qed.

Lemma lines_concat (l : list bytes) b :
  lines [] (to_bytes (String.concat (String "010" "") (map pemText (b :: l)))) = map pack (b :: l).
Proof.
  revert b. induction l as [|b' l IH]; intros b.
  - cbn [map String.concat]. unfold pemText. rewrite to_of_bytes.
    pose proof (lines_app [] (pack b) [] (pack_lines b)) as E. by rewrite app_nil_r in E.
  - change (String.concat (String "010" "") (map pemText (b :: b' :: l)))
      with (pemText b +:+ (String "010" "" +:+ String.concat (String "010" "") (map pemText (b' :: l)))).
    rewrite to_bytes_app. unfold pemText at 1. rewrite to_of_bytes, lines_app by apply pack_lines.
    rewrite to_bytes_app. change (to_bytes (String "010" "")) with [newline]. cbn [app lines].
    rewrite decide_True by done. by rewrite IH.
Qed.

Definition parse {A} `{Countable A} (b : bytes) : res A :=
  match unpackAs b with Some a => Ret a | None => Fail (ErrorsNew "asn1: structure error") end.

Lemma parse_pack {A} `{Countable A} (a : A) : parse (pack a) = Ret a.
Proof. unfold parse. by rewrite unpack_pack. Qed.

Definition keyPair (t kt : string) : res (list bytes * Z) :=
  match mapM unpackAs (lines [] (to_bytes t)), pemBytes kt ≫= unpackAs with
  | Some ((der :: _) as ders), Some k =>
      parse (A := cert) der ≫= fun c =>
      if decide (c.1.1.2 = k) then Ret (ders, k) else Fail (ErrorsNew "tls: private key does not match public key")
  | _, _ => Fail (ErrorsNew "tls: failed to find any PEM data in certificate input")
  end.

Lemma mapM_pack (l : list bytes) : mapM unpackAs (map pack l) = Some l.
Proof.
  induction l as [|b l IH]; [done|]. cbn [map mapM].
  rewrite (unpack_pack b). cbn [mbind option_bind]. by rewrite IH.
Qed.

Lemma keyPair_ok (der : bytes) ders (c : cert) k :
  parse der = Ret c -> c.1.1.2 = k ->
  keyPair (String.concat (String "010" "") (map pemText (der :: ders))) (pemText (pack k)) = Ret (der :: ders, k).
Proof.
  intros Hp Hk. unfold keyPair. rewrite lines_concat, mapM_pack, pemBytes_text. cbn [mbind option_bind].
  rewrite unpack_pack, Hp. cbn [mbind res_bind]. by rewrite decide_True.
Qed.

Definition create (t : certTemplate string) (pub priv : Z) : cert :=
  (truncSecond (tNotAfter t), pub, priv, default "" (tSubject t)).

#[export] Instance lib : CryptoLib := {|
  Certificate := cert; PrivateKey := Z; NotAfter c := c.1.1.1; ParseCertificate := parse;
  MarshalPKCS1PublicKey k := pack (k : Z); MarshalPKCS1PrivateKey k := pack (k : Z);
  pemEncode _ b := Ret (pemText b); pemEncodeToMemory _ := pemText; pemDecode := pemBytes;
  KeyPair := keyPair |}.

#[export] Instance x509 : X509Lib := {|
  PublicKey := Z; Name := string; commonName s := s; publicKey k := k;
  Subject c := c.2; Raw c := pack (c : cert); CertPublicKey c := c.1.1.2; SignedBy c k := c.1.2 = k;
  ParsePKCS1PublicKey := parse; CreateCertificate _ t _ pub priv := Ret (pack (create t pub priv)) |}.

#[export] Instance laws : X509Laws.
Proof.
  split.
  - intros rand t parent pub priv der [= <-]. exists (create t pub priv).
    split; [apply parse_pack|]. split_and!; try done. intros n Hn. exact (f_equal (default "") Hn).
  - intros k. apply (parse_pack (k : Z)).
  - done.
  - intros ty b. apply pemBytes_text.
  - intros der ders c k Hp Hk. by apply (keyPair_ok der ders c k).
Qed.

Lemma createAndParse_toy isPrint rand t parent pub priv :
  createAndParse isPrint rand t parent pub priv = Ret (create t pub priv).
Proof. change (must isPrint (parse (pack (create t pub priv))) = Ret (create t pub priv)). by rewrite parse_pack. Qed.

Definition inst (env : fakeEnv) (proj reg clust name : string) (c : fakeConfig) : FakeAlloyDBInstance :=
  let root := create (caTemplate env 1 "root.alloydb" []) (feRootCAKey env) (feRootCAKey env) in
  {| fProject := proj; fRegion := reg; fCluster := clust; fName := name;
     fIPAddrs := fcIPAddrs c; fUid := "00000000-0000-0000-0000-000000000000";
     fServerName := fcServerName c; fCertExpiry := fcCertExpiry c;
     fRootCACert := root; fRootKey := feRootCAKey env;
     fIntermedCert := create (caTemplate env 3 "client.alloydb" []) (feIntermedCAKey env) (feRootCAKey env);
     fIntermedKey := feIntermedCAKey env;
     fServerCert := create (caTemplate env 5 (fcServerName c) ["127.0.0.1"]) (feServerKey env) (feRootCAKey env);
     fServerKey := feServerKey env |}.

Lemma NewFakeInstance_toy isPrint env proj reg clust name opts :
  NewFakeInstance isPrint env proj reg clust name opts =
    Ret (inst env proj reg clust name (foldl (fun f o => o f) (fakeDefaults (feNow env 0)) opts)).
Proof.
  unfold NewFakeInstance. cbv zeta. set (c := foldl _ _ _).
  do 3 (rewrite createAndParse_toy; cbn [mbind res_bind]). reflexivity.
Qed.

(** *** The client *)
Definition respTuple (r : GenerateClientCertificateResponse) := (PemCertificateChain r, CaCert r).
Definition reqTuple (r : GenerateClientCertificateRequest) :=
  (Parent r, PublicKeyPEM r, CertDuration r, UseMetadataExchange r).

Definition field (m : list (bytes * json)) (k : string) : string :=
  match list_find (fun kv => unquote kv.1 = Some (to_bytes k)) m with
  | Some (_, (_, JLit v)) => of_bytes (default [] (unquote v))
  | _ => ""
  end.

Definition readInfo (b : bytes) : res GetConnectionInfoResponse :=
  match scan b with
  | inr (JObj m) => Ret {| IpAddress := field m "ipAddress"; PublicIpAddress := field m "publicIpAddress";
                           PscDnsName := field m "psc_dns_name"; InstanceUid := field m "instanceUid" |}
  | _ => Fail (ErrorsNew "proto: syntax error")
  end.

Definition body (r : res httpResponse) : res bytes :=
  r ≫= fun h => if hrStatus h =? 200 then Ret (hrBody h) else Fail (ErrorsNew (of_bytes (hrBody h))).

#[export] Instance rest : RestLib := {|
  restClient serve := {|
    GetConnectionInfo parent :=
      body (serve {| hqMethod := "GET"; hqPath := "/v1alpha/" +:+ parent +:+ "/connectionInfo"; hqBody := Ret [] |}) ≫= readInfo;
    GenerateClientCertificate req :=
      body (serve {| hqMethod := "POST"; hqPath := "/v1alpha/" +:+ Parent req +:+ ":generateClientCertificate";
                     hqBody := Ret (pack (reqTuple req)) |}) ≫= fun b =>
      '(chain, ca) ← parse (A := list string * string) b; Ret {| PemCertificateChain := chain; CaCert := ca |} |};
  decodeInfo := readInfo;
  encodeCertRequest req := pack (reqTuple req);
  decodeCertRequest b :=
    '(p, k, d, u) ← parse (A := string * string * Z * bool) b;
    Ret {| Parent := p; PublicKeyPEM := k; CertDuration := d; UseMetadataExchange := u |};
  encodeCertResponse r := Ret (pack (respTuple r));
  decodeCertResponse b :=
    '(chain, ca) ← parse (A := list string * string) b; Ret {| PemCertificateChain := chain; CaCert := ca |} |}.

#[export] Instance restLaws : RestLaws.
Proof.
  split.
  - intros serve parent b E. simpl. unfold body. by rewrite E.
  - intros serve req b E. simpl in E |- *. unfold body. by rewrite E.
  - intros [p k d u]. simpl. unfold reqTuple; simpl. by rewrite parse_pack.
  - intros [chain ca] b [= <-]. simpl. unfold respTuple; simpl. by rewrite parse_pack.
Qed.

Definition env : fakeEnv := {|
  feNow _ := 100 * Hour; feRand _ := []; feNextDay t := t + 24 * Hour;
  feRootCAKey := 1; feIntermedCAKey := 2; feServerKey := 3 |}.
End ToyFake.

#[local] Existing Instances ToyFake.lib ToyFake.x509 ToyFake.laws ToyFake.rest ToyFake.restLaws.

(** Two addresses and an empty one; the expiry is rounded down to the second. *)
Lemma fake_refresh_witness :
  let noText := fun _ : httpRequest => "" in let noPrint := fun _ : Z => false in
  let opts := [WithPublicIP "1.2.3.4"; WithPSC ""; WithCertExpiry (101 * Hour + 5)] in
  exists f ci, NewFakeInstance noPrint ToyFake.env "p" "r" "c" "n" opts = Ret f /\
    connectionInfo (newAdminAPIClient (restClient (fakeServe noPrint noText f 1 1 (100 * Hour) [])) (9 : Z) "id" false)
      (fakeURI f) = Ret ci /\
    IPAddrs ci !! PrivateIP = Some "127.0.0.1" /\ IPAddrs ci !! PublicIP = Some "1.2.3.4" /\
    IPAddrs ci !! PSC = None /\ Expiration ci = 101 * Hour.
Proof.
  intros noText noPrint opts.
  edestruct (fake_refresh noPrint noText ToyFake.env "p" "r" "c" "n" opts) with
    (now := 100 * Hour) (rand := @nil ascii) (n := 1) (m := 1) (k := 9 : Z) (id := "id") (dis := false)
    as (ci & leaf & der & Hci & Haddr & Hexp & _).
  - apply ToyFake.NewFakeInstance_toy.
  - lia.
  - lia.
  - exists "PRIVATE", "127.0.0.1". split; [by left|]. vm_compute. reflexivity.
  - vm_compute. reflexivity.
  - reflexivity.
  - reflexivity.
  - reflexivity.
  - eexists _, ci. split.
    { apply ToyFake.NewFakeInstance_toy. }
    split; [exact Hci|].
    rewrite !Haddr by (rewrite !elem_of_cons; tauto). rewrite Hexp. split_and!; vm_compute; reflexivity.
Defined.
