(* ===== verification/Tel.v ===== *)
(** * Telemetry ([src/internal/tel])

    What is recorded: a measurement is a measure, a value and tags, in the order the
    tags were put on the context. The exporters and the registry of views are outside. *)
From S2P Require Import Prelude GoTime ErrType InstanceURI Refresh.
#[local] Open Scope string_scope.
#[local] Open Scope list_scope.
#[local] Open Scope Z_scope.

(** ** Measurements ([metrics.go]) *)
Inductive measure :=
| mLatencyMS | mConnections | mDialError | mSuccessfulRefresh | mFailedRefresh | mBytesSent | mBytesReceived.

#[export] Instance measure_eq_dec : EqDecision measure.
Proof. solve_decision. Defined.

Inductive tagKey := keyInstance | keyDialerID | keyErrorCode.

#[export] Instance tagKey_eq_dec : EqDecision tagKey.
Proof. solve_decision. Defined.

Record measurement := { msMeasure : measure; msValue : Z; msTags : list (tagKey * string) }.

(** [tag.New(ctx, tag.Upsert(keyInstance, instance), tag.Upsert(keyDialerID, dialerID))] *)
Definition baseTags (instance dialerID : string) : list (tagKey * string) :=
  [(keyInstance, instance); (keyDialerID, dialerID)].

(** [errorCode] *)
Definition errorCode (err : error) : string :=
  match errorsAs err with
  | None => ""
  | Some apiErr => String.concat "," (Reasons apiErr)
  end.

Definition RecordDialLatency (instance dialerID : string) (latency : Z) : list measurement :=
  [{| msMeasure := mLatencyMS; msValue := latency; msTags := baseTags instance dialerID |}].
Definition RecordOpenConnections (num : Z) (dialerID instance : string) : list measurement :=
  [{| msMeasure := mConnections; msValue := num; msTags := baseTags instance dialerID |}].
Definition RecordDialError (instance dialerID : string) (err : option error) : list measurement :=
  match err with
  | None => []
  | Some _ => [{| msMeasure := mDialError; msValue := 1; msTags := baseTags instance dialerID |}]
  end.
Definition RecordRefreshResult (instance dialerID : string) (err : option error) : list measurement :=
  match err with
  | Some err =>
      let c := errorCode err in
      [{| msMeasure := mFailedRefresh; msValue := 1;
          msTags := baseTags instance dialerID ++ if decide (c = "") then [] else [(keyErrorCode, c)] |}]
  | None => [{| msMeasure := mSuccessfulRefresh; msValue := 1; msTags := baseTags instance dialerID |}]
  end.
Definition RecordBytesSent (num : Z) (instance dialerID : string) : list measurement :=
  [{| msMeasure := mBytesSent; msValue := num; msTags := baseTags instance dialerID |}].
Definition RecordBytesReceived (num : Z) (instance dialerID : string) : list measurement :=
  [{| msMeasure := mBytesReceived; msValue := num; msTags := baseTags instance dialerID |}].

(** What one refresh reports when it is done: the deferred call of [connectionInfo]. *)
Definition refreshReport `{CryptoLib} (c : adminAPIClient) (i : InstanceURI) (out : res ConnectionInfo)
    : list measurement :=
  RecordRefreshResult (URI_String i) (dialerID c) (errOf out).

(** *** Views: what is exported of a measure *)
Inductive aggregation := Count | Sum | LastValue | Distribution (bounds : list Z).

Record view := { vName : string; vMeasure : measure; vAggregation : aggregation; vTagKeys : list tagKey }.

Definition connKeys : list tagKey := [keyInstance; keyDialerID].

Definition latencyView : view :=
  {| vName := "alloydbconn/dial_latency"; vMeasure := mLatencyMS;
     vAggregation := Distribution [0; 5; 25; 100; 250; 500; 1000; 2000; 5000; 30000]; vTagKeys := connKeys |}.
Definition connectionsView : view :=
  {| vName := "alloydbconn/open_connections"; vMeasure := mConnections; vAggregation := LastValue; vTagKeys := connKeys |}.
Definition dialFailureView : view :=
  {| vName := "alloydbconn/dial_failure_count"; vMeasure := mDialError; vAggregation := Count; vTagKeys := connKeys |}.
Definition refreshCountView : view :=
  {| vName := "alloydbconn/refresh_success_count"; vMeasure := mSuccessfulRefresh; vAggregation := Count; vTagKeys := connKeys |}.
Definition failedRefreshCountView : view :=
  {| vName := "alloydbconn/refresh_failure_count"; vMeasure := mFailedRefresh; vAggregation := Count;
     vTagKeys := connKeys ++ [keyErrorCode] |}.
Definition bytesSentView : view :=
  {| vName := "alloydbconn/bytes_sent"; vMeasure := mBytesSent; vAggregation := Sum; vTagKeys := connKeys |}.
Definition bytesReceivedView : view :=
  {| vName := "alloydbconn/bytes_received"; vMeasure := mBytesReceived; vAggregation := Sum; vTagKeys := connKeys |}.

(** The views that [InitMetrics] registers. *)
Definition registeredViews : list view :=
  [latencyView; connectionsView; dialFailureView; refreshCountView; failedRefreshCountView; bytesSentView; bytesReceivedView].

(** What the functions of this file record. *)
Inductive recorded : measurement -> Prop :=
| rec_latency i d n m : m ∈ RecordDialLatency i d n -> recorded m
| rec_conns n d i m : m ∈ RecordOpenConnections n d i -> recorded m
| rec_dial i d e m : m ∈ RecordDialError i d e -> recorded m
| rec_refresh i d e m : m ∈ RecordRefreshResult i d e -> recorded m
| rec_sent n i d m : m ∈ RecordBytesSent n i d -> recorded m
| rec_received n i d m : m ∈ RecordBytesReceived n i d -> recorded m.

(** A view exports a measurement with all its tags. *)
Definition exports (v : view) (m : measurement) : bool :=
  bool_decide (vMeasure v = msMeasure m) && forallb (fun t => bool_decide (t.1 ∈ vTagKeys v)) (msTags m).

(** [InitMetrics]: the views are registered by the first call; [register] is what
    [view.Register] returns to it, as text. *)
Record metricsState := { registerOnce : bool; registerErr : option error; registrations : nat }.

Definition metricsInit : metricsState := {| registerOnce := false; registerErr := None; registrations := 0 |}.

Definition InitMetrics (register : option string) (m : metricsState) : option error * metricsState :=
  let m' := if registerOnce m then m
            else {| registerOnce := true;
                    registerErr := (fun t => ErrorsNew ("failed to initialize metrics: " +:+ t)) <$> register;
                    registrations := S (registrations m) |} in
  (registerErr m', m').

Fixpoint initAll (rs : list (option string)) (m : metricsState) : list (option error) * metricsState :=
  match rs with
  | [] => ([], m)
  | r :: rs => let '(e, m) := InitMetrics r m in let '(es, m) := initAll rs m in (e :: es, m)
  end.

(** ** Spans ([trace.go]) *)

(** [Attribute]; the value is always a string. *)
Record Attribute := { attrKey : string; attrValue : string }.

Definition AddInstanceName (name : string) : Attribute := {| attrKey := "/alloydb/instance"; attrValue := name |}.
Definition AddDialerID (id : string) : Attribute := {| attrKey := "/alloydb/dialer_id"; attrValue := id |}.

(** A span, and what it was ended with: nothing if it has not ended, else the argument
    of the [EndSpanFunc]. *)
Record span := { spanName : string; spanAttrs : list Attribute; spanEnd : option (option error) }.

Definition StartSpan (name : string) (attrs : list Attribute) : span :=
  {| spanName := name; spanAttrs := attrs; spanEnd := None |}.
Definition EndSpan (err : option error) (s : span) : span :=
  {| spanName := spanName s; spanAttrs := spanAttrs s; spanEnd := Some err |}.

(** The spans of one refresh: [fetchInstanceInfo], [fetchClientCertificate] and
    [connectionInfo] each end theirs with the error they return. *)
Definition metadataSpan (out : option error) : span :=
  EndSpan out (StartSpan "cloud.google.com/go/alloydbconn/internal.FetchMetadata" []).
Definition certificateSpan (out : option error) : span :=
  EndSpan out (StartSpan "cloud.google.com/go/alloydbconn/internal.FetchEphemeralCert" []).
Definition refreshSpan (i : InstanceURI) (out : option error) : span :=
  EndSpan out (StartSpan "cloud.google.com/go/alloydbconn/internal.RefreshConnection" [AddInstanceName (URI_String i)]).

Definition refreshSpans `{CryptoLib} (c : adminAPIClient) (i : InstanceURI) : list span :=
  [refreshSpan i (errOf (connectionInfo c i)); metadataSpan (errOf (fetchInstanceInfo (client c) i));
   certificateSpan (errOf (fetchClientCertificate (client c) i (key c) (disableMetadataExchange c)))].

(** *** Span status *)

(** [google.rpc.Code], the codes used. *)
Inductive rpcCode :=
| Code_OK | Code_CANCELLED | Code_UNKNOWN | Code_INVALID_ARGUMENT | Code_DEADLINE_EXCEEDED
| Code_NOT_FOUND | Code_ALREADY_EXISTS | Code_PERMISSION_DENIED | Code_UNAUTHENTICATED
| Code_RESOURCE_EXHAUSTED | Code_UNIMPLEMENTED | Code_UNAVAILABLE.

Definition httpStatusCodeToOCCode (httpStatusCode : Z) : rpcCode :=
  match httpStatusCode with
  | 200 => Code_OK
  | 499 => Code_CANCELLED
  | 500 => Code_UNKNOWN
  | 400 => Code_INVALID_ARGUMENT
  | 504 => Code_DEADLINE_EXCEEDED
  | 404 => Code_NOT_FOUND
  | 409 => Code_ALREADY_EXISTS
  | 403 => Code_PERMISSION_DENIED
  | 401 => Code_UNAUTHENTICATED
  | 429 => Code_RESOURCE_EXHAUSTED
  | 501 => Code_UNIMPLEMENTED
  | 503 => Code_UNAVAILABLE
  | _ => Code_UNKNOWN
  end.

(** [toStatus]. [grpcStatus] is [status.FromError]: the code and message of an error
    that carries a gRPC status. *)
Record traceStatus := { stCode : rpcCode + Z; stMessage : string }.

Definition toStatus (isPrint : Z -> bool) (grpcStatus : error -> option (Z * string)) (err : error) : traceStatus :=
  match isAPIError err with
  | Some a => {| stCode := inl (httpStatusCodeToOCCode (Code a)); stMessage := ErrMessage a |}
  | None =>
    match grpcStatus err with
    | Some (c, m) => {| stCode := inr c; stMessage := m |}
    | None => {| stCode := inl Code_UNKNOWN; stMessage := Error isPrint err |}
    end
  end.

(** The status an ended span is given, if any. *)
Definition spanStatus (isPrint : Z -> bool) (grpcStatus : error -> option (Z * string)) (s : span) : option traceStatus :=
  match spanEnd s with
  | Some (Some err) => Some (toStatus isPrint grpcStatus err)
  | _ => None
  end.

(** ** Properties *)

(** A refresh that the Admin API rejects ends its spans with the code UNKNOWN, whatever
    the HTTP status: the API's error is wrapped, and [toStatus] looks at the outermost
    error only. *)
Lemma refresh_status_unknown `{CryptoLib} isPrint grpcStatus c i a s :
  (forall req, GetConnectionInfo (client c) req = Fail (APIError a)) ->
  (forall err, grpcStatus err = None) ->
  s ∈ firstn 2 (refreshSpans c i) -> stCode <$> spanStatus isPrint grpcStatus s = Some (inl Code_UNKNOWN).
Proof.
  intros Hapi Hg. unfold refreshSpans, connectionInfo, connectionInfoResult, fetchInstanceInfo. rewrite Hapi.
  intros [->|[->|Hs]%elem_of_cons]%elem_of_cons; [| |by apply not_elem_of_nil in Hs];
    unfold spanStatus, toStatus; simpl; by rewrite Hg.
Qed.

(** C38: every measurement is exported. The registered views have distinct names, as
    registering them requires, and whatever is recorded is exported by one view, which
    keeps all the tags it was recorded with. *)
Theorem views_export_all :
  NoDup (vName <$> registeredViews) /\
  forall m, recorded m -> length (List.filter (fun v => exports v m) registeredViews) = 1%nat.
Proof.
  split; [apply (bool_decide_unpack _); vm_compute; exact I|].
  intros m Hm. destruct Hm as [i d n m Hm|n d i m Hm|i d [e|] m Hm|i d [e|] m Hm|n i d m Hm|n i d m Hm];
    simpl in Hm; try (by apply not_elem_of_nil in Hm); apply list_elem_of_singleton in Hm as ->; try done.
  unfold exports; simpl. by destruct (decide (errorCode e = "")).
Qed.

(** The error code of a failed refresh. When the Admin API rejects a refresh, the
    failure is counted once, tagged with the instance, the dialer and the reasons of the
    API's error, comma separated (no code if there are none), though the error has been
    wrapped twice on its way. *)
Theorem refresh_reports_code `{CryptoLib} c i a
    (Hapi : forall req, GetConnectionInfo (client c) req = Fail (APIError a)) :
  let codes := String.concat "," (Reasons a) in
  refreshReport c i (connectionInfo c i) =
    [{| msMeasure := mFailedRefresh; msValue := 1;
        msTags := baseTags (URI_String i) (dialerID c) ++ if decide (codes = "") then [] else [(keyErrorCode, codes)] |}].
Proof.
  cbv zeta. unfold refreshReport, connectionInfo, connectionInfoResult, fetchInstanceInfo.
  rewrite Hapi. simpl. unfold errorCode. done.
Qed.

(** Registered once. Any number of calls of [InitMetrics] registers the views once, and every
    call returns what the first one did. *)
Theorem init_metrics_once rs :
  (initAll rs metricsInit).1 =
    replicate (length rs)
      ((fun t => ErrorsNew ("failed to initialize metrics: " +:+ t)) <$> default None (head rs)) /\
  registrations (initAll rs metricsInit).2 = Nat.min 1 (length rs).
Proof.
  assert (forall rs m, registerOnce m = true -> initAll rs m = (replicate (length rs) (registerErr m), m)) as Hdone.
  { intros l; induction l as [|r l IH]; intros m Hm; simpl; [done|].
    unfold InitMetrics. rewrite Hm. by rewrite IH. }
  destruct rs as [|r rs]; [done|]. simpl. by rewrite Hdone.
Qed.

Lemma refresh_reports_code_witness :
  let a := {| Code := 403; ErrMessage := "no"; Reasons := ["forbidden"; "quota"]; Rendered := "googleapi" |} in
  let c := newAdminAPIClient (H := Toy.lib)
    {| GetConnectionInfo := fun _ => Fail (APIError a);
       GenerateClientCertificate := GenerateClientCertificate Toy.api |} 0 "id" false in
  msTags <$> refreshReport (H := Toy.lib) c Toy.uri (connectionInfo (H := Toy.lib) c Toy.uri) =
    [[(keyInstance, "p/r/c/n"); (keyDialerID, "id"); (keyErrorCode, "forbidden,quota")]].
Proof.
  intros a c. rewrite (refresh_reports_code (H := Toy.lib) c Toy.uri a); reflexivity.
Defined.
