(* ===== verification/Threads.v ===== *)
(** * Threads over a shared world

    A thread is a program whose atomic actions read and change a shared world [W]; an
    action also sees an environment [E], what the clock, the network and the scheduler
    do in that step. An action can be blocked, in a world and an environment. [tstep]
    runs one action of one thread of a pool, a schedule any number of them in any order.
    [rg] is the proof method: rely and guarantee; [adds] and [adds_pool] are another, for
    quantities every thread adds to. *)
From S2P Require Import Prelude.
#[local] Open Scope list_scope.
#[local] Open Scope nat_scope.

Section Threads.
Context {W E : Type}.

Inductive thread (A : Type) : Type :=
| TDone (a : A)
| TAct (B : Type) (f : E -> W -> option (B * W)) (k : B -> thread A).
Arguments TDone {A} a.
Arguments TAct {A} B f k.

Fixpoint tbind {A B} (t : thread A) (h : A -> thread B) : thread B :=
  match t with
  | TDone a => h a
  | TAct D f k => TAct D f (fun d => tbind (k d) h)
  end.

(** One atomic action that is never blocked, and one that may be. *)
Definition act {B} (f : E -> W -> B * W) : thread B := TAct B (fun e w => Some (f e w)) TDone.
Definition await {B} (f : E -> W -> option (B * W)) : thread B := TAct B f TDone.

(** One step of a thread; a finished thread has none, nor has a blocked one. *)
Definition tstep {A} (e : E) (w : W) (t : thread A) : option (W * thread A) :=
  match t with
  | TDone _ => None
  | TAct D f k => '(d, w') ← f e w; Some (w', k d)
  end.

Definition result {A} (t : thread A) : option A :=
  match t with TDone a => Some a | TAct _ _ _ => None end.

Lemma results_lookup {A} (ts : list (thread A)) i a :
  map result ts !! i = Some (Some a) -> ts !! i = Some (TDone a).
Proof.
  change (map result ts) with (result <$> ts). rewrite list_lookup_fmap.
  destruct (ts !! i) as [[b|]|]; simpl; congruence.
Qed.

Definition finished {A} (t : thread A) : bool := match t with TDone _ => true | TAct _ _ _ => false end.

Lemma all_finished {A} (ts : list (thread A)) :
  forallb finished ts = true -> ts = map TDone (omap result ts).
Proof. induction ts as [|[a|] ts IH]; simpl; [done| |done]. intros Hts. f_equal. by apply IH. Qed.

(** A thread alone, one environment per action. *)
Fixpoint runAlone {A} (es : list E) (w : W) (t : thread A) : W * thread A :=
  match es with
  | [] => (w, t)
  | e :: es => match tstep e w t with
               | Some (w', t') => runAlone es w' t'
               | None => (w, t)
               end
  end.

(** A schedule: which thread, in which environment. *)
Fixpoint runPool {A} (sched : list (nat * E)) (w : W) (ts : list (thread A))
    : option (W * list (thread A)) :=
  match sched with
  | [] => Some (w, ts)
  | (i, e) :: sched =>
      t ← ts !! i;
      '(w', t') ← tstep e w t;
      runPool sched w' (<[i := t']> ts)
  end.

Lemma runPool_length {A} sched w (ts : list (thread A)) w' ts' :
  runPool sched w ts = Some (w', ts') -> length ts' = length ts.
Proof.
  revert w ts. induction sched as [|[i e] sched IH]; intros w ts; simpl; [by intros [= _ <-]|].
  destruct (ts !! i) as [t|]; simpl; [|done]. destruct (tstep e w t) as [[w1 t1]|]; simpl; [|done].
  intros Hrun. by rewrite (IH _ _ Hrun), length_insert.
Qed.

(** ** Threads that finish

    [within n t]: [t] is done after at most [n] actions, whatever the others do. *)
Fixpoint within (n : nat) {A} (t : thread A) : Prop :=
  match t, n with
  | TDone _, _ => True
  | TAct _ _ _, O => False
  | TAct D f k, S n => forall d, within n (k d)
  end.

Lemma within_mono n m {A} (t : thread A) : n <= m -> within n t -> within m t.
Proof.
  revert m t. induction n as [|n IH]; intros m [a|D f k] Hm; simpl; [by destruct m|done|by destruct m|].
  destruct m as [|m]; [lia|]. intros Hk d. apply IH; [lia|done].
Qed.

Lemma within_done n {A} (a : A) : within n (TDone a).
Proof. by destruct n. Qed.

Lemma within_bind n m {A B} (t : thread A) (h : A -> thread B) :
  within n t -> (forall a, within m (h a)) -> within (n + m) (tbind t h).
Proof.
  revert t. induction n as [|n IH]; intros [a|D f k]; [| |by intros _ Hh; apply (within_mono m); [lia|apply Hh]|].
  - intros _ Hh. apply Hh.
  - by intros [].
  - intros Hk Hh d. by apply IH.
Qed.

Lemma within_act n {A B} (f : E -> W -> B * W) (h : B -> thread A) :
  (forall b, within n (h b)) -> within (S n) (tbind (act f) h).
Proof. done. Qed.

Lemma within_await n {A B} (f : E -> W -> option (B * W)) (h : B -> thread A) :
  (forall b, within n (h b)) -> within (S n) (tbind (await f) h).
Proof. done. Qed.

Lemma within_step n {A} e w (t t' : thread A) w' :
  within n t -> tstep e w t = Some (w', t') -> exists m, n = S m /\ within m t'.
Proof.
  destruct t as [a|D f k], n as [|n]; simpl; try done.
  intros Hk. destruct (f e w) as [[d w1]|]; simpl; [|done]. intros [= <- <-]. by exists n.
Qed.

(** How often a schedule runs thread [i]. *)
Definition turns (i : nat) (sched : list (nat * E)) : nat := length (filter (fun ie => ie.1 = i) sched).

Lemma within_pool (b : nat -> nat) {A} sched w (ts : list (thread A)) w' ts' :
  (forall i t, ts !! i = Some t -> within (b i) t) -> runPool sched w ts = Some (w', ts') ->
  forall i t, ts' !! i = Some t -> turns i sched <= b i /\ within (b i - turns i sched) t.
Proof.
  revert b w ts. induction sched as [|[j e] sched IH]; intros b w ts Hb; simpl.
  - intros [= <- <-] i t Ht. rewrite Nat.sub_0_r. split; [unfold turns; simpl; lia|by apply Hb].
  - destruct (ts !! j) as [tj|] eqn:Hj; simpl; [|done].
    destruct (tstep e w tj) as [[w1 t1]|] eqn:Hstep; simpl; [|done]. intros Hrun i t Ht.
    assert (exists n, b j = S n /\ within n t1) as (n & Hn & H1).
    { by eapply within_step; [apply Hb|]. }
    pose (b' := fun k => if decide (k = j) then n else b k).
    assert (forall k u, <[j:=t1]> ts !! k = Some u -> within (b' k) u) as Hb'.
    { intros k u Hk. unfold b'. destruct (decide (k = j)) as [->|Hne].
      - rewrite list_lookup_insert_eq in Hk by (by eapply lookup_lt_Some). by simplify_eq.
      - rewrite list_lookup_insert_ne in Hk by done. by apply Hb. }
    destruct (IH b' w1 _ Hb' Hrun i t Ht) as [Hle Hin]. unfold turns, b' in *. rewrite list.filter_cons; simpl.
    destruct (decide (i = j)) as [->|Hne].
    + rewrite decide_True by done. simpl. split; [lia|]. by rewrite Hn.
    + by rewrite decide_False by congruence.
Qed.

(** ** Accounts

    [adds acc t Q]: what thread [t] adds to the quantity [phi] in the rest of its actions,
    in any company, and what it has added already, [acc], end up related to its result.
    The amounts need to be right in worlds that satisfy [I] only; an action may take the
    world up in [le], and [I] holds before a world in which it holds. *)
Section Accounts.
Context (envOK : E -> Prop) (phi : W -> Z) (I : W -> Prop) (le : W -> W -> Prop).

Fixpoint adds {A} (acc : Z) (t : thread A) (Q : A -> Z -> Prop) : Prop :=
  match t with
  | TDone a => Q a acc
  | TAct D f k => forall e w, envOK e ->
      match f e w with
      | Some (d, w') => le w w' /\ exists n, (I w -> (phi w' - phi w)%Z = n) /\ adds (acc + n) (k d) Q
      | None => True
      end
  end.

Lemma adds_bind {A B} acc (t : thread A) (h : A -> thread B) P Q :
  adds acc t P -> (forall a acc', P a acc' -> adds acc' (h a) Q) -> adds acc (tbind t h) Q.
Proof.
  revert acc. induction t as [a|D f k IH]; intros acc Ht Hh; simpl in *; [by apply Hh|].
  intros e w He. specialize (Ht e w He). destruct (f e w) as [[d w']|]; [|done].
  destruct Ht as (Hle & n & Hn & Ht). split; [done|]. exists n. split; [done|]. by apply IH.
Qed.

Lemma adds_act {B} acc (f : E -> W -> B * W) Q :
  (forall e w, envOK e -> le w (f e w).2 /\
     exists n, (I w -> (phi (f e w).2 - phi w)%Z = n) /\ Q (f e w).1 (acc + n)%Z) -> adds acc (act f) Q.
Proof. intros Hf e w He. specialize (Hf e w He). cbv beta. by destruct (f e w). Qed.

Definition total (accs : list Z) : Z := foldr Z.add 0%Z accs.

Lemma total_insert accs i x y : accs !! i = Some x -> total (<[i := y]> accs) = (total accs + (y - x))%Z.
Proof.
  revert i. induction accs as [|a accs IH]; intros [|i] Hi; simplify_eq/=; [lia|]. rewrite (IH i) by done. lia.
Qed.

Lemma adds_pool `{!PreOrder le} {A} (Q : nat -> A -> Z -> Prop) sched w (ts : list (thread A)) w' ts' accs :
  (forall w1 w2, le w1 w2 -> I w2 -> I w1) ->
  Forall envOK sched.*2 -> length accs = length ts ->
  (forall i t acc, ts !! i = Some t -> accs !! i = Some acc -> adds acc t (Q i)) ->
  runPool sched w ts = Some (w', ts') -> I w' ->
  le w w' /\ exists accs', length accs' = length ts' /\ (total accs' - total accs = phi w' - phi w)%Z /\
    forall i t acc, ts' !! i = Some t -> accs' !! i = Some acc -> adds acc t (Q i).
Proof.
  intros Hback. revert w ts accs. induction sched as [|[i e] sched IH]; intros w ts accs Henv Hlen Hts; simpl.
  - intros [= <- <-] _. split; [done|]. exists accs. split_and!; [done|lia|done].
  - apply list.Forall_cons_1 in Henv as [He Henv]. simpl in He.
    destruct (ts !! i) as [t|] eqn:Ht; simpl; [|done].
    destruct (tstep e w t) as [[w1 t1]|] eqn:Hstep; simpl; [|done]. intros Hrun HI.
    destruct (lookup_lt_is_Some_2 accs i) as [acc Hacc]; [rewrite Hlen; by eapply lookup_lt_Some|].
    assert (le w w1 /\ exists n, (I w -> (phi w1 - phi w)%Z = n) /\ adds (acc + n) t1 (Q i)) as (Hle & n & Hn & H1).
    { specialize (Hts i t acc Ht Hacc). destruct t as [a|D f k]; simpl in *; [done|].
      specialize (Hts e w He). destruct (f e w) as [[d w2]|]; simplify_eq/=. done. }
    destruct (IH w1 (<[i:=t1]> ts) (<[i:=(acc + n)%Z]> accs)) as (Hle1 & accs' & Hl & Htot & Hall);
      [done|by rewrite !length_insert|..|done|done|].
    + intros j u x Hj Hx. destruct (decide (i = j)) as [<-|Hne].
      * rewrite list_lookup_insert_eq in Hj by (by eapply lookup_lt_Some).
        rewrite list_lookup_insert_eq in Hx by (by eapply lookup_lt_Some). by simplify_eq.
      * rewrite list_lookup_insert_ne in Hj by done. rewrite list_lookup_insert_ne in Hx by done. by apply (Hts j).
    + assert (le w w') as Hle' by (by transitivity w1). split; [done|].
      exists accs'. split_and!; [done| |done]. rewrite (total_insert _ _ acc) in Htot by done.
      specialize (Hn (Hback w w' Hle' HI)). lia.
Qed.
End Accounts.

(** ** The proof method

    Rely and guarantee: the other threads may take the world from [w] to any [w1] with
    [rely w w1] between two actions of this one, and each of its actions takes it up in
    [guar]; all keep the invariant [I]. It is never blocked in an environment [go]. *)
Section RelyGuarantee.
Context (envOK go : E -> Prop) (I : W -> Prop).
Implicit Types R rely guar le : W -> W -> Prop.

Fixpoint rg rely guar {A} (w : W) (t : thread A) (Q : A -> W -> Prop) : Prop :=
  match t with
  | TDone a => Q a w
  | TAct D f k => forall e w1, envOK e -> rely w w1 -> I w1 ->
      match f e w1 with
      | Some (d, w2) => I w2 /\ guar w1 w2 /\ rg rely guar w2 (k d) Q
      | None => ~ go e
      end
  end.

(** Postconditions that the other threads cannot invalidate. *)
Definition stable rely {A} (Q : A -> W -> Prop) : Prop :=
  forall a w w', rely w w' -> Q a w -> Q a w'.

Lemma rg_mono rely guar {A} w w' (t : thread A) Q :
  PreOrder rely -> stable rely Q -> rely w w' -> rg rely guar w t Q -> rg rely guar w' t Q.
Proof.
  intros HR HQ Hle. destruct t as [a|D f k]; simpl; [by apply HQ|].
  intros Hs e w1 He Hle1 Hi. apply Hs; auto. by transitivity w'.
Qed.

Lemma rg_rely rely rely' guar {A} w (t : thread A) Q :
  (forall w w', rely' w w' -> rely w w') -> rg rely guar w t Q -> rg rely' guar w t Q.
Proof.
  intros HR. revert w. induction t as [a|D f k IH]; intros w; simpl; [done|].
  intros Hs e w1 He Hle Hi. specialize (Hs e w1 He (HR _ _ Hle) Hi).
  destruct (f e w1) as [[d w2]|]; [|done]. destruct Hs as (? & ? & ?). auto.
Qed.

Lemma rg_act rely guar {B} w (f : E -> W -> B * W) Q :
  (forall e w1, envOK e -> rely w w1 -> I w1 -> I (f e w1).2 /\ guar w1 (f e w1).2 /\ Q (f e w1).1 (f e w1).2) ->
  rg rely guar w (act f) Q.
Proof. intros Hf e w1 He Hle Hi. specialize (Hf e w1 He Hle Hi). by destruct (f e w1). Qed.

Lemma rg_act_inv rely guar {B} e w w1 (f : E -> W -> B * W) Q :
  rg rely guar w (act f) Q -> envOK e -> rely w w1 -> I w1 ->
  I (f e w1).2 /\ guar w1 (f e w1).2 /\ Q (f e w1).1 (f e w1).2.
Proof. intros Hs He Hle Hi. specialize (Hs e w1 He Hle Hi). cbv beta in Hs. by destruct (f e w1). Qed.

Lemma rg_await rely guar {B} w (f : E -> W -> option (B * W)) Q :
  (forall e w1, envOK e -> rely w w1 -> I w1 ->
     match f e w1 with Some (d, w2) => I w2 /\ guar w1 w2 /\ Q d w2 | None => ~ go e end) ->
  rg rely guar w (await f) Q.
Proof. done. Qed.

Lemma rg_step rely guar {A} e w w1 (t t' : thread A) w' Q :
  rg rely guar w t Q -> envOK e -> rely w w1 -> I w1 -> tstep e w1 t = Some (w', t') ->
  I w' /\ guar w1 w' /\ rg rely guar w' t' Q.
Proof.
  destruct t as [a|D f k]; simpl; [done|]. intros Hs He Hle Hi. specialize (Hs e w1 He Hle Hi).
  destruct (f e w1) as [[d w2]|]; simpl in *; [|done]. intros [= <- <-]. done.
Qed.

(** The rules for sequences: [le] relates the world before a thread to the one after. *)
Section Sequence.
Context (rely guar guar' le : W -> W -> Prop).
Hypothesis le_pre : PreOrder le.
Hypothesis rely_le : forall w w', rely w w' -> le w w'.
Hypothesis guar_le : forall w w', guar w w' -> le w w'.
Hypothesis guar_guar' : forall w w', guar w w' -> guar' w w'.

Lemma rg_impl {A} w (t : thread A) (Q Q' : A -> W -> Prop) :
  (forall a w', le w w' -> Q a w' -> Q' a w') -> rg rely guar w t Q -> rg rely guar' w t Q'.
Proof.
  revert w. induction t as [a|D f k IH]; intros w HQ; simpl.
  - apply HQ. reflexivity.
  - intros Hs e w1 He Hle Hi. specialize (Hs e w1 He Hle Hi).
    destruct (f e w1) as [[d w2]|]; [|done]. destruct Hs as (Hi' & Hle' & Hk).
    split_and!; [done|by apply guar_guar'|]. apply IH; [|done].
    intros a w' Hw'. apply HQ. transitivity w1; [by apply rely_le|]. transitivity w2; [|done].
    by apply guar_le.
Qed.

Lemma rg_bind {A B} w (t : thread A) (h : A -> thread B) Q Q' :
  rg rely guar w t Q -> (forall a w', le w w' -> Q a w' -> rg rely guar' w' (h a) Q') ->
  rg rely guar' w (tbind t h) Q'.
Proof.
  revert w. induction t as [a|D f k IH]; intros w; simpl.
  - intros HQ Hh. apply Hh; [reflexivity|done].
  - intros Hs Hh e w1 He Hle Hi. specialize (Hs e w1 He Hle Hi).
    destruct (f e w1) as [[d w2]|]; [|done]. destruct Hs as (Hi' & Hle' & Hk).
    split_and!; [done|by apply guar_guar'|]. apply IH; [done|].
    intros a w' Hw'. apply Hh. transitivity w1; [by apply rely_le|]. transitivity w2; [|done].
    by apply guar_le.
Qed.
End Sequence.

(** On every schedule of threads each of which relies on what the others guarantee: the
    invariant holds, and whatever threads have finished satisfy their postconditions. *)
Lemma rg_pool {A} (rely guar : nat -> W -> W -> Prop) (Q : nat -> A -> W -> Prop) sched w (ts : list (thread A)) w' ts' :
  (forall i, PreOrder (rely i)) -> (forall i, stable (rely i) (Q i)) ->
  (forall i j w w', i < length ts -> j < length ts -> i <> j -> guar i w w' -> rely j w w')%nat ->
  Forall envOK sched.*2 -> I w ->
  (forall i t, ts !! i = Some t -> rg (rely i) (guar i) w t (Q i)) ->
  runPool sched w ts = Some (w', ts') ->
  I w' /\ forall i t, ts' !! i = Some t -> rg (rely i) (guar i) w' t (Q i).
Proof.
  intros HR HQ. revert w ts. induction sched as [|[i e] sched IH]; intros w ts HG Henv Hi Hts; simpl.
  - intros [= <- <-]. by split.
  - apply list.Forall_cons_1 in Henv as [He Henv]. simpl in He.
    destruct (ts !! i) as [t|] eqn:Ht; simpl; [|done].
    destruct (tstep e w t) as [[w1 t1]|] eqn:Hstep; simpl; [|done]. intros Hrun.
    destruct (rg_step (rely i) (guar i) e w w t t1 w1 (Q i) (Hts i t Ht) He ltac:(reflexivity) Hi Hstep)
      as (Hi1 & Hle1 & Hs1).
    apply IH in Hrun as (Hi' & Hs'); [done|..|done|done|].
    + intros j k. rewrite !length_insert. apply HG.
    + intros j tj Hj. destruct (decide (i = j)) as [<-|Hne].
      * rewrite list_lookup_insert_eq in Hj by (by eapply lookup_lt_Some). by simplify_eq.
      * rewrite list_lookup_insert_ne in Hj by done. apply (rg_mono _ _ w); auto.
        apply (HG i j); [by eapply lookup_lt_Some..|done|done].
Qed.

(** Alone, in environments [go] that do not block it, a thread that finishes gets there. *)
Lemma rg_alone n {A} rely guar es w (t : thread A) Q :
  PreOrder rely -> within n t -> rg rely guar w t Q -> I w -> length es = n ->
  Forall (fun e => envOK e /\ go e) es -> exists a, (runAlone es w t).2 = TDone a.
Proof.
  intros HR. revert n w t. induction es as [|e es IH]; intros [|n] w [a|D f k] Ht Hs Hi Hl He;
    simplify_eq/=; try by exists a.
  - done.
  - apply list.Forall_cons_1 in He as [[He Hgo] Hes]. specialize (Hs e w He ltac:(reflexivity) Hi).
    destruct (f e w) as [[d w1]|]; simpl; [|done]. destruct Hs as (Hi1 & _ & Hs). by apply (IH (length es)).
Qed.
End RelyGuarantee.
End Threads.

Arguments thread : clear implicits.
Arguments TDone {W E A} a.
Arguments TAct {W E A} B f k.

Notation "x ←! t ; k" := (tbind t (fun x => k))
  (at level 20, t at level 100, k at level 200, right associativity).
