(* ===== verification/Buffers.v ===== *)
(** * Concurrent metadata exchanges ([src/dialer.go])

    Every [Dial] runs its exchange in a buffer of the dialer's one [sync.Pool]. Here the
    exchanges of many goroutines run at once over one heap of arrays: the pool holds
    pointers, [*[]byte], each goroutine has its own variables [b] and [buf], and every
    statement is one action of a thread of [Threads.v], so that any number of actions of
    the others comes between two of its own. *)
From S2P Require Import Prelude GoTime ErrType GoIO Metadata MetadataProps Threads.
#[local] Open Scope string_scope.
#[local] Open Scope list_scope.
#[local] Open Scope Z_scope.

(** The variables of one goroutine: its connection, [b], and the array of [buf] when
    [append] has allocated one, which no one else can reach. *)
Record frame (C : Type) := { fConn : C; fBuf : option nat; fFresh : option bytes }.
Arguments fConn {C}. Arguments fBuf {C}. Arguments fFresh {C}. Arguments Build_frame {C}.

(** The arrays ever made by the pool, the pointers it holds, those it has let go, the
    goroutines. *)
Record bufWorld (C : Type) := {
  bHeap : list bytes; bPool : list nat; bDropped : list nat; bFrames : nat -> frame C }.
Arguments bHeap {C}. Arguments bPool {C}. Arguments bDropped {C}. Arguments bFrames {C}. Arguments Build_bufWorld {C}.

(** What [sync.Pool] is free to do: to remove any of its items, at any time and without
    notice, and to hand out any of the others, or a new one. *)
Record poolChoice := { removed : list nat; picked : option nat }.

Section Concurrent.
Context {C : Type} `{!NetConn C} `{!ProtoLib}.
Implicit Types w : bufWorld C.

Definition setFrame (i : nat) (f : frame C) w : bufWorld C :=
  {| bHeap := bHeap w; bPool := bPool w; bDropped := bDropped w;
     bFrames j := if decide (j = i) then f else bFrames w j |}.

(** What goroutine [i] reaches, as the state of the sequential routine, and writing it
    back. *)
Definition bufAt w (f : frame C) : bytes := default [] (fBuf f ≫= fun l => bHeap w !! l).

Definition localState (i : nat) w : exchangeState C :=
  let f := bFrames w i in
  {| xConn := fConn f; xPool := []; xBuf := bufAt w f; xFresh := fFresh f |}.

Definition storeLocal (i : nat) (s : exchangeState C) w : bufWorld C :=
  let f := bFrames w i in
  setFrame i {| fConn := xConn s; fBuf := fBuf f; fFresh := xFresh s |}
    {| bHeap := match fBuf f with Some l => <[l := xBuf s]> (bHeap w) | None => bHeap w end;
       bPool := bPool w; bDropped := bDropped w; bFrames := bFrames w |}.

(** ** Goroutines with errors

    The environment of an action is what the pool chooses to do. *)
Definition proc (A : Type) : Type := thread (bufWorld C) poolChoice (res A).

Definition andThen {A B} (t : proc A) (k : A -> proc B) : proc B :=
  tbind t (fun r => match r with
                    | Ret a => k a | Fail e => TDone (Fail e) | Panic p => TDone (Panic p)
                    end).

(** [defer clean()] around the rest of a function. *)
Definition deferring {A} (clean : proc unit) (body : proc A) : proc A :=
  tbind body (fun r => tbind clean (fun _ => TDone r)).

(** A statement that touches what goroutine [i] reaches. *)
Definition onLocal (i : nat) {A} (m : St (exchangeState C) A) : proc A :=
  act (fun _ w => let '(r, s) := m (localState i w) in (r, storeLocal i s w)).

(** The pool lets items go: no one else has a pointer to them. *)
Definition dropItems (ls : list nat) w : bufWorld C :=
  {| bHeap := bHeap w; bPool := filter (fun l => l ∉ ls) (bPool w);
     bDropped := filter (fun l => l ∈ ls) (bPool w) ++ bDropped w; bFrames := bFrames w |}.

(** It hands out an arbitrary pointer it has, or one to a new array ([New]). *)
Definition takeItem (choice : option nat) (i : nat) w : bufWorld C :=
  let f := bFrames w i in
  let hold l := {| fConn := fConn f; fBuf := Some l; fFresh := None |} in
  match choice ≫= (fun k => (fun l => (l, delete k (bPool w))) <$> bPool w !! k) with
  | Some (l, p) => setFrame i (hold l) {| bHeap := bHeap w; bPool := p; bDropped := bDropped w; bFrames := bFrames w |}
  | None => setFrame i (hold (length (bHeap w)))
              {| bHeap := bHeap w ++ [replicate maxMessageSize zero]; bPool := bPool w;
                 bDropped := bDropped w; bFrames := bFrames w |}
  end.

(** [d.buffer.get()]: from what the pool still has. *)
Definition getBuffer (choice : poolChoice) (i : nat) w : bufWorld C :=
  takeItem (picked choice) i (dropItems (removed choice) w).

(** [d.buffer.put(b)]; the goroutine does not use [b] again. *)
Definition putBuffer (i : nat) w : bufWorld C :=
  let f := bFrames w i in
  setFrame i {| fConn := fConn f; fBuf := None; fFresh := None |}
    {| bHeap := bHeap w;
       bPool := match fBuf f with Some l => l :: bPool w | None => bPool w end;
       bDropped := bDropped w; bFrames := bFrames w |}.

Definition getShared (i : nat) : proc unit := act (fun choice w => (Ret (), getBuffer choice i w)).
Definition putShared (i : nat) : proc unit := act (fun _ w => (Ret (), putBuffer i w)).

(** [defer conn.SetDeadline(time.Time{})] *)
Definition clearShared (i : nat) : proc unit := onLocal i (fun s => (Ret (), clearDeadline s)).

(** Reading into a slice, and later using its contents. *)
Definition readShared (i : nat) (n : nat) : proc bytes :=
  andThen (onLocal i (readInto n)) (fun _ => onLocal i (loadBuf n)).

Definition responseThread (i : nat) : proc unit :=
  andThen (onLocal i (reslice 4)) (fun _ => andThen (readShared i 4) (fun buf =>
  let respSize := Uint32 buf in
  andThen (onLocal i (reslice respSize)) (fun _ => andThen (readShared i (Z.to_nat respSize)) (fun resp =>
  andThen (TDone (unmarshalResponse resp)) (fun mdxResp => TDone (checkResponse mdxResp)))))).

Definition ioThread (i : nat) (now1 now2 : Time) (n : nat) : proc unit :=
  andThen (onLocal i (setDeadline (Some (Add now1 ioTimeout)))) (fun _ =>
  deferring (clearShared i) (
    andThen (onLocal i (writeBuf n)) (fun _ =>
    andThen (onLocal i (setDeadline (Some (Add now2 ioTimeout)))) (fun _ =>
    deferring (clearShared i) (responseThread i))))).

(** The part of the exchange between [get] and [put], for a request of encoding [m]. *)
Definition bufferedThread (i : nat) (grow : nat -> nat) (now1 now2 : Time) (size : Z) (m : bytes) : proc unit :=
  andThen (getShared i) (fun _ =>
  deferring (putShared i) (
    andThen (onLocal i (putSize size)) (fun _ =>
    andThen (onLocal i (appendBuf grow m)) (fun _ =>
    ioThread i now1 now2 (4 + length m))))).

(** [Dialer.metadataExchange] of goroutine [i]. *)
Definition exchangeThread (i : nat) (d : exchangeConfig) (grow : nat -> nat) (now1 now2 : Time) : proc unit :=
  andThen (TDone (xToken d)) (fun tok =>
  let req := exchangeRequest d tok in
  andThen (TDone (marshalRequest req)) (fun m =>
  bufferedThread i grow now1 now2 (uint_wrap 32 (sizeRequest req)) m)).
End Concurrent.

(** ** No buffer is in two hands *)
Section Isolation.
Context {C : Type} `{!NetConn C} `{!ProtoLib}.
Implicit Types w : bufWorld C.

(** Every array has its full size; a pointer is in the pool once or in the hands of one
    goroutine, unless the pool itself has let it go, which no one has again. *)
Record buffersOK w : Prop := {
  bufs_sized : Forall (fun b => length b = maxMessageSize) (bHeap w);
  bufs_once : NoDup (bPool w);
  bufs_bound : forall l, l ∈ bPool w -> (l < length (bHeap w))%nat;
  bufs_held : forall i l, fBuf (bFrames w i) = Some l -> (l < length (bHeap w))%nat /\ (l ∉ bPool w);
  bufs_own : forall i j l, fBuf (bFrames w i) = Some l -> fBuf (bFrames w j) = Some l -> i = j;
  bufs_gone : forall l, l ∈ bDropped w ->
    (l < length (bHeap w))%nat /\ (l ∉ bPool w) /\ forall i, fBuf (bFrames w i) <> Some l;
  bufs_kept : forall l, (l < length (bHeap w))%nat ->
    l ∈ bPool w \/ l ∈ bDropped w \/ exists i, fBuf (bFrames w i) = Some l;
}.

(** What the others leave alone: the variables of [i] and the array they point to. *)
Definition untouched (i : nat) w w' : Prop :=
  bFrames w' i = bFrames w i /\ localState i w' = localState i w.
Definition others (i : nat) w w' : Prop := forall j, j <> i -> untouched j w w'.

#[export] Instance untouched_pre i : PreOrder (untouched i).
Proof. split; [by split|]. intros w1 w2 w3 [E1 E2] [E3 E4]. split; congruence. Qed.

Lemma frame_eq i f w : bFrames (setFrame i f w) i = f.
Proof. simpl. by rewrite decide_True. Qed.

Lemma frame_ne i j f w : j <> i -> bFrames (setFrame i f w) j = bFrames w j.
Proof. intros. simpl. by rewrite decide_False. Qed.

Lemma buffersOK_length w i l :
  buffersOK w -> fBuf (bFrames w i) = Some l ->
  exists b, bHeap w !! l = Some b /\ length b = maxMessageSize /\ bufAt w (bFrames w i) = b.
Proof.
  intros Hok Hl. destruct (bufs_held w Hok i l Hl) as [Hlt _].
  destruct (lookup_lt_is_Some_2 _ _ Hlt) as [b Hb]. exists b. split; [done|].
  split; [by apply (list.Forall_lookup_1 _ _ _ _ (bufs_sized w Hok) Hb)|].
  unfold bufAt. by rewrite Hl; simpl; rewrite Hb.
Qed.

(** Only the pointer of [i] moves: what is left to show of the others. *)
Lemma others_frame i w w' :
  (forall j, j <> i -> bFrames w' j = bFrames w j) ->
  (forall j l, j <> i -> fBuf (bFrames w j) = Some l -> bHeap w' !! l = bHeap w !! l) ->
  others i w w'.
Proof.
  intros Hf Hh j Hj. specialize (Hf j Hj). split; [done|]. unfold localState. rewrite Hf. f_equal.
  unfold bufAt. destruct (fBuf (bFrames w j)) as [l|] eqn:Hl; simpl; [|done].
  by rewrite (Hh j l Hj Hl).
Qed.

(** A statement that keeps the array's size. *)
Lemma local_step i w s :
  buffersOK w -> xPool s = [] -> length (xBuf s) = length (bufAt w (bFrames w i)) ->
  buffersOK (storeLocal i s w) /\ others i w (storeLocal i s w) /\ localState i (storeLocal i s w) = s.
Proof.
  intros Hok Hp Hlen.
  assert (forall j, fBuf (bFrames (storeLocal i s w) j) = fBuf (bFrames w j)) as Hsame.
  { intros j. simpl. by case_decide; subst. }
  assert (length (bHeap (storeLocal i s w)) = length (bHeap w)) as Hheap.
  { simpl. case_match; [by rewrite length_insert|done]. }
  split_and!.
  - destruct Hok as [H1 H2 H3 H4 H5 Hg H6]. split; rewrite ?Hheap; try done.
    + simpl. destruct (fBuf (bFrames w i)) as [l|] eqn:Hl; [|done]. apply Forall_insert; [done|].
      destruct (buffersOK_length w i l) as (b & _ & Hb & E); [by split|done|]. congruence.
    + intros j l. rewrite Hsame. apply H4.
    + intros j k l. rewrite !Hsame. apply H5.
    + intros l Hl. destruct (Hg l Hl) as (? & ? & Hl'). split_and!; [done..|]. intros j. by rewrite Hsame.
    + intros l Hl. destruct (H6 l Hl) as [|[|[j Hj]]]; [by left|by right; left|].
      right; right. exists j. by rewrite Hsame.
  - apply others_frame; [intros; unfold storeLocal; by rewrite frame_ne|]. intros j l Hj Hl. simpl.
    destruct (fBuf (bFrames w i)) as [k|] eqn:Hk; [|done]. apply list_lookup_insert_ne.
    intros ->. by apply Hj, (bufs_own w Hok j i l).
  - unfold localState, storeLocal. rewrite frame_eq. simpl. unfold bufAt. simpl.
    destruct s as [c p b f]; simpl in *. subst p. f_equal.
    destruct (fBuf (bFrames w i)) as [l|] eqn:Hl; simpl.
    + destruct (buffersOK_length w i l Hok Hl) as (b' & Hb & _). apply lookup_lt_Some in Hb.
      by rewrite list_lookup_insert_eq.
    + unfold bufAt in Hlen. rewrite Hl in Hlen. simpl in Hlen. by destruct b.
Qed.

(** The pointer of [i] changes hands. *)
Lemma hand_over i f h p w :
  buffersOK w -> Forall (fun b => length b = maxMessageSize) h -> NoDup p ->
  (length (bHeap w) <= length h)%nat -> (forall l, l ∈ p -> (l < length h)%nat) ->
  (forall l, fBuf f = Some l -> (l < length h)%nat /\ (l ∉ p)) ->
  (forall j l, j <> i -> fBuf (bFrames w j) = Some l -> (l ∉ p) /\ fBuf f <> Some l) ->
  (forall l, (l < length h)%nat ->
     l ∈ p \/ l ∈ bDropped w \/ fBuf f = Some l \/ exists j, j <> i /\ fBuf (bFrames w j) = Some l) ->
  (forall l, l ∈ bDropped w -> (l ∉ p) /\ fBuf f <> Some l) ->
  buffersOK (setFrame i f {| bHeap := h; bPool := p; bDropped := bDropped w; bFrames := bFrames w |}).
Proof.
  intros [_ _ _ H4 H5 Hg _] Hh Hp Hle Hb Hf Ho Hk Hd. split; simpl; [done|done|done|..].
  - intros j l. case_decide as Hj; [apply Hf|]. intros Hl. specialize (H4 j l Hl) as [? _].
    specialize (Ho j l Hj Hl) as [? _]. split; [lia|done].
  - intros j k l. repeat case_decide; subst; try done.
    + intros Hl Hl'. by destruct (Ho k l) as [_ ?].
    + intros Hl Hl'. by destruct (Ho j l) as [_ ?].
    + apply H5.
  - intros l Hl. destruct (Hd l Hl) as [Hlp Hlf], (Hg l Hl) as (? & _ & Hl'). split_and!; [lia|done|].
    intros j. by case_decide.
  - intros l Hl. destruct (Hk l Hl) as [|[|[|(j & Hj & Hjl)]]];
      [by left|by right; left|right; right; exists i; by rewrite decide_True|].
    right; right. exists j. by rewrite decide_False.
Qed.

Lemma take_step choice i w :
  buffersOK w -> fBuf (bFrames w i) = None ->
  buffersOK (takeItem choice i w) /\ others i w (takeItem choice i w) /\
  xConn (localState i (takeItem choice i w)) = fConn (bFrames w i) /\
  length (xBuf (localState i (takeItem choice i w))) = maxMessageSize /\
  xFresh (localState i (takeItem choice i w)) = None.
Proof.
  intros Hok Hnone. pose proof Hok as [H1 H2 H3 H4 H5 Hg H6]. unfold takeItem.
  assert (forall j l, fBuf (bFrames w j) = Some l -> j <> i) as Hi by (intros; congruence).
  destruct (choice ≫= _) as [[l p]|] eqn:Hc.
  - destruct choice as [k|]; [|done]. simpl in Hc.
    destruct (bPool w !! k) as [l'|] eqn:Hk; simplify_eq/=.
    pose proof (delete_Permutation _ _ _ Hk) as Hperm.
    assert (forall x, x ∈ bPool w <-> x = l \/ x ∈ delete k (bPool w)) as Hin.
    { intros x. rewrite <- elem_of_cons. by split; intros; [rewrite <- Hperm|rewrite Hperm]. }
    rewrite Hperm in H2. apply list.NoDup_cons in H2 as [Hnew H2].
    destruct (lookup_lt_is_Some_2 (bHeap w) l) as [b Hb]; [by apply H3, Hin; left|].
    split_and!.
    + apply hand_over; simpl; [done..| | | | |]; [intros x Hx; by apply H3, Hin; right|..].
      * intros ? [= <-]. split; [by eapply lookup_lt_Some|done].
      * intros j x _ Hx. destruct (H4 j x Hx) as [_ Hx']. rewrite Hin in Hx'.
        split; [tauto|]. intros [= ->]. tauto.
      * intros x Hx. destruct (H6 x Hx) as [[->|Hxp]%Hin|[|[j Hj]]]; eauto 7.
      * intros x Hx. destruct (Hg x Hx) as (_ & Hx' & _). rewrite Hin in Hx'. split; [tauto|]. intros [= ->]. tauto.
    + apply others_frame; [intros; by rewrite frame_ne|done].
    + simpl. by rewrite decide_True.
    + unfold localState, bufAt; simpl. rewrite decide_True by done. simpl. rewrite Hb.
      by apply (list.Forall_lookup_1 _ _ _ _ H1 Hb).
    + simpl. by rewrite decide_True.
  - clear Hc. pose proof (length_replicate maxMessageSize zero) as Hsize. split_and!.
    + apply hand_over; simpl; rewrite ?length_app; simpl; [done| |done|lia| | | | |].
      * apply Forall_app_2; [done|]. by constructor.
      * intros x Hx. specialize (H3 x Hx). lia.
      * intros ? [= <-]. split; [lia|]. intros Hx%H3. lia.
      * intros j x _ Hx. destruct (H4 j x Hx) as [? ?]. split; [done|]. intros [= <-]. lia.
      * intros x Hx. destruct (decide (x = length (bHeap w))) as [->|Hne]; [by auto|].
        destruct (H6 x) as [|[|[j Hj]]]; [lia|by auto|by auto|]. eauto 7.
      * intros x Hx. destruct (Hg x Hx) as (? & ? & _). split; [done|]. intros [= <-]. lia.
    + apply others_frame; [intros; by rewrite frame_ne|]. intros j x _ Hx. simpl.
      apply lookup_app_l. by destruct (H4 j x Hx).
    + simpl. by rewrite decide_True.
    + unfold localState, bufAt; simpl. rewrite decide_True by done. simpl.
      rewrite lookup_app_r by lia. rewrite Nat.sub_diag; simpl. done.
    + simpl. by rewrite decide_True.
Qed.

(** What the pool lets go, no one else has. *)
Lemma drop_step ls w : buffersOK w -> buffersOK (dropItems ls w).
Proof.
  intros [H1 H2 H3 H4 H5 Hg H6]. split; simpl; [done| |..].
  - by apply list.NoDup_filter.
  - intros l [_ Hl]%list_elem_of_filter. by apply H3.
  - intros i l Hl. destruct (H4 i l Hl) as [? Hp]. split; [done|]. by intros [_ ?]%list_elem_of_filter.
  - done.
  - intros l [[Hl Hp]%list_elem_of_filter|Hl]%elem_of_app.
    + split_and!; [by apply H3|by intros [? _]%list_elem_of_filter|]. intros i Hi. by destruct (H4 i l Hi).
    + destruct (Hg l Hl) as (? & Hp & ?). split_and!; [done| |done]. by intros [_ ?]%list_elem_of_filter.
  - intros l Hl. rewrite elem_of_app, !list_elem_of_filter. destruct (H6 l Hl) as [Hp|[|]]; [|by auto|by auto].
    destruct (decide (l ∈ ls)); auto.
Qed.

Lemma get_step choice i w :
  buffersOK w -> fBuf (bFrames w i) = None ->
  buffersOK (getBuffer choice i w) /\ others i w (getBuffer choice i w) /\
  xConn (localState i (getBuffer choice i w)) = fConn (bFrames w i) /\
  length (xBuf (localState i (getBuffer choice i w))) = maxMessageSize /\
  xFresh (localState i (getBuffer choice i w)) = None.
Proof. intros Hok. apply (take_step (picked choice) i (dropItems (removed choice) w)). by apply drop_step. Qed.

Lemma put_step i w : buffersOK w -> buffersOK (putBuffer i w) /\ others i w (putBuffer i w).
Proof.
  intros Hok. pose proof Hok as [H1 H2 H3 H4 H5 Hg H6]. unfold putBuffer.
  split; [|apply others_frame; [intros; by rewrite frame_ne|done]].
  destruct (fBuf (bFrames w i)) as [l|] eqn:Hl; apply hand_over; simpl; try done.
  - apply list.NoDup_cons. split; [by destruct (H4 i l Hl)|done].
  - intros k. rewrite elem_of_cons. intros [->|]; [by destruct (H4 i l Hl)|by apply H3].
  - intros j k Hj Hk. split; [|done]. rewrite not_elem_of_cons. split; [|by destruct (H4 j k Hk)].
    intros ->. by apply Hj, (H5 j i l).
  - intros k Hk. rewrite elem_of_cons. destruct (H6 k Hk) as [|[|[j Hj]]]; [by auto|by auto|].
    destruct (decide (j = i)) as [->|Hne]; [left; left; congruence|]. right; right; right; eauto.
  - intros k Hk. destruct (Hg k Hk) as (_ & ? & Hh). split; [|done]. rewrite not_elem_of_cons. split; [|done].
    intros ->. by apply (Hh i).
  - intros j k Hj Hk. split; [|done]. by destruct (H4 j k Hk).
  - intros k Hk. destruct (H6 k Hk) as [|[|[j Hj]]]; [by auto|by auto|]. right; right; right. exists j.
    split; [congruence|done].
  - intros k Hk. by destruct (Hg k Hk) as (_ & ? & _).
Qed.
(** ** Every exchange is the sequential one *)
Definition proves i {A} w (t : proc A) : (res A -> bufWorld C -> Prop) -> Prop :=
  rg (fun _ : poolChoice => True) (fun _ => True) buffersOK (untouched i) (others i) w t.

(** Whatever the others do between its actions, thread [t] of goroutine [i], from a state
    in [Q], does what the sequential [m] does. *)
Definition sequential i {A} (Q : exchangeState C -> Prop) (t : proc A) (m : St (exchangeState C) A) : Prop :=
  forall w, Q (localState i w) -> proves i w t (fun r w' => m (localState i w) = (r, localState i w')).

Lemma proves_bind i {A B} w (t : proc A) (h : res A -> proc B) Q Q' :
  proves i w t Q -> (forall r w', Q r w' -> proves i w' (h r) Q') -> proves i w (tbind t h) Q'.
Proof.
  intros Ht Hh. apply (rg_bind _ _ _ (untouched i) (others i) (others i) (fun _ _ => True)) with (Q := Q);
    [by split|done|done|done|exact Ht|]. intros a w' _. apply Hh.
Qed.

Lemma proves_impl i {A} w (t : proc A) (Q Q' : res A -> bufWorld C -> Prop) :
  (forall r w', Q r w' -> Q' r w') -> proves i w t Q -> proves i w t Q'.
Proof.
  intros HQ. apply (rg_impl _ _ _ (untouched i) (others i) (others i) (fun _ _ => True)); [by split|done|done|done|].
  intros a w' _. apply HQ.
Qed.

Lemma seq_weaken i {A} (Q Q' : exchangeState C -> Prop) (t : proc A) m :
  (forall s, Q s -> Q' s) -> sequential i Q' t m -> sequential i Q t m.
Proof. intros HQ Ht w Hw. by apply Ht, HQ. Qed.

Lemma seq_done i {A} Q (r : res A) : sequential i Q (TDone r) (lift r).
Proof. by intros w Hw. Qed.

Lemma seq_local i {A} Q (m : St (exchangeState C) A) :
  (forall s, Q s -> bufInv [] s /\ bufInv [] (m s).2) -> sequential i Q (onLocal i m) m.
Proof.
  intros HQ w Hw. apply rg_act. intros _ w1 _ [_ El] Hok. rewrite <- El in *.
  destruct (HQ _ Hw) as [(_ & Hb & _) (Hp & Hb' & _)].
  destruct (m (localState i w1)) as [r s]. cbn [fst snd] in *.
  destruct (local_step i w1 s Hok Hp) as (H1 & H2 & H3); [by rewrite Hb'|]. by rewrite H3.
Qed.

Lemma seq_bind i {A B} Q (t : proc A) m (k : A -> proc B) k' :
  sequential i Q t m ->
  (forall a, sequential i (fun s1 => exists s, Q s /\ m s = (Ret a, s1)) (k a) (k' a)) ->
  sequential i Q (andThen t k) (m ≫= k').
Proof.
  intros Ht Hk w HQ. eapply proves_bind; [by apply Ht|]. intros r w1 E. simpl in E.
  rewrite bind_eq, E. destruct r as [a|e|p]; [|done..]. apply Hk. eauto.
Qed.

Lemma seq_defer i {A} Q (body : proc A) m (clean : proc unit) clean' :
  sequential i Q body m ->
  sequential i (fun s1 => exists s, Q s /\ (m s).2 = s1) clean (fun s => (Ret (), clean' s)) ->
  sequential i Q (deferring clean body) (deferred clean' m).
Proof.
  intros Hb Hc w HQ. eapply proves_bind; [by apply Hb|]. intros r w1 E. simpl in E.
  eapply proves_bind; [apply Hc; exists (localState i w); by rewrite E|]. intros r' w2 E2. simpl in E2.
  rewrite deferred_eq, E. simpl. congruence.
Qed.
End Isolation.

Section Sequential.
Context {C : Type} `{!NetConn C, !NetConnLaws C} `{!ProtoLib}.
Implicit Types w : bufWorld C.

(** The goroutine has a buffer of its own. *)
#[local] Abbreviation owns := (bufInv (C := C) []).

Lemma bufInv_readInto n (s : exchangeState C) :
  owns s -> (n <= length (bufArray s))%nat -> owns (readInto n s).2.
Proof.
  intros Hs Hn. destruct (bufInv_readBuf [] n s Hs Hn) as [H1 _]. unfold readBuf in H1.
  rewrite bind_eq in H1. by destruct (readInto n s) as [[] ?].
Qed.

Lemma seq_read i n (k : bytes -> proc unit) k' :
  0 <= n -> (forall b, sequential i owns (k b) (k' b)) ->
  sequential i owns (andThen (onLocal i (reslice n)) (fun _ => andThen (readShared i (Z.to_nat n)) k))
    (reslice n ≫= fun _ => readBuf (Z.to_nat n) ≫= k').
Proof.
  intros Hn Hk.
  assert (forall s : exchangeState C, owns s -> owns (reslice n s).2) as Hres.
  { intros s Hs. unfold reslice. by case_match. }
  apply seq_bind; [apply seq_local; intros s Hs; split; auto|]. intros u.
  apply (seq_weaken _ _ (fun s : exchangeState C => owns s /\ (Z.to_nat n <= length (bufArray s))%nat)).
  { intros s1 (s & Hs & E). unfold reslice in E. destruct (Z.leb_spec n (Z.of_nat (length (bufArray s))));
      simplify_eq. split; [done|lia]. }
  assert (forall s : exchangeState C, (owns s /\ (Z.to_nat n <= length (bufArray s))%nat) -> owns (readInto (Z.to_nat n) s).2) as Hr.
  { intros s [? ?]. by apply bufInv_readInto. }
  unfold readBuf. apply seq_bind.
  - unfold readShared. apply seq_bind; [apply seq_local; intros s Hs; split; [exact (proj1 Hs)|by apply Hr]|].
    intros u1. apply (seq_weaken _ _ owns).
    { intros s1 (s & Hs & E). specialize (Hr s Hs). by rewrite E in Hr. }
    apply seq_local. intros s Hs. by split.
  - intros b. apply (seq_weaken _ _ owns); [|apply Hk].
    intros s1 (s & Hs & E). specialize (Hr s Hs). rewrite bind_eq in E.
    unfold loadBuf in E. destruct (readInto (Z.to_nat n) s) as [[] ?]; [|done..].
    by injection E as _ <-.
Qed.

Lemma seq_response i : sequential i owns (responseThread i) exchangeResponse.
Proof.
  unfold responseThread, exchangeResponse. apply (seq_read i 4); [lia|]. intros hdr. cbv zeta.
  apply seq_read; [apply Uint32_range|]. intros resp.
  apply seq_bind; [apply seq_done|]. intros r. apply seq_done.
Qed.

(** A statement that owns its buffer, then the rest. *)
Lemma seq_then i {A} (m : St (exchangeState C) A) (t : proc unit) m' :
  (forall s, owns s -> owns (m s).2) -> sequential i owns t m' ->
  sequential i owns (andThen (onLocal i m) (fun _ => t)) (m ≫= fun _ => m').
Proof.
  intros Hm Ht. apply seq_bind; [apply seq_local; intros s Hs; split; auto|]. intros a.
  apply (seq_weaken _ _ owns); [|done]. intros s1 (s & Hs & E). specialize (Hm s Hs). by rewrite E in Hm.
Qed.

Lemma seq_clear i (t : proc unit) m :
  sequential i owns t m -> (forall s, owns s -> owns (m s).2) ->
  sequential i owns (deferring (clearShared i) t) (deferred clearDeadline m).
Proof.
  intros Ht Hm. apply seq_defer; [done|]. apply seq_local. intros s1 (s & Hs & <-).
  split; [auto|]. apply (bufInv_setDeadline [] None). auto.
Qed.

Lemma seq_IO i now1 now2 n : sequential i owns (ioThread i now1 now2 n) (exchangeIO now1 now2 n).
Proof.
  unfold ioThread, exchangeIO. apply seq_then; [apply bufInv_setDeadline|].
  apply seq_clear.
  - apply seq_then; [apply bufInv_writeBuf|]. apply seq_then; [apply bufInv_setDeadline|].
    by apply seq_clear; [apply seq_response|apply bufInv_response].
  - intros s Hs. apply bind_keeps; [by apply bufInv_writeBuf|]. intros _ s1 H1.
    apply bind_keeps; [by apply bufInv_setDeadline|]. intros _ s2 H2.
    apply (deferred_keeps owns); [by apply bufInv_response|intros; by apply (bufInv_setDeadline [] None)].
Qed.

Lemma bufInv_putSize v (s : exchangeState C) : owns s -> owns (putSize v s).2.
Proof.
  intros Hs. unfold putSize. destruct (Nat.leb_spec 4 (length (bufArray s))); [|done]. simpl.
  apply bufInv_setArray; [done|]. apply length_store. simpl. lia.
Qed.

Lemma bufInv_appendBuf grow m (s : exchangeState C) : owns s -> owns (appendBuf grow m s).2.
Proof.
  intros (Hp & Hb & H4). unfold appendBuf. destruct (Nat.leb_spec (4 + length m) (length (bufArray s))); simpl.
  - apply bufInv_setArray; [by split|]. rewrite !length_app, length_take, length_drop. lia.
  - split_and!; [done..|]. unfold bufArray at 1; simpl. rewrite !length_app, length_take. lia.
Qed.

(** The whole exchange, from before the buffer is taken to after it is put back: the
    sequential routine on some buffer [b] of full size. *)
Definition alone d grow now1 now2 (c : C) (b : bytes) : res unit * C :=
  let '(r, s) := metadataExchange d (Some 0%nat) grow now1 now2
                   {| xConn := c; xPool := [b]; xBuf := []; xFresh := None |} in (r, xConn s).

Definition buffered grow now1 now2 size m : St (exchangeState C) unit :=
  putSize size ≫= fun _ => appendBuf grow m ≫= fun _ => exchangeIO now1 now2 (4 + length m).

Lemma alone_eq d grow now1 now2 c b tok m :
  xToken d = Ret tok -> marshalRequest (exchangeRequest d tok) = Ret m ->
  alone d grow now1 now2 c b =
    let '(r, s) := buffered grow now1 now2 (uint_wrap 32 (sizeRequest (exchangeRequest d tok))) m
                     {| xConn := c; xPool := []; xBuf := b; xFresh := None |} in (r, xConn s).
Proof.
  intros Htok Hm. unfold alone, metadataExchange. rewrite lift_bind, Htok. cbv zeta. rewrite lift_bind, Hm.
  rewrite (bind_to (getBuf (Some 0%nat)) _ _ () {| xConn := c; xPool := []; xBuf := b; xFresh := None |}) by done.
  rewrite deferred_eq. unfold buffered. by destruct ((putSize _ ≫= _) _).
Qed.

Lemma seq_buffered i grow now1 now2 size m :
  sequential i owns (andThen (onLocal i (putSize size)) (fun _ => andThen (onLocal i (appendBuf grow m)) (fun _ =>
    ioThread i now1 now2 (4 + length m)))) (buffered grow now1 now2 size m).
Proof.
  apply seq_then; [apply bufInv_putSize|]. apply seq_then; [apply bufInv_appendBuf|]. apply seq_IO.
Qed.

Lemma bufferedThread_spec i grow now1 now2 size m w :
  fBuf (bFrames w i) = None ->
  proves i w (bufferedThread i grow now1 now2 size m) (fun r w' => fBuf (bFrames w' i) = None /\
    exists b, length b = maxMessageSize /\
      let out := buffered grow now1 now2 size m
                   {| xConn := fConn (bFrames w i); xPool := []; xBuf := b; xFresh := None |} in
      out.1 = r /\ xConn out.2 = fConn (bFrames w' i)).
Proof.
  intros Hnone. unfold bufferedThread.
  eapply proves_bind with (Q := fun r w' => r = Ret () /\ owns (localState i w') /\
    xFresh (localState i w') = None /\ fConn (bFrames w' i) = fConn (bFrames w i)).
  { apply rg_act. intros choice w1 _ [Ef _] Hok. rewrite <- Ef in *.
    destruct (get_step choice i w1 Hok Hnone) as (H1 & H2 & H3 & H4 & H5).
    split_and!; [exact H1|exact H2|done| |exact H5|exact H3].
    split_and!; [done|exact H4|]. cbn [snd].
    unfold bufArray. rewrite H5. cbn [from_option id]. rewrite H4. apply Nat.leb_le. vm_compute. reflexivity. }
  intros r w1 (-> & Hown & Hfresh & Hconn).
  eapply proves_bind; [by apply seq_buffered|]. intros r w2 E. simpl in E.
  eapply proves_bind with (Q := fun _ w' => fBuf (bFrames w' i) = None /\ fConn (bFrames w' i) = fConn (bFrames w2 i)).
  { apply rg_act. intros _ w3 _ [Ef _] Hok. rewrite <- Ef. destruct (put_step i w3 Hok) as [H1 H2].
    split_and!; [done..| |]; simpl; by rewrite decide_True. }
  intros _ w3 [Hn3 Hc3]. split; [done|]. exists (xBuf (localState i w1)).
  split; [by destruct Hown as (_ & ? & _)|].
  assert (localState i w1 = {| xConn := fConn (bFrames w i); xPool := []; xBuf := xBuf (localState i w1); xFresh := None |}) as <-.
  { rewrite <- Hfresh, <- Hconn. done. }
  rewrite E, Hc3. done.
Qed.

Lemma exchangeThread_spec i d grow now1 now2 w :
  fBuf (bFrames w i) = None ->
  proves i w (exchangeThread i d grow now1 now2) (fun r w' => fBuf (bFrames w' i) = None /\
    exists b, length b = maxMessageSize /\
      alone d grow now1 now2 (fConn (bFrames w i)) b = (r, fConn (bFrames w' i))).
Proof.
  intros Hnone. unfold exchangeThread, andThen.
  assert (length (replicate maxMessageSize zero) = maxMessageSize) as Hany by apply length_replicate.
  destruct (xToken d) as [tok|e|p] eqn:Htok; cbn [tbind];
    [|split; [done|eexists; split; [exact Hany|]]; unfold alone, metadataExchange; by rewrite lift_bind, Htok..].
  destruct (marshalRequest (exchangeRequest d tok)) as [m|e|p] eqn:Hm; cbn [tbind];
    [|split; [done|eexists; split; [exact Hany|]]; unfold alone, metadataExchange;
      by rewrite lift_bind, Htok; cbv zeta; rewrite lift_bind, Hm..].
  eapply proves_impl; [|by apply bufferedThread_spec]. intros r w' (Hn & b & Hb & Hout). split; [done|].
  exists b. split; [done|]. rewrite (alone_eq _ _ _ _ _ _ _ _ Htok Hm). cbv zeta in Hout.
  destruct (buffered _ _ _ _ _ _) as [r' s']; simpl in Hout. by destruct Hout as [-> ->].
Qed.
End Sequential.

(** ** The theorem *)
Record exchangeCall := {
  callConfig : exchangeConfig; callGrow : nat -> nat; callNow1 : Time; callNow2 : Time }.

Section Calls.
Context {C : Type} `{!NetConn C} `{!ProtoLib}.

(** Exchange [i] of a list of concurrent ones, and the same exchange alone. *)
Definition callThread (i : nat) (x : exchangeCall) : proc (C := C) unit :=
  exchangeThread i (callConfig x) (callGrow x) (callNow1 x) (callNow2 x).
Definition callAlone (x : exchangeCall) : C -> bytes -> res unit * C :=
  alone (callConfig x) (callGrow x) (callNow1 x) (callNow2 x).
Definition callRef (x : exchangeCall) : St C unit :=
  refExchange (callConfig x) (fun n => Z.of_nat (room (callGrow x) n)) (callNow1 x) (callNow2 x).

Lemma callAlone_ref `{!NetConnLaws C, !FullReads C, !ProtoLaws} x c b :
  length b = maxMessageSize -> requestFits (callConfig x) -> callAlone x c b = callRef x c.
Proof.
  intros Hb Hfit. unfold callAlone, alone, callRef.
  set (s := {| xConn := c; xPool := [b]; xBuf := []; xFresh := None |}).
  destruct (metadataExchange_ref (callConfig x) (Some 0%nat) (callGrow x) (callNow1 x) (callNow2 x) s)
    as [E1 E2]; [by constructor|done|].
  destruct (metadataExchange _ _ _ _ _ s) as [r s']; simpl in *. rewrite E1, E2. by destruct (refExchange _ _ _ _ _).
Qed.

Lemma within_then {A B} n m (t : proc (C := C) A) (k : A -> proc B) :
  within n t -> (forall a, within m (k a)) -> within (n + m) (andThen t k).
Proof. intros Ht Hk. apply within_bind; [done|]. intros [a|e|p]; [apply Hk|apply within_done..]. Qed.

Lemma within_deferring {A} n (t : proc (C := C) A) clean :
  within n t -> within 1 clean -> within (n + 1) (deferring clean t).
Proof. intros Ht Hc. apply within_bind; [done|]. intros r. apply (within_bind 1 0); [done|]. by intros. Qed.

Lemma within_local i {A} (m : St (exchangeState C) A) : within 1 (onLocal i m).
Proof. by intros r. Qed.

Lemma within_read i n : within 2 (readShared (C := C) i n).
Proof. apply (within_then 1 1); intros; apply within_local. Qed.

Lemma responseThread_within i : within 6 (responseThread (C := C) i).
Proof.
  apply (within_then 1 5); [apply within_local|]. intros _.
  apply (within_then 2 3); [apply within_read|]. intros hdr. cbv zeta.
  apply (within_then 1 2); [apply within_local|]. intros _.
  apply (within_then 2 0); [apply within_read|]. intros resp.
  apply (within_then 0 0); intros; apply within_done.
Qed.

Lemma ioThread_within i now1 now2 n : within 11 (ioThread (C := C) i now1 now2 n).
Proof.
  apply (within_then 1 10); [apply within_local|]. intros _.
  apply (within_deferring 9); [|apply within_local].
  apply (within_then 1 8); [apply within_local|]. intros _.
  apply (within_then 1 7); [apply within_local|]. intros _.
  apply (within_deferring 6); [apply responseThread_within|apply within_local].
Qed.

(** An exchange makes at most fifteen actions. *)
Lemma callThread_within i x : within 15 (callThread i x).
Proof.
  apply (within_then 0 15); [apply within_done|]. intros tok.
  apply (within_then 0 15); [apply within_done|]. intros m.
  apply (within_then 1 14); [by intros r|]. intros _.
  apply (within_deferring 13); [|by intros r].
  apply (within_then 1 12); [apply within_local|]. intros _.
  apply (within_then 1 11); [apply within_local|]. intros _. apply ioThread_within.
Qed.
End Calls.

(** C8: concurrent exchanges do not interfere. On every schedule of any number of
    exchanges over the one pool, statement by statement, and whatever items the pool lets
    go meanwhile: no buffer is ever in two hands, in the pool twice, or lost otherwise,
    and each keeps its full size; an exchange makes at most
    fifteen actions, and one that has returned has given its buffer back and done to its
    own connection what the sequential routine does with a buffer of its own. With reads
    that fill the slice that is the exchange with separate messages: nothing the others
    leave in the shared buffers reaches it. *)
Theorem exchanges_isolated {C} `{!NetConn C, !NetConnLaws C} `{!ProtoLib}
    (calls : list exchangeCall) sched (w w' : bufWorld C) ts'
    (Hw : buffersOK w) (Hidle : forall i, fBuf (bFrames w i) = None)
    (Hrun : runPool sched w (imap callThread calls) = Some (w', ts')) :
  buffersOK w' /\
  forall i x, calls !! i = Some x -> (turns i sched <= 15)%nat /\
    forall r, ts' !! i = Some (TDone r) ->
      fBuf (bFrames w' i) = None /\
      (exists b, length b = maxMessageSize /\
         callAlone x (fConn (bFrames w i)) b = (r, fConn (bFrames w' i))) /\
      (FullReads C -> ProtoLaws -> requestFits (callConfig x) ->
         callRef x (fConn (bFrames w i)) = (r, fConn (bFrames w' i))).
Proof.
  assert (Forall (fun _ : poolChoice => True) sched.*2) as Henv by (by apply list.Forall_true).
  pose (Q := fun i (r : res unit) (w2 : bufWorld C) => forall x, calls !! i = Some x ->
    fBuf (bFrames w2 i) = None /\ exists b, length b = maxMessageSize /\
      callAlone x (fConn (bFrames w i)) b = (r, fConn (bFrames w2 i))).
  destruct (rg_pool (fun _ => True) (fun _ => True) buffersOK untouched others Q sched w (imap callThread calls) w' ts')
    as [Hok Hall]; try apply _; try done.
  - intros i r w1 w2 [E _] HQ x Hx. rewrite E. by apply HQ.
  - intros i j w1 w2 _ _ Hne Ho. by apply Ho.
  - intros i t Ht. rewrite list_lookup_imap in Ht. destruct (calls !! i) as [x|] eqn:Hx; simplify_eq/=.
    eapply proves_impl; [|by apply exchangeThread_spec]. intros r w2 H2 x' Hx'. by simplify_eq.
  - split; [done|]. intros i x Hx.
    pose proof (runPool_length _ _ _ _ _ Hrun) as Hlen. rewrite length_imap in Hlen.
    split.
    + destruct (lookup_lt_is_Some_2 ts' i) as [t Ht]; [rewrite Hlen; by eapply lookup_lt_Some|].
      destruct (within_pool (fun _ => 15%nat) sched w (imap callThread calls) w' ts') with (i := i) (t := t)
        as [Hle _]; [|done|done|lia].
      intros j u Hj. rewrite list_lookup_imap in Hj. destruct (calls !! j) as [y|]; simplify_eq/=.
      apply callThread_within.
    + intros r Hr. destruct (Hall i _ Hr x Hx) as (Hn & b & Hb & E). split_and!; [done|eauto|].
      intros ? ? Hfit. by rewrite <- (callAlone_ref x _ b).
Qed.

#[local] Existing Instance ToyProto.lib.
#[local] Existing Instance ToyProto.laws.

Module Toy.
Definition call : exchangeCall :=
  {| callConfig := ToyProto.config; callGrow := ToyProto.grow; callNow1 := 0; callNow2 := 0 |}.
Definition conn (r : MetadataExchangeResponse) : script := xConn (ToyProto.peer r).
Definition denied : MetadataExchangeResponse := {| ResponseCode := RespOther 2; respError := "denied" |}.
Definition accepted : MetadataExchangeResponse := {| ResponseCode := RespOK; respError := "" |}.

(** One used buffer in the pool; goroutine 0 will be denied, the others accepted. *)
Definition world : bufWorld script := {|
  bHeap := [replicate maxMessageSize (byteof 7)]; bPool := [0%nat]; bDropped := [];
  bFrames i := {| fConn := conn (if decide (i = 0%nat) then denied else accepted);
                  fBuf := None; fFresh := None |} |}.

(** Two exchanges in turns, both asking for the pooled buffer; then the pool lets that
    buffer go, and a third exchange takes the other's. *)
Definition schedule : list (nat * poolChoice) :=
  let first := {| removed := []; picked := Some 0%nat |} in
  mjoin (replicate 15 [(0%nat, first); (1%nat, first)]) ++
  replicate 15 (2%nat, {| removed := [0%nat]; picked := Some 0%nat |}).
Definition run : option (bufWorld script * list (proc unit)) :=
  runPool schedule world (imap callThread [call; call; call]).
Definition outcomes : option (list (option (res unit))) :=
  match run with Some (_, ts') => Some (map result ts') | None => None end.
End Toy.

Lemma toy_wf : buffersOK Toy.world.
Proof.
  assert (forall l, l ∈ [0%nat] -> l = 0%nat) as Hl by (intros l; by rewrite list_elem_of_singleton). split.
  - constructor; [apply length_replicate|constructor].
  - apply NoDup_singleton.
  - intros l Hin. rewrite (Hl l Hin). simpl. lia.
  - done.
  - done.
  - intros l Hin. by apply list.not_elem_of_nil in Hin.
  - intros [|l]; simpl; [left; by apply list_elem_of_singleton|lia].
Qed.

Lemma toy_fits : requestFits ToyProto.config.
Proof. intros tok m [= <-] [= <-]. apply Z.ltb_lt. vm_compute. reflexivity. Qed.

Lemma exchanges_isolated_witness :
  Toy.outcomes = Some [Some (Fail (ErrorsNew "denied")); Some (Ret ()); Some (Ret ())] /\
  match Toy.run with
  | Some (w', _) => buffersOK w' /\
      callRef Toy.call (Toy.conn Toy.denied) = (Fail (ErrorsNew "denied"), fConn (bFrames w' 0%nat)) /\
      callRef Toy.call (Toy.conn Toy.accepted) = (Ret (), fConn (bFrames w' 1%nat)) /\
      callRef Toy.call (Toy.conn Toy.accepted) = (Ret (), fConn (bFrames w' 2%nat))
  | None => False
  end.
Proof.
  assert (Toy.outcomes = Some [Some (Fail (ErrorsNew "denied")); Some (Ret ()); Some (Ret ())]) as Ho
    by (vm_compute; reflexivity).
  split; [exact Ho|]. unfold Toy.outcomes in Ho. destruct Toy.run as [[w' ts']|] eqn:Hrun; [|discriminate Ho].
  injection Ho as Ho.
  destruct (exchanges_isolated [Toy.call; Toy.call; Toy.call] Toy.schedule Toy.world w' ts' toy_wf
    (fun _ => eq_refl) Hrun) as [Hok Hall].
  pose proof (fun i r => results_lookup ts' i r) as Hdone.
  rewrite Ho in Hdone. split; [exact Hok|].
  split; [|split].
  - destruct (Hall 0%nat Toy.call eq_refl) as [_ Hr]. destruct (Hr _ (Hdone 0%nat _ eq_refl)) as (_ & _ & E).
    exact (E _ _ toy_fits).
  - destruct (Hall 1%nat Toy.call eq_refl) as [_ Hr]. destruct (Hr _ (Hdone 1%nat _ eq_refl)) as (_ & _ & E).
    exact (E _ _ toy_fits).
  - destruct (Hall 2%nat Toy.call eq_refl) as [_ Hr]. destruct (Hr _ (Hdone 2%nat _ eq_refl)) as (_ & _ & E).
    exact (E _ _ toy_fits).
Defined.
