(* ===== verification/KeyGen.v ===== *)
(** * The key generator ([src/dialer.go]: [keyGenerator])

    A key that is provided, generated at once, or generated when it is first asked
    for; the [sync.Once] makes every caller see the outcome of one generation. *)
From S2P Require Import Prelude ErrType.
#[local] Open Scope list_scope.
#[local] Open Scope Z_scope.

Section KeyGen.
Context {K : Type}.

(** [gens] counts the calls of [genFunc]. A [nil] key is [None]. *)
Record keyGenerator := {
  onceDone : bool; genKey : option K; genErr : option error; gens : nat }.

(** [g.once.Do(func() { g.key, g.err = g.genFunc() })]: [gen] is what [genFunc] returns
    in this call. A function that panics has been done, too. *)
Definition onceGen (gen : res K) (g : keyGenerator) : res unit * keyGenerator :=
  if onceDone g then (Ret (), g)
  else match gen with
       | Ret k => (Ret (), {| onceDone := true; genKey := Some k; genErr := None; gens := S (gens g) |})
       | Fail e => (Ret (), {| onceDone := true; genKey := None; genErr := Some e; gens := S (gens g) |})
       | Panic w => (Panic w, {| onceDone := true; genKey := genKey g; genErr := genErr g; gens := S (gens g) |})
       end.

Definition keyOut (g : keyGenerator) : res (option K) :=
  match genErr g with Some e => Fail e | None => Ret (genKey g) end.

Definition newKeyGenerator (k : option K) (lazy : bool) (gen : res K) : res keyGenerator :=
  let g := {| onceDone := false; genKey := None; genErr := None; gens := 0 |} in
  match k with
  | Some k => Ret {| onceDone := true; genKey := Some k; genErr := None; gens := 0 |}
  | None =>
    if lazy then Ret g
    else let '(r, g) := onceGen gen g in
         _ ← r; match genErr g with Some e => Fail e | None => Ret g end
  end.

Definition rsaKey (gen : res K) (g : keyGenerator) : res (option K) * keyGenerator :=
  let '(r, g) := onceGen gen g in
  match r with Panic w => (Panic w, g) | _ => (keyOut g, g) end.

(** Calls one after the other, each with its own outcome of the generation. *)
Fixpoint rsaKeys (genl : list (res K)) (g : keyGenerator) : list (res (option K)) * keyGenerator :=
  match genl with
  | [] => ([], g)
  | gen :: genl => let '(r, g) := rsaKey gen g in let '(rs, g) := rsaKeys genl g in (r :: rs, g)
  end.

Lemma rsaKeys_done genl g :
  onceDone g = true -> rsaKeys genl g = (replicate (length genl) (keyOut g), g).
Proof.
  intros Hd. induction genl as [|gen genl IH]; simpl; [done|].
  unfold rsaKey, onceGen. rewrite Hd. by rewrite IH.
Qed.
End KeyGen.
Arguments keyGenerator : clear implicits.

(** One key. Of any number of calls of [rsaKey] all return the same: the key that was
    provided, or the outcome of one generation, error included, done when the
    generator was made or, in lazy mode, by the first call. [genFunc] is called at most
    once in all, and never when a key was provided. *)
Theorem keygen_once {K} (k : option K) lazy gen genl (g : keyGenerator K)
    (Hnew : newKeyGenerator k lazy gen = Ret g)
    (Hpanic : Forall (fun r => isPanic r = false) genl) :
  let first := match k, lazy with
               | Some k, _ => Ret (Some k)
               | None, false => Some <$> gen
               | None, true => Some <$> default gen (head genl)
               end in
  (rsaKeys genl g).1 = replicate (length genl) first /\
  gens (rsaKeys genl g).2 = match k, lazy with
                            | Some _, _ => 0%nat
                            | None, false => 1%nat
                            | None, true => Nat.min 1 (length genl)
                            end.
Proof.
  unfold newKeyGenerator in Hnew. destruct k as [k|]; [|destruct lazy].
  - injection Hnew as <-. by rewrite rsaKeys_done.
  - injection Hnew as <-. destruct genl as [|r genl]; [done|].
    apply list.Forall_cons_1 in Hpanic as [Hr _]. simpl.
    destruct r as [k|e|w]; simpl in *; [| |done]; by rewrite rsaKeys_done.
  - unfold onceGen in Hnew; simpl in Hnew. destruct gen as [k|e|w]; simpl in Hnew; simplify_eq.
    by rewrite rsaKeys_done.
Qed.

(** A failed lazy generation is not retried. *)
Lemma keygen_once_witness :
  let g := {| onceDone := false; genKey := None; genErr := None; gens := 0 |} : keyGenerator Z in
  (rsaKeys [Fail ErrInvalidPEM; Ret 1; Ret 2] g).1 = replicate 3 (Fail ErrInvalidPEM) /\
  gens (rsaKeys [Fail ErrInvalidPEM; Ret 1; Ret 2] g).2 = 1%nat.
Proof.
  intros g.
  apply (keygen_once None true (Ret 0) [Fail ErrInvalidPEM; Ret 1; Ret 2] g).
  - reflexivity.
  - repeat constructor.
Defined.
