(* ===== verification/Options.v ===== *)
(** * Options ([src/options.go])

    An option is a function on the configuration, as in the source. What the options
    hold but do not look into (keys, token sources, loggers, HTTP clients, dial
    functions, readers) are type parameters. *)
From S2P Require Import Prelude GoTime ErrType Refresh.
#[local] Open Scope string_scope.
#[local] Open Scope list_scope.
#[local] Open Scope Z_scope.

Section Options.
(** Dial functions, RSA keys, token sources, client options, loggers, readers. *)
Context {F K TS AO LG RD : Type}.

(** ** Options of a call of [Dial] *)
Record dialCfg := { dcDialFunc : option F; ipType : string; tcpKeepAlive : Duration }.

Definition DialOption : Type := dialCfg -> dialCfg.

Definition DialOptions (opts : list DialOption) : DialOption := fun cfg =>
  foldl (fun c opt => opt c) cfg opts.

Definition WithOneOffDialFunc (dial : F) : DialOption := fun c =>
  {| dcDialFunc := Some dial; ipType := ipType c; tcpKeepAlive := tcpKeepAlive c |}.
Definition WithTCPKeepAlive (d : Duration) : DialOption := fun c =>
  {| dcDialFunc := dcDialFunc c; ipType := ipType c; tcpKeepAlive := d |}.
Definition withIPType (t : string) : DialOption := fun c =>
  {| dcDialFunc := dcDialFunc c; ipType := t; tcpKeepAlive := tcpKeepAlive c |}.
Definition WithPublicIP : DialOption := withIPType PublicIP.
Definition WithPrivateIP : DialOption := withIPType PrivateIP.
Definition WithPSC : DialOption := withIPType PSC.

(** ** Options of a dialer *)
Record dialerConfig := {
  rsaKeyOpt : option K;
  adminOpts : list AO;
  dialOpts : list DialOption;
  dialFunc : F;
  refreshTimeout : Duration;
  tokenSource : option TS;
  userAgents : list string;
  useIAMAuthN : bool;
  logger : LG;
  lazyRefresh : bool;
  disableMetadataExchange : bool;
  staticConnInfo : option RD;
  cfgErr : option error }.

Definition Option_ : Type := dialerConfig -> dialerConfig.

(** Assignments to one field. *)
Definition setRsaKey v (d : dialerConfig) : dialerConfig :=
  {| rsaKeyOpt := v; adminOpts := adminOpts d; dialOpts := dialOpts d; dialFunc := dialFunc d;
     refreshTimeout := refreshTimeout d; tokenSource := tokenSource d; userAgents := userAgents d;
     useIAMAuthN := useIAMAuthN d; logger := logger d; lazyRefresh := lazyRefresh d;
     disableMetadataExchange := disableMetadataExchange d; staticConnInfo := staticConnInfo d;
     cfgErr := cfgErr d |}.
Definition addAdminOpt o (d : dialerConfig) : dialerConfig :=
  {| rsaKeyOpt := rsaKeyOpt d; adminOpts := adminOpts d ++ [o]; dialOpts := dialOpts d; dialFunc := dialFunc d;
     refreshTimeout := refreshTimeout d; tokenSource := tokenSource d; userAgents := userAgents d;
     useIAMAuthN := useIAMAuthN d; logger := logger d; lazyRefresh := lazyRefresh d;
     disableMetadataExchange := disableMetadataExchange d; staticConnInfo := staticConnInfo d;
     cfgErr := cfgErr d |}.
Definition addDialOpts os (d : dialerConfig) : dialerConfig :=
  {| rsaKeyOpt := rsaKeyOpt d; adminOpts := adminOpts d; dialOpts := dialOpts d ++ os; dialFunc := dialFunc d;
     refreshTimeout := refreshTimeout d; tokenSource := tokenSource d; userAgents := userAgents d;
     useIAMAuthN := useIAMAuthN d; logger := logger d; lazyRefresh := lazyRefresh d;
     disableMetadataExchange := disableMetadataExchange d; staticConnInfo := staticConnInfo d;
     cfgErr := cfgErr d |}.
Definition setDialFunc f (d : dialerConfig) : dialerConfig :=
  {| rsaKeyOpt := rsaKeyOpt d; adminOpts := adminOpts d; dialOpts := dialOpts d; dialFunc := f;
     refreshTimeout := refreshTimeout d; tokenSource := tokenSource d; userAgents := userAgents d;
     useIAMAuthN := useIAMAuthN d; logger := logger d; lazyRefresh := lazyRefresh d;
     disableMetadataExchange := disableMetadataExchange d; staticConnInfo := staticConnInfo d;
     cfgErr := cfgErr d |}.
Definition setRefreshTimeout t (d : dialerConfig) : dialerConfig :=
  {| rsaKeyOpt := rsaKeyOpt d; adminOpts := adminOpts d; dialOpts := dialOpts d; dialFunc := dialFunc d;
     refreshTimeout := t; tokenSource := tokenSource d; userAgents := userAgents d;
     useIAMAuthN := useIAMAuthN d; logger := logger d; lazyRefresh := lazyRefresh d;
     disableMetadataExchange := disableMetadataExchange d; staticConnInfo := staticConnInfo d;
     cfgErr := cfgErr d |}.
Definition setTokenSource ts (d : dialerConfig) : dialerConfig :=
  {| rsaKeyOpt := rsaKeyOpt d; adminOpts := adminOpts d; dialOpts := dialOpts d; dialFunc := dialFunc d;
     refreshTimeout := refreshTimeout d; tokenSource := ts; userAgents := userAgents d;
     useIAMAuthN := useIAMAuthN d; logger := logger d; lazyRefresh := lazyRefresh d;
     disableMetadataExchange := disableMetadataExchange d; staticConnInfo := staticConnInfo d;
     cfgErr := cfgErr d |}.
Definition addUserAgent ua (d : dialerConfig) : dialerConfig :=
  {| rsaKeyOpt := rsaKeyOpt d; adminOpts := adminOpts d; dialOpts := dialOpts d; dialFunc := dialFunc d;
     refreshTimeout := refreshTimeout d; tokenSource := tokenSource d; userAgents := userAgents d ++ [ua];
     useIAMAuthN := useIAMAuthN d; logger := logger d; lazyRefresh := lazyRefresh d;
     disableMetadataExchange := disableMetadataExchange d; staticConnInfo := staticConnInfo d;
     cfgErr := cfgErr d |}.
Definition setIAMAuthN (d : dialerConfig) : dialerConfig :=
  {| rsaKeyOpt := rsaKeyOpt d; adminOpts := adminOpts d; dialOpts := dialOpts d; dialFunc := dialFunc d;
     refreshTimeout := refreshTimeout d; tokenSource := tokenSource d; userAgents := userAgents d;
     useIAMAuthN := true; logger := logger d; lazyRefresh := lazyRefresh d;
     disableMetadataExchange := disableMetadataExchange d; staticConnInfo := staticConnInfo d;
     cfgErr := cfgErr d |}.
Definition setLogger l (d : dialerConfig) : dialerConfig :=
  {| rsaKeyOpt := rsaKeyOpt d; adminOpts := adminOpts d; dialOpts := dialOpts d; dialFunc := dialFunc d;
     refreshTimeout := refreshTimeout d; tokenSource := tokenSource d; userAgents := userAgents d;
     useIAMAuthN := useIAMAuthN d; logger := l; lazyRefresh := lazyRefresh d;
     disableMetadataExchange := disableMetadataExchange d; staticConnInfo := staticConnInfo d;
     cfgErr := cfgErr d |}.
Definition setLazyRefresh (d : dialerConfig) : dialerConfig :=
  {| rsaKeyOpt := rsaKeyOpt d; adminOpts := adminOpts d; dialOpts := dialOpts d; dialFunc := dialFunc d;
     refreshTimeout := refreshTimeout d; tokenSource := tokenSource d; userAgents := userAgents d;
     useIAMAuthN := useIAMAuthN d; logger := logger d; lazyRefresh := true;
     disableMetadataExchange := disableMetadataExchange d; staticConnInfo := staticConnInfo d;
     cfgErr := cfgErr d |}.
Definition setOptOut (d : dialerConfig) : dialerConfig :=
  {| rsaKeyOpt := rsaKeyOpt d; adminOpts := adminOpts d; dialOpts := dialOpts d; dialFunc := dialFunc d;
     refreshTimeout := refreshTimeout d; tokenSource := tokenSource d; userAgents := userAgents d;
     useIAMAuthN := useIAMAuthN d; logger := logger d; lazyRefresh := lazyRefresh d;
     disableMetadataExchange := true; staticConnInfo := staticConnInfo d;
     cfgErr := cfgErr d |}.
Definition setStatic r (d : dialerConfig) : dialerConfig :=
  {| rsaKeyOpt := rsaKeyOpt d; adminOpts := adminOpts d; dialOpts := dialOpts d; dialFunc := dialFunc d;
     refreshTimeout := refreshTimeout d; tokenSource := tokenSource d; userAgents := userAgents d;
     useIAMAuthN := useIAMAuthN d; logger := logger d; lazyRefresh := lazyRefresh d;
     disableMetadataExchange := disableMetadataExchange d; staticConnInfo := Some r;
     cfgErr := cfgErr d |}.
Definition setErr e (d : dialerConfig) : dialerConfig :=
  {| rsaKeyOpt := rsaKeyOpt d; adminOpts := adminOpts d; dialOpts := dialOpts d; dialFunc := dialFunc d;
     refreshTimeout := refreshTimeout d; tokenSource := tokenSource d; userAgents := userAgents d;
     useIAMAuthN := useIAMAuthN d; logger := logger d; lazyRefresh := lazyRefresh d;
     disableMetadataExchange := disableMetadataExchange d; staticConnInfo := staticConnInfo d;
     cfgErr := Some e |}.

Definition WithOptions (opts : list Option_) : Option_ := fun d => foldl (fun c opt => opt c) d opts.

(** [google.CredentialsFromJSON] yields the token source and the client option made of
    the credentials, or an error, whose text is given. *)
Definition WithCredentialsJSON (creds : TS * AO + string) : Option_ := fun d =>
  match creds with
  | inr text => setErr (NewConfigError text "n/a") d
  | inl (ts, ao) => addAdminOpt ao (setTokenSource (Some ts) d)
  end.

(** [os.ReadFile] yields the contents or an error. *)
Definition WithCredentialsFile (file : bytes + string) (parse : bytes -> TS * AO + string) : Option_ := fun d =>
  match file with
  | inr text => setErr (NewConfigError text "n/a") d
  | inl b => WithCredentialsJSON (parse b) d
  end.

Definition WithUserAgent (ua : string) : Option_ := addUserAgent ua.
Definition WithDefaultDialOptions (opts : list DialOption) : Option_ := addDialOpts opts.
(** The client options made by package [option] are given. *)
Definition WithTokenSource (ts : TS) (ao : AO) : Option_ := fun d => addAdminOpt ao (setTokenSource (Some ts) d).
Definition WithRSAKey (k : option K) : Option_ := setRsaKey k.
Definition WithRefreshTimeout (t : Duration) : Option_ := setRefreshTimeout t.
Definition WithHTTPClient (ao : AO) : Option_ := addAdminOpt ao.
Definition WithAdminAPIEndpoint (ao : AO) : Option_ := addAdminOpt ao.
Definition WithDialFunc (f : F) : Option_ := setDialFunc f.
Definition WithIAMAuthN : Option_ := setIAMAuthN.
Definition WithContextLogger (l : LG) : Option_ := setLogger l.
(** The adapter that drops the context, around a logger without one, is given. *)
Definition WithDebugLogger (adapter : LG) : Option_ := setLogger adapter.
Definition WithLazyRefresh : Option_ := setLazyRefresh.
Definition WithStaticConnectionInfo (r : RD) : Option_ := setStatic r.
Definition WithOptOutOfAdvancedConnectionCheck : Option_ := setOptOut.

(** The loop of [NewDialer]: it stops at the first option that reports an error. *)
Fixpoint applyOptions (opts : list Option_) (cfg : dialerConfig) : res dialerConfig :=
  match opts with
  | [] => Ret cfg
  | opt :: opts =>
      let cfg := opt cfg in
      match cfgErr cfg with Some e => Fail e | None => applyOptions opts cfg end
  end.
End Options.
Arguments dialCfg : clear implicits.
Arguments dialerConfig : clear implicits.
Arguments DialOption : clear implicits.
Arguments Option_ : clear implicits.
