(* ===== verification/Cache.v ===== *)
(** * The cache interface ([connectionInfoCache], [src/dialer.go])

    The dialer uses its caches through three methods. A method call happens in an
    environment [E]: what the clock, the Admin API, the context and, for a cache with
    background work, the scheduler do during the call. [InfoCacheLaws] is what the
    dialer may rely on; each cache proves it for its own environments. *)
From S2P Require Import Prelude GoTime ErrType InstanceURI Refresh.

(** ** Refresh timing ([src/internal/alloydb/instance.go]) *)

Definition refreshBuffer : Duration := 4 * Minute.
Definition refreshInterval : Duration := 30 * Second.
Definition RefreshTimeout : Duration := 60 * Second.
Definition refreshBurst : Z := 2.

Definition refreshDuration (now certExpiry : Time) : Duration :=
  let d := Sub certExpiry now in
  if d <? Hour then
    if d <? refreshBuffer then 0
    else durSub d refreshBuffer
  else durQuot d 2.

(** What the caches use of it: the bounds the theorem below completes. *)
Lemma refreshDuration_safe now certExpiry :
  let t := refreshDuration now certExpiry in
  is_int64 t /\ 0 <= t /\
  (refreshBuffer <= certExpiry - now -> now + t <= certExpiry - refreshBuffer).
Proof.
  unfold refreshDuration, is_int64, refreshBuffer, durSub, durQuot.
  pose proof (Sub_int64 certExpiry now) as Hd.
  assert (Sub certExpiry now = Z.max minInt64 (Z.min maxInt64 (certExpiry - now))) as Hs by done.
  set (d := Sub certExpiry now) in *. unfold is_int64, minInt64, maxInt64 in *. time_consts.
  destruct (Z.ltb_spec d (60 * (60 * (1000 * 1000000)))).
  - destruct (Z.ltb_spec d (4 * (60 * (1000 * 1000000)))); [lia|].
    rewrite int64_wrap_id by (unfold is_int64, minInt64, maxInt64; lia). lia.
  - rewrite Z.quot_div_nonneg by lia.
    pose proof (Z.div_mod d 2 ltac:(lia)). pose proof (Z.mod_pos_bound d 2 ltac:(lia)). lia.
Qed.

Lemma refreshDuration_pos now certExpiry :
  now + refreshBuffer < certExpiry -> 0 < refreshDuration now certExpiry.
Proof.
  intros Hrem. unfold refreshDuration, refreshBuffer, durSub, durQuot in *.
  pose proof (Sub_int64 certExpiry now) as Hd.
  assert (Sub certExpiry now = Z.max minInt64 (Z.min maxInt64 (certExpiry - now))) as Hs by done.
  set (d := Sub certExpiry now) in *. unfold is_int64, minInt64, maxInt64 in *. time_consts.
  destruct (Z.ltb_spec d (60 * (60 * (1000 * 1000000)))).
  - rewrite (proj2 (Z.ltb_ge _ _)) by lia.
    rewrite int64_wrap_id by (unfold is_int64, minInt64, maxInt64; lia). lia.
  - rewrite Z.quot_div_nonneg by lia. apply Z.div_str_pos. lia.
Qed.

(** C25: bounds. The wait before the next refresh is a non-negative [int64], zero when
    less than the buffer is left, and otherwise ends at least the buffer before the
    expiry; for a certificate with under an hour left it ends exactly the buffer
    before, from an hour on it is half of what is left (at most what an [int64]
    holds). No subtraction overflows, even for times too far apart for a
    [Duration]. *)
Theorem refreshDuration_bounds now certExpiry :
  let remains := certExpiry - now in
  let t := refreshDuration now certExpiry in
  is_int64 t /\ 0 <= t /\
  (remains < refreshBuffer -> t = 0) /\
  (refreshBuffer <= remains < Hour -> now + t = certExpiry - refreshBuffer) /\
  (Hour <= remains <= maxInt64 -> t = remains / 2) /\
  (refreshBuffer <= remains -> now + t <= certExpiry - refreshBuffer).
Proof.
  intros remains t.
  destruct (refreshDuration_safe now certExpiry) as (Hi & Hpos & Hbuf).
  split_and!; [done..| | | |done]; clear Hi Hpos Hbuf; unfold t, remains, refreshDuration, refreshBuffer, durSub, durQuot;
    pose proof (Sub_int64 certExpiry now) as Hd;
    assert (Sub certExpiry now = Z.max minInt64 (Z.min maxInt64 (certExpiry - now))) as Hs by done;
    set (d := Sub certExpiry now) in *; unfold is_int64, minInt64, maxInt64 in *; time_consts; intros Hrem.
  - do 2 (rewrite (proj2 (Z.ltb_lt _ _)) by lia). done.
  - rewrite (proj2 (Z.ltb_lt _ _)), (proj2 (Z.ltb_ge _ _)) by lia.
    rewrite int64_wrap_id by (unfold is_int64, minInt64, maxInt64; lia). lia.
  - rewrite (proj2 (Z.ltb_ge _ _)) by lia. rewrite Z.quot_div_nonneg by lia. f_equal; lia.
Qed.

(** ** The interface

    [ConnectionInfo] may wait, so it is two operations: [cacheBegin] starts the call and
    yields its number, [cacheAwait] is its return, when it can return. [ForceRefresh] may
    have to wait for a lock. [cacheTick] is what happens in the cache in between: nothing,
    its background refreshes, or that a call gets its lock. *)
Class InfoCache `{CryptoLib} (C E : Type) := {
  cacheBegin : E -> C -> nat * C;
  cacheAwait : E -> nat -> C -> option (res ConnectionInfo * C);
  cacheForceRefresh : E -> C -> option C;
  cacheClose : E -> C -> C;
  cacheTick : E -> C -> C;
}.

Class InfoCacheLaws `{CryptoLib} (C E : Type) `{!InfoCache C E} := {
  (** Well-formed caches for an instance, the environments considered, those in which a
      caller that waits heeds that its context is done, and those in which it notices
      that the cache is closed. *)
  cacheFor : InstanceURI -> C -> Prop;
  cacheEnv : E -> Prop;
  cacheCtxDone : E -> Prop;
  cacheSelClosed : E -> C -> Prop;
  (** A cache that has stopped its background work; one in which a call has begun. *)
  cacheStopped : C -> Prop;
  cacheWaiting : nat -> C -> Prop;
  (** What is known of the infos for an instance: where they come from, and so that they
      are well formed. *)
  cacheInfoOK : InstanceURI -> ConnectionInfo -> Prop;
  cache_info_OK i ci : cacheInfoOK i ci -> infoOK i ci;
  (** Every operation keeps the cache well formed for its instance. *)
  cache_begin_inv i e c : cacheFor i c -> cacheEnv e -> cacheFor i (cacheBegin e c).2;
  cache_await_inv i e n c r c' :
    cacheFor i c -> cacheEnv e -> cacheAwait e n c = Some (r, c') -> cacheFor i c';
  cache_force_inv i e c c' : cacheFor i c -> cacheEnv e -> cacheForceRefresh e c = Some c' -> cacheFor i c';
  cache_close_inv i e c : cacheFor i c -> cacheEnv e -> cacheFor i (cacheClose e c);
  cache_tick_inv i e c : cacheFor i c -> cacheEnv e -> cacheFor i (cacheTick e c);
  (** What is returned is such a connection info of the instance. *)
  cache_await_OK i e n c ci c' :
    cacheFor i c -> cacheEnv e -> cacheAwait e n c = Some (Ret ci, c') -> cacheInfoOK i ci;
  (** [Close] stops the background work, which nothing starts again; a call that has
      begun has. *)
  cache_close_stops e c : cacheStopped (cacheClose e c);
  cache_begin_waiting e c : cacheWaiting (cacheBegin e c).1 (cacheBegin e c).2;
  cacheLater c c' := (cacheStopped c -> cacheStopped c') /\ forall n, cacheWaiting n c -> cacheWaiting n c';
  cache_begin_later e c : cacheLater c (cacheBegin e c).2;
  cache_await_later e n c r c' : cacheAwait e n c = Some (r, c') -> cacheLater c c';
  cache_force_later e c c' : cacheForceRefresh e c = Some c' -> cacheLater c c';
  cache_close_later e c : cacheLater c (cacheClose e c);
  cache_tick_later e c : cacheLater c (cacheTick e c);
  (** A call returns when it heeds that its context is done, or that the cache has
      stopped; [ForceRefresh] is not blocked where the first is so. *)
  cache_await_go e n c : cacheWaiting n c -> cacheCtxDone e -> is_Some (cacheAwait e n c);
  cache_await_stopped e n c :
    cacheWaiting n c -> cacheStopped c -> cacheSelClosed e c -> is_Some (cacheAwait e n c);
  cache_force_go e c : cacheCtxDone e -> is_Some (cacheForceRefresh e c);
}.

#[export] Instance cacheLater_preorder `{InfoCacheLaws C E} : PreOrder (cacheLater (C := C) (E := E)).
Proof.
  split; [by split|]. intros c1 c2 c3 [S1 W1] [S2 W2]. split; [auto|]. intros n Hn. by apply W2, W1.
Qed.

(** Making a cache for an instance with the client's key. [M] is what the dialer has for
    it, which making a cache may change: a reader is read. *)
Class CacheMaker `{CryptoLib} (C E M : Type) := {
  cacheNew : E -> option PrivateKey -> InstanceURI -> M -> res C * M;
}.

Class CacheMakerLaws `{CryptoLib} (C E M : Type) `{!InfoCache C E, !InfoCacheLaws C E, !CacheMaker C E M} := {
  (** What caches may be made from; making one keeps it. *)
  makerOK : M -> Prop;
  cache_new_keeps e k i m : cacheEnv e -> makerOK m -> makerOK (cacheNew e k i m).2;
  cache_new_for e k i m c : cacheEnv e -> makerOK m -> (cacheNew e k i m).1 = Ret c -> cacheFor i c;
}.
