(* ===== verification/Static.v ===== *)
(** * The static connection info cache ([src/internal/alloydb/static.go])

    Connection infos read once from a reader that holds JSON. The first part is what the
    source uses of [encoding/json] to store a value: a decoder takes a JSON value and
    the Go value it is stored into, and returns what the Go value is afterwards with the
    first error that was saved on the way, as the package does. *)
From S2P Require Import Prelude GoTime ErrType GoJSON GoJSONProps InstanceURI Refresh Cache.
#[local] Open Scope string_scope.
#[local] Open Scope list_scope.
#[local] Open Scope Z_scope.

(** ** [json.Unmarshal] *)

Definition dec (A : Type) : Type := json -> A -> res (A * option error).

(** The error context: the struct and the path of the field that is decoded. *)
Record errorContext := { ecStruct : string; ecField : string }.

(** [json.UnmarshalTypeError] *)
Definition typeError (value : string) (cx : option errorContext) (ty : string) : error :=
  ErrorsNew (match cx with
             | Some cx => "json: cannot unmarshal " +:+ value +:+ " into Go struct field " +:+
                          ecStruct cx +:+ "." +:+ ecField cx +:+ " of type " +:+ ty
             | None => "json: cannot unmarshal " +:+ value +:+ " into Go value of type " +:+ ty
             end).

Definition firstErr (a b : option error) : option error :=
  match a with Some _ => a | None => b end.

Inductive litKind := KNull | KBool | KString | KNumber.
#[export] Instance litKind_eq_dec : EqDecision litKind.
Proof. solve_decision. Defined.

(** What a literal is, by its first byte. *)
Definition kindOf (lit : bytes) : litKind :=
  match lit with
  | c :: _ => if bool_decide (c = "n"%char) then KNull
              else if bool_decide (c ∈ to_bytes "tf") then KBool
              else if byteval c =? 34 then KString else KNumber
  | [] => KNumber
  end.

Definition kindName (k : litKind) : string :=
  match k with KNull => "null" | KBool => "bool" | KString => "string" | KNumber => "number" end.

Definition outOfSync {A} : res A := Panic "JSON decoder out of sync - data changing underfoot?".

Definition unquoted (lit : bytes) : res string :=
  match unquote lit with Some b => Ret (of_bytes b) | None => outOfSync end.

(** A value of another type than the Go value's. *)
Definition mismatch {A} (cx : option errorContext) (ty : string) (j : json) (a : A) : res (A * option error) :=
  match j with
  | JLit lit => match kindOf lit with
                | KNull => Ret (a, None)
                | k => Ret (a, Some (typeError (kindName k) cx ty))
                end
  | JArr _ => Ret (a, Some (typeError "array" cx ty))
  | JObj _ => Ret (a, Some (typeError "object" cx ty))
  end.

(** Into a [string]. *)
Definition decodeString (cx : option errorContext) : dec string := fun j old =>
  match j with
  | JLit lit =>
      if decide (kindOf lit = KString) then s ← unquoted lit; Ret (s, None)
      else mismatch cx "string" j old
  | _ => mismatch cx "string" j old
  end.

(** A slice of strings: the array behind it and its length. Truncating keeps the array,
    and growing again within it shows what it held. *)
Record slice := { sArr : list string; sLen : nat }.
Definition nilSlice : slice := {| sArr := []; sLen := 0 |}.
Definition elems (s : slice) : list string := take (sLen s) (sArr s).

(** The elements from index [i] on. *)
Fixpoint decodeElems (cx : option errorContext) (l : list json) (i : nat) (arr : list string)
    : res (list string * option error) :=
  match l with
  | [] => Ret (arr, None)
  | j :: l =>
      '(s, e) ← decodeString cx j (default "" (arr !! i));
      let arr := if decide (i < length arr)%nat then <[i := s]> arr else arr ++ [s] in
      '(arr, e') ← decodeElems cx l (S i) arr;
      Ret (arr, firstErr e e')
  end.

Definition decodeStrings (cx : option errorContext) : dec slice := fun j old =>
  match j with
  | JArr [] => Ret (nilSlice, None)
  | JArr l => '(arr, e) ← decodeElems cx l 0 (sArr old); Ret ({| sArr := arr; sLen := length l |}, e)
  | JLit lit => if decide (kindOf lit = KNull) then Ret (nilSlice, None) else mismatch cx "[]string" j old
  | _ => mismatch cx "[]string" j old
  end.

(** [foldName]: ASCII letters in upper case, and the two other runes that fold to ASCII
    letters; no other rune folds to ASCII, so none can make a field name. *)
Fixpoint foldName (skip : nat) (s : bytes) : bytes :=
  match s with
  | [] => []
  | c :: t =>
    match skip with
    | S k => foldName k t
    | O =>
      match decodeRune s with
      | Some (r, w) =>
          (if r <? 128 then [if inRange 97 122 c then byteof (r - 32) else c]
           else if r =? 383 then ["S"%char]
           else if r =? 8490 then ["K"%char]
           else take w s) ++ foldName (pred w) t
      | None => c :: foldName 0 t
      end
    end
  end.

(** The field that the key of a member selects: the exact name, or the same up to case. *)
Definition isField (name key : string) : bool :=
  bool_decide (foldName 0 (to_bytes key) = foldName 0 (to_bytes name)).

(** Into a struct: the members in the order of the text, the last of a name wins. *)
Section Struct.
Context {A : Type} (field : string -> dec A).

Fixpoint decodeFields (m : list (bytes * json)) (a : A) : res (A * option error) :=
  match m with
  | [] => Ret (a, None)
  | (k, v) :: m =>
      key ← unquoted k;
      '(a, e) ← field key v a;
      '(a, e') ← decodeFields m a;
      Ret (a, firstErr e e')
  end.

Definition decodeStruct (cx : option errorContext) (ty : string) : dec A := fun j a =>
  match j with JObj m => decodeFields m a | _ => mismatch cx ty j a end.
End Struct.

(** Into a [map[string]json.RawMessage]. *)
Fixpoint decodeMembers (m : list (bytes * json)) (acc : gmap string json) : res (gmap string json) :=
  match m with
  | [] => Ret acc
  | (k, v) :: m => key ← unquoted k; decodeMembers m (<[key := v]> acc)
  end.

Definition decodeMap : dec (gmap string json) := fun j acc =>
  match j with
  | JObj m => acc ← decodeMembers m acc; Ret (acc, None)
  | JLit lit => if decide (kindOf lit = KNull) then Ret (∅, None)
                else mismatch None "map[string]json.RawMessage" j acc
  | _ => mismatch None "map[string]json.RawMessage" j acc
  end.

(** [json.Unmarshal] of a raw message; the nil one is no JSON. *)
Definition unmarshalRaw {A} (d : dec A) (raw : option json) (a : A) : res A :=
  match raw with
  | None => Fail unexpectedEnd
  | Some j => '(a, e) ← d j a; match e with Some e => Fail e | None => Ret a end
  end.

(** ** The static data *)

Record staticPSCConfig := { PSCDNSName : string }.

Record staticConnectionInfo := {
  IPAddress : string;
  PublicIPAddress : string;
  PSCInstanceConfig : staticPSCConfig;
  PEMCertificateChain : slice;
  CACert : string }.

Definition zeroStaticInfo : staticConnectionInfo :=
  {| IPAddress := ""; PublicIPAddress := ""; PSCInstanceConfig := {| PSCDNSName := "" |};
     PEMCertificateChain := nilSlice; CACert := "" |}.

Abbreviation staticInstanceInfo := (gmap string staticConnectionInfo).

Record staticData := { sdPublicKey : string; sdPrivateKey : string; InstanceInfo : staticInstanceInfo }.

Definition inStruct (s f : string) : option errorContext := Some {| ecStruct := s; ecField := f |}.

Definition staticPSCConfig_field (key : string) : dec staticPSCConfig := fun j c =>
  if isField "pscDnsName" key then
    '(s, e) ← decodeString (inStruct "staticPSCConfig" "pscInstanceConfig.pscDnsName") j (PSCDNSName c);
    Ret ({| PSCDNSName := s |}, e)
  else Ret (c, None).

Definition staticConnectionInfo_field (key : string) : dec staticConnectionInfo := fun j c =>
  let cx f := inStruct "staticConnectionInfo" f in
  if isField "ipAddress" key then
    '(s, e) ← decodeString (cx "ipAddress") j (IPAddress c);
    Ret ({| IPAddress := s; PublicIPAddress := PublicIPAddress c; PSCInstanceConfig := PSCInstanceConfig c;
            PEMCertificateChain := PEMCertificateChain c; CACert := CACert c |}, e)
  else if isField "publicIPAddress" key then
    '(s, e) ← decodeString (cx "publicIPAddress") j (PublicIPAddress c);
    Ret ({| IPAddress := IPAddress c; PublicIPAddress := s; PSCInstanceConfig := PSCInstanceConfig c;
            PEMCertificateChain := PEMCertificateChain c; CACert := CACert c |}, e)
  else if isField "pscInstanceConfig" key then
    '(p, e) ← decodeStruct staticPSCConfig_field (cx "pscInstanceConfig") "alloydb.staticPSCConfig" j
                (PSCInstanceConfig c);
    Ret ({| IPAddress := IPAddress c; PublicIPAddress := PublicIPAddress c; PSCInstanceConfig := p;
            PEMCertificateChain := PEMCertificateChain c; CACert := CACert c |}, e)
  else if isField "pemCertificateChain" key then
    '(l, e) ← decodeStrings (cx "pemCertificateChain") j (PEMCertificateChain c);
    Ret ({| IPAddress := IPAddress c; PublicIPAddress := PublicIPAddress c; PSCInstanceConfig := PSCInstanceConfig c;
            PEMCertificateChain := l; CACert := CACert c |}, e)
  else if isField "caCert" key then
    '(s, e) ← decodeString (cx "caCert") j (CACert c);
    Ret ({| IPAddress := IPAddress c; PublicIPAddress := PublicIPAddress c; PSCInstanceConfig := PSCInstanceConfig c;
            PEMCertificateChain := PEMCertificateChain c; CACert := s |}, e)
  else Ret (c, None).

Definition decodeStaticInfo : dec staticConnectionInfo :=
  decodeStruct staticConnectionInfo_field None "alloydb.staticConnectionInfo".

(** [for k, v := range inner]: the entries in the order in which the run visits them. *)
Fixpoint unmarshalInstances (entries : list (string * json)) (acc : staticInstanceInfo) : res staticInstanceInfo :=
  match entries with
  | [] => Ret acc
  | (k, v) :: entries =>
      sci ← unmarshalRaw decodeStaticInfo (Some v) zeroStaticInfo;
      unmarshalInstances entries (<[k := sci]> acc)
  end.

Section MapOrder.
(** The order in which a run visits the entries of a map. *)
Context (iter : gmap string json -> list (string * json)).

Definition staticData_UnmarshalJSON (data : json) : res staticData :=
  inner ← unmarshalRaw decodeMap (Some data) ∅;
  priv ← unmarshalRaw (decodeString None) (inner !! "privateKey") "";
  let inner := delete "privateKey" inner in
  pub ← unmarshalRaw (decodeString None) (inner !! "publicKey") "";
  let inner := delete "publicKey" inner in
  infos ← unmarshalInstances (iter inner) ∅;
  Ret {| sdPublicKey := pub; sdPrivateKey := priv; InstanceInfo := infos |}.

(** [json.Unmarshal(data, &d)] *)
Definition unmarshalStatic (data : bytes) : res staticData :=
  match scan data with inl e => Fail e | inr j => staticData_UnmarshalJSON j end.
End MapOrder.

(** ** Readers

    What the successive calls of [Read] return; afterwards the reader is at its end. *)
Inductive readStep :=
| ReadBytes (b : bytes)                 (* bytes, no error *)
| ReadEOF (b : bytes)                   (* bytes and [io.EOF] *)
| ReadErr (b : bytes) (e : error).      (* bytes and another error *)

Definition reader : Type := list readStep.

(** [io.ReadAll] *)
Fixpoint ReadAll (acc : bytes) (r : reader) : res bytes * reader :=
  match r with
  | [] => (Ret acc, [])
  | ReadBytes b :: r => ReadAll (acc ++ b) r
  | ReadEOF b :: r => (Ret (acc ++ b), r)
  | ReadErr b e :: r => (Fail e, r)
  end.

(** ** The cache *)
Section Static.
Context `{CryptoLib}.

Record StaticConnectionInfoCache := { staticInfo : ConnectionInfo }.

(** The connection info made of the data. *)
Definition staticConnInfoOf (inst : InstanceURI) (d : staticData) : res ConnectionInfo :=
  match InstanceInfo d !! URI inst with
  | None => Fail (NewConfigError "unknown instance" (URI_String inst))
  | Some static =>
      cc ← newClientCertificate inst (sdPrivateKey d) (elems (PEMCertificateChain static)) (CACert static);
      Ret {| Instance := inst;
             IPAddrs := <[PublicIP := PublicIPAddress static]>
                          (<[PrivateIP := IPAddress static]>
                            {[PSC := PSCDNSName (PSCInstanceConfig static)]});
             ClientCert := certChain cc;
             RootCAs := Some [caCert cc];
             Expiration := expiry cc |}
  end.

Definition NewStaticConnectionInfoCache (iter : gmap string json -> list (string * json))
    (inst : InstanceURI) (r : reader) : res StaticConnectionInfoCache * reader :=
  let '(data, r) := ReadAll [] r in
  (data ≫= fun data =>
   d ← unmarshalStatic iter data;
   info ← staticConnInfoOf inst d;
   Ret {| staticInfo := info |}, r).

Definition staticConnectionInfo_ (c : StaticConnectionInfoCache) : res ConnectionInfo := Ret (staticInfo c).
Definition staticForceRefresh (c : StaticConnectionInfoCache) : StaticConnectionInfoCache := c.
Definition staticClose (c : StaticConnectionInfoCache) : StaticConnectionInfoCache := c.
End Static.

(** ** No panic *)

(** Storing a value the scanner produced. *)
Definition total {A} (d : dec A) : Prop := forall n j a, wf n j -> isPanic (d j a) = false.

Lemma unquoted_ok k : keyOK k -> isPanic (unquoted k) = false.
Proof. intros Hk. unfold unquoted. by destruct (unquote_ok k Hk) as [b ->]. Qed.

Lemma mismatch_ok {A} cx ty j (a : A) : isPanic (mismatch cx ty j a) = false.
Proof. destruct j as [lit| |]; simpl; [by destruct (kindOf lit)|done..]. Qed.

Lemma kindOf_string lit : kindOf lit = KString -> isQuoted lit = true.
Proof. destruct lit as [|c t]; simpl; [done|]. repeat case_bool_decide; try done. by destruct (byteval c =? 34). Qed.

Lemma decodeString_total cx : total (decodeString cx).
Proof.
  intros n j a Hw. unfold decodeString. destruct j as [lit| |]; [|apply mismatch_ok..].
  case_decide as Hk; [|apply mismatch_ok]. apply isPanic_bind; [|done]. apply unquoted_ok.
  split; [by inversion Hw|by apply kindOf_string].
Qed.

Lemma decodeElems_total cx n l i arr : Forall (wf n) l -> isPanic (decodeElems cx l i arr) = false.
Proof.
  intros Hl. revert i arr. induction Hl as [|j l Hj Hl IH]; intros i arr; simpl; [done|].
  apply isPanic_bind; [by eapply decodeString_total|]. intros [s e] _. apply isPanic_bind; [apply IH|by intros []].
Qed.

Lemma decodeStrings_total cx : total (decodeStrings cx).
Proof.
  intros n j a Hw. unfold decodeStrings. destruct j as [lit|[|j l]|]; [|done| |apply mismatch_ok].
  - case_decide; [done|apply mismatch_ok].
  - apply isPanic_bind; [|by intros []]. inversion Hw; subst. by eapply decodeElems_total.
Qed.

Lemma decodeStruct_total {A} (field : string -> dec A) cx ty :
  (forall key, total (field key)) -> total (decodeStruct field cx ty).
Proof.
  intros Hf n j a Hw. unfold decodeStruct. destruct j as [| |m]; [apply mismatch_ok..|].
  inversion Hw as [| |? ? _ Hm]; subst. revert a. induction Hm as [|[k v] m [Hk Hv] Hm IH]; intros a; simpl; [done|].
  apply isPanic_bind; [by apply unquoted_ok|]. intros key _.
  apply isPanic_bind; [by eapply Hf|]. intros [a' e] _. apply isPanic_bind; [apply IH|by intros []].
  constructor; [|done]. by inversion Hw.
Qed.

#[export] Hint Resolve decodeString_total decodeStrings_total : conn.

Lemma bind_total {A B} (d : dec A) (k : A * option error -> res B) n j a :
  total d -> wf n j -> (forall x, isPanic (k x) = false) -> isPanic (d j a ≫= k) = false.
Proof. intros Hd Hw Hk. apply isPanic_bind; [by eapply Hd|auto]. Qed.

Lemma decodeStaticInfo_total : total decodeStaticInfo.
Proof.
  apply decodeStruct_total. intros key n j a Hw. unfold staticConnectionInfo_field.
  assert (total (decodeStruct staticPSCConfig_field (inStruct "staticConnectionInfo" "pscInstanceConfig")
                   "alloydb.staticPSCConfig")) as Hp.
  { apply decodeStruct_total. intros key' n' j' a' Hw'. unfold staticPSCConfig_field.
    destruct (isField _ _); [|done]. eapply bind_total; [apply decodeString_total|exact Hw'|by intros []]. }
  repeat match goal with |- context [if isField ?f ?k then _ else _] => destruct (isField f k) end;
    try done; (eapply bind_total; [|exact Hw|by intros []]); auto with conn.
Qed.

Lemma unmarshalRaw_total {A} (d : dec A) n raw a :
  total d -> (forall j, raw = Some j -> wf n j) -> isPanic (unmarshalRaw d raw a) = false.
Proof.
  intros Hd Hw. destruct raw as [j|]; [|done]. simpl. eapply bind_total; [done|by apply Hw|].
  by intros [? []].
Qed.

Lemma unmarshalInstances_total n es acc :
  Forall (fun kv => wf n kv.2) es -> isPanic (unmarshalInstances es acc) = false.
Proof.
  intros He. revert acc. induction He as [|[k v] es Hv He IH]; intros acc; [done|]. cbn [unmarshalInstances].
  apply isPanic_bind; [|intros; apply IH].
  apply (unmarshalRaw_total _ n); [apply decodeStaticInfo_total|by intros j [= <-]].
Qed.

(** What [decodeMembers] collects: well-formed values only, no panic. *)
Lemma decodeMembers_ok n m acc :
  Forall (fun kv => keyOK kv.1 /\ wf n kv.2) m -> map_Forall (fun _ => wf n) acc ->
  exists inner, decodeMembers m acc = Ret inner /\ map_Forall (fun _ => wf n) inner.
Proof.
  intros Hm. revert acc. induction Hm as [|[k v] m [Hk Hv] Hm IH]; intros acc Hacc; [by exists acc|].
  cbn [decodeMembers]. destruct (unquote_ok k Hk) as [b Hb].
  unfold unquoted. simpl fst. rewrite Hb. simpl. apply IH. by apply map_Forall_insert_2.
Qed.

Lemma decodeMap_ok n j :
  wf n j -> match unmarshalRaw decodeMap (Some j) ∅ with
            | Ret inner => map_Forall (fun _ => wf n) inner
            | Fail _ => True
            | Panic _ => False
            end.
Proof.
  intros Hw. simpl. destruct j as [lit|l|m]; [|done|].
  - unfold decodeMap. case_decide; [done|]. simpl. by destruct (kindOf lit).
  - inversion Hw as [| |? ? _ Hm]; subst. unfold decodeMap.
    destruct (decodeMembers_ok (n - 1) m ∅ Hm) as (inner & -> & Hi); [done|]. simpl.
    intros k v Hk. eapply wf_weaken; [by eapply Hi|lia].
Qed.

(** A run visits every entry of a map once, in some order. *)
Definition visitsAll (iter : gmap string json -> list (string * json)) : Prop :=
  forall m, iter m ≡ₚ map_to_list m.

Lemma visits_wf iter m n :
  visitsAll iter -> map_Forall (fun _ => wf n) m -> Forall (fun kv => wf n kv.2) (iter m).
Proof.
  intros Hi Hm. rewrite (Hi m). apply list.Forall_forall. intros [k v] Hk%elem_of_map_to_list. by eapply Hm.
Qed.

Lemma UnmarshalJSON_total iter n j :
  visitsAll iter -> wf n j -> isPanic (staticData_UnmarshalJSON iter j) = false.
Proof.
  intros Hi Hw. unfold staticData_UnmarshalJSON. pose proof (decodeMap_ok n j Hw) as Hm.
  destruct (unmarshalRaw decodeMap (Some j) ∅) as [inner|e|w]; [|done|done]. simpl.
  apply isPanic_bind; [apply (unmarshalRaw_total _ n); [apply decodeString_total|intros; by eapply Hm]|].
  intros priv _.
  assert (map_Forall (fun _ => wf n) (delete "privateKey" inner)) as Hm1 by (by apply map_Forall_delete).
  apply isPanic_bind; [apply (unmarshalRaw_total _ n); [apply decodeString_total|intros; by eapply Hm1]|].
  intros pub _. apply isPanic_bind; [|done].
  apply (unmarshalInstances_total n), visits_wf; [done|]. by apply map_Forall_delete.
Qed.

(** ** The order of the map does not matter *)

Lemma unmarshalInstances_perm es es' acc d :
  es ≡ₚ es' -> NoDup es.*1 -> unmarshalInstances es acc = Ret d -> unmarshalInstances es' acc = Ret d.
Proof.
  intros Hp. revert acc. induction Hp as [|[k v] es es' Hp IH|[k v] [k' v'] es|es es' es'' Hp IH Hp' IH']; intros acc Hnd.
  - done.
  - apply list.NoDup_cons in Hnd as [_ Hnd]. cbn [unmarshalInstances].
    destruct (unmarshalRaw decodeStaticInfo (Some v) zeroStaticInfo); [|done..]. by apply IH.
  - apply list.NoDup_cons in Hnd as [Hk _]. cbn [unmarshalInstances].
    destruct (unmarshalRaw decodeStaticInfo (Some v') zeroStaticInfo) as [s'| |],
      (unmarshalRaw decodeStaticInfo (Some v) zeroStaticInfo) as [s| |]; simpl; try done.
    intros Hr. rewrite <- Hr. f_equal. apply (insert_insert_ne (M := gmap string)). intros ->. apply Hk. by left.
  - intros Hr. apply IH'; [by rewrite <- Hp|]. by apply IH.
Qed.

Lemma visits_perm iter iter' m acc d :
  visitsAll iter -> visitsAll iter' ->
  unmarshalInstances (iter m) acc = Ret d -> unmarshalInstances (iter' m) acc = Ret d.
Proof.
  intros Hi Hi'. apply unmarshalInstances_perm; [by rewrite (Hi m), (Hi' m)|].
  rewrite (Hi m). apply NoDup_fst_map_to_list.
Qed.

Lemma UnmarshalJSON_perm iter iter' j d :
  visitsAll iter -> visitsAll iter' ->
  staticData_UnmarshalJSON iter j = Ret d -> staticData_UnmarshalJSON iter' j = Ret d.
Proof.
  intros Hi Hi' Hr. unfold staticData_UnmarshalJSON in *.
  apply bind_Ret in Hr as (inner & -> & Hr). simpl. apply bind_Ret in Hr as (priv & -> & Hr). simpl.
  apply bind_Ret in Hr as (pub & -> & Hr). simpl. apply bind_Ret in Hr as (infos & Hin & [= <-]).
  by rewrite (visits_perm iter iter' _ _ _ Hi Hi' Hin).
Qed.

(** C33: equivalence. The data read do not depend on the order in which Go visits the map of
    the raw entries: with any two orders both runs yield the same data, or both fail;
    and no input makes either panic, since every literal the scanner lets pass can be
    unquoted. *)
Theorem static_order iter iter' data (Hi : visitsAll iter) (Hi' : visitsAll iter') :
  match unmarshalStatic iter data, unmarshalStatic iter' data with
  | Ret d, Ret d' => d = d'
  | Fail _, Fail _ => True
  | _, _ => False
  end.
Proof.
  unfold unmarshalStatic. destruct (scan data) as [e|j] eqn:Hs; [done|]. apply scan_wf in Hs.
  pose proof (UnmarshalJSON_total iter _ j Hi Hs) as Hp. pose proof (UnmarshalJSON_total iter' _ j Hi' Hs) as Hp'.
  destruct (staticData_UnmarshalJSON iter j) as [d|e|w] eqn:E; [| |done].
  - by rewrite (UnmarshalJSON_perm iter iter' j d Hi Hi' E).
  - destruct (staticData_UnmarshalJSON iter' j) as [d'|e'|w'] eqn:E'; [|done|done].
    by rewrite (UnmarshalJSON_perm iter' iter j d' Hi' Hi E') in E.
Qed.

(** ** Round trip: the documented format *)

(** The JSON that the comment of [WithStaticConnectionInfo] describes. *)
Definition jstr (s : string) : json := JLit (quoteJSON s).

Definition infoJSON (c : staticConnectionInfo) : json :=
  JObj [(quoteJSON "ipAddress", jstr (IPAddress c));
        (quoteJSON "publicIpAddress", jstr (PublicIPAddress c));
        (quoteJSON "pscInstanceConfig", JObj [(quoteJSON "pscDnsName", jstr (PSCDNSName (PSCInstanceConfig c)))]);
        (quoteJSON "pemCertificateChain", JArr (map jstr (elems (PEMCertificateChain c))));
        (quoteJSON "caCert", jstr (CACert c))].

Definition dataJSON (d : staticData) : json :=
  JObj ((quoteJSON "publicKey", jstr (sdPublicKey d)) :: (quoteJSON "privateKey", jstr (sdPrivateKey d)) ::
        map (fun kv => (quoteJSON kv.1, infoJSON kv.2)) (map_to_list (InstanceInfo d))).

(** Data that JSON can hold: UTF-8, a slice with nothing behind its end, and no instance
    called like a key. *)
Definition infoText (c : staticConnectionInfo) : Prop :=
  Forall (fun s => validUTF8 s = true)
    (IPAddress c :: PublicIPAddress c :: PSCDNSName (PSCInstanceConfig c) :: CACert c :: sArr (PEMCertificateChain c)) /\
  sLen (PEMCertificateChain c) = length (sArr (PEMCertificateChain c)).

Definition dataText (d : staticData) : Prop :=
  validUTF8 (sdPublicKey d) = true /\ validUTF8 (sdPrivateKey d) = true /\
  map_Forall (fun uri c => validUTF8 uri = true /\ infoText c) (InstanceInfo d) /\
  InstanceInfo d !! "publicKey" = None /\ InstanceInfo d !! "privateKey" = None.

Lemma unquoted_quoteJSON s : validUTF8 s = true -> unquoted (quoteJSON s) = Ret s.
Proof. intros Hv. unfold unquoted. by rewrite unquote_quoteJSON, of_to_bytes. Qed.

Lemma decodeString_jstr cx s old : validUTF8 s = true -> decodeString cx (jstr s) old = Ret (s, None).
Proof. intros Hv. unfold decodeString, jstr. rewrite decide_True by done. by rewrite unquoted_quoteJSON. Qed.

Lemma unmarshalString_jstr s : validUTF8 s = true -> unmarshalRaw (decodeString None) (Some (jstr s)) "" = Ret s.
Proof. intros Hv. unfold unmarshalRaw. by rewrite decodeString_jstr. Qed.

Lemma decodeElems_jstr cx l arr :
  Forall (fun s => validUTF8 s = true) l ->
  decodeElems cx (map jstr l) (length arr) arr = Ret (arr ++ l, None).
Proof.
  intros Hl. revert arr. induction Hl as [|s l Hs Hl IH]; intros arr; [by rewrite app_nil_r|].
  cbn [map decodeElems]. rewrite decodeString_jstr by done. simpl. rewrite decide_False by lia.
  specialize (IH (arr ++ [s])). rewrite length_app, Nat.add_1_r in IH. rewrite IH. simpl. by rewrite <- app_assoc.
Qed.

(** Which field a literal key selects. *)
Ltac eval_fields :=
  repeat match goal with
  | |- context [isField ?f ?k] => let b := eval vm_compute in (isField f k) in change (isField f k) with b
  end; cbv iota.

Lemma decodeStaticInfo_infoJSON c : infoText c -> decodeStaticInfo (infoJSON c) zeroStaticInfo = Ret (c, None).
Proof.
  intros [Hv Hlen]. rewrite !list.Forall_cons in Hv. destruct Hv as (H1 & H2 & H3 & H4 & Hl).
  destruct c as [ip pub [dns] [arr n] ca]; simpl in *. subst n.
  assert (forall cx, decodeStrings cx (JArr (map jstr arr)) nilSlice = Ret ({| sArr := arr; sLen := length arr |}, None)) as Hs.
  { intros cx. destruct arr as [|s arr]; [done|]. unfold decodeStrings. cbn [map].
    pose proof (decodeElems_jstr cx (s :: arr) [] Hl) as He. cbn [length app map] in He.
    unfold nilSlice; cbn [sArr]. rewrite He. simpl. by rewrite length_map. }
  unfold decodeStaticInfo, decodeStruct, infoJSON. cbn [decodeFields].
  unfold staticConnectionInfo_field, decodeStruct, staticPSCConfig_field. cbn [decodeFields]. eval_fields.
  unfold elems; cbn [sArr sLen take]. rewrite firstn_all.
  do 3 (rewrite decodeString_jstr by done; cbn -[decodeString decodeStrings jstr unquoted quoteJSON isField]).
  rewrite unquoted_quoteJSON by done; cbn -[isField decodeStrings decodeString jstr]. eval_fields.
  cbn -[decodeStrings decodeString jstr].
  rewrite Hs; cbn -[decodeString jstr]. by rewrite decodeString_jstr.
Qed.

Lemma unmarshalInstances_json es acc :
  Forall (fun kv => infoText kv.2) es -> NoDup es.*1 -> (forall k, k ∈ es.*1 -> acc !! k = None) ->
  unmarshalInstances (map (fun kv => (kv.1, infoJSON kv.2)) es) acc = Ret (list_to_map es ∪ acc).
Proof.
  intros He. revert acc. induction He as [|[k c] es Hc He IH]; intros acc Hnd Hacc; cbn [map unmarshalInstances].
  - simpl. by rewrite (left_id_L ∅ (∪)).
  - apply list.NoDup_cons in Hnd as [Hk Hnd]. unfold unmarshalRaw. simpl fst; simpl snd.
    rewrite decodeStaticInfo_infoJSON by done. cbn [mbind res_bind]. rewrite IH; [|done|].
    + f_equal. cbn [list_to_map]. transitivity (<[k := c]> (list_to_map es ∪ acc) : staticInstanceInfo).
      * symmetry. apply (insert_union_r (M := gmap string)). by apply not_elem_of_list_to_map_1.
      * apply (insert_union_l (M := gmap string)).
    + intros k' Hk'. rewrite lookup_insert_ne by (intros ->; done). apply Hacc. by right.
Qed.

Lemma decodeMembers_json l acc :
  Forall (fun kv => validUTF8 kv.1 = true) l ->
  decodeMembers (map (fun kv => (quoteJSON kv.1, kv.2)) l) acc = Ret (foldl (fun m kv => <[kv.1 := kv.2]> m) acc l).
Proof.
  intros Hl. revert acc. induction Hl as [|[k v] l Hk Hl IH]; intros acc; [done|].
  cbn [map decodeMembers]. rewrite unquoted_quoteJSON by done. cbn [mbind res_bind]. by rewrite IH.
Qed.

Lemma foldl_insert_map (l : list (string * json)) (acc : gmap string json) :
  NoDup l.*1 -> (forall k, k ∈ l.*1 -> acc !! k = None) ->
  foldl (fun m kv => <[kv.1 := kv.2]> m) acc l = list_to_map l ∪ acc.
Proof.
  revert acc. induction l as [|[k v] l IH]; intros acc Hnd Hacc; simpl; [by rewrite (left_id_L ∅ (∪))|].
  apply list.NoDup_cons in Hnd as [Hk Hnd]. rewrite IH; [|done|].
  - rewrite <- insert_union_r by (by apply not_elem_of_list_to_map_1). by rewrite insert_union_l.
  - intros k' Hk'. rewrite lookup_insert_ne by (intros ->; done). apply Hacc. by right.
Qed.

Lemma quoteJSON_wf n s : wf n (jstr s).
Proof. constructor. apply quoteJSON_key. Qed.
#[local] Hint Resolve quoteJSON_wf quoteJSON_key : core.

Lemma infoJSON_wf n c : 2 < n -> wf n (infoJSON c).
Proof.
  intros Hn. constructor; [lia|]. repeat constructor; simpl; auto; try lia; try (by apply quoteJSON_key).
  apply List.Forall_map, list.Forall_true. intros s. simpl. auto.
Qed.

Lemma dataJSON_wf d : wf maxNestingDepth (dataJSON d).
Proof.
  unfold maxNestingDepth. constructor; [lia|]. do 2 (constructor; [split; [apply quoteJSON_key|apply quoteJSON_wf]|]).
  apply List.Forall_map, list.Forall_true. intros [k c]. split; [apply quoteJSON_key|]. by apply infoJSON_wf.
Qed.

(** The map of the raw entries of the documented text. *)
Lemma decodeMap_dataJSON d :
  dataText d ->
  unmarshalRaw decodeMap (Some (dataJSON d)) ∅ =
    Ret (<["publicKey" := jstr (sdPublicKey d)]> (<["privateKey" := jstr (sdPrivateKey d)]> (infoJSON <$> InstanceInfo d))).
Proof.
  intros (Hpub & Hpriv & Hinfo & Hnpub & Hnpriv).
  pose (es := map (fun kv => (kv.1, infoJSON kv.2)) (map_to_list (InstanceInfo d))).
  assert (es = map_to_list (infoJSON <$> InstanceInfo d)) as Hes.
  { unfold es. rewrite map_to_list_fmap. by apply map_ext; intros []. }
  pose (l := ("publicKey", jstr (sdPublicKey d)) :: ("privateKey", jstr (sdPrivateKey d)) :: es).
  assert (dataJSON d = JObj (map (fun kv => (quoteJSON kv.1, kv.2)) l)) as ->.
  { unfold dataJSON, l, es. cbn [map]. by rewrite map_map. }
  assert (NoDup l.*1) as Hnd.
  { unfold l. rewrite Hes. cbn [fmap list_fmap fst].
    change (NoDup ("publicKey" :: "privateKey" :: (map_to_list (infoJSON <$> InstanceInfo d)).*1)).
    assert (forall k, InstanceInfo d !! k = None -> k ∉ (map_to_list (infoJSON <$> InstanceInfo d)).*1) as Hno.
    { intros k Hk [[k' v] [-> Hin%elem_of_map_to_list]]%list_elem_of_fmap. simpl in Hk. by rewrite lookup_fmap, Hk in Hin. }
    apply list.NoDup_cons; split; [|apply list.NoDup_cons; split; [by apply Hno|apply NoDup_fst_map_to_list]].
    intros [?|?]%elem_of_cons; [done|by apply (Hno "publicKey")]. }
  assert (Forall (fun kv => validUTF8 kv.1 = true) l) as Hv.
  { unfold l, es. do 2 (constructor; [vm_compute; reflexivity|]). apply List.Forall_map, list.Forall_forall.
    intros [k c] Hin%elem_of_map_to_list. by apply (Hinfo k c). }
  unfold unmarshalRaw, decodeMap. rewrite decodeMembers_json by done. cbn [mbind res_bind].
  rewrite foldl_insert_map by (done || intros; apply lookup_empty). rewrite (right_id_L ∅ (∪)).
  unfold l. rewrite Hes. rewrite !list_to_map_cons. do 3 f_equal. apply list_to_map_to_list.
Qed.

(** C18: round trip. For data in the format the option's comment documents, written as
    JSON (its strings escaped as needed, its instances in any order, the public address
    under the spelling of the comment, which is not the struct tag's), reading the text
    yields exactly the data, whatever order Go visits the map in. *)
Theorem static_roundtrip iter d (Hi : visitsAll iter) (Hd : dataText d) :
  unmarshalStatic iter (text (dataJSON d)) = Ret d.
Proof.
  unfold unmarshalStatic. rewrite scan_text by apply dataJSON_wf.
  unfold staticData_UnmarshalJSON. rewrite decodeMap_dataJSON by done. cbn [mbind res_bind].
  destruct Hd as (Hpub & Hpriv & Hinfo & Hnpub & Hnpriv).
  rewrite lookup_insert_ne, lookup_insert_eq by done. rewrite unmarshalString_jstr by done. cbn [mbind res_bind].
  rewrite lookup_delete_ne, lookup_insert_eq by done. rewrite unmarshalString_jstr by done. cbn [mbind res_bind].
  assert (forall k, InstanceInfo d !! k = None -> (infoJSON <$> InstanceInfo d) !! k = None) as Hno.
  { intros k Hk. rewrite lookup_fmap. by rewrite Hk. }
  rewrite delete_insert_ne by done.
  assert (delete "privateKey" (<["privateKey" := jstr (sdPrivateKey d)]> (infoJSON <$> InstanceInfo d)) =
          infoJSON <$> InstanceInfo d) as -> by (apply delete_insert_id; by apply Hno).
  rewrite delete_insert_id by (by apply Hno).
  enough (unmarshalInstances (iter (infoJSON <$> InstanceInfo d)) ∅ = Ret (InstanceInfo d)) as ->.
  { by destruct d. }
  eapply unmarshalInstances_perm; [symmetry; apply Hi|apply NoDup_fst_map_to_list|].
  rewrite map_to_list_fmap.
  assert (prod_map id infoJSON <$> map_to_list (InstanceInfo d) =
          map (fun kv => (kv.1, infoJSON kv.2)) (map_to_list (InstanceInfo d))) as -> by (by apply map_ext; intros []).
  rewrite unmarshalInstances_json; [|
    |apply NoDup_fst_map_to_list|intros; apply lookup_empty].
  - by rewrite list_to_map_to_list, (right_id_L ∅ (∪)).
  - apply list.Forall_forall. intros [k c] Hin%elem_of_map_to_list. by apply (Hinfo k c).
Qed.

(** ** The cache *)
Section Cache.
Context `{CryptoLib}.

Lemma ReadAll_no_panic acc r : isPanic (ReadAll acc r).1 = false.
Proof. revert acc; induction r as [|[b|b|b e] r IH]; intros acc; simpl; done || apply IH. Qed.

Lemma unmarshalStatic_total iter data : visitsAll iter -> isPanic (unmarshalStatic iter data) = false.
Proof.
  intros Hi. unfold unmarshalStatic. destruct (scan data) as [e|j] eqn:Hs; [done|].
  eapply UnmarshalJSON_total; [done|by eapply scan_wf].
Qed.

(** What a static cache holds: the data's entry for its instance, with a certificate
    made of the data's key. *)
Definition staticFrom (inst : InstanceURI) (d : staticData) (ci : ConnectionInfo) : Prop :=
  exists c, InstanceInfo d !! URI inst = Some c /\ infoOK inst ci /\
    IPAddrs ci !! PublicIP = Some (PublicIPAddress c) /\ IPAddrs ci !! PrivateIP = Some (IPAddress c) /\
    IPAddrs ci !! PSC = Some (PSCDNSName (PSCInstanceConfig c)) /\
    exists cc, newClientCertificate inst (sdPrivateKey d) (elems (PEMCertificateChain c)) (CACert c) = Ret cc /\
      ClientCert ci = certChain cc /\ RootCAs ci = Some [caCert cc].

(** The client certificate that a chain yields carries its own expiry. *)
Lemma newClientCertificate_leaf inst k chain ca cc :
  newClientCertificate inst k chain ca = Ret cc ->
  exists leaf, Leaf (certChain cc) = Some leaf /\ expiry cc = NotAfter leaf.
Proof.
  unfold newClientCertificate. intros Hcc. apply bind_Ret in Hcc as ([der key'] & _ & Hcc).
  destruct (pemDecode ca); [|done]. apply bind_Ret in Hcc as (ca' & _ & Hcc).
  destruct chain as [|first rest]; [done|]. destruct (pemDecode first); [|done].
  apply bind_Ret in Hcc as (leaf & _ & [= <-]). by exists leaf.
Qed.

Lemma staticConnInfoOf_Ret inst d ci : staticConnInfoOf inst d = Ret ci -> staticFrom inst d ci.
Proof.
  unfold staticConnInfoOf. destruct (InstanceInfo d !! URI inst) as [c|] eqn:Hc; [|done].
  intros Hr. apply bind_Ret in Hr as (cc & Hcc & [= <-]). exists c. split; [done|]. split.
  { destruct (newClientCertificate_leaf _ _ _ _ _ Hcc) as (leaf & Hl & He).
    split; [done|]. split; [|split; [by exists leaf|by eexists]].
    simpl. apply insert_non_empty. }
  simpl. split_and!; [by simplify_map_eq..|]. by exists cc.
Qed.

(** C17: making a static cache, every branch. Success: the reader was read to its end, its
    text is JSON with an entry for the instance, and the info kept is well formed with
    that entry's addresses, all three present, and the certificate made of its chain and
    the data's key. Failure: of the reader, of the JSON, no such instance, or of the
    certificate. No input makes it panic. *)
Theorem static_cache_spec iter inst r
    (Hi : visitsAll iter)
    (HKeyPair : forall k, isRet (KeyPair "" k) = false) (HnoPanic : forall t k, isPanic (KeyPair t k) = false)
    (HParse : forall b, isPanic (ParseCertificate b) = false) :
  match (NewStaticConnectionInfoCache iter inst r).1 with
  | Ret c => exists data d, (ReadAll [] r).1 = Ret data /\ unmarshalStatic iter data = Ret d /\
      staticFrom inst d (staticInfo c)
  | Fail e =>
      (ReadAll [] r).1 = Fail e \/
      exists data, (ReadAll [] r).1 = Ret data /\
        (unmarshalStatic iter data = Fail e \/
         exists d, unmarshalStatic iter data = Ret d /\
           ((InstanceInfo d !! URI inst = None /\ e = NewConfigError "unknown instance" (URI_String inst)) \/
            exists cause, e = createFailed inst cause))
  | Panic _ => False
  end.
Proof.
  unfold NewStaticConnectionInfoCache. pose proof (ReadAll_no_panic [] r) as Hr.
  destruct (ReadAll [] r) as [[data|e|w] r']; simpl in *; [|by left|done].
  pose proof (unmarshalStatic_total iter data Hi) as Hp.
  destruct (unmarshalStatic iter data) as [d|e|w] eqn:Hd; simpl; [|eauto|done].
  destruct (staticConnInfoOf inst d) as [ci|e|w] eqn:Hs; simpl.
  - exists data, d. split_and!; [done..|]. by apply staticConnInfoOf_Ret.
  - right. exists data. split; [done|]. right. exists d. split; [done|]. unfold staticConnInfoOf in Hs.
    destruct (InstanceInfo d !! URI inst) as [c|]; [right|left; by simplify_eq/=].
    pose proof (newClientCertificate_spec inst (sdPrivateKey d) (elems (PEMCertificateChain c)) (CACert c)
      HKeyPair HnoPanic HParse) as Hc.
    destruct (newClientCertificate _ _ _ _) as [cc|e'|w]; simpl in *; simplify_eq; done.
  - unfold staticConnInfoOf in Hs. destruct (InstanceInfo d !! URI inst) as [c|]; [|done].
    pose proof (newClientCertificate_spec inst (sdPrivateKey d) (elems (PEMCertificateChain c)) (CACert c)
      HKeyPair HnoPanic HParse) as Hc.
    by destruct (newClientCertificate _ _ _ _) as [cc|e'|w']; simplify_eq/=.
Qed.

(** *** Behind the cache interface *)

#[export] Instance static_cache : InfoCache StaticConnectionInfoCache unit := {
  cacheBegin _ c := (0%nat, c);
  cacheAwait _ _ c := Some (staticConnectionInfo_ c, c);
  cacheForceRefresh _ c := Some (staticForceRefresh c);
  cacheClose _ := staticClose;
  cacheTick _ c := c;
}.

Section Laws.
Context (P : InstanceURI -> ConnectionInfo -> Prop) (HP : forall i ci, P i ci -> infoOK i ci).

#[local] Program Instance static_laws_of : InfoCacheLaws StaticConnectionInfoCache unit := {
  cacheFor i c := P i (staticInfo c);
  cacheEnv _ := True;
  cacheCtxDone _ := True;
  cacheSelClosed _ _ := True;
  cacheStopped _ := True;
  cacheWaiting _ _ := True;
  cacheInfoOK := P;
}.
Next Obligation. exact HP. Qed.
Next Obligation. by intros. Qed.
Next Obligation. by intros i e n c r c' Hc _ [= <- <-]. Qed.
Next Obligation. by intros i e c c' Hc _ [= <-]. Qed.
Next Obligation. by intros. Qed.
Next Obligation. by intros. Qed.
Next Obligation. by intros i e n c ci c' Hc _ [= <- <-]. Qed.
Solve Obligations with (intros; simpl in *; first [done | by eexists]).
End Laws.

#[export] Instance static_laws : InfoCacheLaws StaticConnectionInfoCache unit := static_laws_of infoOK (fun _ _ Hci => Hci).
End Cache.

(** ** Concrete inputs *)

#[export] Instance infoText_dec c : Decision (infoText c).
Proof. unfold infoText. apply _. Defined.
#[export] Instance dataText_dec d : Decision (dataText d).
Proof. unfold dataText. apply _. Defined.

Module ToyStatic.
(** Two instances; the second has no public address. *)
Definition uri2 : InstanceURI := {| project := "p"; region := "r"; cluster := "c"; name := "m" |}.

Definition info (ip pub : string) : staticConnectionInfo :=
  {| IPAddress := ip; PublicIPAddress := pub; PSCInstanceConfig := {| PSCDNSName := "" |};
     PEMCertificateChain := {| sArr := ["leaf"; "ca"]; sLen := 2 |}; CACert := "ca" |}.

Definition data : staticData :=
  {| sdPublicKey := "pub"; sdPrivateKey := "line 1" +:+ String "010" "line 2";
     InstanceInfo := <[URI Toy.uri := info "10.0.0.1" "34.1.1.1"]> {[URI uri2 := info "10.0.0.2" ""]} |}.

(** The text arrives in two reads. *)
Definition file : reader :=
  let t := text (dataJSON data) in [ReadBytes (take 100 t); ReadEOF (drop 100 t)].

Definition inOrder (m : gmap string json) : list (string * json) := map_to_list m.
Definition backwards (m : gmap string json) : list (string * json) := reverse (map_to_list m).

Lemma inOrder_all : visitsAll inOrder.
Proof. by intros m. Qed.
Lemma backwards_all : visitsAll backwards.
Proof. intros m. apply reverse_Permutation. Qed.
End ToyStatic.

Lemma static_roundtrip_witness :
  unmarshalStatic ToyStatic.backwards (text (dataJSON ToyStatic.data)) = Ret ToyStatic.data.
Proof.
  apply (static_roundtrip ToyStatic.backwards ToyStatic.data).
  - apply ToyStatic.backwards_all.
  - apply (bool_decide_unpack _). vm_compute. exact I.
Defined.

(** A number where a string is expected. *)
Lemma static_order_witness :
  let bad := to_bytes "{" ++ quoteJSON "privateKey" ++ to_bytes ":null," ++ quoteJSON "publicKey" ++ to_bytes ":7}" in
  unmarshalStatic ToyStatic.inOrder bad =
    Fail (ErrorsNew "json: cannot unmarshal number into Go value of type string") /\
  match unmarshalStatic ToyStatic.inOrder bad, unmarshalStatic ToyStatic.backwards bad with
  | Ret d, Ret d' => d = d'
  | Fail _, Fail _ => True
  | _, _ => False
  end.
Proof.
  intros bad. split; [vm_compute; reflexivity|].
  apply (static_order ToyStatic.inOrder ToyStatic.backwards bad).
  - apply ToyStatic.inOrder_all.
  - apply ToyStatic.backwards_all.
Defined.

Lemma static_cache_spec_witness :
  let new := NewStaticConnectionInfoCache (H := Toy.lib) ToyStatic.inOrder ToyStatic.uri2 ToyStatic.file in
  exists c, new.1 = Ret c /\ exists data d,
    (ReadAll [] ToyStatic.file).1 = Ret data /\ unmarshalStatic ToyStatic.inOrder data = Ret d /\
    staticFrom (H := Toy.lib) ToyStatic.uri2 d (staticInfo c).
Proof.
  intros new. eexists. split; [vm_compute; reflexivity|].
  refine (static_cache_spec (H := Toy.lib) ToyStatic.inOrder ToyStatic.uri2 ToyStatic.file _ _ _ _).
  - apply ToyStatic.inOrder_all.
  - reflexivity.
  - intros t k; simpl. by case_decide.
  - reflexivity.
Defined.
