(* ===== verification/Lazy.v ===== *)
(** * The lazy cache ([src/internal/alloydb/lazy.go])

    [LazyRefreshCache] and its four operations, each one critical section of the
    cache's mutex. A sequential run is a list of operations; [Spec] is what the cache
    promises, a memo of the last fetched info that a caller can drop: the cache refines
    it. Calls that overlap share the cache through its mutex ([lazyShared]), which a call
    holds while it fetches: they behave like a sequential run, and wait for each other
    whatever their contexts. *)
From S2P Require Import Prelude GoTime ErrType InstanceURI Refresh Cache.
#[local] Open Scope list_scope.

Section Lazy.
Context `{CryptoLib}.

Record LazyRefreshCache := {
  lazyURI : InstanceURI;
  lazyR : adminAPIClient;
  needsRefresh : bool;
  cached : ConnectionInfo }.

Definition NewLazyRefreshCache (uri : InstanceURI) (client : AlloyDBAdminClient)
    (key : PrivateKey) (dialerID : string) (disableMetadataExchange : bool) : LazyRefreshCache :=
  {| lazyURI := uri;
     lazyR := newAdminAPIClient client key dialerID disableMetadataExchange;
     needsRefresh := false;
     cached := zeroConnectionInfo |}.

(** A call's environment: the clock, and what [connectionInfo] returns to it; and in a
    step of the scheduler, the call that gets the mutex, if any. *)
Record lazyEnv := {
  lazyNow : Time;
  lazyFetch : adminAPIClient -> InstanceURI -> res ConnectionInfo;
  lazyGo : option nat }.

(** [!c.needsRefresh && now.Before(exp)] *)
Definition lazyHit (now : Time) (c : LazyRefreshCache) : bool :=
  let exp := Add (Expiration (cached c)) (- refreshBuffer) in
  negb (needsRefresh c) && Before now exp.

Definition lazyConnectionInfo (e : lazyEnv) (c : LazyRefreshCache)
    : res ConnectionInfo * LazyRefreshCache :=
  if lazyHit (lazyNow e) c then (Ret (cached c), c)
  else
    match lazyFetch e (lazyR c) (lazyURI c) with
    | Fail err => (Fail err, c)
    | Panic w => (Panic w, c)
    | Ret ci =>
        (Ret ci, {| lazyURI := lazyURI c; lazyR := lazyR c;
                    needsRefresh := false; cached := ci |})
    end.

Definition lazyForceRefresh (c : LazyRefreshCache) : LazyRefreshCache :=
  {| lazyURI := lazyURI c; lazyR := lazyR c; needsRefresh := true; cached := cached c |}.

Definition lazyClose (c : LazyRefreshCache) : LazyRefreshCache := c.

(** ** Calls that overlap *)

(** A call of [ConnectionInfo]: before [c.mu.Lock()] returns, in [connectionInfo] with
    the mutex held and its variable [now], or returned. *)
Inductive lazyCall := AtLock | InFetch (now : Time) | LazyReturned.

(** The cache, the calls that have begun, and the one that holds the mutex, if any. *)
Record lazyShared := {
  lzCache : LazyRefreshCache;
  lzCalls : list lazyCall;
  lzHolder : option nat }.

Definition newShared (c : LazyRefreshCache) : lazyShared := {| lzCache := c; lzCalls := []; lzHolder := None |}.

Definition lazyBegin (s : lazyShared) : nat * lazyShared :=
  (length (lzCalls s), {| lzCache := lzCache s; lzCalls := lzCalls s ++ [AtLock]; lzHolder := lzHolder s |}).

(** Call [lazyGo e] locks the mutex and finds that it has to fetch. (A call that finds a
    valid info releases the mutex again at once: see its return.) *)
Definition lazyEnter (e : lazyEnv) (s : lazyShared) : lazyShared :=
  match lazyGo e, lzHolder s with
  | Some n, None =>
    match lzCalls s !! n with
    | Some AtLock =>
        if lazyHit (lazyNow e) (lzCache s) then s
        else {| lzCache := lzCache s; lzCalls := <[n := InFetch (lazyNow e)]> (lzCalls s); lzHolder := Some n |}
    | _ => s
    end
  | _, _ => s
  end.

(** After [connectionInfo] has returned, up to [defer c.mu.Unlock()]. *)
Definition fetchDone (e : lazyEnv) (c : LazyRefreshCache) : res ConnectionInfo * LazyRefreshCache :=
  match lazyFetch e (lazyR c) (lazyURI c) with
  | Ret ci => (Ret ci, {| lazyURI := lazyURI c; lazyR := lazyR c; needsRefresh := false; cached := ci |})
  | r => (r, c)
  end.

(** The return of call [n]: of its fetch if it holds the mutex; of the whole critical
    section if no one does. It is blocked while another call holds the mutex, whatever
    its context. *)
Definition lazyReturn (e : lazyEnv) (n : nat) (s : lazyShared) : option (res ConnectionInfo * lazyShared) :=
  match lzCalls s !! n, lzHolder s with
  | Some (InFetch _), _ =>
      let '(r, c) := fetchDone e (lzCache s) in
      Some (r, {| lzCache := c; lzCalls := <[n := LazyReturned]> (lzCalls s); lzHolder := None |})
  | Some AtLock, None =>
      let '(r, c) := lazyConnectionInfo e (lzCache s) in
      Some (r, {| lzCache := c; lzCalls := <[n := LazyReturned]> (lzCalls s); lzHolder := None |})
  | _, _ => None
  end.

(** [ForceRefresh] locks the same mutex. *)
Definition forceShared (s : lazyShared) : option lazyShared :=
  match lzHolder s with
  | None => Some {| lzCache := lazyForceRefresh (lzCache s); lzCalls := lzCalls s; lzHolder := None |}
  | Some _ => None
  end.

Definition closeShared (s : lazyShared) : lazyShared :=
  {| lzCache := lazyClose (lzCache s); lzCalls := lzCalls s; lzHolder := lzHolder s |}.

#[export] Instance lazy_cache : InfoCache lazyShared lazyEnv := {
  cacheBegin _ := lazyBegin;
  cacheAwait := lazyReturn;
  cacheForceRefresh _ := forceShared;
  cacheClose _ := closeShared;
  cacheTick := lazyEnter;
}.

(** A run of overlapping calls: what each step returns, and the cache after it. *)
Inductive lazyAct := LzBegin | LzTick (e : lazyEnv) | LzReturn (n : nat) (e : lazyEnv) | LzForce | LzClose.

Definition lazyExec (a : lazyAct) (s : lazyShared) : option (list (res ConnectionInfo) * lazyShared) :=
  match a with
  | LzBegin => Some ([], (lazyBegin s).2)
  | LzTick e => Some ([], lazyEnter e s)
  | LzReturn n e => '(r, s) ← lazyReturn e n s; Some ([r], s)
  | LzForce => s ← forceShared s; Some ([], s)
  | LzClose => Some ([], closeShared s)
  end.

Fixpoint sharedRun (acts : list lazyAct) (s : lazyShared) : option (list (res ConnectionInfo) * lazyShared) :=
  match acts with
  | [] => Some ([], s)
  | a :: acts => '(out, s1) ← lazyExec a s; '(outs, s2) ← sharedRun acts s1; Some (out ++ outs, s2)
  end.

(** ** Runs *)
Inductive lazyOp := LConn (e : lazyEnv) | LForce | LClose.

(** The result of an operation ([ForceRefresh] and [Close] return nothing of
    interest) and the cache after it. *)
Definition lazyStep (o : lazyOp) (c : LazyRefreshCache) : list (res ConnectionInfo) * LazyRefreshCache :=
  match o with
  | LConn e => let '(r, c') := lazyConnectionInfo e c in ([r], c')
  | LForce => ([], lazyForceRefresh c)
  | LClose => ([], lazyClose c)
  end.

Fixpoint lazyRun (ops : list lazyOp) (c : LazyRefreshCache)
    : list (res ConnectionInfo) * LazyRefreshCache :=
  match ops with
  | [] => ([], c)
  | o :: ops => let '(out, c1) := lazyStep o c in
                let '(outs, c2) := lazyRun ops c1 in (out ++ outs, c2)
  end.

(** ** The specification: a memo

    The memo holds the last info fetched, unless it was dropped since. A request is
    answered from the memo while the info has more than the buffer left to live, and
    by a fetch otherwise, which fills the memo when it succeeds. *)
Section Spec.
Context (r : adminAPIClient) (i : InstanceURI).

Definition memoFresh (now : Time) (m : option ConnectionInfo) : option ConnectionInfo :=
  match m with
  | Some ci => if decide (now + refreshBuffer < Expiration ci) then Some ci else None
  | None => None
  end.

Definition memoStep (o : lazyOp) (m : option ConnectionInfo)
    : list (res ConnectionInfo) * option ConnectionInfo :=
  match o with
  | LConn e =>
    match memoFresh (lazyNow e) m with
    | Some ci => ([Ret ci], m)
    | None =>
      let out := lazyFetch e r i in
      ([out], match out with Ret ci => Some ci | _ => m end)
    end
  | LForce => ([], None)
  | LClose => ([], m)
  end.

Fixpoint memoRun (ops : list lazyOp) (m : option ConnectionInfo)
    : list (res ConnectionInfo) * option ConnectionInfo :=
  match ops with
  | [] => ([], m)
  | o :: ops => let '(out, m1) := memoStep o m in
                let '(outs, m2) := memoRun ops m1 in (out ++ outs, m2)
  end.
End Spec.

(** ** Proofs *)

(** The cache stands for the memo. A cache that was never filled holds the zero
    info, whose expiration no clock is before. *)
Definition lazyRel (c : LazyRefreshCache) (m : option ConnectionInfo) : Prop :=
  match m with
  | Some ci => needsRefresh c = false /\ cached c = ci
  | None => needsRefresh c = true \/ Expiration (cached c) = zeroTime
  end.

Definition opTime (o : lazyOp) : Prop :=
  match o with LConn e => zeroTime <= lazyNow e | _ => True end.

Lemma lazyHit_spec now c :
  lazyHit now c = true <-> needsRefresh c = false /\ now + refreshBuffer < Expiration (cached c).
Proof.
  unfold lazyHit, Add. rewrite andb_true_iff, negb_true_iff, Before_spec.
  time_consts. intuition lia.
Qed.

(** A request is the test, and then the cached info or a fetch. *)
Lemma lazyConnectionInfo_split e c :
  lazyConnectionInfo e c = if lazyHit (lazyNow e) c then (Ret (cached c), c) else fetchDone e c.
Proof. unfold lazyConnectionInfo, fetchDone. destruct (lazyHit _ _); [done|]. by destruct (lazyFetch _ _ _). Qed.

Lemma lazyHit_memo now c m :
  lazyRel c m -> zeroTime <= now ->
  memoFresh now m = if lazyHit now c then Some (cached c) else None.
Proof.
  intros Hrel Hnow. destruct (lazyHit now c) eqn:E.
  - apply lazyHit_spec in E as [Hn Hexp]. destruct m as [ci|]; simpl in *.
    + destruct Hrel as [_ <-]. by rewrite decide_True.
    + destruct Hrel as [|Hz]; [congruence|]. rewrite Hz in Hexp.
      unfold refreshBuffer in *; time_consts; lia.
  - destruct m as [ci|]; simpl in *; [|done]. destruct Hrel as [Hn <-].
    rewrite decide_False; [done|]. intros Hlt.
    assert (lazyHit now c = true) by (by apply lazyHit_spec). congruence.
Qed.

Lemma lazyStep_rel o c m :
  lazyRel c m -> opTime o ->
  (lazyStep o c).1 = (memoStep (lazyR c) (lazyURI c) o m).1 /\
  lazyRel (lazyStep o c).2 (memoStep (lazyR c) (lazyURI c) o m).2 /\
  lazyR (lazyStep o c).2 = lazyR c /\ lazyURI (lazyStep o c).2 = lazyURI c.
Proof.
  intros Hrel Ht. destruct o as [e| |]; simpl.
  - rewrite (lazyHit_memo _ c m Hrel Ht). unfold lazyConnectionInfo.
    destruct (lazyHit (lazyNow e) c) eqn:E; simpl; [done|].
    by destruct (lazyFetch e (lazyR c) (lazyURI c)).
  - split_and!; by auto.
  - done.
Qed.

Lemma lazyRun_rel ops c m :
  lazyRel c m -> Forall opTime ops ->
  (lazyRun ops c).1 = (memoRun (lazyR c) (lazyURI c) ops m).1 /\
  lazyRel (lazyRun ops c).2 (memoRun (lazyR c) (lazyURI c) ops m).2.
Proof.
  revert c m; induction ops as [|o ops IH]; intros c m Hrel Ht; simpl; [done|].
  inversion Ht as [|? ? Ho Hops]; subst.
  destruct (lazyStep_rel o c m Hrel Ho) as (Hout & Hrel' & Hr & Hu).
  destruct (lazyStep o c) as [out c1], (memoStep (lazyR c) (lazyURI c) o m) as [out' m1]; simpl in *.
  subst out'. specialize (IH c1 m1 Hrel' Hops) as [IH1 IH2]. rewrite Hr, Hu in IH1, IH2.
  destruct (lazyRun ops c1), (memoRun (lazyR c) (lazyURI c) ops m1); simpl in *.
  by rewrite IH1.
Qed.
End Lazy.

(** C15: refinement. On every sequence of calls (with a clock past year 1) a new lazy
    cache returns exactly what the memo specification returns, and ends in a state
    that stands for the memo. *)
Theorem lazy_refines_memo `{CryptoLib} uri client key id disable ops
    (Hclock : Forall opTime ops) :
  let c := NewLazyRefreshCache uri client key id disable in
  (lazyRun ops c).1 = (memoRun (lazyR c) uri ops None).1 /\
  lazyRel (lazyRun ops c).2 (memoRun (lazyR c) uri ops None).2.
Proof. apply (lazyRun_rel ops); [by right|done]. Qed.

(** Every branch of a request. From the cache only an info with more than four
    minutes to live, when no refresh was forced; otherwise exactly what the fetch
    returns, which replaces the cached info and clears the force flag on success and
    leaves the cache as it was on failure. *)
Theorem lazyConnectionInfo_spec `{CryptoLib} e c :
  if decide (needsRefresh c = false /\ lazyNow e + refreshBuffer < Expiration (cached c)) then
    lazyConnectionInfo e c = (Ret (cached c), c)
  else
    (lazyConnectionInfo e c).1 = lazyFetch e (lazyR c) (lazyURI c) /\
    (lazyConnectionInfo e c).2 =
      match lazyFetch e (lazyR c) (lazyURI c) with
      | Ret ci => {| lazyURI := lazyURI c; lazyR := lazyR c; needsRefresh := false; cached := ci |}
      | _ => c
      end.
Proof.
  unfold lazyConnectionInfo. case_decide as Hd.
  - apply lazyHit_spec in Hd. by rewrite Hd.
  - destruct (lazyHit (lazyNow e) c) eqn:E; [by apply lazyHit_spec in E|].
    by destruct (lazyFetch e (lazyR c) (lazyURI c)).
Qed.

(** A forced refresh sticks. After [ForceRefresh], whatever is called in between,
    a request keeps going to the Admin API until one of its fetches succeeds. *)
Theorem lazy_force_sticky `{CryptoLib} c ops e
    (Hfail : Forall (fun o => match o with
                     | LConn e' => forall r u, isRet (lazyFetch e' r u) = false
                     | _ => True end) ops) :
  (lazyConnectionInfo e (lazyRun ops (lazyForceRefresh c)).2).1 = lazyFetch e (lazyR c) (lazyURI c).
Proof.
  assert (forall c0, needsRefresh c0 = true ->
    let c1 := (lazyRun ops c0).2 in
    needsRefresh c1 = true /\ lazyR c1 = lazyR c0 /\ lazyURI c1 = lazyURI c0) as Hrun.
  { induction Hfail as [|o ops Ho Hops IH]; intros c0 Hc0; simpl; [done|].
    assert (needsRefresh (lazyStep o c0).2 = true /\ lazyR (lazyStep o c0).2 = lazyR c0 /\
            lazyURI (lazyStep o c0).2 = lazyURI c0) as (Hn & Hr & Hu).
    { destruct o as [e'| |]; simpl; auto. specialize (Ho (lazyR c0) (lazyURI c0)).
      unfold lazyConnectionInfo, lazyHit. rewrite Hc0; simpl.
      by destruct (lazyFetch e' (lazyR c0) (lazyURI c0)). }
    destruct (lazyStep o c0) as [out c1]; simpl in *.
    specialize (IH c1 Hn) as (? & ? & ?). destruct (lazyRun ops c1); simpl in *.
    split_and!; congruence. }
  destruct (Hrun (lazyForceRefresh c) eq_refl) as (Hn & Hr & Hu).
  unfold lazyConnectionInfo, lazyHit. rewrite Hn, Hr, Hu; simpl.
  by destruct (lazyFetch e (lazyR c) (lazyURI c)).
Qed.

(** ** Calls that overlap are a sequential run

    The run: the calls and the forced refreshes in the order in which they return, each
    call with the time at which it has tested the cache. *)
Section Overlap.
Context `{CryptoLib}.
Implicit Types s : lazyShared.

Definition atTime (now : Time) (e : lazyEnv) : lazyEnv :=
  {| lazyNow := now; lazyFetch := lazyFetch e; lazyGo := None |}.

Definition actOps (a : lazyAct) s : list lazyOp :=
  match a with
  | LzReturn n e => [LConn (atTime (match lzCalls s !! n with Some (InFetch now) => now | _ => lazyNow e end) e)]
  | LzForce => [LForce]
  | LzClose => [LClose]
  | _ => []
  end.

Fixpoint serialOps (acts : list lazyAct) s : list lazyOp :=
  match acts with
  | [] => []
  | a :: acts => match lazyExec a s with Some (_, s1) => actOps a s ++ serialOps acts s1 | None => [] end
  end.

Definition actTime (a : lazyAct) : Prop :=
  match a with LzTick e | LzReturn _ e => zeroTime <= lazyNow e | _ => True end.

Definition inFetch (n : nat) s : Prop := exists now, lzCalls s !! n = Some (InFetch now).

(** One call fetches at a time, the holder, and its test of the cache still stands. *)
Record sharedInv s : Prop := {
  shared_holder : forall n, inFetch n s <-> lzHolder s = Some n;
  shared_missed : forall n now, lzCalls s !! n = Some (InFetch now) ->
    zeroTime <= now /\ lazyHit now (lzCache s) = false }.

Lemma sharedInv_new c : sharedInv (newShared c).
Proof. split; unfold inFetch; simpl; [|done]. intros n. split; [by intros [now ?]|done]. Qed.

(** The calls in a fetch, after one call changes. *)
Lemma inFetch_insert n k x c h s :
  is_Some (lzCalls s !! n) ->
  inFetch k {| lzCache := c; lzCalls := <[n := x]> (lzCalls s); lzHolder := h |} <->
    if decide (k = n) then exists now, x = InFetch now else inFetch k s.
Proof.
  intros Hn%lookup_lt_is_Some_1. unfold inFetch; simpl. case_decide as Hk; [subst k|].
  - rewrite list_lookup_insert_eq by done. split; intros [now E]; exists now; congruence.
  - by rewrite list_lookup_insert_ne by congruence.
Qed.

(** A call that returns leaves no one in the critical section. *)
Lemma sharedInv_return s n c :
  sharedInv s -> is_Some (lzCalls s !! n) -> (lzHolder s = None \/ lzHolder s = Some n) ->
  sharedInv {| lzCache := c; lzCalls := <[n := LazyReturned]> (lzCalls s); lzHolder := None |}.
Proof.
  intros [Hh _] Hn Hm.
  assert (forall k, ~ inFetch k {| lzCache := c; lzCalls := <[n := LazyReturned]> (lzCalls s); lzHolder := None |}) as Hno.
  { intros k. rewrite inFetch_insert by done. case_decide as Hk; [by intros [now ?]|].
    rewrite Hh. destruct Hm; congruence. }
  split; [intros k; split; [by intros ?%Hno|done]|]. intros k now Hk. exfalso. by apply (Hno k); exists now.
Qed.

Lemma lazyRun_one e c : lazyRun [LConn e] c = ([(lazyConnectionInfo e c).1], (lazyConnectionInfo e c).2).
Proof. simpl. by destruct (lazyConnectionInfo e c). Qed.

(** A return does what the whole call does at the time of its test. *)
Lemma lazyReturn_serial n e s r s' :
  sharedInv s -> zeroTime <= lazyNow e -> lazyReturn e n s = Some (r, s') ->
  sharedInv s' /\ Forall opTime (actOps (LzReturn n e) s) /\
  lazyRun (actOps (LzReturn n e) s) (lzCache s) = ([r], lzCache s').
Proof.
  intros Hs He. pose proof Hs as [Hh Hm]. unfold lazyReturn, actOps. rewrite lazyRun_one.
  destruct (lzCalls s !! n) as [[|now|]|] eqn:Hn; [| |by destruct (lzHolder s)..].
  - destruct (lzHolder s) as [k|] eqn:Hk; [done|].
    change (lazyConnectionInfo (atTime (lazyNow e) e)) with (lazyConnectionInfo e).
    destruct (lazyConnectionInfo e (lzCache s)) as [r0 c0] eqn:E. intros [= <- <-].
    split_and!; [by apply sharedInv_return; [|by eexists|left]|by repeat constructor|done].
  - assert (lzHolder s = Some n) as Hk by (apply Hh; by exists now). destruct (Hm n now Hn) as [Hnow Hmiss].
    rewrite lazyConnectionInfo_split. cbn [atTime lazyNow]. rewrite Hmiss.
    change (fetchDone (atTime now e)) with (fetchDone e). destruct (fetchDone e (lzCache s)) as [r0 c0] eqn:E.
    intros [= <- <-].
    split_and!; [by apply sharedInv_return; [|by eexists|right]|by repeat constructor|done].
Qed.

Lemma lazyEnter_inv e s : sharedInv s -> zeroTime <= lazyNow e -> sharedInv (lazyEnter e s).
Proof.
  intros Hs He. unfold lazyEnter. destruct (lazyGo e) as [n|], (lzHolder s) eqn:Hk; try done.
  destruct (lzCalls s !! n) as [[]|] eqn:Hn; try done. destruct (lazyHit (lazyNow e) (lzCache s)) eqn:Hh; [done|].
  split.
  - intros k. rewrite inFetch_insert by (by eexists). simpl. case_decide as Hkn.
    + subst. split; [done|]. intros _. by eexists.
    + rewrite (shared_holder _ Hs), Hk. split; congruence.
  - simpl. intros k now Hl. destruct (decide (n = k)) as [<-|Hne].
    + rewrite list_lookup_insert_eq in Hl by (by eapply lookup_lt_Some). by injection Hl as <-.
    + rewrite list_lookup_insert_ne in Hl by done. by eapply (shared_missed _ Hs).
Qed.

(** One action, and the operation it stands for. *)
Lemma lazyExec_serial a s out s' :
  sharedInv s -> actTime a -> lazyExec a s = Some (out, s') ->
  sharedInv s' /\ Forall opTime (actOps a s) /\ lazyRun (actOps a s) (lzCache s) = (out, lzCache s').
Proof.
  intros Hs Ha. destruct a as [|e|n e| |]; simpl lazyExec.
  - intros [= <- <-]. split_and!; [|constructor|done]. destruct Hs as [Hh Hm].
    assert (forall k now, (lzCalls s ++ [AtLock]) !! k = Some (InFetch now) <-> lzCalls s !! k = Some (InFetch now)) as E.
    { intros k now. rewrite lookup_app. destruct (lzCalls s !! k); [done|]. split; [|done].
      by intros [_ ?]%list_lookup_singleton_Some. }
    split; unfold inFetch in *; simpl; intros k; [|intros now; rewrite E; apply Hm].
    rewrite <- Hh. by setoid_rewrite E.
  - intros [= <- <-]. split_and!; [by apply lazyEnter_inv|constructor|].
    simpl. f_equal. unfold lazyEnter. by repeat case_match.
  - destruct (lazyReturn e n s) as [[r s1]|] eqn:Hr; simpl; [|done]. intros [= <- <-].
    by apply (lazyReturn_serial n e s r s1).
  - unfold forceShared. destruct (lzHolder s) eqn:Hk; simpl; [done|]. intros [= <- <-].
    split_and!; [|by repeat constructor|done]. destruct Hs as [Hh Hm].
    assert (forall k now, lzCalls s !! k = Some (InFetch now) -> False) as Hno.
    { intros k now Hl. assert (lzHolder s = Some k) by (apply Hh; by exists now). congruence. }
    split; unfold inFetch; simpl; [|by intros k now ?%Hno]. intros k. split; [by intros [now ?%Hno]|done].
  - intros [= <- <-]. split_and!; [by destruct Hs|by repeat constructor|done].
Qed.

Lemma lazyRun_app o1 o2 c :
  lazyRun (o1 ++ o2) c = ((lazyRun o1 c).1 ++ (lazyRun o2 (lazyRun o1 c).2).1, (lazyRun o2 (lazyRun o1 c).2).2).
Proof.
  revert c. induction o1 as [|o o1 IH]; intros c; simpl; [by destruct (lazyRun o2 c)|].
  destruct (lazyStep o c) as [out c1]. rewrite IH. destruct (lazyRun o1 c1) as [outs c2]; simpl.
  by rewrite <- app_assoc.
Qed.

Lemma sharedRun_serial acts s outs s' :
  sharedInv s -> Forall actTime acts -> sharedRun acts s = Some (outs, s') ->
  sharedInv s' /\ Forall opTime (serialOps acts s) /\
  lazyRun (serialOps acts s) (lzCache s) = (outs, lzCache s').
Proof.
  intros Hs Ha. revert s outs Hs. induction Ha as [|a acts Ha _ IH]; intros s outs Hs; cbn [sharedRun serialOps].
  - intros [= <- <-]. by split_and!.
  - destruct (lazyExec a s) as [[out s1]|] eqn:He; cbn [mbind option_bind]; [|done].
    destruct (sharedRun acts s1) as [[outs1 s2]|] eqn:Hr; cbn [mbind option_bind]; [|done]. intros [= <- <-].
    destruct (lazyExec_serial a s out s1 Hs Ha He) as (Hs1 & Ho1 & Hrun1).
    destruct (IH _ _ Hs1 Hr) as (Hs2 & Ho2 & Hrun2).
    split_and!; [done|by apply Forall_app_2|by rewrite lazyRun_app, Hrun1; simpl; rewrite Hrun2].
Qed.

(** While a call holds the mutex, the others cannot get at the cache. *)
Lemma lazyExec_held a s m out s' :
  sharedInv s -> lzHolder s = Some m -> actTime a -> (forall e, a <> LzReturn m e) ->
  lazyExec a s = Some (out, s') ->
  out = [] /\ sharedInv s' /\ lzHolder s' = Some m /\ lzCache s' = lzCache s.
Proof.
  intros Hs Hm Ht Ha He. pose proof (lazyExec_serial a s out s' Hs Ht He) as (Hs' & _ & _).
  destruct a as [|e|n e| |]; simpl in He.
  - by injection He as <- <-.
  - injection He as <- <-. assert (lazyEnter e s = s) as -> by (unfold lazyEnter; rewrite Hm; by destruct (lazyGo e)). done.
  - unfold lazyReturn in He. rewrite Hm in He. destruct (lzCalls s !! n) as [[|now|]|] eqn:Hn; try done.
    assert (lzHolder s = Some n) as Hk by (apply (shared_holder _ Hs); by exists now).
    rewrite Hm in Hk. injection Hk as ->. by destruct (Ha e).
  - unfold forceShared in He. by rewrite Hm in He.
  - by injection He as <- <-.
Qed.

Lemma sharedRun_held acts s m outs s' :
  sharedInv s -> lzHolder s = Some m -> Forall actTime acts -> Forall (fun a => forall e, a <> LzReturn m e) acts ->
  sharedRun acts s = Some (outs, s') ->
  outs = [] /\ sharedInv s' /\ lzHolder s' = Some m /\ lzCache s' = lzCache s.
Proof.
  intros Hs Hm Ht. revert s outs Hs Hm. induction Ht as [|a acts Ht _ IH]; intros s outs Hs Hm Ha; cbn [sharedRun].
  - by intros [= <- <-].
  - inversion Ha as [|? ? Ha1 Ha2]; subst.
    destruct (lazyExec a s) as [[out s1]|] eqn:He; cbn [mbind option_bind]; [|done].
    destruct (sharedRun acts s1) as [[outs1 s2]|] eqn:Hr; cbn [mbind option_bind]; [|done]. intros [= <- <-].
    destruct (lazyExec_held a s m out s1 Hs Hm Ht Ha1 He) as (-> & Hs1 & Hm1 & Hc1).
    destruct (IH s1 outs1 Hs1 Hm1 Ha2 Hr) as (-> & ? & ? & ?). split_and!; [done..|congruence].
Qed.
End Overlap.

(** C16: overlapping calls are the memo. Whatever calls of [ConnectionInfo] and
    [ForceRefresh] overlap on a new lazy cache, in any interleaving of their waiting for
    the mutex, their tests and their fetches: they return what the memo specification
    answers to them one after the other, in the order in which they return, each with its
    own fetch and the time at which it tested the cache; and the cache ends in a state
    that stands for the memo. At most one call is in a fetch at a time, the one that holds
    the mutex. *)
Theorem lazy_overlaps_serialize `{CryptoLib} uri client key id disable acts outs s
    (Hclock : Forall actTime acts)
    (Hrun : sharedRun acts (newShared (NewLazyRefreshCache uri client key id disable)) = Some (outs, s)) :
  (forall n, inFetch n s <-> lzHolder s = Some n) /\
  let c := NewLazyRefreshCache uri client key id disable in
  let memo := memoRun (newAdminAPIClient client key id disable) uri (serialOps acts (newShared c)) None in
  outs = memo.1 /\ lazyRel (lzCache s) memo.2.
Proof.
  destruct (sharedRun_serial acts _ outs s (sharedInv_new _) Hclock Hrun) as (Hs & Ht & Hops).
  split; [apply (shared_holder _ Hs)|]. intros c memo.
  destruct (lazyRun_rel (serialOps acts (newShared c)) c None) as [E1 E2]; [by right|done|].
  simpl in Hops, E1, E2. fold c in Hops. by rewrite Hops in E1, E2.
Qed.

(** C27: a call of the lazy cache waits for another's fetch, whatever its context. From
    when a call holds the mutex to its return nothing else happens: whatever the others
    do, no call returns, no [ForceRefresh] gets through, and the cache does not change.
    The holder itself can return with whatever its fetch yields, and after that every
    call that waits, and every [ForceRefresh], can go on. *)
Theorem lazy_waits_for_fetch `{CryptoLib} uri client key id disable acts0 outs0 s m acts outs s'
    (Hclock : Forall actTime (acts0 ++ acts))
    (Hrun0 : sharedRun acts0 (newShared (NewLazyRefreshCache uri client key id disable)) = Some (outs0, s))
    (Hm : lzHolder s = Some m) (Hothers : Forall (fun a => forall e, a <> LzReturn m e) acts)
    (Hrun : sharedRun acts s = Some (outs, s')) :
  outs = [] /\ lzHolder s' = Some m /\ lzCache s' = lzCache s /\
  (forall n e, n <> m -> lazyReturn e n s' = None) /\ forceShared s' = None /\
  forall e, exists r s2, lazyReturn e m s' = Some (r, s2) /\
    (forall n e', lzCalls s2 !! n = Some AtLock -> is_Some (lazyReturn e' n s2)) /\ is_Some (forceShared s2).
Proof.
  apply Forall_app in Hclock as [Hclock0 Hclock].
  destruct (sharedRun_serial acts0 _ outs0 s (sharedInv_new _) Hclock0 Hrun0) as [Hs _].
  destruct (sharedRun_held acts s m outs s' Hs Hm Hclock Hothers Hrun) as (-> & Hs' & Hm' & Hc).
  split_and!; [done..| | |].
  - intros n e Hn. unfold lazyReturn. rewrite Hm'. destruct (lzCalls s' !! n) as [[|now|]|] eqn:Hk; try done.
    assert (lzHolder s' = Some n) by (apply (shared_holder _ Hs'); by exists now). congruence.
  - unfold forceShared. by rewrite Hm'.
  - intros e. unfold lazyReturn. destruct (proj2 (shared_holder _ Hs' m) Hm') as [now Hk]. rewrite Hk.
    destruct (fetchDone e (lzCache s')) as [r c]. eexists _, _. split; [done|]. split; [|by eexists].
    intros n e' Hn. simpl in Hn |- *. rewrite Hn. destruct (lazyConnectionInfo e' c). by eexists.
Qed.

Section Interface.
Context `{CryptoLib}.

(** What the infos a fetch by the cache's client hands over satisfy, those of the cache
    do. *)
Section Laws.
Context (P : InstanceURI -> ConnectionInfo -> Prop) (HP : forall i ci, P i ci -> infoOK i ci).
Context (R : adminAPIClient -> Prop).

Definition fetchOK (f : adminAPIClient -> InstanceURI -> res ConnectionInfo) : Prop :=
  forall r i ci, R r -> f r i = Ret ci -> P i ci.

Definition lazyFor (i : InstanceURI) (c : LazyRefreshCache) : Prop :=
  lazyURI c = i /\ R (lazyR c) /\ (P i (cached c) \/ Expiration (cached c) = zeroTime).

Definition lazyEnvOK (e : lazyEnv) : Prop :=
  zeroTime <= lazyNow e /\ fetchOK (lazyFetch e).

Lemma fetchDone_for i e c r c' :
  lazyFor i c -> lazyEnvOK e -> fetchDone e c = (r, c') -> lazyFor i c' /\ forall ci, r = Ret ci -> P i ci.
Proof.
  intros (<- & Hcl & Hc) [_ He]. unfold fetchDone.
  destruct (lazyFetch e (lazyR c) (lazyURI c)) as [ci|err|t] eqn:E; intros [= <- <-]; [|by split..].
  apply He in E; [|done]. split; [|by intros ? [= <-]]. split_and!; [done..|by left].
Qed.

Lemma lazyConnectionInfo_for i e c r c' :
  lazyFor i c -> lazyEnvOK e -> lazyConnectionInfo e c = (r, c') -> lazyFor i c' /\ forall ci, r = Ret ci -> P i ci.
Proof.
  intros Hc He. rewrite (lazyConnectionInfo_split e c). destruct (lazyHit _ _) eqn:Hh; [|by apply fetchDone_for].
  intros [= <- <-]. split; [done|]. intros ci [= <-]. destruct Hc as (_ & _ & [Hc|Hz]); [done|].
  apply lazyHit_spec in Hh as [_ Hh]. destruct He as [Hnow _]. rewrite Hz in Hh.
  unfold refreshBuffer in *; time_consts; lia.
Qed.

Lemma lazyReturn_for i e n s r s' :
  lazyFor i (lzCache s) -> lazyEnvOK e -> lazyReturn e n s = Some (r, s') ->
  lazyFor i (lzCache s') /\ (forall ci, r = Ret ci -> P i ci) /\ length (lzCalls s') = length (lzCalls s).
Proof.
  intros Hs He. unfold lazyReturn. destruct (lzCalls s !! n) as [[]|], (lzHolder s); try done.
  - destruct (lazyConnectionInfo e (lzCache s)) as [r0 c0] eqn:E. intros [= <- <-]. simpl.
    rewrite length_insert. by destruct (lazyConnectionInfo_for i e _ _ _ Hs He E).
  - destruct (fetchDone e (lzCache s)) as [r0 c0] eqn:E. intros [= <- <-]. simpl.
    rewrite length_insert. by destruct (fetchDone_for i e _ _ _ Hs He E).
  - destruct (fetchDone e (lzCache s)) as [r0 c0] eqn:E. intros [= <- <-]. simpl.
    rewrite length_insert. by destruct (fetchDone_for i e _ _ _ Hs He E).
Qed.

Lemma lazyEnter_frame e s : lzCache (lazyEnter e s) = lzCache s /\ length (lzCalls (lazyEnter e s)) = length (lzCalls s).
Proof.
  unfold lazyEnter. repeat case_match; try done. simpl. by rewrite length_insert.
Qed.

(** No call of [ConnectionInfo] heeds its context, or a close, while it waits for the
    mutex, so none is sure to return because of them. *)
#[local] Program Instance lazy_laws_of : InfoCacheLaws lazyShared lazyEnv := {
  cacheFor i s := lazyFor i (lzCache s);
  cacheEnv := lazyEnvOK;
  cacheCtxDone _ := False;
  cacheSelClosed _ _ := False;
  cacheStopped _ := True;
  cacheWaiting n s := (n < length (lzCalls s))%nat;
  cacheInfoOK := P;
}.
Next Obligation. exact HP. Qed.
Next Obligation. by intros i e s. Qed.
Next Obligation. intros i e n s r s' Hs He Hr. apply (lazyReturn_for i e n s r s' Hs He Hr). Qed.
Next Obligation.
  intros i e s s' (Hu & Hr & Hc) _. simpl. unfold forceShared. destruct (lzHolder s); [done|]. intros [= <-]. by split_and!.
Qed.
Next Obligation. by intros i e s. Qed.
Next Obligation. intros i e s Hs _. simpl. by rewrite (proj1 (lazyEnter_frame e s)). Qed.
Next Obligation. intros i e n s ci s' Hs He Hr. by apply (lazyReturn_for i e n s _ s' Hs He Hr). Qed.
Next Obligation. done. Qed.
Next Obligation. intros e s. simpl. rewrite length_app; simpl; lia. Qed.
Next Obligation. intros e s. split; [done|]. simpl. intros n. rewrite length_app; simpl; lia. Qed.
Next Obligation.
  intros e n s r s' Hr. split; [done|]. simpl in *. intros k. unfold lazyReturn in Hr.
  destruct (lzCalls s !! n) as [[]|], (lzHolder s); try done;
    [destruct (lazyConnectionInfo _ _)|destruct (fetchDone _ _)..]; simplify_eq/=; by rewrite length_insert.
Qed.
Next Obligation.
  intros e s s' Hf. split; [done|]. simpl in *. unfold forceShared in Hf. destruct (lzHolder s); by simplify_eq/=.
Qed.
Next Obligation. done. Qed.
Next Obligation. intros e s. split; [done|]. simpl. intros n. by rewrite (proj2 (lazyEnter_frame e s)). Qed.
Next Obligation. done. Qed.
Next Obligation. done. Qed.
Next Obligation. done. Qed.
End Laws.

(** Fetches yield well-formed infos: [Refresh.connectionInfo_OK]. *)
#[export] Instance lazy_laws : InfoCacheLaws lazyShared lazyEnv := lazy_laws_of infoOK (fun _ _ Hci => Hci) (fun _ => True).
End Interface.

(** ** Concrete inputs *)

Definition toyEnv (t : Time) (f : res (ConnectionInfo (H := Toy.lib))) : lazyEnv (H := Toy.lib) :=
  {| lazyNow := t; lazyFetch := fun _ _ => f; lazyGo := None |}.

(** Fetch, serve from the cache, force, fail, refetch. *)
Lemma lazy_refines_memo_witness :
  let f := connectionInfo (H := Toy.lib) Toy.admin Toy.uri in
  let ops := [LConn (toyEnv 0 f); LConn (toyEnv Hour (Fail ErrInvalidPEM)); LForce;
              LConn (toyEnv Hour (Fail ErrInvalidPEM)); LConn (toyEnv Hour f)] in
  let c := NewLazyRefreshCache (H := Toy.lib) Toy.uri Toy.api 0 "id" false in
  (isRet <$> (lazyRun ops c).1) = [true; true; false; true] /\
  (lazyRun ops c).1 = (memoRun (lazyR c) Toy.uri ops None).1 /\
  lazyRel (lazyRun ops c).2 (memoRun (lazyR c) Toy.uri ops None).2.
Proof.
  intros f ops c. split; [vm_compute; reflexivity|].
  apply (lazy_refines_memo (H := Toy.lib) Toy.uri Toy.api 0 "id" false ops).
  repeat constructor; vm_compute; discriminate.
Defined.

Lemma lazy_force_sticky_witness :
  let f := connectionInfo (H := Toy.lib) Toy.admin Toy.uri in
  let c := (lazyRun [LConn (toyEnv 0 f)] (NewLazyRefreshCache (H := Toy.lib) Toy.uri Toy.api 0 "id" false)).2 in
  let e := toyEnv 0 (Fail ContextCanceled) in
  (lazyConnectionInfo e (lazyRun [LConn (toyEnv 0 (Fail ErrInvalidPEM)); LClose] (lazyForceRefresh c)).2).1
    = lazyFetch e (lazyR c) (lazyURI c).
Proof.
  intros f c e.
  apply (lazy_force_sticky (H := Toy.lib) c [LConn (toyEnv 0 (Fail ErrInvalidPEM)); LClose] e).
  repeat constructor.
Defined.

(** Two calls overlap a forced refresh: the first fetches, the second waits for it, and
    returns the info the first has put into the cache. *)
Lemma lazy_overlaps_serialize_witness :
  let f := connectionInfo (H := Toy.lib) Toy.admin Toy.uri in
  let go n := {| lazyNow := 0; lazyFetch := fun _ _ => f; lazyGo := Some n |} in
  let acts := [LzForce; LzBegin; LzBegin; LzTick (go 0%nat); LzTick (go 1%nat); LzReturn 0 (toyEnv 0 f);
               LzReturn 1 (toyEnv 0 (Fail ErrInvalidPEM))] in
  let c := NewLazyRefreshCache (H := Toy.lib) Toy.uri Toy.api 0 "id" false in
  exists outs s, sharedRun acts (newShared c) = Some (outs, s) /\ outs = [f; f] /\
  (forall n, inFetch n s <-> lzHolder s = Some n) /\
  let memo := memoRun (newAdminAPIClient (H := Toy.lib) Toy.api 0 "id" false) Toy.uri (serialOps acts (newShared c)) None in
  outs = memo.1 /\ lazyRel (lzCache s) memo.2.
Proof.
  intros f go acts c. eexists _, _. split; [vm_compute; reflexivity|]. split; [vm_compute; reflexivity|].
  eapply (lazy_overlaps_serialize (H := Toy.lib) Toy.uri Toy.api 0 "id" false acts).
  - unfold acts, go. repeat constructor; simpl; vm_compute; discriminate.
  - vm_compute. reflexivity.
Defined.

(** A second call and a forced refresh wait for the first call's fetch. *)
Lemma lazy_waits_for_fetch_witness :
  let f := connectionInfo (H := Toy.lib) Toy.admin Toy.uri in
  let go := {| lazyNow := 0; lazyFetch := fun _ _ => f; lazyGo := Some 0%nat |} in
  let c := NewLazyRefreshCache (H := Toy.lib) Toy.uri Toy.api 0 "id" false in
  exists s s', sharedRun [LzBegin; LzTick go] (newShared c) = Some ([], s) /\
    sharedRun [LzBegin; LzClose] s = Some ([], s') /\
    (forall n e, n <> 0%nat -> lazyReturn e n s' = None) /\ forceShared s' = None.
Proof.
  intros f go c. eexists _, _. split; [vm_compute; reflexivity|]. split; [vm_compute; reflexivity|].
  edestruct (lazy_waits_for_fetch (H := Toy.lib) Toy.uri Toy.api 0 "id" false [LzBegin; LzTick go] [])
    with (m := 0%nat) (acts := [LzBegin; LzClose] : list (lazyAct (H := Toy.lib))) as (_ & _ & _ & Hn & Hf & _).
  - unfold go. repeat constructor; simpl; vm_compute; discriminate.
  - vm_compute. reflexivity.
  - reflexivity.
  - repeat constructor; done.
  - vm_compute. reflexivity.
  - split; [exact Hn|exact Hf].
Defined.
