(* ===== verification/Ahead.v ===== *)
(** * The refresh-ahead cache ([src/internal/alloydb/instance.go])

    The cache and everything that runs concurrently on it, as one transition
    system. Its shared store is the list of refresh operations ever allocated (a
    pointer is an index), the [cur] and [next] pointers and the context; the
    threads are the timer callbacks, one per operation, and the callers of
    [ConnectionInfo]. An action is one step of one thread: a critical section of
    [resultGuard], a channel operation, or a call into another package. [aheadExec]
    executes an action, a schedule is a list of actions. *)
From S2P Require Import Prelude GoTime ErrType InstanceURI Refresh Cache.
#[local] Open Scope string_scope.
#[local] Open Scope list_scope.
#[local] Open Scope Z_scope.

Section Ahead.
Context `{CryptoLib}.

(** A [time.Timer] made by [time.AfterFunc]: due at an instant of the monotonic
    clock, fired (its function has been started), or stopped. *)
Inductive timerState := TimerPending (due : Z) | TimerFired | TimerStopped.

(** Where the callback given to [time.AfterFunc] is. *)
Inductive callback :=
| CbNotStarted
| CbCheck              (* before [i.ctx.Err()] *)
| CbWait               (* before [i.l.Wait(ctx)] *)
| CbRequest            (* before the call of [i.r.connectionInfo] *)
| CbReply              (* inside that call *)
| CbClose (stop : bool) (* [r.result] and [r.err] are set; before [close(r.ready)], and
                           then [return] if [stop] *)
| CbLock               (* before the critical section that replaces [cur] *)
| CbReturned.

Record refreshOperation := {
  opResult : ConnectionInfo;
  opErr : option error;
  opTimer : timerState;
  opReady : bool;          (* the channel [ready] is closed *)
  opCb : callback }.

(** A caller of [ConnectionInfo]: the operation it read from [cur], and what it
    returned, if it has. *)
Record waiter := { wOp : nat; wOut : option (res ConnectionInfo) }.

Record RefreshAheadCache := {
  instanceURI : InstanceURI;
  aheadR : adminAPIClient;       (* [r] *)
  aheadTimeout : Duration;       (* [refreshTimeout] *)
  ops : list refreshOperation;
  cur : nat;
  next : nat;
  ctxCanceled : bool;
  mono : Z;                (* the clock of the timers *)
  wall : Time;             (* what [time.Now()] compares to an expiration *)
  waiters : list waiter;
  requests : list nat      (* the operations that have called the Admin API *)
}.

Definition setOps (l : list refreshOperation) (s : RefreshAheadCache) : RefreshAheadCache :=
  {| instanceURI := instanceURI s; aheadR := aheadR s; aheadTimeout := aheadTimeout s;
     ops := l; cur := cur s; next := next s;
     ctxCanceled := ctxCanceled s; mono := mono s; wall := wall s;
     waiters := waiters s; requests := requests s |}.
Definition setCur (k : nat) (s : RefreshAheadCache) : RefreshAheadCache :=
  {| instanceURI := instanceURI s; aheadR := aheadR s; aheadTimeout := aheadTimeout s;
     ops := ops s; cur := k; next := next s;
     ctxCanceled := ctxCanceled s; mono := mono s; wall := wall s;
     waiters := waiters s; requests := requests s |}.
Definition setNext (k : nat) (s : RefreshAheadCache) : RefreshAheadCache :=
  {| instanceURI := instanceURI s; aheadR := aheadR s; aheadTimeout := aheadTimeout s;
     ops := ops s; cur := cur s; next := k;
     ctxCanceled := ctxCanceled s; mono := mono s; wall := wall s;
     waiters := waiters s; requests := requests s |}.
Definition setCanceled (s : RefreshAheadCache) : RefreshAheadCache :=
  {| instanceURI := instanceURI s; aheadR := aheadR s; aheadTimeout := aheadTimeout s;
     ops := ops s; cur := cur s; next := next s;
     ctxCanceled := true; mono := mono s; wall := wall s;
     waiters := waiters s; requests := requests s |}.
Definition setClock (m : Z) (w : Time) (s : RefreshAheadCache) : RefreshAheadCache :=
  {| instanceURI := instanceURI s; aheadR := aheadR s; aheadTimeout := aheadTimeout s;
     ops := ops s; cur := cur s; next := next s;
     ctxCanceled := ctxCanceled s; mono := m; wall := w;
     waiters := waiters s; requests := requests s |}.
Definition setWaiters (l : list waiter) (s : RefreshAheadCache) : RefreshAheadCache :=
  {| instanceURI := instanceURI s; aheadR := aheadR s; aheadTimeout := aheadTimeout s;
     ops := ops s; cur := cur s; next := next s;
     ctxCanceled := ctxCanceled s; mono := mono s; wall := wall s;
     waiters := l; requests := requests s |}.
Definition addRequest (k : nat) (s : RefreshAheadCache) : RefreshAheadCache :=
  {| instanceURI := instanceURI s; aheadR := aheadR s; aheadTimeout := aheadTimeout s;
     ops := ops s; cur := cur s; next := next s;
     ctxCanceled := ctxCanceled s; mono := mono s; wall := wall s;
     waiters := waiters s; requests := requests s ++ [k] |}.

Definition setOp (k : nat) (o : refreshOperation) (s : RefreshAheadCache) : RefreshAheadCache :=
  setOps (<[k := o]> (ops s)) s.

(** Changes of one operation. *)
Definition withTimer (t : timerState) (o : refreshOperation) : refreshOperation :=
  {| opResult := opResult o; opErr := opErr o; opTimer := t; opReady := opReady o; opCb := opCb o |}.
Definition withCb (c : callback) (o : refreshOperation) : refreshOperation :=
  {| opResult := opResult o; opErr := opErr o; opTimer := opTimer o; opReady := opReady o; opCb := c |}.
Definition withResult (r : ConnectionInfo) (e : option error) (o : refreshOperation) : refreshOperation :=
  {| opResult := r; opErr := e; opTimer := opTimer o; opReady := opReady o; opCb := opCb o |}.
Definition withReady (o : refreshOperation) : refreshOperation :=
  {| opResult := opResult o; opErr := opErr o; opTimer := opTimer o; opReady := true; opCb := opCb o |}.

(** [refreshOperation.cancel]: [timer.Stop] reports whether it stopped the timer. *)
Definition cancel (k : nat) (s : RefreshAheadCache) : bool * RefreshAheadCache :=
  match ops s !! k with
  | Some o =>
    match opTimer o with
    | TimerPending _ => (true, setOp k (withTimer TimerStopped o) s)
    | _ => (false, s)
    end
  | None => (false, s)
  end.

(** [refreshOperation.isValid] *)
Definition opValid (now : Time) (o : refreshOperation) : bool :=
  if opReady o then
    match opErr o with
    | Some _ => false
    | None => negb (After now (Expiration (opResult o)))
    end
  else false.

Definition isValid (k : nat) (s : RefreshAheadCache) : bool :=
  match ops s !! k with Some o => opValid (wall s) o | None => false end.

(** [scheduleRefresh] allocates an operation whose timer starts the callback. *)
Definition newOp (due : Z) : refreshOperation :=
  {| opResult := zeroConnectionInfo; opErr := None; opTimer := TimerPending due;
     opReady := false; opCb := CbNotStarted |}.

Definition scheduleRefresh (d : Duration) (s : RefreshAheadCache) : nat * RefreshAheadCache :=
  (length (ops s), setOps (ops s ++ [newOp (mono s + Z.max 0 d)]) s).

Definition NewRefreshAheadCache (uri : InstanceURI) (client : AlloyDBAdminClient) (key : PrivateKey)
    (refreshTimeout : Duration) (dialerID : string) (disableMetadataExchange : bool)
    (m : Z) (now : Time) : RefreshAheadCache :=
  let s := {| instanceURI := uri; aheadR := newAdminAPIClient client key dialerID disableMetadataExchange;
              aheadTimeout := refreshTimeout; ops := []; cur := 0; next := 0; ctxCanceled := false;
              mono := m; wall := now; waiters := []; requests := [] |} in
  let '(n, s) := scheduleRefresh 0 s in
  setNext n (setCur n s).

(** [Close] *)
Definition aheadClose (s : RefreshAheadCache) : RefreshAheadCache :=
  let s := setCanceled s in
  let s := (cancel (cur s) s).2 in
  (cancel (next s) s).2.

(** [ForceRefresh] *)
Definition aheadForceRefresh (s : RefreshAheadCache) : RefreshAheadCache :=
  let '(stopped, s) := cancel (next s) s in
  let s := if stopped then let '(n, s) := scheduleRefresh 0 s in setNext n s else s in
  if negb (isValid (cur s) s) then setCur (next s) s else s.

(** The last critical section of the callback of operation [k]. *)
Definition finishRefresh (k : nat) (o : refreshOperation) (s : RefreshAheadCache) : RefreshAheadCache :=
  match opErr o with
  | Some _ =>
    let '(n, s) := scheduleRefresh 0 s in
    let s := setNext n s in
    if negb (isValid (cur s) s) then setCur k s else s
  | None =>
    let s := setCur k s in
    let t := refreshDuration (wall s) (Expiration (opResult o)) in
    let '(n, s) := scheduleRefresh t s in
    setNext n s
  end.

(** What a caller gets from a ready operation. *)
Definition readyOut (o : refreshOperation) : res ConnectionInfo :=
  match opErr o with Some e => Fail e | None => Ret (opResult o) end.

Inductive aheadAction :=
| Tick (d : Duration) (w : Time)      (* time passes; the wall clock may jump *)
| Fire (k : nat)
| Check (k : nat)
| Wait (k : nat) (env : bool)
| Request (k : nat)
| Reply (k : nat) (r : res ConnectionInfo) (* what [i.r.connectionInfo] returns *)
| CloseReady (k : nat)
| Finish (k : nat)
| ForceRefresh
| CloseCache
| ConnBegin
| ConnReady (w : nat)
| ConnCtx (w : nat) (e : error)
| ConnClosed (w : nat).

(** The rate limiter ([golang.org/x/time/rate]) is not modelled: whether
    [Wait(ctx)] returns without an error is a function of the timeout of its context,
    of whether that context was done when it was called and of its environment. *)
Context (limiterWait : Duration -> bool -> bool -> bool).

Definition waitFailed (s : RefreshAheadCache) : error :=
  NewDialError "context was canceled or expired before refresh completed"
    (URI_String (instanceURI s)) None.

(** A caller that is still blocked returns [r]. *)
Definition release (w : nat) (r : nat -> option (res ConnectionInfo)) (s : RefreshAheadCache)
    : option RefreshAheadCache :=
  x ← waiters s !! w;
  match wOut x with
  | Some _ => None
  | None => (fun out => setWaiters (<[w := {| wOp := wOp x; wOut := Some out |}]> (waiters s)) s)
              <$> r (wOp x)
  end.

Definition aheadExec (a : aheadAction) (s : RefreshAheadCache) : option RefreshAheadCache :=
  match a with
  | Tick d w => if 0 <=? d then Some (setClock (mono s + d) w s) else None
  | Fire k =>
    o ← ops s !! k;
    match opTimer o with
    | TimerPending due =>
      if due <=? mono s then Some (setOp k (withCb CbCheck (withTimer TimerFired o)) s) else None
    | _ => None
    end
  | Check k =>
    o ← ops s !! k;
    match opCb o with
    | CbCheck =>
      if ctxCanceled s
      then Some (setOp k (withCb (CbClose true) (withResult (opResult o) (Some ContextCanceled) o)) s)
      else Some (setOp k (withCb CbWait o) s)
    | _ => None
    end
  | Wait k env =>
    o ← ops s !! k;
    match opCb o with
    | CbWait =>
      if limiterWait (aheadTimeout s) (ctxCanceled s) env
      then Some (setOp k (withCb CbRequest o) s)
      else Some (setOp k (withCb (CbClose false) (withResult (opResult o) (Some (waitFailed s)) o)) s)
    | _ => None
    end
  | Request k =>
    o ← ops s !! k;
    match opCb o with
    | CbRequest => Some (addRequest k (setOp k (withCb CbReply o) s))
    | _ => None
    end
  | Reply k r =>
    o ← ops s !! k;
    match opCb o, r with
    | CbReply, Ret ci => Some (setOp k (withCb (CbClose false) (withResult ci None o)) s)
    | CbReply, Fail e =>
      Some (setOp k (withCb (CbClose false) (withResult zeroConnectionInfo (Some e) o)) s)
    | _, _ => None
    end
  | CloseReady k =>
    o ← ops s !! k;
    match opCb o with
    | CbClose stop =>
      Some (setOp k (withCb (if stop then CbReturned else CbLock) (withReady o)) s)
    | _ => None
    end
  | Finish k =>
    o ← ops s !! k;
    match opCb o with
    | CbLock => Some (finishRefresh k o (setOp k (withCb CbReturned o) s))
    | _ => None
    end
  | ForceRefresh => Some (aheadForceRefresh s)
  | CloseCache => Some (aheadClose s)
  | ConnBegin => Some (setWaiters (waiters s ++ [{| wOp := cur s; wOut := None |}]) s)
  | ConnReady w =>
    release w (fun k => o ← ops s !! k; if opReady o then Some (readyOut o) else None) s
  | ConnCtx w e => release w (fun _ => Some (Fail e)) s
  | ConnClosed w =>
    release w (fun _ => if ctxCanceled s then Some (Fail ContextCanceled) else None) s
  end.

Fixpoint aheadRun (acts : list aheadAction) (s : RefreshAheadCache) : option RefreshAheadCache :=
  match acts with
  | [] => Some s
  | a :: acts => aheadExec a s ≫= aheadRun acts
  end.

(** The states a cache for [uri] can get into. *)
Definition reachable (uri : InstanceURI) (s : RefreshAheadCache) : Prop :=
  exists client key timeout id disable m now acts,
    aheadRun acts (NewRefreshAheadCache uri client key timeout id disable m now) = Some s.

(** An operation that is scheduled or whose callback is running. *)
Definition live (o : refreshOperation) : bool :=
  match opCb o, opTimer o with
  | CbReturned, _ => false
  | CbNotStarted, TimerPending _ => true
  | CbNotStarted, _ => false
  | _, _ => true
  end.
End Ahead.
