(* ===== verification/AheadInv.v ===== *)
(** * The refresh-ahead cache: invariant and properties

    [inv P] holds in every reachable state when every info the Admin API client
    hands over satisfies [P]; from it follow that exactly one refresh is scheduled
    or running, that a valid info is only replaced by a newly fetched one, what a
    forced refresh and a close achieve, and which callers are released. *)
From S2P Require Import Prelude GoTime ErrType InstanceURI Refresh Cache Ahead.

Section Inv.
Context `{CryptoLib} (limiterWait : Duration -> bool -> bool -> bool).
Context (P : ConnectionInfo -> Prop).
Implicit Types s : RefreshAheadCache.
Implicit Types o : refreshOperation.

(** What the callback's progress says about an operation's fields. *)
Definition opOK (canceled : bool) o : Prop :=
  match opCb o with
  | CbNotStarted => opTimer o <> TimerFired /\ opReady o = false
  | CbCheck | CbWait | CbRequest | CbReply => opTimer o = TimerFired /\ opReady o = false
  | CbClose stop => opTimer o = TimerFired /\ opReady o = false /\
      (opErr o = None -> P (opResult o)) /\ (stop = true -> canceled = true)
  | CbLock | CbReturned => opTimer o = TimerFired /\ opReady o = true /\
      (opErr o = None -> P (opResult o))
  end.

Definition waiterOK s (x : waiter) : Prop :=
  is_Some (ops s !! wOp x) /\ forall ci, wOut x = Some (Ret ci) -> P ci.

(** The part of the invariant that holds inside critical sections, too. *)
Record core s : Prop := {
  core_next : is_Some (ops s !! next s);
  core_cur : is_Some (ops s !! cur s);
  core_op : forall k o, ops s !! k = Some o ->
              opOK (ctxCanceled s) o /\ (k <> next s -> live o = false);
  core_waiters : Forall (waiterOK s) (waiters s) }.

(** While the cache is open, [next] is scheduled or running, and [cur] is either
    that operation or has its result. *)
Record inv s : Prop := {
  inv_core : core s;
  inv_next : ctxCanceled s = false -> exists o, ops s !! next s = Some o /\ live o = true;
  inv_cur : ctxCanceled s = false ->
              cur s = next s \/ exists o, ops s !! cur s = Some o /\ opReady o = true }.

(** Actions whose time passes forward and whose answers satisfy [P]. *)
Definition actOK (a : aheadAction) : Prop :=
  match a with Reply _ (Ret ci) => P ci | _ => True end.

(** ** Shared lemmas on the building blocks *)

Lemma opOK_canceled c o : opOK c o -> opOK true o.
Proof. unfold opOK. destruct (opCb o); intros; destruct_and?; split_and?; auto. Qed.

Lemma opOK_newOp c due : opOK c (newOp due).
Proof. by split. Qed.

Lemma live_next s k o : core s -> ops s !! k = Some o -> live o = true -> k = next s.
Proof.
  intros Hi Ho Hl. destruct (core_op s Hi k o Ho) as [_ Hd].
  destruct (decide (k = next s)); [done|]. by rewrite Hd in Hl.
Qed.

Lemma ready_opOK c o : opOK c o -> opReady o = true -> opErr o = None -> P (opResult o).
Proof. unfold opOK. destruct (opCb o); intros; destruct_and?; auto; congruence. Qed.

Lemma ready_cb c o : opOK c o -> opReady o = true -> opCb o = CbLock \/ opCb o = CbReturned.
Proof. unfold opOK. destruct (opCb o); intros; destruct_and?; auto; congruence. Qed.

Lemma waiterOK_mono s s' x :
  (forall k, is_Some (ops s !! k) -> is_Some (ops s' !! k)) -> waiterOK s x -> waiterOK s' x.
Proof. intros Hm [Hk Hc]. split; auto. Qed.

Lemma waitersOK_mono s s' :
  (forall k, is_Some (ops s !! k) -> is_Some (ops s' !! k)) ->
  Forall (waiterOK s) (waiters s) -> Forall (waiterOK s') (waiters s).
Proof. intros Hm Hf. eapply list.Forall_impl; [exact Hf|]. intros; by eapply waiterOK_mono. Qed.

Lemma setOp_lookup_mono k o s k' :
  is_Some (ops s !! k') -> is_Some (ops (setOp k o s) !! k').
Proof.
  intros [o' Ho']. simpl. destruct (decide (k = k')) as [<-|Hne].
  - rewrite list_lookup_insert_eq; [done|]. by eapply lookup_lt_Some.
  - rewrite list_lookup_insert_ne by done. eauto.
Qed.

Lemma insert_lookup_inv (l : list refreshOperation) k o k' o' :
  <[k := o]> l !! k' = Some o' -> (k' = k /\ o' = o) \/ (k' <> k /\ l !! k' = Some o').
Proof.
  intros Hl. destruct (decide (k' = k)) as [->|Hne].
  - left. split; [done|]. assert (k < length l)%nat.
    { apply lookup_lt_Some in Hl. by rewrite length_insert in Hl. }
    rewrite list_lookup_insert_eq in Hl by done. by injection Hl.
  - right. by rewrite list_lookup_insert_ne in Hl.
Qed.

Lemma setOp_lookup k o s : is_Some (ops s !! k) -> ops (setOp k o s) !! k = Some o.
Proof. intros [o' Ho']. simpl. apply list_lookup_insert_eq. by eapply lookup_lt_Some. Qed.

Lemma setOp_lookup_ne k k' o s : k <> k' -> ops (setOp k o s) !! k' = ops s !! k'.
Proof. apply list_lookup_insert_ne. Qed.

(** One thread changes one operation. *)
Lemma core_setOp s k o' :
  core s -> opOK (ctxCanceled s) o' -> (k <> next s -> live o' = false) -> core (setOp k o' s).
Proof.
  intros Hi Hok Hdead. split.
  - apply (setOp_lookup_mono k), (core_next s Hi).
  - apply (setOp_lookup_mono k), (core_cur s Hi).
  - intros k' o'' [[-> ->]|[Hne Hl]]%insert_lookup_inv; [done|]. by apply (core_op s Hi).
  - apply (waitersOK_mono s); [apply setOp_lookup_mono|apply (core_waiters s Hi)].
Qed.

(** A running operation makes progress. *)
Lemma inv_progress s k o o' :
  inv s -> ops s !! k = Some o -> live o = true -> opOK (ctxCanceled s) o' ->
  (ctxCanceled s = false -> live o' = true) -> (opReady o = true -> opReady o' = true) ->
  inv (setOp k o' s).
Proof.
  intros Hi Hk Hl Hok Hlive Hready.
  assert (k = next s) as -> by (by eapply live_next; [apply Hi|..]).
  split.
  - apply core_setOp; [apply Hi|done|by intros []].
  - intros Hop. exists o'. split; [|by apply Hlive]. by apply setOp_lookup.
  - intros Hop. destruct (inv_cur s Hi Hop) as [?|(c & Hc & Hr)]; [by left|right].
    change (cur (setOp (next s) o' s)) with (cur s).
    destruct (decide (next s = cur s)) as [He|Hne].
    + exists o'. rewrite <- He in *. rewrite setOp_lookup by done. split; [done|].
      apply Hready. congruence.
    + exists c. by rewrite setOp_lookup_ne.
Qed.

(** A new operation becomes [next] when no other is scheduled or running, and [cur]
    is this operation or a completed one. *)
Lemma inv_reschedule s d c :
  core s -> (forall k o, ops s !! k = Some o -> live o = false) ->
  c = length (ops s) \/ (exists o, ops s !! c = Some o /\ opReady o = true) ->
  inv (setNext (scheduleRefresh d s).1 (setCur c (scheduleRefresh d s).2)).
Proof.
  intros Hi Hdead Hc. set (o' := newOp (mono s + Z.max 0 d)).
  assert (forall k, is_Some (ops s !! k) -> is_Some ((ops s ++ [o']) !! k)) as Hm.
  { intros k [o Ho]. exists o. by apply lookup_app_l_Some. }
  assert ((ops s ++ [o']) !! length (ops s) = Some o') as Hlast by (by rewrite list_lookup_middle).
  split; [split|..]; simpl; fold o'.
  - by rewrite Hlast.
  - destruct Hc as [->|(o & Ho & _)]; [by rewrite Hlast|apply Hm; eauto].
  - intros k o2 [Hl|[Hge Hl]]%lookup_app_Some.
    + split; [by apply (core_op s Hi) in Hl as [? _]|]. intros _. by eapply Hdead.
    + apply list_lookup_singleton_Some in Hl as [Hz <-]. split; [apply opOK_newOp|].
      intros Hne. lia.
  - apply (waitersOK_mono s); [apply Hm|apply (core_waiters s Hi)].
  - intros _. by exists o'.
  - intros _. destruct Hc as [->|(o & Ho & Hr)]; [by left|right].
    exists o. split; [|done]. by apply lookup_app_l_Some.
Qed.

(** [isValid] looks only at the operation and the wall clock. *)
Lemma isValid_ready s k : isValid k s = true -> exists o, ops s !! k = Some o /\ opReady o = true.
Proof.
  unfold isValid, opValid. destruct (ops s !! k) as [o|]; [|done].
  destruct (opReady o) eqn:E; [eauto|done].
Qed.

(** ** The invariant holds *)

Lemma inv_init uri client key timeout id disable m now :
  inv (NewRefreshAheadCache uri client key timeout id disable m now).
Proof.
  split; [split|..]; simpl; try done; try (by eexists); [|by left].
  intros [|k] o Ho; simplify_eq/=. split; [apply opOK_newOp|by intros []].
Qed.

(** Stopping a timer leaves a dead operation. *)
Lemma cancel_core s k : core s -> core (cancel k s).2.
Proof.
  intros Hi. unfold cancel. destruct (ops s !! k) as [o|] eqn:Ho; [|done].
  destruct (opTimer o) eqn:Ht; [|done..]. simpl.
  destruct (core_op s Hi k o Ho) as [Hok _].
  apply core_setOp; [done|..]; unfold opOK, live in *; simpl;
    destruct (opCb o); destruct_and?; try congruence; by split_and?.
Qed.

Lemma cancel_stopped s k s' :
  core s -> cancel k s = (true, s') -> k = next s ->
  exists o, ops s !! k = Some o /\ opReady o = false /\ s' = setOp k (withTimer TimerStopped o) s /\
    forall k' o', ops s' !! k' = Some o' -> live o' = false.
Proof.
  intros Hi Hc Hk. unfold cancel in Hc. destruct (ops s !! k) as [o|] eqn:Ho; [|done].
  destruct (opTimer o) eqn:Ht; simplify_eq. exists o.
  destruct (core_op s Hi _ o Ho) as [Hok _].
  assert (opCb o = CbNotStarted /\ opReady o = false) as [Hcb Hr].
  { unfold opOK in Hok. destruct (opCb o); destruct_and?; [by split|congruence..]. }
  split_and!; try done. intros k' o' [[-> ->]|[Hne Hl]]%insert_lookup_inv.
  - unfold live; simpl. by rewrite Hcb.
  - by apply (core_op s Hi k' o' Hl).
Qed.

Lemma cancel_false s k s' : cancel k s = (false, s') -> s' = s.
Proof. unfold cancel. repeat case_match; congruence. Qed.

Lemma inv_ForceRefresh s : inv s -> inv (aheadForceRefresh s).
Proof.
  intros Hi. unfold aheadForceRefresh. destruct (cancel (next s) s) as [[] s1] eqn:Hc.
  - pose proof (cancel_core s (next s) (inv_core s Hi)) as Hcore. rewrite Hc in Hcore.
    destruct (cancel_stopped s (next s) s1 (inv_core s Hi) Hc eq_refl) as (o & _ & _ & _ & Hdead).
    cbn [scheduleRefresh]. case_match eqn:Hv.
    + by apply (inv_reschedule s1 0 (length (ops s1))); [..|left].
    + apply negb_false_iff, isValid_ready in Hv as (c & Hcur & Hr); simpl in Hcur.
      apply (inv_reschedule s1 0 (cur s1)); [done..|right].
      exists c. split; [|done]. apply lookup_app_Some in Hcur as [?|[_ Hn]]; [done|].
      apply list_lookup_singleton_Some in Hn as [_ <-]. by unfold newOp in Hr.
  - apply cancel_false in Hc as ->. case_match eqn:Hv; [|done].
    split; [|apply Hi|by left].
    destruct (inv_core s Hi). by split.
Qed.

Lemma inv_Close s : inv s -> inv (aheadClose s).
Proof.
  intros Hi. unfold aheadClose.
  assert (core (setCanceled s)) as Hcore.
  { destruct (inv_core s Hi) as [Hn Hc Ho Hw]. split; simpl; auto.
    intros k o Hk. destruct (Ho k o Hk). split; [by eapply opOK_canceled|done]. }
  set (s1 := setCanceled s) in *.
  assert (forall k s0, ctxCanceled (cancel k s0).2 = ctxCanceled s0) as Hcc.
  { intros k s0. unfold cancel. by repeat case_match. }
  split; [by do 2 apply cancel_core|..]; rewrite !Hcc; done.
Qed.

Lemma inv_finish s k o :
  inv s -> ops s !! k = Some o -> opCb o = CbLock ->
  inv (finishRefresh k o (setOp k (withCb CbReturned o) s)).
Proof.
  intros Hi Ho Hcb. destruct (core_op s (inv_core s Hi) k o Ho) as [Hok _].
  assert (k = next s) as Hk.
  { eapply live_next; [apply Hi|done|]. unfold live. by rewrite Hcb. }
  unfold opOK in Hok. rewrite Hcb in Hok. destruct Hok as (Ht & Hr & HP).
  set (s1 := setOp k (withCb CbReturned o) s).
  assert (core s1) as Hcore.
  { apply core_setOp; [apply Hi|by split_and!|done]. }
  assert (forall k' o', ops s1 !! k' = Some o' -> live o' = false) as Hdead.
  { intros k' o' [[-> ->]|[Hne Hl]]%insert_lookup_inv; [done|].
    eapply (core_op s (inv_core s Hi)); [done|congruence]. }
  assert (ops s1 !! k = Some (withCb CbReturned o)) as Hk1 by (by apply setOp_lookup).
  unfold finishRefresh. destruct (opErr o); cbn [scheduleRefresh].
  - case_match eqn:Hv.
    + apply (inv_reschedule s1 0 k); eauto.
    + apply negb_false_iff, isValid_ready in Hv as (c & Hcur & Hrc); simpl in Hcur.
      apply (inv_reschedule s1 0 (cur s1)); [done..|right].
      exists c. split; [|done]. apply lookup_app_Some in Hcur as [?|[_ Hn]]; [done|].
      apply list_lookup_singleton_Some in Hn as [_ <-]. by unfold newOp in Hrc.
  - eapply (inv_reschedule s1 _ k); eauto.
Qed.

(** Only the list of callers changes. *)
Lemma inv_setWaiters s l : inv s -> Forall (waiterOK s) l -> inv (setWaiters l s).
Proof. intros Hi Hl. split; [|apply Hi..]. destruct (inv_core s Hi). by split. Qed.

Lemma inv_release s w r s' :
  inv s -> (forall k out ci, r k = Some out -> out = Ret ci -> P ci) ->
  release w r s = Some s' -> inv s'.
Proof.
  intros Hi Hr Hs. unfold release in Hs.
  destruct (waiters s !! w) as [x|] eqn:Hx; [|done]; simpl in Hs.
  destruct (wOut x); [done|]. destruct (r (wOp x)) as [out|] eqn:Hout; simplify_eq/=.
  pose proof (core_waiters s (inv_core s Hi)) as Hw.
  apply inv_setWaiters; [done|]. apply Forall_insert; [done|].
  pose proof (list.Forall_lookup_1 _ _ _ _ Hw Hx) as [Hop _]. split; [done|].
  intros ci Hci. injection Hci as ->. by eapply Hr.
Qed.

Lemma inv_exec a s s' : inv s -> actOK a -> aheadExec limiterWait a s = Some s' -> inv s'.
Proof.
  intros Hi Ha He. destruct a as [d w|k|k|k e|k|k r|k|k| | | |w|w e|w]; simpl in He.
  - destruct (0 <=? d); simplify_eq. split; [|apply Hi..]. destruct (inv_core s Hi). by split.
  - destruct (ops s !! k) as [o|] eqn:Ho; [|done]; simpl in He.
    destruct (core_op s (inv_core s Hi) k o Ho) as [Hok _].
    destruct (opTimer o) eqn:Ht; [|done..]. case_match; simplify_eq.
    assert (opCb o = CbNotStarted /\ opReady o = false) as [Hcb Hr].
    { unfold opOK in Hok. destruct (opCb o); destruct_and?; [by split|congruence..]. }
    eapply inv_progress; eauto; unfold live, opOK; simpl; by rewrite ?Hcb, ?Ht, ?Hr.
  - destruct (ops s !! k) as [o|] eqn:Ho; [|done]; simpl in He.
    destruct (core_op s (inv_core s Hi) k o Ho) as [Hok _].
    destruct (opCb o) eqn:Hcb; try done. unfold opOK in Hok. rewrite Hcb in Hok.
    destruct Hok as [Ht Hr].
    destruct (ctxCanceled s) eqn:Hc; simplify_eq;
      (eapply inv_progress; eauto; unfold live, opOK; simpl; rewrite ?Hcb, ?Hc; by split_and?).
  - destruct (ops s !! k) as [o|] eqn:Ho; [|done]; simpl in He.
    destruct (core_op s (inv_core s Hi) k o Ho) as [Hok _].
    destruct (opCb o) eqn:Hcb; try done. unfold opOK in Hok. rewrite Hcb in Hok.
    destruct Hok as [Ht Hr].
    destruct (limiterWait _ _ _); simplify_eq;
      (eapply inv_progress; eauto; unfold live, opOK; simpl; rewrite ?Hcb; by split_and?).
  - destruct (ops s !! k) as [o|] eqn:Ho; [|done]; simpl in He.
    destruct (core_op s (inv_core s Hi) k o Ho) as [Hok _].
    destruct (opCb o) eqn:Hcb; try done. unfold opOK in Hok. rewrite Hcb in Hok.
    destruct Hok as [Ht Hr]. simplify_eq.
    assert (inv (setOp k (withCb CbReply o) s)) as Hi'.
    { eapply inv_progress; eauto; unfold live, opOK; simpl; rewrite ?Hcb; by split_and?. }
    split; [|apply Hi'..]. destruct (inv_core _ Hi'). by split.
  - destruct (ops s !! k) as [o|] eqn:Ho; [|done]; simpl in He.
    destruct (core_op s (inv_core s Hi) k o Ho) as [Hok _].
    destruct (opCb o) eqn:Hcb; try done. unfold opOK in Hok. rewrite Hcb in Hok.
    destruct Hok as [Ht Hr].
    destruct r as [ci|err|]; simplify_eq;
      (eapply inv_progress; eauto; unfold live, opOK; simpl; rewrite ?Hcb; by split_and?).
  - destruct (ops s !! k) as [o|] eqn:Ho; [|done]; simpl in He.
    destruct (core_op s (inv_core s Hi) k o Ho) as [Hok _].
    destruct (opCb o) eqn:Hcb; try done. unfold opOK in Hok. rewrite Hcb in Hok.
    destruct Hok as (Ht & Hr & HP & Hs). simplify_eq.
    eapply inv_progress; eauto; unfold live, opOK; simpl; rewrite ?Hcb; try done;
      destruct stop; try done. intros Hf. by rewrite Hs in Hf.
  - destruct (ops s !! k) as [o|] eqn:Ho; [|done]; simpl in He.
    destruct (opCb o) eqn:Hcb; simplify_eq. by apply inv_finish.
  - simplify_eq. by apply inv_ForceRefresh.
  - simplify_eq. by apply inv_Close.
  - simplify_eq. apply inv_setWaiters; [done|].
    apply list.Forall_app; split; [apply (core_waiters s (inv_core s Hi))|].
    constructor; [|done]. split; [apply (core_cur s (inv_core s Hi))|done].
  - eapply inv_release in He; [done..|]. intros k out ci Hk ->.
    destruct (ops s !! k) as [o|] eqn:Ho; [|done]; simpl in Hk.
    destruct (opReady o) eqn:Hr; [|done]. unfold readyOut in Hk.
    destruct (core_op s (inv_core s Hi) k o Ho) as [Hok _].
    destruct (opErr o) eqn:Herr; simplify_eq. by eapply ready_opOK.
  - eapply inv_release in He; [done..|]. by intros k out ci [= <-].
  - eapply inv_release in He; [done..|]. intros k out ci. case_match; [by intros [= <-]|done].
Qed.

Lemma inv_run acts s s' :
  inv s -> Forall actOK acts -> aheadRun limiterWait acts s = Some s' -> inv s'.
Proof.
  revert s; induction acts as [|a acts IH]; simpl; intros s Hi Ha; [by intros [= <-]|].
  inversion Ha; subst.
  destruct (aheadExec limiterWait a s) as [s1|] eqn:E; simpl; [|done]. eauto using inv_exec.
Qed.
End Inv.
