(* ===== verification/AheadProps.v ===== *)
(** * The refresh-ahead cache: what holds on every schedule *)
From S2P Require Import Prelude GoTime ErrType InstanceURI Refresh Cache Ahead AheadInv.
#[local] Open Scope list_scope.
#[local] Open Scope Z_scope.

Section Lemmas.
Context `{CryptoLib} (lw : Duration -> bool -> bool -> bool).
Implicit Types s : RefreshAheadCache.

Definition anyInfo (ci : ConnectionInfo) : Prop := True.

Lemma reachable_inv uri s : reachable lw uri s -> inv anyInfo s.
Proof.
  intros (client & key & timeout & id & disable & m & now & acts & Hrun). eapply inv_run; [apply inv_init| |done].
  apply list.Forall_forall. intros [] _; simpl; repeat case_match; done.
Qed.

Lemma aheadRun_app acts1 acts2 s :
  aheadRun lw (acts1 ++ acts2) s = aheadRun lw acts1 s ≫= aheadRun lw acts2.
Proof.
  revert s; induction acts1 as [|a acts IH]; intros s; simpl; [done|].
  destruct (aheadExec lw a s); simpl; [apply IH|done].
Qed.

Lemma reachable_run uri s acts s' :
  reachable lw uri s -> aheadRun lw acts s = Some s' -> reachable lw uri s'.
Proof.
  intros (client & key & timeout & id & disable & m & now & acts0 & H0) H1.
  exists client, key, timeout, id, disable, m, now, (acts0 ++ acts).
  by rewrite aheadRun_app, H0.
Qed.

Lemma reachable_exec uri s a s' :
  reachable lw uri s -> aheadExec lw a s = Some s' -> reachable lw uri s'.
Proof. intros Hr He. apply (reachable_run uri s [a]); [done|]; simpl. by rewrite He. Qed.

(** An induction principle: what every action from a reachable state preserves
    holds at the end of every schedule. *)
Lemma run_preserves (Q : RefreshAheadCache -> Prop) uri :
  (forall s a s', reachable lw uri s -> Q s -> aheadExec lw a s = Some s' -> Q s') ->
  forall acts s s', reachable lw uri s -> Q s -> aheadRun lw acts s = Some s' -> Q s'.
Proof.
  intros Hstep acts; induction acts as [|a acts IH]; intros s s' Hr Hq; simpl; [by intros [= <-]|].
  destruct (aheadExec lw a s) as [s1|] eqn:E; simpl; [|done].
  apply IH; [by eapply reachable_exec|by eapply Hstep].
Qed.

(** *** What actions leave alone *)

Lemma cancel_frame k s :
  let s' := (cancel k s).2 in
  cur s' = cur s /\ next s' = next s /\ ctxCanceled s' = ctxCanceled s /\ mono s' = mono s /\
  wall s' = wall s /\ waiters s' = waiters s /\ requests s' = requests s /\
  length (ops s') = length (ops s) /\
  forall j o, ops s !! j = Some o -> exists t, ops s' !! j = Some (withTimer t o).
Proof.
  simpl. unfold cancel. destruct (ops s !! k) as [ok|] eqn:Hk.
  - destruct (opTimer ok) eqn:Ht; simpl; split_and!; rewrite ?length_insert; try done;
      intros j o Hj; try (exists (opTimer o); rewrite Hj; by destruct o).
    destruct (decide (k = j)) as [->|Hne].
    + exists TimerStopped. rewrite list_lookup_insert_eq by (by eapply lookup_lt_Some). congruence.
    + exists (opTimer o). rewrite list_lookup_insert_ne by done. rewrite Hj. by destruct o.
  - simpl; split_and!; try done. intros j o Hj. exists (opTimer o). rewrite Hj. by destruct o.
Qed.

Lemma cancel_ctx k s : ctxCanceled (cancel k s).2 = ctxCanceled s.
Proof. apply (cancel_frame k s). Qed.

Lemma cancel_requests k s : requests (cancel k s).2 = requests s.
Proof. apply (cancel_frame k s). Qed.

Lemma opValid_withTimer now t o : opValid now (withTimer t o) = opValid now o.
Proof. done. Qed.

Lemma cancel_isValid k j s : is_Some (ops s !! j) -> isValid j (cancel k s).2 = isValid j s.
Proof.
  intros [o Ho]. destruct (cancel_frame k s) as (_ & _ & _ & _ & Hw & _ & _ & _ & Ho').
  destruct (Ho' j o Ho) as [t Ht]. unfold isValid. by rewrite Ht, Ho, Hw.
Qed.

Lemma release_frame w r s s' :
  release w r s = Some s' ->
  ops s' = ops s /\ cur s' = cur s /\ next s' = next s /\ ctxCanceled s' = ctxCanceled s /\
  requests s' = requests s /\ wall s' = wall s /\ mono s' = mono s.
Proof.
  unfold release. destruct (waiters s !! w) as [x|]; [|done]; simpl.
  destruct (wOut x); [done|]. destruct (r (wOp x)); [|done]. by intros [= <-].
Qed.

(** *** The operation a caller waits for *)

(** A closed [ready] channel publishes a result for good. *)
Definition published (k : nat) (out : res ConnectionInfo) s : Prop :=
  exists o, ops s !! k = Some o /\ opReady o = true /\ readyOut o = out.

Lemma published_setOp k out k' o' s :
  published k out s ->
  (forall o, ops s !! k' = Some o -> opReady o = true -> opReady o' = true /\ readyOut o' = readyOut o) ->
  published k out (setOp k' o' s).
Proof.
  intros (o & Ho & Hr & Hout) Hk. unfold published. destruct (decide (k' = k)) as [->|Hne].
  - exists o'. rewrite setOp_lookup by done. destruct (Hk o Ho Hr) as [? ?].
    split_and!; [done..|congruence].
  - exists o. by rewrite setOp_lookup_ne.
Qed.

Lemma published_schedule k out d s :
  published k out s -> published k out (scheduleRefresh d s).2.
Proof.
  intros (o & Ho & Hr & Hout). exists o. split_and!; auto. simpl. by apply lookup_app_l_Some.
Qed.

Lemma published_cancel k out k' s : published k out s -> published k out (cancel k' s).2.
Proof.
  intros Hp. unfold cancel. destruct (ops s !! k') as [o|] eqn:Ho; [|done].
  destruct (opTimer o); [|done..]. apply published_setOp; [done|].
  intros o2 Ho2 Hr. by simplify_eq.
Qed.

Lemma published_ops k out s s' : published k out s -> ops s' = ops s -> published k out s'.
Proof. intros (o & ? & ? & ?) E. exists o. by rewrite E. Qed.

Lemma published_ForceRefresh k out s : published k out s -> published k out (aheadForceRefresh s).
Proof.
  intros Hp. unfold aheadForceRefresh. pose proof (published_cancel k out (next s) s Hp) as Hp1.
  destruct (cancel (next s) s) as [[] s1]; simpl in Hp1; cbn [scheduleRefresh].
  - case_match; (eapply published_ops; [by apply (published_schedule k out 0)|done]).
  - by case_match.
Qed.

(** An operation whose channel is still open is nobody's published result. *)
Lemma published_running uri k out j o o' s :
  reachable lw uri s -> published k out s -> ops s !! j = Some o ->
  opCb o <> CbLock -> opCb o <> CbReturned -> published k out (setOp j o' s).
Proof.
  intros Hreach Hp Ho H1 H2. apply published_setOp; [done|]. intros o2 Ho2 Hr2.
  assert (o2 = o) as -> by congruence.
  destruct (ready_cb anyInfo (ctxCanceled s) o); [|done..].
  eapply core_op; [|done]. by apply inv_core, (reachable_inv uri).
Qed.

Lemma published_exec uri k out s a s' :
  reachable lw uri s -> published k out s -> aheadExec lw a s = Some s' -> published k out s'.
Proof.
  intros Hreach Hp He.
  destruct a as [d w|j|j|j e|j|j r|j|j| | | |w|w e|w]; simpl in He;
    try (apply release_frame in He as (E & _); by eapply published_ops);
    try (destruct (ops s !! j) as [o|] eqn:Ho; [|done]; simpl in He);
    try (match type of He with context [opCb ?x] => destruct (opCb x) eqn:Hc; try done end).
  - destruct (0 <=? d); simplify_eq. by eapply published_ops.
  - destruct (opTimer o); [|done..]. case_match; simplify_eq.
    apply published_setOp; [done|]. intros o2 Ho2 Hr2. by simplify_eq.
  - case_match; simplify_eq; eapply published_running; eauto; congruence.
  - case_match; simplify_eq; eapply published_running; eauto; congruence.
  - simplify_eq. eapply (published_ops k out (setOp j (withCb CbReply o) s)); [|done].
    eapply published_running; eauto; congruence.
  - destruct r; simplify_eq; eapply published_running; eauto; congruence.
  - simplify_eq. eapply published_running; eauto; congruence.
  - simplify_eq.
    assert (published k out (setOp j (withCb CbReturned o) s)) as Hp1.
    { apply published_setOp; [done|]. intros o2 Ho2 Hr2. by simplify_eq. }
    unfold finishRefresh. destruct (opErr o); cbn [scheduleRefresh]; try case_match;
      (eapply published_ops; [eapply published_schedule; exact Hp1|done]).
  - simplify_eq. by apply published_ForceRefresh.
  - simplify_eq. unfold aheadClose. do 2 apply published_cancel. by eapply published_ops.
  - simplify_eq. by eapply published_ops.
Qed.

(** *** The Admin API calls still to be made *)

(** 1 when the running callback is about to call the Admin API. *)
Definition requesting s : nat :=
  match ops s !! next s with
  | Some o => match opCb o with CbRequest => 1 | _ => 0 end
  | None => 0
  end.

Lemma requesting_next s k o o' :
  k = next s -> ops s !! k = Some o -> requesting (setOp k o' s) =
    match opCb o' with CbRequest => 1%nat | _ => 0%nat end.
Proof. intros -> Ho. unfold requesting. simpl. by rewrite list_lookup_insert_eq by (by eapply lookup_lt_Some). Qed.

Lemma requesting_same s s' : ops s' = ops s -> next s' = next s -> requesting s' = requesting s.
Proof. intros E1 E2. unfold requesting. by rewrite E1, E2. Qed.

Lemma requesting_scheduled s d s' :
  ops s' = ops (scheduleRefresh d s).2 -> next s' = (scheduleRefresh d s).1 -> requesting s' = 0%nat.
Proof. intros E1 E2. unfold requesting. rewrite E1, E2. simpl. by rewrite list_lookup_middle. Qed.

Lemma requesting_cancel k s : requesting (cancel k s).2 = requesting s.
Proof.
  destruct (cancel_frame k s) as (_ & Hn & _ & _ & _ & _ & _ & Hlen & Ho).
  unfold requesting. rewrite Hn. destruct (ops s !! next s) as [o|] eqn:E.
  - by destruct (Ho _ _ E) as [t ->].
  - apply lookup_ge_None in E. rewrite <- Hlen in E. by apply lookup_ge_None in E as ->.
Qed.

(** The budget of requests, spent by every call and not replenished once the
    context is canceled. *)
Definition requestBudget s : nat := (length (requests s) + requesting s)%nat.

Lemma budget_setOp s k o o' :
  core anyInfo s -> ops s !! k = Some o -> live o = true -> opCb o' <> CbRequest ->
  (requestBudget (setOp k o' s) <= requestBudget s)%nat.
Proof.
  intros Hi Ho Hl Hcb. unfold requestBudget.
  rewrite (requesting_next s k o) by (done || by eapply live_next).
  simpl. destruct (opCb o'); done || lia.
Qed.

Lemma budget_exec uri s a s' :
  (forall t env, lw t true env = false) -> reachable lw uri s -> ctxCanceled s = true ->
  aheadExec lw a s = Some s' ->
  ctxCanceled s' = true /\ (requestBudget s' <= requestBudget s)%nat.
Proof.
  intros Hlw Hreach Hc He.
  pose proof (inv_core _ s (reachable_inv uri s Hreach)) as Hcore.
  assert (forall k o, ops s !! k = Some o -> opCb o <> CbReturned -> opCb o <> CbNotStarted ->
    live o = true) as Hlive.
  { intros k o _ ? ?. unfold live. by destruct (opCb o). }
  destruct a as [d w|j|j|j e|j|j r|j|j| | | |w|w e|w]; simpl in He;
    try (apply release_frame in He as (E1 & _ & E2 & E3 & E4 & _);
         unfold requestBudget; by rewrite (requesting_same s s'), E3, E4 by done).
  - destruct (0 <=? d); simplify_eq. done.
  - destruct (ops s !! j) as [o|] eqn:Ho; [|done]; simpl in He.
    destruct (opTimer o) eqn:Ht; [|done..]. case_match; simplify_eq. split; [done|].
    apply (budget_setOp s j o); try done. destruct (core_op _ s Hcore j o Ho) as [Hok _].
    unfold opOK, live in *. rewrite Ht in *. by destruct (opCb o); destruct_and?.
  - destruct (ops s !! j) as [o|] eqn:Ho; [|done]; simpl in He.
    destruct (opCb o) eqn:Hcb; try done. rewrite Hc in He; simplify_eq. split; [done|].
    apply (budget_setOp s j o); try done. eapply Hlive; eauto; congruence.
  - destruct (ops s !! j) as [o|] eqn:Ho; [|done]; simpl in He.
    destruct (opCb o) eqn:Hcb; try done. rewrite Hc, Hlw in He; simplify_eq. split; [done|].
    apply (budget_setOp s j o); try done. eapply Hlive; eauto; congruence.
  - destruct (ops s !! j) as [o|] eqn:Ho; [|done]; simpl in He.
    destruct (opCb o) eqn:Hcb; try done. simplify_eq. split; [done|].
    assert (j = next s) as Hj by (eapply live_next; [done..|eapply Hlive; eauto; congruence]).
    unfold requestBudget; simpl. rewrite length_app; simpl.
    rewrite (requesting_same (setOp j (withCb CbReply o) s)) by done.
    rewrite (requesting_next s j o) by done; simpl.
    unfold requesting. rewrite <- Hj, Ho, Hcb. lia.
  - destruct (ops s !! j) as [o|] eqn:Ho; [|done]; simpl in He.
    destruct (opCb o) eqn:Hcb; try done. destruct r; simplify_eq; (split; [done|]);
      (apply (budget_setOp s j o); try done; eapply Hlive; eauto; congruence).
  - destruct (ops s !! j) as [o|] eqn:Ho; [|done]; simpl in He.
    destruct (opCb o) eqn:Hcb; try done. simplify_eq. split; [done|].
    apply (budget_setOp s j o); try done; [|by destruct stop]. eapply Hlive; eauto; congruence.
  - destruct (ops s !! j) as [o|] eqn:Ho; [|done]; simpl in He.
    destruct (opCb o) eqn:Hcb; try done. simplify_eq. unfold requestBudget.
    split; [unfold finishRefresh; destruct (opErr o); cbn [scheduleRefresh]; by try case_match|].
    rewrite (requesting_scheduled (setOp j (withCb CbReturned o) s)
      (match opErr o with Some _ => 0 | None => refreshDuration (wall s) (Expiration (opResult o)) end));
      unfold finishRefresh; destruct (opErr o); cbn [scheduleRefresh]; try case_match; try done;
      simpl; lia.
  - simplify_eq. unfold aheadForceRefresh.
    pose proof (requesting_cancel (next s) s) as Hreq.
    destruct (cancel_frame (next s) s) as (Ec & En & Ex & _ & _ & _ & Er & _).
    destruct (cancel (next s) s) as [[] s1]; simpl in *; unfold requestBudget; case_match;
      simpl; rewrite ?Ex, ?Er; split; try done.
    + rewrite (requesting_scheduled s1 0) by done. lia.
    + rewrite (requesting_scheduled s1 0) by done. lia.
    + rewrite (requesting_same s1) by done. lia.
    + lia.
  - simplify_eq. unfold aheadClose, requestBudget. rewrite !requesting_cancel.
    rewrite (requesting_same s) by done.
    destruct (cancel_frame (cur (setCanceled s)) (setCanceled s)) as (_ & _ & Ex & _ & _ & _ & Er & _).
    set (s1 := (cancel (cur (setCanceled s)) (setCanceled s)).2) in *.
    destruct (cancel_frame (next s1) s1) as (_ & _ & Ex' & _ & _ & _ & Er' & _).
    by rewrite Ex', Er', Ex, Er.
  - simplify_eq. done.
Qed.
End Lemmas.

(** ** One refresh at a time *)

(** C1: single flight. In every reachable state at most one refresh operation is
    scheduled or running, and it is [next]; as long as the cache is open there is
    one, so the refresh cycle neither forks nor dies, whatever callers force. *)
Theorem single_flight `{CryptoLib} lw uri s (Hr : reachable lw uri s) :
  (forall k o, ops s !! k = Some o -> live o = true -> k = next s) /\
  (ctxCanceled s = false -> exists o, ops s !! next s = Some o /\ live o = true).
Proof.
  pose proof (reachable_inv lw uri s Hr) as Hi. split; [|apply (inv_next _ s Hi)].
  intros k o Ho Hl. by eapply (live_next anyInfo); [apply Hi|..].
Qed.

(** ** A valid info is only replaced by a new one *)

Lemma isValid_app `{CryptoLib} k s s' l :
  isValid k s = true -> ops s' = ops s ++ l -> wall s' = wall s -> isValid k s' = true.
Proof.
  unfold isValid. intros Hv -> ->. destruct (ops s !! k) as [o|] eqn:Ho; [|done].
  by rewrite (lookup_app_l_Some _ _ _ _ Ho).
Qed.

Lemma aheadForceRefresh_cur `{CryptoLib} lw uri s :
  reachable lw uri s -> isValid (cur s) s = true -> cur (aheadForceRefresh s) = cur s.
Proof.
  intros Hr Hv. unfold aheadForceRefresh.
  pose proof (inv_core _ s (reachable_inv lw uri s Hr)) as Hcore.
  pose proof (cancel_isValid (next s) (cur s) s (core_cur _ s Hcore)) as Hv1.
  destruct (cancel_frame (next s) s) as (Ec & _). rewrite Hv in Hv1.
  destruct (cancel (next s) s) as [[] s1]; cbn [snd] in *; cbn [scheduleRefresh].
  - change (cur (setNext _ (setOps _ s1))) with (cur s1). rewrite Ec.
    by erewrite (isValid_app _ s1).
  - by rewrite Ec, Hv1.
Qed.

(** C4: while the current info is valid, no step of any thread replaces it, except
    the completion of a refresh that succeeded, whose operation becomes current. In
    particular a failed refresh, a forced refresh and a close leave it in place. *)
Theorem valid_info_kept `{CryptoLib} lw uri s a s'
    (Hr : reachable lw uri s) (He : aheadExec lw a s = Some s') (Hv : isValid (cur s) s = true) :
  cur s' = cur s \/
  exists k o, a = Finish k /\ cur s' = k /\ ops s' !! k = Some o /\
              opReady o = true /\ opErr o = None.
Proof.
  pose proof (inv_core _ s (reachable_inv lw uri s Hr)) as Hcore.
  destruct a as [d w|j|j|j e|j|j r|j|j| | | |w|w e|w]; simpl in He;
    try (apply release_frame in He as (_ & E & _); by left);
    try (destruct (ops s !! j) as [o|] eqn:Ho; [|done]; simpl in He;
         match type of He with context [match ?x with _ => _ end] => idtac end).
  - destruct (0 <=? d); simplify_eq. by left.
  - left. by repeat case_match; simplify_eq.
  - left. by repeat case_match; simplify_eq.
  - left. by repeat case_match; simplify_eq.
  - left. by repeat case_match; simplify_eq.
  - left. by repeat case_match; simplify_eq.
  - left. by repeat case_match; simplify_eq.
  - destruct (opCb o) eqn:Hcb; simplify_eq.
    destruct (core_op _ s Hcore j o Ho) as [Hok _]. unfold opOK in Hok. rewrite Hcb in Hok.
    destruct Hok as (_ & Hready & _).
    set (s1 := setOp j (withCb CbReturned o) s).
    assert (ops s1 !! j = Some (withCb CbReturned o)) as Hj by (by apply setOp_lookup).
    destruct (opErr o) eqn:Herr; unfold finishRefresh; rewrite Herr; cbn [scheduleRefresh].
    + left. case_match eqn:Hv'; [|done]. exfalso. apply negb_true_iff in Hv'.
      revert Hv'. apply not_false_iff_true. rewrite <- Hv. unfold isValid; simpl.
      destruct (core_cur _ s Hcore) as [c Hc]. destruct (decide (j = cur s)) as [Hjc|Hne].
      * unfold isValid in Hv. rewrite <- Hjc, Ho in Hv.
        unfold opValid in Hv. by rewrite Hready, Herr in Hv.
      * rewrite lookup_app_l by (rewrite length_insert; by eapply lookup_lt_Some).
        by rewrite list_lookup_insert_ne.
    + right. exists j, (withCb CbReturned o). split_and!; try done.
      simpl. by apply lookup_app_l_Some.
  - simplify_eq. left. by eapply aheadForceRefresh_cur.
  - simplify_eq. left. unfold aheadClose.
    by rewrite (proj1 (cancel_frame _ _)), (proj1 (cancel_frame _ _)).
  - simplify_eq. by left.
Qed.

(** ** Results are published once *)

(** Once an operation's channel is closed, its result and error never change, on
    any schedule: every caller that waits for it, now or later, gets the same
    answer. *)
Theorem result_stable `{CryptoLib} lw uri k out acts s s'
    (Hr : reachable lw uri s) (Hp : published k out s) (Hrun : aheadRun lw acts s = Some s') :
  published k out s'.
Proof.
  revert acts s s' Hr Hp Hrun. apply (run_preserves lw (published k out) uri).
  intros s a s' Hr Hp. by eapply published_exec.
Qed.


(** ** What the critical sections do *)

(** A forced refresh. The current operation stays current if it is valid, and
    otherwise the next one becomes current. The next operation is one that had
    already started, and then nothing else changes, or a new one that is due at once,
    the pending one being stopped. The Admin API is not called. *)
Theorem force_refresh_spec `{CryptoLib} lw uri s
    (Hr : reachable lw uri s) (Hopen : ctxCanceled s = false) :
  let s' := aheadForceRefresh s in
  cur s' = (if isValid (cur s) s then cur s else next s') /\
  requests s' = requests s /\ waiters s' = waiters s /\
  exists o, ops s !! next s = Some o /\
  match opTimer o with
  | TimerPending _ =>
      next s' = length (ops s) /\
      ops s' = <[next s := withTimer TimerStopped o]> (ops s) ++ [newOp (mono s)]
  | TimerFired => next s' = next s /\ ops s' = ops s
  | TimerStopped => False
  end.
Proof.
  pose proof (reachable_inv lw uri s Hr) as Hi. pose proof (inv_core _ s Hi) as Hcore.
  destruct (inv_next _ s Hi Hopen) as (o & Ho & Hl).
  destruct (core_op _ s Hcore _ _ Ho) as [Hok _].
  pose proof (aheadForceRefresh_cur lw uri s Hr) as Hkeep. intros s'. subst s'.
  destruct (isValid (cur s) s) eqn:Hv.
  - rewrite Hkeep by done. unfold aheadForceRefresh, cancel. rewrite Ho.
    destruct (opTimer o) eqn:Ht; cbn [scheduleRefresh].
    + case_match; simpl; rewrite ?length_insert, ?Z.add_0_r; split_and!; try done; by exists o; rewrite Ht.
    + rewrite Hv; simpl. split_and!; try done. exists o; by rewrite Ht.
    + by unfold live in Hl; rewrite Ht in Hl; unfold opOK in Hok; rewrite Ht in Hok;
        destruct (opCb o); destruct_and?.
  - unfold aheadForceRefresh. pose proof (cancel_isValid (next s) (cur s) s (core_cur _ s Hcore)) as Hv1.
    rewrite Hv in Hv1. unfold cancel in *. rewrite Ho in *.
    destruct (opTimer o) eqn:Ht; cbn [scheduleRefresh snd] in *.
    + assert (isValid (cur s) (setNext (length (ops (setOp (next s) (withTimer TimerStopped o) s)))
        (setOps (ops (setOp (next s) (withTimer TimerStopped o) s) ++
          [newOp (mono (setOp (next s) (withTimer TimerStopped o) s) + Z.max 0 0)])
            (setOp (next s) (withTimer TimerStopped o) s))) = false) as Hv2.
      { revert Hv1. unfold isValid; simpl. destruct (core_cur _ s Hcore) as [c Hc].
        destruct (setOp_lookup_mono (next s) (withTimer TimerStopped o) s (cur s)) as [c' Hc']; [done|].
        simpl in Hc'. by rewrite (lookup_app_l_Some _ _ _ _ Hc'), Hc'. }
      change (cur (setNext _ (setOps _ (setOp _ _ s)))) with (cur s). rewrite Hv2; simpl.
      rewrite ?length_insert, ?Z.add_0_r. split_and!; try done. exists o; by rewrite Ht.
    + rewrite Hv; simpl. split_and!; try done. exists o; by rewrite Ht.
    + by unfold live in Hl; rewrite Ht in Hl; unfold opOK in Hok; rewrite Ht in Hok;
        destruct (opCb o); destruct_and?.
Qed.

(** C24: the end of a refresh. A refresh that succeeded makes its info current and
    schedules the next one exactly [refreshDuration] from now: for an info with more than
    the buffer left to live that is later than now, so the cycle is not a busy loop, and
    no later than the buffer before the expiry. One that failed is retried at once, and
    becomes current only if the current info is not valid. Either way one operation is
    added, and it is the next. *)
Theorem finish_spec `{CryptoLib} lw uri s k o s'
    (Hr : reachable lw uri s) (Ho : ops s !! k = Some o)
    (He : aheadExec lw (Finish k) s = Some s') :
  next s' = length (ops s) /\ ctxCanceled s' = ctxCanceled s /\ waiters s' = waiters s /\
  requests s' = requests s /\ exists due, ops s' = <[k := withCb CbReturned o]> (ops s) ++ [newOp due] /\
  match opErr o with
  | None => cur s' = k /\
      due = mono s + refreshDuration (wall s) (Expiration (opResult o)) /\
      (wall s + refreshBuffer < Expiration (opResult o) ->
       mono s < due /\ wall s + (due - mono s) + refreshBuffer <= Expiration (opResult o))
  | Some _ => due = mono s /\ cur s' = (if isValid (cur s) s then cur s else k)
  end.
Proof.
  pose proof (inv_core _ s (reachable_inv lw uri s Hr)) as Hcore.
  simpl in He. rewrite Ho in He; simpl in He. destruct (opCb o) eqn:Hcb; simplify_eq.
  destruct (core_op _ s Hcore k o Ho) as [Hok _]. unfold opOK in Hok. rewrite Hcb in Hok.
  destruct Hok as (_ & Hready & _). unfold finishRefresh.
  destruct (opErr o) as [e|] eqn:Herr; cbn [scheduleRefresh].
  - set (s2 := setNext _ _).
    assert (isValid (cur s2) s2 = isValid (cur s) s) as Hv.
    { subst s2. unfold isValid; simpl. destruct (core_cur _ s Hcore) as [c Hc].
      destruct (decide (k = cur s)) as [Hk|Hk].
      - rewrite <- Hk, Ho. rewrite lookup_app_l, list_lookup_insert_eq;
          rewrite ?length_insert; [done|by eapply lookup_lt_Some..].
      - rewrite lookup_app_l by (rewrite length_insert; by eapply lookup_lt_Some).
        by rewrite list_lookup_insert_ne. }
    rewrite Hv. destruct (isValid (cur s) s); simpl; rewrite length_insert, Z.add_0_r;
      split_and!; try done; by exists (mono s).
  - destruct (refreshDuration_safe (wall s) (Expiration (opResult o))) as (_ & Hnonneg & Hbuf).
    pose proof (refreshDuration_pos (wall s) (Expiration (opResult o))) as Hpos.
    simpl. rewrite length_insert. split_and!; try done. eexists; split_and!; [done..| |].
    + rewrite Z.max_r by done. done.
    + rewrite Z.max_r by done. intros Hlt. unfold Time in *. specialize (Hpos ltac:(lia)). specialize (Hbuf ltac:(lia)). lia.
Qed.

(** ** Concrete inputs *)
#[local] Existing Instance Toy.lib.

Module ToyAhead.
Definition info : ConnectionInfo :=
  match connectionInfo Toy.admin Toy.uri with Ret ci => ci | _ => zeroConnectionInfo end.

(** A limiter that fails on a canceled context and asks its environment otherwise. *)
Definition limiter (timeout : Duration) (canceled env : bool) : bool := negb canceled && env.

Definition start : RefreshAheadCache := NewRefreshAheadCache Toy.uri Toy.api 0 RefreshTimeout "id" false 0 0.

(** The steps of the callback of operation [k] to a published [r]. *)
Definition fetch (k : nat) (r : res ConnectionInfo) : list aheadAction :=
  [Fire k; Check k; Wait k true; Request k; Reply k r; CloseReady k].

Definition after (acts : list aheadAction) : RefreshAheadCache :=
  match aheadRun limiter acts start with Some s => s | None => start end.

(** After a first refresh and after a forced second one. *)
Definition refreshed := after (fetch 0 (Ret info) ++ [Finish 0]).
Definition forced := after (fetch 0 (Ret info) ++ [Finish 0; ForceRefresh]).
End ToyAhead.

Ltac toy_reach acts :=
  exists Toy.api, 0, RefreshTimeout, "id"%string, false, 0, 0, acts; vm_compute; reflexivity.

Lemma single_flight_witness :
  reachable ToyAhead.limiter Toy.uri ToyAhead.forced /\ ctxCanceled ToyAhead.forced = false /\
  exists o, ops ToyAhead.forced !! next ToyAhead.forced = Some o /\ live o = true.
Proof.
  assert (reachable ToyAhead.limiter Toy.uri ToyAhead.forced) as Hr
    by toy_reach (ToyAhead.fetch 0 (Ret ToyAhead.info) ++ [Finish 0; ForceRefresh]).
  split_and!; [exact Hr|reflexivity|].
  apply (single_flight ToyAhead.limiter Toy.uri ToyAhead.forced Hr). reflexivity.
Defined.

(** A refresh fails while the current info is valid. *)
Lemma valid_info_kept_witness :
  let s := ToyAhead.after (ToyAhead.fetch 0 (Ret ToyAhead.info) ++ [Finish 0; ForceRefresh] ++
                           ToyAhead.fetch 2 (Fail ErrInvalidPEM)) in
  exists s', aheadExec ToyAhead.limiter (Finish 2) s = Some s' /\ cur s = 0%nat /\
    (cur s' = cur s \/ exists k o, Finish 2 = Finish k /\ cur s' = k /\ ops s' !! k = Some o /\
                       opReady o = true /\ opErr o = None).
Proof.
  intros s. eexists. split; [vm_compute; reflexivity|]. split; [vm_compute; reflexivity|].
  eapply (valid_info_kept ToyAhead.limiter Toy.uri s (Finish 2)).
  - toy_reach (ToyAhead.fetch 0 (Ret ToyAhead.info) ++ [Finish 0; ForceRefresh] ++
               ToyAhead.fetch 2 (Fail ErrInvalidPEM)).
  - vm_compute; reflexivity.
  - vm_compute; reflexivity.
Defined.

Lemma result_stable_witness :
  exists s', aheadRun ToyAhead.limiter [ForceRefresh; Fire 2; CloseCache] ToyAhead.refreshed = Some s' /\
    published 0 (Ret ToyAhead.info) s'.
Proof.
  eexists. split; [vm_compute; reflexivity|].
  eapply (result_stable ToyAhead.limiter Toy.uri 0 (Ret ToyAhead.info)
    [ForceRefresh; Fire 2; CloseCache] ToyAhead.refreshed).
  - toy_reach (ToyAhead.fetch 0 (Ret ToyAhead.info) ++ [Finish 0]).
  - eexists. split_and!; vm_compute; reflexivity.
  - vm_compute; reflexivity.
Defined.

Lemma force_refresh_spec_witness :
  cur ToyAhead.forced = 0%nat /\ next ToyAhead.forced = 2%nat /\
  let s := ToyAhead.refreshed in let s' := aheadForceRefresh s in
  cur s' = (if isValid (cur s) s then cur s else next s') /\
  requests s' = requests s /\ waiters s' = waiters s /\
  exists o, ops s !! next s = Some o /\
  match opTimer o with
  | TimerPending _ =>
      next s' = length (ops s) /\
      ops s' = <[next s := withTimer TimerStopped o]> (ops s) ++ [newOp (mono s)]
  | TimerFired => next s' = next s /\ ops s' = ops s
  | TimerStopped => False
  end.
Proof.
  split; [vm_compute; reflexivity|]. split; [vm_compute; reflexivity|].
  apply (force_refresh_spec ToyAhead.limiter Toy.uri ToyAhead.refreshed).
  - toy_reach (ToyAhead.fetch 0 (Ret ToyAhead.info) ++ [Finish 0]).
  - reflexivity.
Defined.

Lemma finish_spec_witness :
  let s := ToyAhead.after (ToyAhead.fetch 0 (Ret ToyAhead.info)) in
  exists s' o, aheadExec ToyAhead.limiter (Finish 0) s = Some s' /\
  next s' = length (ops s) /\ ctxCanceled s' = ctxCanceled s /\ waiters s' = waiters s /\
  requests s' = requests s /\ exists due, ops s' = <[0%nat := withCb CbReturned o]> (ops s) ++ [newOp due] /\
  match opErr o with
  | None => cur s' = 0%nat /\
      due = mono s + refreshDuration (wall s) (Expiration (opResult o)) /\
      (wall s + refreshBuffer < Expiration (opResult o) ->
       mono s < due /\ wall s + (due - mono s) + refreshBuffer <= Expiration (opResult o))
  | Some _ => due = mono s /\ cur s' = (if isValid (cur s) s then cur s else 0%nat)
  end.
Proof.
  intros s. eexists _, _. split; [vm_compute; reflexivity|].
  eapply (finish_spec ToyAhead.limiter Toy.uri s 0).
  - toy_reach (ToyAhead.fetch 0 (Ret ToyAhead.info)).
  - vm_compute; reflexivity.
  - vm_compute; reflexivity.
Defined.
