(* ===== verification/AheadLive.v ===== *)
(** * The refresh-ahead cache: callers and shutdown

    Which callers of [ConnectionInfo] are released, with what, what [Close] stops, and
    what ends a refresh that is calling the Admin API. *)
From S2P Require Import Prelude GoTime ErrType InstanceURI Refresh Cache Ahead AheadInv AheadProps.
#[local] Open Scope list_scope.
#[local] Open Scope Z_scope.

Section Lemmas.
Context `{CryptoLib} (lw : Duration -> bool -> bool -> bool).
Implicit Types s : RefreshAheadCache.

(** *** Driving a refresh to its end *)

(** The steps of the callback of operation [k], with the rate limiter in environment
    [env] and the Admin API client answering [r], and the passage of time. *)
Definition threadOf (k : nat) (env : bool) (r : res ConnectionInfo) (a : aheadAction) : Prop :=
  match a with
  | Tick _ _ => True
  | Fire j | Check j | Request j | CloseReady j => j = k
  | Wait j env' => j = k /\ env' = env
  | Reply j r' => j = k /\ r' = r
  | _ => False
  end.

(** Some steps of [k]'s thread publish its result, and the callers are as before. *)
Definition driven k env r s : Prop :=
  exists acts s' out, Forall (threadOf k env r) acts /\ aheadRun lw acts s = Some s' /\
    published k out s' /\ waiters s' = waiters s.

Lemma driven_step k env r a s s1 :
  threadOf k env r a -> aheadExec lw a s = Some s1 -> waiters s1 = waiters s ->
  driven k env r s1 -> driven k env r s.
Proof.
  intros Ha He Hw (acts & s' & out & Hacts & Hrun & Hp & Hw').
  exists (a :: acts), s', out. split_and!; [by constructor| |done|congruence].
  simpl. by rewrite He.
Qed.

Lemma driven_ready k env r s o :
  ops s !! k = Some o -> opReady o = true -> driven k env r s.
Proof. intros Ho Hr. exists [], s, (readyOut o). split_and!; [done..| |done]. by exists o. Qed.

(** One step of the thread, whose effect on the operation is [f]. *)
Lemma driven_op k env r a s o o1 s1 :
  ops s !! k = Some o -> threadOf k env r a ->
  aheadExec lw a s = Some s1 -> ops s1 = ops (setOp k o1 s) -> waiters s1 = waiters s ->
  (ops s1 !! k = Some o1 -> driven k env r s1) -> driven k env r s.
Proof.
  intros Ho Ha He E Hw Hd. eapply driven_step; [done..|]. apply Hd.
  rewrite E. by apply setOp_lookup.
Qed.

Lemma driven_close k env r s o stop :
  ops s !! k = Some o -> opCb o = CbClose stop -> driven k env r s.
Proof.
  intros Ho Hcb. eapply (driven_op _ _ _ (CloseReady k)); [done|done|simpl; rewrite Ho; simpl|..].
  - by rewrite Hcb.
  - done.
  - done.
  - intros Hr. by eapply driven_ready.
Qed.

Lemma driven_request k env r s o :
  isPanic r = false -> ops s !! k = Some o -> opCb o = CbRequest -> driven k env r s.
Proof.
  intros Hp Ho Hcb.
  eapply (driven_op _ _ _ (Request k)); [done|done|simpl; rewrite Ho; simpl; by rewrite Hcb|done..|].
  intros Ho1. destruct r as [ci|e|w]; [| |done].
  - eapply (driven_op _ _ _ (Reply k (Ret ci)));
      [exact Ho1|done|simpl in *; rewrite Ho1; simpl; reflexivity|done..|].
    intros Ho2. by eapply driven_close.
  - eapply (driven_op _ _ _ (Reply k (Fail e)));
      [exact Ho1|done|simpl in *; rewrite Ho1; simpl; reflexivity|done..|].
    intros Ho2. by eapply driven_close.
Qed.

Lemma driven_wait k env r s o :
  isPanic r = false -> ops s !! k = Some o -> opCb o = CbWait -> driven k env r s.
Proof.
  intros Hp Ho Hcb. destruct (lw (aheadTimeout s) (ctxCanceled s) env) eqn:Hl.
  - eapply (driven_op _ _ _ (Wait k env)); [done|done|simpl; rewrite Ho; simpl; by rewrite Hcb, Hl|done..|].
    intros Ho1. by eapply driven_request.
  - eapply (driven_op _ _ _ (Wait k env)); [done|done|simpl; rewrite Ho; simpl; by rewrite Hcb, Hl|done..|].
    intros Ho1. by eapply driven_close.
Qed.

Lemma driven_check k env r s o :
  isPanic r = false -> ops s !! k = Some o -> opCb o = CbCheck -> driven k env r s.
Proof.
  intros Hp Ho Hcb. destruct (ctxCanceled s) eqn:Hc.
  - eapply (driven_op _ _ _ (Check k)); [done|done|simpl; rewrite Ho; simpl; by rewrite Hcb, Hc|done..|].
    intros Ho1. by eapply driven_close.
  - eapply (driven_op _ _ _ (Check k)); [done|done|simpl; rewrite Ho; simpl; by rewrite Hcb, Hc|done..|].
    intros Ho1. by eapply driven_wait.
Qed.

Lemma driven_live k env r s o :
  isPanic r = false -> ops s !! k = Some o -> live o = true -> opOK anyInfo (ctxCanceled s) o ->
  driven k env r s.
Proof.
  intros Hp Ho Hl Hok. destruct (opCb o) eqn:Hcb.
  - unfold live in Hl. rewrite Hcb in Hl. destruct (opTimer o) as [due| |] eqn:Ht; try done.
    set (d := Z.max 0 (due - mono s)).
    eapply (driven_step _ _ _ (Tick d (wall s))); [done|simpl| |].
    + by rewrite (proj2 (Z.leb_le 0 d)) by lia.
    + done.
    + eapply (driven_op _ _ _ (Fire k) (setClock (mono s + d) (wall s) s));
        [exact Ho|done|simpl; rewrite Ho; simpl; rewrite Ht, (proj2 (Z.leb_le _ _)) by lia; reflexivity|done..|].
      intros Ho1. by eapply driven_check.
  - by eapply driven_check.
  - by eapply driven_wait.
  - by eapply driven_request.
  - unfold opOK in Hok. rewrite Hcb in Hok. destruct r as [ci|e|w]; [| |done].
    + eapply (driven_op _ _ _ (Reply k (Ret ci)));
        [exact Ho|done|simpl; rewrite Ho; simpl; by rewrite Hcb|done..|].
      intros Ho2. by eapply driven_close.
    + eapply (driven_op _ _ _ (Reply k (Fail e)));
        [exact Ho|done|simpl; rewrite Ho; simpl; by rewrite Hcb|done..|].
      intros Ho2. by eapply driven_close.
  - by eapply driven_close.
  - unfold opOK in Hok. rewrite Hcb in Hok. destruct Hok as (_ & Hr & _). by eapply driven_ready.
  - unfold opOK in Hok. rewrite Hcb in Hok. destruct Hok as (_ & Hr & _). by eapply driven_ready.
Qed.
End Lemmas.

(** ** Callers *)

(** C12: no caller is stuck behind a refresh that is not abandoned. A caller that waits
    for an operation whose timer was not stopped is released by that operation's own
    steps, at most the passage of time in between, whatever the rate limiter and the
    Admin API answer. *)
Theorem caller_released `{CryptoLib} lw uri s w k o env r
    (Hr : reachable lw uri s) (Hw : waiters s !! w = Some {| wOp := k; wOut := None |})
    (Ho : ops s !! k = Some o) (Ht : opTimer o <> TimerStopped) (Hp : isPanic r = false) :
  exists acts s' out, Forall (threadOf k env r) acts /\
    aheadRun lw (acts ++ [ConnReady w]) s = Some s' /\
    published k out s' /\ waiters s' !! w = Some {| wOp := k; wOut := Some out |}.
Proof.
  pose proof (inv_core _ s (reachable_inv lw uri s Hr)) as Hcore.
  destruct (core_op _ s Hcore k o Ho) as [Hok _].
  assert (driven lw k env r s) as (acts & s1 & out & Hacts & Hrun & Hpub & Hws).
  { destruct (live o) eqn:Hl; [by eapply driven_live|].
    eapply driven_ready; [done|]. unfold live, opOK in *.
    destruct (opCb o); [by destruct (opTimer o), Hok|done..|by destruct_and?]. }
  pose proof Hpub as (o1 & Ho1 & Hready & Hout).
  exists acts, (setWaiters (<[w := {| wOp := k; wOut := Some out |}]> (waiters s1)) s1), out.
  split_and!; [done| |by exists o1|].
  - rewrite aheadRun_app, Hrun; simpl. unfold release. rewrite Hws, Hw; simpl.
    by rewrite Ho1; simpl; rewrite Hready; simpl; rewrite Hout.
  - simpl. apply list_lookup_insert_eq. rewrite Hws. by eapply lookup_lt_Some.
Qed.

Lemma anyInfo_sound `{CryptoLib} lw uri client key timeout id disable m now acts s :
  Forall (actOK (infoOK uri)) acts ->
  aheadRun lw acts (NewRefreshAheadCache uri client key timeout id disable m now) = Some s ->
  inv (infoOK uri) s.
Proof. intros Ha Hrun. by eapply inv_run; [apply inv_init|..]. Qed.

(** C7: what callers get. If the Admin API client hands over only well-formed infos of
    the instance ([connectionInfo_OK]), then so does the cache, to every caller on
    every schedule, and the info it holds when it is valid is well formed, too, and
    not expired. *)
Theorem conn_sound `{CryptoLib} lw uri client key timeout id disable m now acts s
    (Hapi : Forall (actOK (infoOK uri)) acts)
    (Hrun : aheadRun lw acts (NewRefreshAheadCache uri client key timeout id disable m now) = Some s) :
  (forall w x ci, waiters s !! w = Some x -> wOut x = Some (Ret ci) -> infoOK uri ci) /\
  (isValid (cur s) s = true -> exists o, ops s !! cur s = Some o /\
     infoOK uri (opResult o) /\ wall s <= Expiration (opResult o)).
Proof.
  pose proof (anyInfo_sound lw uri client key timeout id disable m now acts s Hapi Hrun) as Hi.
  pose proof (inv_core _ s Hi) as Hcore. split.
  - intros w x ci Hx Hout.
    destruct (list.Forall_lookup_1 _ _ _ _ (core_waiters _ s Hcore) Hx) as [_ Hc]. by apply Hc.
  - unfold isValid. destruct (ops s !! cur s) as [o|] eqn:Ho; [|done]. unfold opValid.
    destruct (opReady o) eqn:Hready; [|done]. destruct (opErr o) eqn:Herr; [done|].
    intros Hexp%negb_true_iff%After_false. exists o. split_and!; [done| |done].
    eapply ready_opOK; [|done..]. by apply (core_op _ s Hcore (cur s)).
Qed.

(** A caller waits for an operation that was stopped before it started. *)
Definition abandoned `{CryptoLib} (w k : nat) (s : RefreshAheadCache) : Prop :=
  waiters s !! w = Some {| wOp := k; wOut := None |} /\ ctxCanceled s = false /\
  exists o, ops s !! k = Some o /\ opTimer o = TimerStopped /\ opCb o = CbNotStarted /\
            opReady o = false.

(** Neither the caller's own context is done nor the cache closed. *)
Definition noExit `{CryptoLib} (w : nat) (a : aheadAction) : Prop :=
  match a with ConnCtx w' _ => w' <> w | CloseCache => False | _ => True end.

Section Abandoned.
Context `{CryptoLib} (lw : Duration -> bool -> bool -> bool).
Implicit Types s : RefreshAheadCache.

Lemma abandoned_frame w k s s' o :
  abandoned w k s -> waiters s' !! w = waiters s !! w -> ctxCanceled s' = false ->
  ops s !! k = Some o -> ops s' !! k = Some o -> abandoned w k s'.
Proof. intros (Hw & _ & o' & Ho' & Hst) E1 E2 E3 E4. rewrite E3 in Ho'. split_and!; [congruence..|]. exists o'. by rewrite E4. Qed.

Lemma abandoned_setOp w k s j o o' :
  abandoned w k s -> ops s !! j = Some o ->
  (opTimer o <> TimerStopped \/ opCb o <> CbNotStarted) -> abandoned w k (setOp j o' s).
Proof.
  intros Hb Hj Hne. pose proof Hb as (Hw & Hc & o1 & Ho1 & Ht & Hcb & Hr).
  eapply abandoned_frame; [exact Hb|done|done|exact Ho1|].
  rewrite setOp_lookup_ne; [done|]. intros ->. destruct Hne; congruence.
Qed.

Lemma abandoned_cancel w k s j : abandoned w k s -> abandoned w k (cancel j s).2.
Proof.
  intros Hb. unfold cancel. destruct (ops s !! j) as [o|] eqn:Hj; [|done].
  destruct (opTimer o) eqn:Ht; [|done..]. eapply abandoned_setOp; [done..|]. left; congruence.
Qed.

Lemma abandoned_schedule w k s d : abandoned w k s -> abandoned w k (scheduleRefresh d s).2.
Proof.
  intros (Hw & Hc & o & Ho & Hst). split_and!; [done..|]. exists o.
  split; [|done]. simpl. by apply lookup_app_l_Some.
Qed.

Lemma abandoned_release w k s v r s' :
  abandoned w k s -> (v = w -> r k = None) -> release v r s = Some s' -> abandoned w k s'.
Proof.
  intros Hb Hv Hr. pose proof (release_frame v r s s' Hr) as (Eo & _ & _ & Ec & _).
  unfold abandoned in *. rewrite Eo, Ec. destruct Hb as (Hw & Hst). split; [|done].
  unfold release in Hr. destruct (waiters s !! v) as [x|] eqn:Hx; [|done]; simpl in Hr.
  destruct (decide (v = w)) as [->|Hne].
  - rewrite Hw in Hx. injection Hx as <-. simpl in Hr. by rewrite Hv in Hr.
  - destruct (wOut x); [done|]. destruct (r (wOp x)); [|done]. injection Hr as <-; simpl.
    by rewrite list_lookup_insert_ne.
Qed.

Lemma abandoned_exec w k s a s' :
  abandoned w k s -> noExit w a -> aheadExec lw a s = Some s' -> abandoned w k s'.
Proof.
  intros Hb Ha He. pose proof Hb as (Hw & Hc & o1 & Ho1 & Ht1 & Hcb1 & Hr1).
  destruct a as [d t|j|j|j e|j|j r|j|j| | | |v|v e|v]; simpl in He, Ha;
    try (destruct (ops s !! j) as [o|] eqn:Hj; [|done]; simpl in He;
         try match type of He with match opCb o with _ => _ end = _ => destruct (opCb o) eqn:Hcb; try done end).
  - destruct (0 <=? d); simplify_eq. exact Hb.
  - destruct (opTimer o) eqn:Ht; [|done..]. case_match; simplify_eq.
    eapply abandoned_setOp; [done..|]. left; congruence.
  - rewrite Hc in He. simplify_eq. eapply abandoned_setOp; [done..|]. right; congruence.
  - case_match; simplify_eq; (eapply abandoned_setOp; [done..|]; right; congruence).
  - simplify_eq. change (abandoned w k (setOp j (withCb CbReply o) s)).
    eapply abandoned_setOp; [done..|]. right; congruence.
  - destruct r; simplify_eq; (eapply abandoned_setOp; [done..|]; right; congruence).
  - simplify_eq. eapply abandoned_setOp; [done..|]. right; congruence.
  - simplify_eq.
    assert (abandoned w k (setOp j (withCb CbReturned o) s)) as Hb1.
    { eapply abandoned_setOp; [done..|]. right; congruence. }
    unfold finishRefresh. destruct (opErr o); cbn [scheduleRefresh]; try case_match;
      by apply (abandoned_schedule w k _ _ Hb1).
  - simplify_eq. unfold aheadForceRefresh. pose proof (abandoned_cancel w k s (next s) Hb) as Hb1.
    destruct (cancel (next s) s) as [[] s1]; cbn [snd scheduleRefresh] in *; case_match;
      done || by apply (abandoned_schedule w k s1 0 Hb1).
  - done.
  - simplify_eq. split_and!; [simpl; by apply lookup_app_l_Some|done|by exists o1].
  - refine (abandoned_release _ _ _ _ _ _ Hb _ He); cbn beta. intros _. rewrite Ho1; simpl. by rewrite Hr1.
  - refine (abandoned_release _ _ _ _ _ _ Hb _ He); cbn beta. intros ->. done.
  - refine (abandoned_release _ _ _ _ _ _ Hb _ He); cbn beta. intros _. by rewrite Hc.
Qed.
End Abandoned.

(** C26: the abandoned caller. A forced refresh that stops a pending operation callers
    already wait for leaves them behind: such a caller stays blocked on every
    schedule, new refreshes or not, until its own context is done or the cache is
    closed. (Later callers are served by the new operation.) *)
Theorem force_abandons_caller `{CryptoLib} lw uri s w o due acts s'
    (Hr : reachable lw uri s) (Hopen : ctxCanceled s = false)
    (Hcur : cur s = next s) (Ho : ops s !! cur s = Some o) (Ht : opTimer o = TimerPending due)
    (Hw : waiters s !! w = Some {| wOp := cur s; wOut := None |})
    (Hacts : Forall (noExit w) acts)
    (Hrun : aheadRun lw (ForceRefresh :: acts) s = Some s') :
  waiters s' !! w = Some {| wOp := cur s; wOut := None |}.
Proof.
  pose proof (inv_core _ s (reachable_inv lw uri s Hr)) as Hcore.
  destruct (core_op _ s Hcore _ _ Ho) as [Hok _].
  assert (opCb o = CbNotStarted /\ opReady o = false) as [Hcb Hrd].
  { unfold opOK in Hok. destruct (opCb o); destruct_and?; [by split|congruence..]. }
  assert (abandoned w (cur s) (aheadForceRefresh s)) as Hb.
  { set (s1 := setOp (cur s) (withTimer TimerStopped o) s).
    assert (abandoned w (cur s) s1) as Hb1.
    { split_and!; [done..|]. exists (withTimer TimerStopped o). split_and!; try done.
      by apply setOp_lookup. }
    unfold aheadForceRefresh, cancel. rewrite <- Hcur, Ho, Ht. fold s1. cbn [scheduleRefresh].
    case_match; by apply (abandoned_schedule w (cur s) s1 0). }
  simpl in Hrun. revert Hrun Hacts Hb. generalize (aheadForceRefresh s) as s0.
  induction acts as [|a acts IH]; intros s0 Hrun Hacts Hb; simpl in Hrun.
  - injection Hrun as <-. apply Hb.
  - inversion Hacts; subst. destruct (aheadExec lw a s0) as [s1|] eqn:E; [|done].
    eapply IH; eauto using abandoned_exec.
Qed.

(** ** Shutdown *)

Lemma aheadClose_canceled `{CryptoLib} s : ctxCanceled (aheadClose s) = true.
Proof. unfold aheadClose. by rewrite !cancel_ctx. Qed.

Lemma aheadClose_budget `{CryptoLib} s : requestBudget (aheadClose s) = requestBudget s.
Proof.
  unfold requestBudget, aheadClose. rewrite !requesting_cancel, !cancel_requests.
  by rewrite (requesting_same s).
Qed.

Lemma closed_run_budget `{CryptoLib} lw uri acts s s' :
  (forall t env, lw t true env = false) -> reachable lw uri s -> ctxCanceled s = true ->
  aheadRun lw acts s = Some s' ->
  ctxCanceled s' = true /\ (requestBudget s' <= requestBudget s)%nat.
Proof.
  intros Hlw Hr Hc. revert s' .
  set (Q := fun s' => ctxCanceled s' = true /\ (requestBudget s' <= requestBudget s)%nat).
  intros s'. apply (run_preserves lw Q uri); [|done|by split].
  intros s1 a s2 Hs1 [Hc1 Hb1] He.
  destruct (budget_exec lw uri s1 a s2 Hlw Hs1 Hc1 He). split; [done|lia].
Qed.

(** C22: close. After [Close], on every schedule, even with forced refreshes, at most
    one more refresh calls the Admin API, and only if it was already past the rate
    limiter; and every caller that is still blocked can return the
    cancellation. The rate limiter fails when the context is canceled. *)
Theorem close_stops_requests `{CryptoLib} lw uri s acts s'
    (Hlw : forall t env, lw t true env = false) (Hr : reachable lw uri s)
    (Hrun : aheadRun lw (CloseCache :: acts) s = Some s') :
  (length (requests s') <= length (requests s) + requesting s)%nat /\ (requesting s <= 1)%nat /\
  forall w k, waiters s' !! w = Some {| wOp := k; wOut := None |} ->
    exists s'', aheadExec lw (ConnClosed w) s' = Some s'' /\
      waiters s'' !! w = Some {| wOp := k; wOut := Some (Fail ContextCanceled) |}.
Proof.
  assert (reachable lw uri (aheadClose s)) as Hr1 by (by eapply (reachable_exec _ _ _ CloseCache)).
  destruct (closed_run_budget lw uri acts (aheadClose s) s' Hlw Hr1) as [Hc' Hb'];
    [apply aheadClose_canceled|done|]. rewrite aheadClose_budget in Hb'.
  unfold requestBudget in Hb'. split_and!; [lia|unfold requesting; by repeat case_match; lia|].
  intros w k Hw. simpl. unfold release. rewrite Hw; simpl. rewrite Hc'. eexists; split; [done|].
  simpl. apply list_lookup_insert_eq. by eapply lookup_lt_Some.
Qed.

(** How many steps of callbacks are left once the context is canceled. *)
Definition cbRank `{CryptoLib} (o : refreshOperation) : nat :=
  match opCb o with
  | CbNotStarted => if live o then 3 else 0
  | CbCheck => 2
  | CbWait => 8
  | CbRequest => 7
  | CbReply => 6
  | CbClose stop => if stop then 1 else 5
  | CbLock => 4
  | CbReturned => 0
  end.

Definition rank `{CryptoLib} (s : RefreshAheadCache) : nat :=
  match ops s !! next s with Some o => cbRank o | None => 0 end.

(** The steps of callbacks, the runtime's start of the callback included. *)
Definition cbStep `{CryptoLib} (a : aheadAction) : bool :=
  match a with
  | Fire _ | Check _ | Wait _ _ | Request _ | Reply _ _ | CloseReady _ | Finish _ => true
  | _ => false
  end.

Section Rank.
Context `{CryptoLib} (lw : Duration -> bool -> bool -> bool).
Implicit Types s : RefreshAheadCache.

Lemma rank_setOp s k o o' : core anyInfo s -> ops s !! k = Some o -> live o = true ->
  rank (setOp k o' s) = cbRank o' /\ rank s = cbRank o.
Proof.
  intros Hi Ho Hl. assert (k = next s) as -> by (by eapply live_next). unfold rank. split.
  - change (next (setOp (next s) o' s)) with (next s). by rewrite setOp_lookup.
  - by rewrite Ho.
Qed.

Lemma rank_scheduled s d s' :
  ops s' = ops (scheduleRefresh d s).2 -> next s' = (scheduleRefresh d s).1 -> rank s' = 3%nat.
Proof. intros E1 E2. unfold rank. rewrite E1, E2. simpl. by rewrite list_lookup_middle. Qed.

Lemma rank_same s s' : ops s' = ops s -> next s' = next s -> rank s' = rank s.
Proof. intros E1 E2. unfold rank. by rewrite E1, E2. Qed.

Lemma rank_cancel k s : (rank (cancel k s).2 <= rank s)%nat.
Proof.
  destruct (cancel_frame k s) as (_ & Hn & _ & _ & _ & _ & _ & Hlen & Ho).
  unfold rank. rewrite Hn. unfold cancel. destruct (ops s !! k) as [o|] eqn:E; [|done].
  destruct (opTimer o) eqn:Ht; [|done..]. simpl.
  destruct (decide (k = next s)) as [->|Hne].
  - rewrite list_lookup_insert_eq by (by eapply lookup_lt_Some). rewrite E.
    unfold cbRank, live; simpl. destruct (opCb o); lia.
  - by rewrite list_lookup_insert_ne.
Qed.

Lemma rank_ForceRefresh s : core anyInfo s -> (rank (aheadForceRefresh s) <= rank s)%nat.
Proof.
  intros Hcore. unfold aheadForceRefresh. destruct (cancel (next s) s) as [[] s1] eqn:Hc.
  - destruct (core_next _ s Hcore) as [o Ho]. destruct (core_op _ s Hcore _ _ Ho) as [Hok _].
    assert (rank s = 3%nat) as ->.
    { unfold cancel in Hc. rewrite Ho in Hc. destruct (opTimer o) eqn:Ht; simplify_eq.
      unfold rank. rewrite Ho. unfold cbRank, live, opOK in *. rewrite Ht in *.
      by destruct (opCb o); destruct_and?. }
    cbn [scheduleRefresh]. case_match; by rewrite (rank_scheduled s1 0).
  - apply cancel_false in Hc as ->. case_match; [by rewrite (rank_same s)|done].
Qed.

Lemma rank_exec uri s a s' :
  reachable lw uri s -> ctxCanceled s = true -> aheadExec lw a s = Some s' ->
  ctxCanceled s' = true /\ ((if cbStep a then 1 else 0) + rank s' <= rank s)%nat.
Proof.
  intros Hreach Hc He. pose proof (inv_core _ s (reachable_inv lw uri s Hreach)) as Hcore.
  destruct a as [d w|j|j|j e|j|j r|j|j| | | |w|w e|w]; cbn [cbStep]; simpl in He;
    try (apply release_frame in He as (E1 & _ & E2 & E3 & _);
         rewrite (rank_same s s'), E3 by done; done);
    try (destruct (ops s !! j) as [o|] eqn:Ho; [|done]; simpl in He;
         destruct (core_op _ s Hcore j o Ho) as [Hok _];
         try match type of He with match opCb o with _ => _ end = _ =>
           destruct (opCb o) eqn:Hcb; try done end).
  - destruct (0 <=? d); by simplify_eq.
  - destruct (opTimer o) eqn:Ht; [|done..]. case_match; simplify_eq. split; [done|].
    assert (opCb o = CbNotStarted) as Hcb.
    { unfold opOK in Hok. rewrite Ht in Hok. by destruct (opCb o); destruct_and?. }
    assert (live o = true) as Hl by (unfold live; by rewrite Hcb, Ht).
    destruct (rank_setOp s j o (withCb CbCheck (withTimer TimerFired o))) as [-> ->]; [done..|].
    unfold cbRank. rewrite Hcb, Hl. simpl. lia.
  - rewrite Hc in He; simplify_eq. split; [done|].
    match goal with |- context [setOp j ?o' s] => destruct (rank_setOp s j o o') as [-> ->] end;
      [done..|unfold live; by rewrite Hcb|unfold cbRank; simpl; by rewrite Hcb].
  - split; [by case_match; simplify_eq|].
    case_match; simplify_eq;
    match goal with |- context [setOp j ?o' s] => destruct (rank_setOp s j o o') as [-> ->] end;
      (done || (unfold live; by rewrite Hcb) || (unfold cbRank; simpl; rewrite Hcb; lia)).
  - simplify_eq. split; [done|]. rewrite (rank_same (setOp j (withCb CbReply o) s)) by done.
    match goal with |- context [setOp j ?o' s] => destruct (rank_setOp s j o o') as [-> ->] end;
      (done || (unfold live; by rewrite Hcb) || (unfold cbRank; simpl; rewrite Hcb; lia)).
  - split; [by destruct r; simplify_eq|]. destruct r; simplify_eq;
    match goal with |- context [setOp j ?o' s] => destruct (rank_setOp s j o o') as [-> ->] end;
      (done || (unfold live; by rewrite Hcb) || (unfold cbRank; simpl; rewrite Hcb; lia)).
  - simplify_eq. split; [done|].
    match goal with |- context [setOp j ?o' s] => destruct (rank_setOp s j o o') as [-> ->] end;
      [done..|unfold live; by rewrite Hcb|unfold cbRank; simpl; rewrite Hcb; by destruct stop].
  - simplify_eq. destruct (rank_setOp s j o o) as [_ Hrk]; [done..|unfold live; by rewrite Hcb|].
    rewrite Hrk. unfold cbRank. rewrite Hcb. unfold finishRefresh.
    split; destruct (opErr o); cbn [scheduleRefresh]; try case_match; try done;
      by erewrite (rank_scheduled (setOp j (withCb CbReturned o) s)).
  - simplify_eq. split; [|by apply rank_ForceRefresh].
    unfold aheadForceRefresh. pose proof (cancel_ctx (next s) s) as Hx.
    destruct (cancel (next s) s) as [[] s1]; cbn [scheduleRefresh snd] in *; case_match; simpl; congruence.
  - simplify_eq. split; [apply aheadClose_canceled|]. unfold aheadClose.
    etrans; [apply rank_cancel|]. etrans; [apply rank_cancel|]. by rewrite (rank_same s).
  - by simplify_eq.
Qed.
End Rank.

(** C13: the refresh cycle ends. Once the cache is closed, all its callbacks together
    take at most eight more steps, on every schedule and whatever callers do: no
    goroutine is left behind. *)
Theorem closed_cycle_ends `{CryptoLib} lw uri s acts s'
    (Hr : reachable lw uri s) (Hc : ctxCanceled s = true)
    (Hrun : aheadRun lw acts s = Some s') :
  (length (filter (fun a => cbStep a = true) acts) <= 8)%nat.
Proof.
  enough (length (filter (fun a => cbStep a = true) acts) + rank s' <= rank s)%nat as Hle.
  { enough (rank s <= 8)%nat by lia. unfold rank, cbRank. repeat case_match; lia. }
  revert s Hr Hc Hrun. induction acts as [|a acts IH]; intros s Hr Hc Hrun; simpl in Hrun.
  - injection Hrun as <-. by rewrite filter_nil.
  - destruct (aheadExec lw a s) as [s1|] eqn:He; [|done]. simpl in Hrun.
    destruct (rank_exec lw uri s a s1 Hr Hc He) as [Hc1 Hrk].
    specialize (IH s1 (reachable_exec _ _ _ _ _ Hr He) Hc1 Hrun).
    rewrite list.filter_cons. destruct (cbStep a); case_decide; simpl; done || lia.
Qed.

(** ** A request that does not return *)
Section Stuck.
Context `{CryptoLib} (lw : Duration -> bool -> bool -> bool).
Implicit Types s : RefreshAheadCache.

(** Operation [k] waits for the answer of the Admin API. *)
Definition inReply (k : nat) s : Prop := exists o, ops s !! k = Some o /\ opCb o = CbReply.

Definition notReply (a : aheadAction) : Prop := match a with Reply _ _ => False | _ => True end.

Lemma inReply_only uri k s j o :
  reachable lw uri s -> inReply k s -> ops s !! j = Some o -> live o = true -> opCb o = CbReply.
Proof.
  intros Hr (o' & Ho' & Hcb) Ho Hl. pose proof (inv_core _ s (reachable_inv lw uri s Hr)) as Hcore.
  assert (j = next s) as -> by (by eapply live_next).
  assert (k = next s) as -> by (eapply live_next; [done|done|]; unfold live; by rewrite Hcb).
  congruence.
Qed.

(** No timer is pending then. *)
Lemma inReply_cancel uri k s s1 j :
  reachable lw uri s -> inReply k s -> ops s1 = ops s -> cancel j s1 = (false, s1).
Proof.
  intros Hr Hk E. unfold cancel. rewrite E. destruct (ops s !! j) as [o|] eqn:Ho; [|done].
  destruct (opTimer o) eqn:Ht; [|done..].
  destruct (core_op _ s (inv_core _ s (reachable_inv lw uri s Hr)) j o Ho) as [Hok _].
  assert (opCb o = CbNotStarted) as Hcb.
  { unfold opOK in Hok. rewrite Ht in Hok. by destruct (opCb o); destruct_and?. }
  assert (opCb o = CbReply) by (eapply inReply_only; [done..|]; unfold live; by rewrite Hcb, Ht).
  congruence.
Qed.

Lemma inReply_exec uri k s a s' :
  reachable lw uri s -> inReply k s -> notReply a -> aheadExec lw a s = Some s' ->
  ops s' = ops s /\ next s' = next s /\ requests s' = requests s.
Proof.
  intros Hr Hk Ha He.
  assert (forall j o, ops s !! j = Some o -> live o = true -> opCb o <> CbReply -> False) as Hno.
  { intros j o Ho Hl Hne. by eapply Hne, inReply_only. }
  destruct a as [d w|j|j|j e|j|j r|j|j| | | |w|w e|w]; simpl in He, Ha; try done;
    try (apply release_frame in He as (E1 & _ & E2 & _ & E3 & _); by rewrite E1, E2, E3);
    try (destruct (ops s !! j) as [o|] eqn:Ho; [|done]; simpl in He;
         try (destruct (opCb o) eqn:Hcb; try done;
              exfalso; eapply (Hno j o); [done|unfold live; by rewrite Hcb|congruence])).
  - destruct (0 <=? d); by simplify_eq.
  - pose proof (inReply_cancel uri k s s j Hr Hk eq_refl) as Hc. unfold cancel in Hc. rewrite Ho in Hc.
    by destruct (opTimer o).
  - simplify_eq. unfold aheadForceRefresh. rewrite (inReply_cancel uri k s) by done. by case_match.
  - simplify_eq. unfold aheadClose.
    rewrite (inReply_cancel uri k s (setCanceled s)) by done. cbn [snd].
    rewrite (inReply_cancel uri k s) by done. by cbn [snd].
  - by simplify_eq.
Qed.
End Stuck.

(** C39: no limit on a refresh. Once a refresh is inside its call of the Admin API, only
    the call's own return ends it: until then, however much time passes and whatever
    else happens (forced refreshes, a close, new callers), the cache starts no other
    operation and no other request. The refresh timeout bounds the rate limiter alone. *)
Theorem refresh_unbounded `{CryptoLib} lw uri s k acts s'
    (Hr : reachable lw uri s) (Hk : inReply k s)
    (Hacts : Forall notReply acts) (Hrun : aheadRun lw acts s = Some s') :
  inReply k s' /\ ops s' = ops s /\ next s' = k /\ requests s' = requests s.
Proof.
  assert (next s = k) as Hnext.
  { destruct Hk as (o & Ho & Hcb). symmetry. eapply live_next; [|done|unfold live; by rewrite Hcb].
    by eapply inv_core, reachable_inv. }
  enough (ops s' = ops s /\ next s' = next s /\ requests s' = requests s) as (E1 & E2 & E3).
  { unfold inReply in *. rewrite E1, E2, E3. done. }
  clear Hnext. revert s Hr Hk Hrun. induction Hacts as [|a acts Ha _ IH]; intros s Hr Hk Hrun; simpl in Hrun.
  - by simplify_eq.
  - destruct (aheadExec lw a s) as [s1|] eqn:He; [|done]. simpl in Hrun.
    destruct (inReply_exec lw uri k s a s1 Hr Hk Ha He) as (E1 & E2 & E3).
    destruct (IH s1) as (F1 & F2 & F3); [by eapply reachable_exec|unfold inReply; by rewrite E1|done|].
    split_and!; congruence.
Qed.

(** ** Concrete inputs *)

#[local] Existing Instance Toy.lib.

(** A caller blocks on the first refresh, which has not been started. *)
Lemma caller_released_witness :
  let s := ToyAhead.after [ConnBegin] in
  let r := Ret ToyAhead.info in
  exists acts s' out, Forall (threadOf 0 true r) acts /\
    aheadRun ToyAhead.limiter (acts ++ [ConnReady 0]) s = Some s' /\
    published 0 out s' /\ waiters s' !! 0%nat = Some {| wOp := 0; wOut := Some out |}.
Proof.
  intros s r. eapply (caller_released ToyAhead.limiter Toy.uri s 0 0).
  - toy_reach [ConnBegin : aheadAction].
  - vm_compute; reflexivity.
  - vm_compute; reflexivity.
  - vm_compute; discriminate.
  - reflexivity.
Defined.

Lemma conn_sound_witness :
  let acts := ConnBegin :: ToyAhead.fetch 0 (Ret ToyAhead.info) ++ [ConnReady 0; Finish 0] in
  exists s, aheadRun ToyAhead.limiter acts ToyAhead.start = Some s /\
  (forall w x ci, waiters s !! w = Some x -> wOut x = Some (Ret ci) -> infoOK Toy.uri ci) /\
  (isValid (cur s) s = true -> exists o, ops s !! cur s = Some o /\
     infoOK Toy.uri (opResult o) /\ wall s <= Expiration (opResult o)).
Proof.
  intros acts. eexists. split; [vm_compute; reflexivity|].
  eapply (conn_sound (H := Toy.lib) ToyAhead.limiter Toy.uri Toy.api 0 RefreshTimeout "id" false 0 0 acts).
  - repeat constructor.
    + vm_compute; discriminate.
    + eexists. split; vm_compute; reflexivity.
    + eexists. vm_compute; reflexivity.
  - vm_compute; reflexivity.
Defined.

(** A whole new refresh completes, and a later caller is served; the first is not. *)
Lemma force_abandons_caller_witness :
  let s := ToyAhead.after [ConnBegin] in
  let acts := ToyAhead.fetch 1 (Ret ToyAhead.info) ++ [Finish 1; ConnBegin; ConnReady 1] in
  exists s', aheadRun ToyAhead.limiter (ForceRefresh :: acts) s = Some s' /\
    wOut <$> waiters s' !! 1%nat = Some (Some (Ret ToyAhead.info)) /\
    waiters s' !! 0%nat = Some {| wOp := cur s; wOut := None |}.
Proof.
  intros s acts. eexists. split; [vm_compute; reflexivity|]. split; [vm_compute; reflexivity|].
  eapply (force_abandons_caller ToyAhead.limiter Toy.uri s 0 (newOp 0) 0 acts).
  - toy_reach [ConnBegin : aheadAction].
  - reflexivity.
  - reflexivity.
  - reflexivity.
  - reflexivity.
  - reflexivity.
  - repeat constructor; vm_compute; discriminate.
  - vm_compute; reflexivity.
Defined.

(** A running refresh ends after the close, and a blocked caller is released. *)
Lemma close_stops_requests_witness :
  let s := ToyAhead.after [ConnBegin; Fire 0; Check 0; Wait 0 true] in
  let acts := [Request 0; Reply 0 (Fail ContextCanceled); CloseReady 0; ForceRefresh; Finish 0;
               Fire 1; Check 1; CloseReady 1] in
  exists s', aheadRun ToyAhead.limiter (CloseCache :: acts) s = Some s' /\
  (length (requests s') <= length (requests s) + requesting s)%nat /\ (requesting s <= 1)%nat /\
  forall w k, waiters s' !! w = Some {| wOp := k; wOut := None |} ->
    exists s'', aheadExec ToyAhead.limiter (ConnClosed w) s' = Some s'' /\
      waiters s'' !! w = Some {| wOp := k; wOut := Some (Fail ContextCanceled) |}.
Proof.
  intros s acts. eexists. split; [vm_compute; reflexivity|].
  eapply (close_stops_requests ToyAhead.limiter Toy.uri s acts).
  - reflexivity.
  - toy_reach [ConnBegin; Fire 0; Check 0; Wait 0 true].
  - vm_compute; reflexivity.
Defined.

Lemma closed_cycle_ends_witness :
  let s := ToyAhead.after [Fire 0; Check 0; CloseCache] in
  let acts := [Wait 0 true; ForceRefresh; CloseReady 0; Finish 0; Fire 1; Check 1; CloseReady 1] in
  is_Some (aheadRun ToyAhead.limiter acts s) /\
  (length (filter (fun a => cbStep a = true) acts) <= 8)%nat.
Proof.
  intros s acts. split; [eexists; vm_compute; reflexivity|].
  eapply (closed_cycle_ends ToyAhead.limiter Toy.uri s acts).
  - toy_reach [Fire 0; Check 0; CloseCache].
  - reflexivity.
  - vm_compute; reflexivity.
Defined.

(** A day passes, a caller comes, the refresh is forced, and the caller's context ends. *)
Lemma refresh_unbounded_witness :
  let s := ToyAhead.after [Fire 0; Check 0; Wait 0 true; Request 0] in
  let acts := [Tick (24 * Hour) (24 * Hour); ConnBegin; ForceRefresh; ConnCtx 0 ContextDeadlineExceeded] in
  exists s', aheadRun ToyAhead.limiter acts s = Some s' /\ RefreshTimeout < mono s' - mono s /\
  inReply 0 s' /\ ops s' = ops s /\ next s' = 0%nat /\ requests s' = requests s.
Proof.
  intros s acts. eexists. split; [vm_compute; reflexivity|]. split; [vm_compute; reflexivity|].
  eapply (refresh_unbounded ToyAhead.limiter Toy.uri s 0 acts).
  - toy_reach [Fire 0; Check 0; Wait 0 true; Request 0].
  - eexists. split; vm_compute; reflexivity.
  - repeat constructor.
  - vm_compute; reflexivity.
Defined.
