(* ===== verification/AheadCache.v ===== *)
(** * The refresh-ahead cache behind the cache interface

    A call of [ConnectionInfo] begins by reading the current operation and returns by one
    of the cases of its [select]; in between, other calls and the cache's own threads
    run. The environment of the return says which case is taken: it is blocked if that
    case is not ready. *)
From S2P Require Import Prelude GoTime ErrType InstanceURI Refresh Cache Ahead AheadInv AheadProps.
#[local] Open Scope list_scope.

Section AheadCache.
Context `{CryptoLib}.
Implicit Types s c : RefreshAheadCache.

(** The cases of the [select]: the operation is ready, the caller's context is done, the
    cache is closed. *)
Inductive selectCase := SelReady | SelCtx (err : error) | SelClosed.

Record aheadEnv := {
  aWait : Duration -> bool -> bool -> bool;        (* the rate limiter *)
  aSched : adminAPIClient -> InstanceURI -> list aheadAction; (* what the cache's threads do *)
  aSelect : selectCase;
  aMono : Z; aWall : Time }.                       (* the clocks when a cache is made *)

(** A schedule that is not possible does not happen. *)
Definition aheadTick (e : aheadEnv) c : RefreshAheadCache :=
  default c (aheadRun (aWait e) (aSched e (aheadR c) (instanceURI c)) c).

Definition aheadBegin c : nat * RefreshAheadCache :=
  (length (waiters c), setWaiters (waiters c ++ [{| wOp := cur c; wOut := None |}]) c).

Definition selectAction (sel : selectCase) (w : nat) : aheadAction :=
  match sel with SelReady => ConnReady w | SelCtx err => ConnCtx w err | SelClosed => ConnClosed w end.

(** The return of call [w]; the schedule of the cache may have made that step already. *)
Definition aheadReturn (e : aheadEnv) (w : nat) c : option (res ConnectionInfo * RefreshAheadCache) :=
  match waiters c !! w ≫= wOut with
  | Some r => Some (r, c)
  | None =>
      s ← aheadExec (aWait e) (selectAction (aSelect e) w) c;
      r ← waiters s !! w ≫= wOut;
      Some (r, s)
  end.

#[export] Instance ahead_cache : InfoCache RefreshAheadCache aheadEnv := {
  cacheBegin _ := aheadBegin;
  cacheAwait := aheadReturn;
  cacheForceRefresh _ c := Some (aheadForceRefresh c);
  cacheClose _ := aheadClose;
  cacheTick := aheadTick;
}.

(** ** The laws *)

(** No step changes the instance or the client, reopens the cache, or forgets a caller. *)
Definition aheadLater s s' : Prop :=
  instanceURI s' = instanceURI s /\ aheadR s' = aheadR s /\ (ctxCanceled s = true -> ctxCanceled s' = true) /\
  (length (waiters s) <= length (waiters s'))%nat.

#[local] Instance aheadLater_preorder : PreOrder aheadLater.
Proof. split; [by intros s|]. intros s1 s2 s3 (? & ? & ? & ?) (? & ? & ? & ?). split_and!; [congruence..|auto|lia]. Qed.

Lemma cancel_uri k s : instanceURI (cancel k s).2 = instanceURI s.
Proof. unfold cancel. by repeat case_match. Qed.

Lemma cancel_client k s : aheadR (cancel k s).2 = aheadR s.
Proof. unfold cancel. by repeat case_match. Qed.

Lemma cancel_waiters k s : waiters (cancel k s).2 = waiters s.
Proof. apply (cancel_frame k s). Qed.

Lemma release_later w r s s' : release w r s = Some s' -> aheadLater s s'.
Proof.
  unfold release. destruct (waiters s !! w) as [x|]; [|done]; simpl.
  destruct (wOut x); [done|]. destruct (r (wOp x)); [|done]. intros [= <-].
  split_and!; [done..|]. simpl. by rewrite length_insert.
Qed.

Lemma force_later s : aheadLater s (aheadForceRefresh s).
Proof.
  unfold aheadForceRefresh. pose proof (cancel_uri (next s) s) as E1. pose proof (cancel_ctx (next s) s) as E2.
  pose proof (cancel_waiters (next s) s) as E3. pose proof (cancel_client (next s) s) as E4. unfold aheadLater.
  destruct (cancel (next s) s) as [[] s1]; cbn [scheduleRefresh snd] in *; case_match; simpl;
    rewrite E1, E2, E3, E4; by split_and!.
Qed.

Lemma close_later s : aheadLater s (aheadClose s) /\ ctxCanceled (aheadClose s) = true.
Proof.
  unfold aheadClose, aheadLater. rewrite !cancel_uri, !cancel_client, !cancel_ctx, !cancel_waiters. by split_and!.
Qed.

Lemma exec_later lw a s s' : aheadExec lw a s = Some s' -> aheadLater s s'.
Proof.
  destruct a as [d w|j|j|j e|j|j r|j|j| | | |w|w e|w]; simpl; intros He;
    try (by eapply release_later); try (destruct (ops s !! j) as [o|]; [|done]; simpl in He).
  - destruct (0 <=? d)%Z; by simplify_eq.
  - destruct (opTimer o); [|done..]. case_match; by simplify_eq.
  - destruct (opCb o); try done. case_match; by simplify_eq.
  - destruct (opCb o); try done. case_match; by simplify_eq.
  - destruct (opCb o); by simplify_eq.
  - destruct (opCb o), r; by simplify_eq.
  - destruct (opCb o); by simplify_eq.
  - destruct (opCb o); simplify_eq. unfold finishRefresh.
    destruct (opErr o); cbn [scheduleRefresh]; [case_match|]; done.
  - simplify_eq. apply force_later.
  - simplify_eq. apply close_later.
  - simplify_eq. split_and!; [done..|]. simpl. rewrite length_app; simpl; lia.
Qed.

Lemma run_later lw acts s s' : aheadRun lw acts s = Some s' -> aheadLater s s'.
Proof.
  revert s; induction acts as [|a acts IH]; intros s; simpl; [by intros [= <-]|].
  destruct (aheadExec lw a s) as [s1|] eqn:E; simpl; [|done]. intros Hr.
  apply exec_later in E. apply IH in Hr. by etransitivity.
Qed.

Lemma tick_later e c : aheadLater c (aheadTick e c).
Proof. unfold aheadTick. destruct (aheadRun _ _ _) as [s|] eqn:E; simpl; [by eapply run_later|done]. Qed.

Lemma begin_exec lw c : aheadExec lw ConnBegin c = Some (aheadBegin c).2.
Proof. done. Qed.

(** A return is a step of the cache, or nothing, and its result is in the caller. *)
Lemma return_exec e w c r c' :
  aheadReturn e w c = Some (r, c') ->
  (c' = c \/ aheadExec (aWait e) (selectAction (aSelect e) w) c = Some c') /\ waiters c' !! w ≫= wOut = Some r.
Proof.
  unfold aheadReturn. destruct (waiters c !! w ≫= wOut) as [r0|] eqn:Hw; [intros [= -> ->]; by auto|].
  destruct (aheadExec _ _ c) as [s|]; simpl; [|done].
  destruct (waiters s !! w ≫= wOut) as [r0|] eqn:Hr; simpl; [|done]. intros [= -> ->]. by auto.
Qed.

(** The fields of the dialer that such a cache is made from. *)
Record aheadMaker := {
  amClient : AlloyDBAdminClient; amTimeout : Duration; amDialerID : string; amDisable : bool }.

(** [alloydb.NewRefreshAheadCache(uri, ...)]. (A nil key, which only follows a panic of the
    key generation, would make the first refresh panic; here the cache's making does.) *)
Definition newAhead (e : aheadEnv) (k : option PrivateKey) (uri : InstanceURI) (m : aheadMaker) : res RefreshAheadCache :=
  match k with
  | Some k => Ret (NewRefreshAheadCache uri (amClient m) k (amTimeout m) (amDialerID m) (amDisable m) (aMono e) (aWall e))
  | None => Panic "invalid memory address or nil pointer dereference"
  end.

#[export] Instance ahead_maker : CacheMaker RefreshAheadCache aheadEnv aheadMaker := {
  cacheNew e k uri m := (newAhead e k uri m, m);
}.

(** What the answers of the Admin API to the cache's client satisfy, the infos do. *)
Section Laws.
Context (P : InstanceURI -> ConnectionInfo -> Prop) (HP : forall i ci, P i ci -> infoOK i ci).
Context (R : adminAPIClient -> Prop).

Definition aheadFor (i : InstanceURI) c : Prop := instanceURI c = i /\ R (aheadR c) /\ inv (P i) c.

Definition aheadEnvOK (e : aheadEnv) : Prop := forall r i, R r -> Forall (actOK (P i)) (aSched e r i).

Lemma exec_for i lw a c c' :
  aheadFor i c -> actOK (P i) a -> aheadExec lw a c = Some c' -> aheadFor i c'.
Proof.
  intros (Hu & Hr & Hi) Ha E. destruct (exec_later _ _ _ _ E) as (E1 & E2 & _). split_and!; [congruence..|]. by eapply inv_exec.
Qed.

Lemma tick_for i e c : aheadFor i c -> aheadEnvOK e -> aheadFor i (aheadTick e c).
Proof.
  intros (<- & Hr & Hi) He. destruct (tick_later e c) as (E1 & E2 & _). split_and!; [done|congruence|]. clear E1 E2. unfold aheadTick.
  destruct (aheadRun _ _ _) as [s|] eqn:E; simpl; [|done]. eapply inv_run; [exact Hi|by apply He|exact E].
Qed.

Lemma return_for i e w c r c' : aheadFor i c -> aheadReturn e w c = Some (r, c') -> aheadFor i c'.
Proof.
  intros Hc ([-> |Hex] & _)%return_exec; [done|]. eapply exec_for; [exact Hc| |exact Hex]. by destruct (aSelect e).
Qed.

(** A return is enabled when its case of the [select] is. *)
Lemma return_enabled e n c r :
  (n < length (waiters c))%nat -> aheadExec (aWait e) (selectAction (aSelect e) n) c = release n r c ->
  (forall k, is_Some (r k)) -> is_Some (aheadReturn e n c).
Proof.
  intros Hn Hex Hr. unfold aheadReturn. rewrite Hex. unfold release.
  destruct (lookup_lt_is_Some_2 _ _ Hn) as [x Hx]. rewrite Hx; simpl.
  destruct (wOut x) as [out|]; [by eexists|]. destruct (Hr (wOp x)) as [out ->]. simpl.
  rewrite list_lookup_insert_eq by done. by eexists.
Qed.

(** Interface and cache agree on what comes later. *)
Lemma later_stopped c c' : aheadLater c c' ->
  (ctxCanceled c = true -> ctxCanceled c' = true) /\
  forall n, (n < length (waiters c))%nat -> (n < length (waiters c'))%nat.
Proof. intros (_ & _ & ? & ?). split; [done|]. intros; lia. Qed.

#[local] Program Instance ahead_laws_of : InfoCacheLaws RefreshAheadCache aheadEnv := {
  cacheFor := aheadFor;
  cacheEnv := aheadEnvOK;
  cacheCtxDone e := exists err, aSelect e = SelCtx err;
  cacheSelClosed e _ := aSelect e = SelClosed;
  cacheStopped c := ctxCanceled c = true;
  cacheWaiting n c := (n < length (waiters c))%nat;
  cacheInfoOK := P;
}.
Next Obligation. exact HP. Qed.
Next Obligation. intros i e c Hc _. eapply exec_for; [exact Hc| |apply (begin_exec (fun _ _ _ => true))]. done. Qed.
Next Obligation. intros i e n c r c' Hc _. by apply return_for. Qed.
Next Obligation. intros i e c c' Hc _ [= <-]. eapply (exec_for i (fun _ _ _ => true) ForceRefresh); [exact Hc|done|done]. Qed.
Next Obligation. intros i e c Hc _. eapply (exec_for i (fun _ _ _ => true) CloseCache); [exact Hc|done|done]. Qed.
Next Obligation. intros; by apply tick_for. Qed.
Next Obligation.
  intros i e n c ci c' Hc _ Hr. destruct (return_for i e n c _ c' Hc Hr) as (_ & _ & Hi).
  apply return_exec in Hr as [_ Hr]. destruct (waiters c' !! n) as [x|] eqn:Hx; simpl in Hr; [|done].
  destruct (list.Forall_lookup_1 _ _ _ _ (core_waiters _ c' (inv_core _ c' Hi)) Hx) as [_ Hok]. by apply Hok.
Qed.
Next Obligation. intros e c. apply close_later. Qed.
Next Obligation. intros e c. simpl. rewrite length_app; simpl; lia. Qed.
Next Obligation. intros e c. by eapply later_stopped, exec_later, (begin_exec (fun _ _ _ => true)). Qed.
Next Obligation.
  intros e n c r c' ([-> |Hex] & _)%return_exec; apply later_stopped; [done|by eapply exec_later].
Qed.
Next Obligation. intros e c c' [= <-]. apply later_stopped, force_later. Qed.
Next Obligation. intros e c. apply later_stopped, close_later. Qed.
Next Obligation. intros e c. apply later_stopped, tick_later. Qed.
Next Obligation.
  intros e n c Hn [err Hsel]. apply (return_enabled e n c (fun _ => Some (Fail err))); [done|by rewrite Hsel|done].
Qed.
Next Obligation.
  intros e n c Hn Hc Hsel. simpl in Hc.
  apply (return_enabled e n c (fun _ => Some (Fail ContextCanceled))); [done| |done].
  rewrite Hsel; simpl. by rewrite Hc.
Qed.
Next Obligation. intros e c _. by eexists. Qed.

#[local] Program Instance ahead_maker_laws_of : CacheMakerLaws RefreshAheadCache aheadEnv aheadMaker := {
  makerOK m := forall k, R (newAdminAPIClient (amClient m) k (amDialerID m) (amDisable m)) }.
Next Obligation. done. Qed.
Next Obligation. intros e [k|] i m c _ Hm [= <-]. split_and!; [done|apply Hm|apply inv_init]. Qed.
End Laws.

(** With answers that are well formed. *)
#[export] Instance ahead_laws : InfoCacheLaws RefreshAheadCache aheadEnv := ahead_laws_of infoOK (fun _ _ Hci => Hci) (fun _ => True).
#[export] Instance ahead_maker_laws : CacheMakerLaws RefreshAheadCache aheadEnv aheadMaker := ahead_maker_laws_of infoOK _ _.
End AheadCache.
