(* ===== verification/AnyCache.v ===== *)
(** * The three caches of the dialer ([connectionInfoCache], [src/dialer.go])

    Which cache the dialer makes: lazy, static, or refresh-ahead; the interface value
    that holds one of them; and the reader of static data, which all static caches of a
    dialer share. *)
From S2P Require Import Prelude GoTime ErrType GoJSON GoJSONProps InstanceURI Refresh Cache Static Lazy Ahead AheadInv AheadProps AheadCache.
#[local] Open Scope string_scope.
#[local] Open Scope list_scope.
#[local] Open Scope Z_scope.

Section AnyCache.
Context `{CryptoLib}.

(** A value of the interface type. *)
Inductive anyCache :=
| AnyLazy (c : lazyShared)
| AnyStatic (c : StaticConnectionInfoCache)
| AnyAhead (c : RefreshAheadCache).

(** The environments of all three, and the order of Go's maps in this call. *)
Record anyEnv := {
  anyLazy : lazyEnv;
  anyAhead : aheadEnv;
  anyIter : gmap string json -> list (string * json) }.

(** The fields of the dialer that decide what is made, and what it is made from. *)
Record makerState := {
  mkLazyRefresh : bool;
  mkStatic : option reader;
  mkClient : AlloyDBAdminClient;
  mkTimeout : Duration;
  mkDialerID : string;
  mkDisable : bool }.

Definition setReader (r : reader) (m : makerState) : makerState :=
  {| mkLazyRefresh := mkLazyRefresh m; mkStatic := Some r; mkClient := mkClient m; mkTimeout := mkTimeout m;
     mkDialerID := mkDialerID m; mkDisable := mkDisable m |}.

Definition aheadFields (m : makerState) : aheadMaker :=
  {| amClient := mkClient m; amTimeout := mkTimeout m; amDialerID := mkDialerID m; amDisable := mkDisable m |}.

(** The switch. (A nil key, which only follows a panic of the key generation, would make
    the lazy cache panic at its first refresh; here it does when it is made.) *)
Definition newCache (e : anyEnv) (k : option PrivateKey) (uri : InstanceURI) (m : makerState)
    : res anyCache * makerState :=
  if mkLazyRefresh m then
    (match k with
     | Some k => Ret (AnyLazy (newShared (NewLazyRefreshCache uri (mkClient m) k (mkDialerID m) (mkDisable m))))
     | None => Panic "invalid memory address or nil pointer dereference"
     end, m)
  else
    match mkStatic m with
    | Some r => let '(c, r) := NewStaticConnectionInfoCache (anyIter e) uri r in
                (AnyStatic <$> c, setReader r m)
    | None => (AnyAhead <$> newAhead (anyAhead e) k uri (aheadFields m), m)
    end.

(** ** Dynamic dispatch *)

#[export] Instance any_cache : InfoCache anyCache anyEnv := {
  cacheBegin e c :=
    match c with
    | AnyLazy c => let '(n, c) := cacheBegin (anyLazy e) c in (n, AnyLazy c)
    | AnyStatic c => let '(n, c) := cacheBegin () c in (n, AnyStatic c)
    | AnyAhead c => let '(n, c) := cacheBegin (anyAhead e) c in (n, AnyAhead c)
    end;
  cacheAwait e n c :=
    match c with
    | AnyLazy c => '(r, c) ← cacheAwait (anyLazy e) n c; Some (r, AnyLazy c)
    | AnyStatic c => '(r, c) ← cacheAwait () n c; Some (r, AnyStatic c)
    | AnyAhead c => '(r, c) ← cacheAwait (anyAhead e) n c; Some (r, AnyAhead c)
    end;
  cacheForceRefresh e c :=
    match c with
    | AnyLazy c => AnyLazy <$> cacheForceRefresh (anyLazy e) c
    | AnyStatic c => AnyStatic <$> cacheForceRefresh () c
    | AnyAhead c => AnyAhead <$> cacheForceRefresh (anyAhead e) c
    end;
  cacheClose e c :=
    match c with
    | AnyLazy c => AnyLazy (cacheClose (anyLazy e) c)
    | AnyStatic c => AnyStatic (cacheClose () c)
    | AnyAhead c => AnyAhead (cacheClose (anyAhead e) c)
    end;
  cacheTick e c :=
    match c with
    | AnyLazy c => AnyLazy (cacheTick (anyLazy e) c)
    | AnyStatic c => AnyStatic (cacheTick () c)
    | AnyAhead c => AnyAhead (cacheTick (anyAhead e) c)
    end;
}.

#[export] Instance any_maker : CacheMaker anyCache anyEnv makerState := { cacheNew := newCache }.

(** ** The laws, from those of the three *)

Section Laws.
Context (P : InstanceURI -> ConnectionInfo -> Prop) (HP : forall i ci, P i ci -> infoOK i ci).
Context (R : adminAPIClient -> Prop) (MOK : makerState -> Prop).
Context (HR : forall m k, MOK m -> R (newAdminAPIClient (mkClient m) k (mkDialerID m) (mkDisable m))).
Context (HS : forall m r iter i c, MOK m -> mkStatic m = Some r -> visitsAll iter ->
  (NewStaticConnectionInfoCache iter i r).1 = Ret c -> P i (staticInfo c)).
Context (HM : forall m r iter i, MOK m -> mkStatic m = Some r ->
  MOK (setReader (NewStaticConnectionInfoCache iter i r).2 m)).
#[local] Instance lazy_laws_P : InfoCacheLaws lazyShared lazyEnv := lazy_laws_of P HP R.
#[local] Instance static_laws_P : InfoCacheLaws StaticConnectionInfoCache unit := static_laws_of P HP.
#[local] Instance ahead_laws_P : InfoCacheLaws RefreshAheadCache aheadEnv := ahead_laws_of P HP R.
#[local] Instance ahead_maker_laws_P : CacheMakerLaws RefreshAheadCache aheadEnv aheadMaker := ahead_maker_laws_of P HP R.

Definition anyFor (i : InstanceURI) (c : anyCache) : Prop :=
  match c with
  | AnyLazy c => cacheFor (E := lazyEnv) i c
  | AnyStatic c => cacheFor (E := unit) i c
  | AnyAhead c => cacheFor (E := aheadEnv) i c
  end.

Definition anyEnvOK (e : anyEnv) : Prop :=
  lazyEnvOK P R (anyLazy e) /\ aheadEnvOK P R (anyAhead e) /\ visitsAll (anyIter e).

Definition anyStopped (c : anyCache) : Prop :=
  match c with
  | AnyLazy c => cacheStopped (E := lazyEnv) c
  | AnyStatic c => cacheStopped (E := unit) c
  | AnyAhead c => cacheStopped (E := aheadEnv) c
  end.

Definition anyCtxDone (e : anyEnv) : Prop :=
  cacheCtxDone (C := lazyShared) (anyLazy e) /\ cacheCtxDone (C := RefreshAheadCache) (anyAhead e).

Definition anySelClosed (e : anyEnv) (c : anyCache) : Prop :=
  match c with
  | AnyLazy c => cacheSelClosed (anyLazy e) c
  | AnyStatic c => cacheSelClosed () c
  | AnyAhead c => cacheSelClosed (anyAhead e) c
  end.

Definition anyWaiting (n : nat) (c : anyCache) : Prop :=
  match c with
  | AnyLazy c => cacheWaiting (E := lazyEnv) n c
  | AnyStatic c => cacheWaiting (E := unit) n c
  | AnyAhead c => cacheWaiting (E := aheadEnv) n c
  end.

(** The return of a call is that of the cache inside. *)
Lemma anyAwait_Some e n c r c' :
  cacheAwait e n c = Some (r, c') ->
  match c with
  | AnyLazy c => exists c1, cacheAwait (anyLazy e) n c = Some (r, c1) /\ c' = AnyLazy c1
  | AnyStatic c => exists c1, cacheAwait () n c = Some (r, c1) /\ c' = AnyStatic c1
  | AnyAhead c => exists c1, cacheAwait (anyAhead e) n c = Some (r, c1) /\ c' = AnyAhead c1
  end.
Proof.
  destruct c as [c|c|c]; simpl.
  - intros ([r1 c1] & E & [= <- <-])%bind_Some. by exists c1.
  - intros [= <- <-]. by exists c.
  - intros ([r1 c1] & E & [= <- <-])%bind_Some. by exists c1.
Qed.

Lemma anyForce_Some e c c' :
  cacheForceRefresh e c = Some c' ->
  match c with
  | AnyLazy c => exists c1, cacheForceRefresh (anyLazy e) c = Some c1 /\ c' = AnyLazy c1
  | AnyStatic c => exists c1, cacheForceRefresh () c = Some c1 /\ c' = AnyStatic c1
  | AnyAhead c => exists c1, cacheForceRefresh (anyAhead e) c = Some c1 /\ c' = AnyAhead c1
  end.
Proof. destruct c as [c|c|c]; intros (c1 & E & ->)%fmap_Some; by exists c1. Qed.

#[local] Program Instance any_laws_of : InfoCacheLaws anyCache anyEnv := {
  cacheFor := anyFor; cacheEnv := anyEnvOK; cacheCtxDone := anyCtxDone; cacheSelClosed := anySelClosed;
  cacheStopped := anyStopped; cacheWaiting := anyWaiting; cacheInfoOK := P }.
Next Obligation. exact HP. Qed.
Next Obligation.
  intros i e [c|c|c] Hc (Hl & Ha & _);
    [exact (cache_begin_inv i (anyLazy e) c Hc Hl)|done|exact (cache_begin_inv i (anyAhead e) c Hc Ha)].
Qed.
Next Obligation.
  intros i e n c r c' Hc (Hl & Ha & _) Hr%anyAwait_Some. destruct c as [c|c|c], Hr as (c1 & Hr & ->).
  - exact (cache_await_inv i (anyLazy e) n c r c1 Hc Hl Hr).
  - exact (cache_await_inv i () n c r c1 Hc I Hr).
  - exact (cache_await_inv i (anyAhead e) n c r c1 Hc Ha Hr).
Qed.
Next Obligation.
  intros i e c c' Hc (Hl & Ha & _) Hf%anyForce_Some. destruct c as [c|c|c], Hf as (c1 & Hf & ->).
  - exact (cache_force_inv i (anyLazy e) c c1 Hc Hl Hf).
  - exact (cache_force_inv i () c c1 Hc I Hf).
  - exact (cache_force_inv i (anyAhead e) c c1 Hc Ha Hf).
Qed.
Next Obligation.
  intros i e [c|c|c] Hc (Hl & Ha & _); [by apply (cache_close_inv i (anyLazy e))|done|by apply (cache_close_inv i (anyAhead e))].
Qed.
Next Obligation.
  intros i e [c|c|c] Hc (Hl & Ha & _); [by apply (cache_tick_inv i (anyLazy e))|done|by apply (cache_tick_inv i (anyAhead e))].
Qed.
Next Obligation.
  intros i e n c ci c' Hc (Hl & Ha & _) Hr%anyAwait_Some. destruct c as [c|c|c], Hr as (c1 & Hr & ->).
  - exact (cache_await_OK i (anyLazy e) n c ci c1 Hc Hl Hr).
  - exact (cache_await_OK i () n c ci c1 Hc I Hr).
  - exact (cache_await_OK i (anyAhead e) n c ci c1 Hc Ha Hr).
Qed.
Next Obligation. intros e [c|c|c]; [done..|]. exact (cache_close_stops (anyAhead e) c). Qed.
Next Obligation.
  intros e [c|c|c]; [exact (cache_begin_waiting (anyLazy e) c)|done|exact (cache_begin_waiting (anyAhead e) c)].
Qed.
Next Obligation.
  intros e [c|c|c]; [exact (cache_begin_later (anyLazy e) c)|done|exact (cache_begin_later (anyAhead e) c)].
Qed.
Next Obligation.
  intros e n c r c' Hr%anyAwait_Some. destruct c as [c|c|c], Hr as (c1 & Hr & ->);
    [exact (cache_await_later (anyLazy e) n c r c1 Hr)|exact (cache_await_later () n c r c1 Hr)|
     exact (cache_await_later (anyAhead e) n c r c1 Hr)].
Qed.
Next Obligation.
  intros e c c' Hf%anyForce_Some. destruct c as [c|c|c], Hf as (c1 & Hf & ->);
    [exact (cache_force_later (anyLazy e) c c1 Hf)|exact (cache_force_later () c c1 Hf)|
     exact (cache_force_later (anyAhead e) c c1 Hf)].
Qed.
Next Obligation.
  intros e [c|c|c]; [exact (cache_close_later (anyLazy e) c)|done|exact (cache_close_later (anyAhead e) c)].
Qed.
Next Obligation.
  intros e [c|c|c]; [exact (cache_tick_later (anyLazy e) c)|done|exact (cache_tick_later (anyAhead e) c)].
Qed.
Next Obligation. by intros e n c Hn [[] Ha]. Qed.
Next Obligation.
  intros e n [c|c|c] Hn Hc Ha; simpl; [done|by eexists|].
  destruct (cache_await_stopped (anyAhead e) n c Hn Hc Ha) as [[r c1] E]; simpl in E. rewrite E. by eexists.
Qed.
Next Obligation. by intros e c [[] Ha]. Qed.

#[local] Program Instance any_maker_laws_of : CacheMakerLaws anyCache anyEnv makerState := { makerOK := MOK }.
Next Obligation.
  intros e k i m _ Hm. simpl. unfold newCache. destruct (mkLazyRefresh m); [done|].
  destruct (mkStatic m) as [r|] eqn:Hr; [|done]. pose proof (HM m r (anyIter e) i Hm Hr) as Hkeep.
  by destruct (NewStaticConnectionInfoCache (anyIter e) i r).
Qed.
Next Obligation.
  intros e k i m c (Hl & Ha & Hi) Hm. simpl. unfold newCache. destruct (mkLazyRefresh m); simpl.
  - destruct k as [k|]; [|done]. intros [= <-]. simpl. split_and!; [done|by apply HR|by right].
  - destruct (mkStatic m) as [r|] eqn:Hr; simpl.
    + pose proof (fun c => HS m r (anyIter e) i c Hm Hr Hi) as Hs.
      destruct (NewStaticConnectionInfoCache (anyIter e) i r) as [[c'|err|t] r']; simpl; [|done..].
      intros [= <-]. exact (Hs c' eq_refl).
    + destruct (newAhead (anyAhead e) k i (aheadFields m)) as [c'|err|t] eqn:Hn; simpl; [|done..]. intros [= <-].
      apply (cache_new_for (CacheMakerLaws := ahead_maker_laws_P) (anyAhead e) k i (aheadFields m) c' Ha); [|done].
      intros k'. by apply HR.
Qed.
End Laws.

Lemma static_infoOK iter i r c :
  (NewStaticConnectionInfoCache iter i r).1 = Ret c -> infoOK i (staticInfo c).
Proof.
  unfold NewStaticConnectionInfoCache. destruct (ReadAll [] r) as [data r']; simpl.
  intros (b & _ & Hb)%bind_Ret. apply bind_Ret in Hb as (d & _ & Hd).
  apply bind_Ret in Hd as (ci & Hci & [= <-]). by apply staticConnInfoOf_Ret in Hci as (sc & _ & Hok & _).
Qed.

#[export] Program Instance any_laws : InfoCacheLaws anyCache anyEnv := any_laws_of infoOK _ (fun _ => True).
Next Obligation. done. Qed.

#[export] Program Instance any_maker_laws : CacheMakerLaws anyCache anyEnv makerState :=
  any_maker_laws_of infoOK _ (fun _ => True) (fun _ => True) _ _ _.
Solve Obligations with (try done; intros; by eapply static_infoOK).
End AnyCache.

(** ** The shared reader *)

(** The static data can be read once only. The dialer keeps one reader for all its
    static caches, and making the first reads it to its end (every reader that stays at
    its end is such a reader): after that, successful or not, no cache can be made, not
    for another instance of the same data, nor again for the same one. *)
Theorem static_reader_once `{CryptoLib} e k i m r
    (Hlazy : mkLazyRefresh m = false) (Hr : mkStatic m = Some r) (Hend : (ReadAll [] r).2 = []) :
  let m1 := (cacheNew e k i m).2 in
  forall e' k' i', cacheNew e' k' i' m1 = (Fail unexpectedEnd, m1).
Proof.
  intros m1 e' k' i'. assert (m1 = setReader [] m) as ->.
  { unfold m1; simpl. unfold newCache. rewrite Hlazy, Hr. unfold NewStaticConnectionInfoCache.
    destruct (ReadAll [] r) as [data r']; simpl in *. by subst. }
  simpl. unfold newCache; simpl. by rewrite Hlazy.
Qed.

(** *** Concrete inputs *)
Module ToyAny.
Definition lazyE : lazyEnv (H := Toy.lib) := toyEnv 0 (Fail ContextCanceled).
Definition aheadE : aheadEnv (H := Toy.lib) :=
  {| aWait := fun _ _ _ => true; aSched := fun _ _ => []; aSelect := SelCtx ContextDeadlineExceeded; aMono := 0; aWall := 0 |}.
Definition env : anyEnv (H := Toy.lib) :=
  {| anyLazy := lazyE; anyAhead := aheadE; anyIter := ToyStatic.inOrder |}.

(** A dialer with static data. *)
Definition maker : makerState :=
  {| mkLazyRefresh := false; mkStatic := Some ToyStatic.file; mkClient := Toy.api; mkTimeout := RefreshTimeout; mkDialerID := "id"; mkDisable := false |}.

Lemma toyAnyEnv_OK : anyEnvOK (H := Toy.lib) infoOK (fun _ => True) env.
Proof.
  split; [|split].
  - split; [vm_compute; discriminate|]. by intros r i ci.
  - intros r i _. constructor.
  - apply ToyStatic.inOrder_all.
Qed.
End ToyAny.

Lemma static_reader_once_witness :
  let r := cacheNew (CacheMaker := any_maker (H := Toy.lib)) ToyAny.env (Some 0) Toy.uri ToyAny.maker in
  isRet r.1 = true /\
  cacheNew (CacheMaker := any_maker (H := Toy.lib)) ToyAny.env (Some 0) ToyStatic.uri2 r.2 = (Fail unexpectedEnd, r.2).
Proof.
  intros r. split; [vm_compute; reflexivity|].
  apply (static_reader_once (H := Toy.lib) ToyAny.env (Some 0) Toy.uri ToyAny.maker ToyStatic.file);
    vm_compute; reflexivity.
Defined.
