(* ===== verification/Dialer.v ===== *)
(** * The dialer ([src/dialer.go])

    [Dial], [Close] and the connections they hand out, as threads over the dialer's
    shared state. An action is a critical section of the dialer's lock, a step of a call
    of a cache, a call into the network, or a read of the clock; everything between two
    actions is local to the goroutine. A pointer to a cache is its index in the list of all caches ever made,
    its counter of open connections has the same index. *)
From S2P Require Import Prelude GoTime ErrType InstanceURI Refresh GoIO Metadata KeyGen Options Cache Tel Threads.
#[local] Open Scope string_scope.
#[local] Open Scope list_scope.
#[local] Open Scope Z_scope.

Definition defaultTCPKeepAlive : Duration := 30 * Second.
Definition serverProxyPort : string := "5433".

(** [net.JoinHostPort] *)
Definition JoinHostPort (host port : string) : string :=
  if bool_decide (":"%char ∈ to_bytes host) then "[" +:+ host +:+ "]:" +:+ port
  else host +:+ ":" +:+ port.

Section Dialer.
Context `{CryptoLib} `{ProtoLib}.
(** The caches and their environments, what they are made from, the network's
    connections, dial functions. *)
Context {C CE M N F : Type} `{!InfoCache C CE, !CacheMaker C CE M, !NetConn N}.
(** [strconv.IsPrint] outside ASCII. *)
Context (isPrint : Z -> bool).

(** ** State *)

(** [tls.Config], the fields [Dial] sets; the minimum version is always 1.3. *)
Record tlsConfig := {
  tlsCertificate_ : tlsCertificate; tlsRootCAs : option (list Certificate); tlsServerName : string }.

Inductive connStatus := ConnOpen | ConnClosed_ | ConnHanded.

(** A network connection: the dial function and the address it was made with, its
    state, who has it (the dialing goroutine, nobody, the caller), the TLS
    configurations a handshake succeeded with, and whether a metadata exchange did. *)
Record netconn := {
  cFunc : F; cHost : string; cNet : N; cStatus : connStatus;
  cHandshakes : list tlsConfig; cExchanged : bool }.

(** [instrumentedConn] *)
Record instrumentedConn := {
  icConn : nat; icTLS : tlsConfig; icInst : InstanceURI; icCache : nat;
  icOpen : bool;      (* [Close] has not been called *)
  icDone : bool       (* [Close] has reported success *)
}.

(** A goroutine that adds to the counter of a cache's open connections and then records
    it, and what else it records. *)
Record countTask := { tkCache : nat; tkDelta : Z; tkInst : InstanceURI; tkLatency : list measurement }.

(** The fields of [Dialer] that change, what they point to, and the goroutines that
    update the counters of open connections; [wReports] is what other goroutines still
    have to record, [wMetrics] what has been recorded. *)
Record world := {
  wClosed : bool;
  wCache : gmap InstanceURI nat;
  wCaches : list (InstanceURI * C);
  wOpens : list Z;
  wMaker : M;
  wKey : keyGenerator PrivateKey;
  wConns : list netconn;
  wInstr : list instrumentedConn;
  wTasks : list countTask;
  wReports : list measurement;
  wMetrics : list measurement;
  wPool : pool }.

(** The fields of [Dialer] that do not change. *)
Record Dialer := {
  defaultDialCfg : dialCfg F;
  dDialFunc : F;
  dDisableMetadataExchange : bool;
  dUseIAMAuthN : bool;
  dUserAgent : string;
  dDialerID : string }.

(** What happens around one action. *)
Record dialEnv := {
  eNow : Time; eNow2 : Time;
  eCache : CE;
  eKey : res PrivateKey;                       (* [rsa.GenerateKey] *)
  eDial : F -> string -> res (bool * N);       (* the connection, and if it is a TCP connection *)
  eKeepAlive : option error;
  eKeepAlivePeriod : Duration -> option error;
  eHandshake : tlsConfig -> N -> option error * N;
  eToken : res string;
  eChoice : option nat; eGrow : nat -> nat;    (* [sync.Pool.Get], [append] *)
  eIO : Z * option error;                      (* the underlying [Read] or [Write] *)
  eClose : option error }.                     (* the underlying [Close] *)

Definition setCaches (m : gmap InstanceURI nat) (l : list (InstanceURI * C)) (w : world) : world :=
  {| wClosed := wClosed w; wCache := m; wCaches := l; wOpens := wOpens w; wMaker := wMaker w; wKey := wKey w;
     wConns := wConns w; wInstr := wInstr w; wTasks := wTasks w; wReports := wReports w; wMetrics := wMetrics w; wPool := wPool w |}.
Definition setKey (g : keyGenerator PrivateKey) (w : world) : world :=
  {| wClosed := wClosed w; wCache := wCache w; wCaches := wCaches w; wOpens := wOpens w; wMaker := wMaker w; wKey := g;
     wConns := wConns w; wInstr := wInstr w; wTasks := wTasks w; wReports := wReports w; wMetrics := wMetrics w; wPool := wPool w |}.
Definition setConns (l : list netconn) (w : world) : world :=
  {| wClosed := wClosed w; wCache := wCache w; wCaches := wCaches w; wOpens := wOpens w; wMaker := wMaker w; wKey := wKey w;
     wConns := l; wInstr := wInstr w; wTasks := wTasks w; wReports := wReports w; wMetrics := wMetrics w; wPool := wPool w |}.
Definition setInstr (l : list instrumentedConn) (ts : list countTask) (w : world) : world :=
  {| wClosed := wClosed w; wCache := wCache w; wCaches := wCaches w; wOpens := wOpens w; wMaker := wMaker w; wKey := wKey w;
     wConns := wConns w; wInstr := l; wTasks := ts; wReports := wReports w; wMetrics := wMetrics w; wPool := wPool w |}.
Definition setOpens (l : list Z) (ts : list countTask) (w : world) : world :=
  {| wClosed := wClosed w; wCache := wCache w; wCaches := wCaches w; wOpens := l; wMaker := wMaker w; wKey := wKey w;
     wConns := wConns w; wInstr := wInstr w; wTasks := ts; wReports := wReports w; wMetrics := wMetrics w; wPool := wPool w |}.
Definition setPool (p : pool) (w : world) : world :=
  {| wClosed := wClosed w; wCache := wCache w; wCaches := wCaches w; wOpens := wOpens w; wMaker := wMaker w; wKey := wKey w;
     wConns := wConns w; wInstr := wInstr w; wTasks := wTasks w; wReports := wReports w; wMetrics := wMetrics w; wPool := p |}.
Definition setMaker (m : M) (w : world) : world :=
  {| wClosed := wClosed w; wCache := wCache w; wCaches := wCaches w; wOpens := wOpens w; wMaker := m; wKey := wKey w;
     wConns := wConns w; wInstr := wInstr w; wTasks := wTasks w; wReports := wReports w; wMetrics := wMetrics w; wPool := wPool w |}.
Definition setReports (rs ms : list measurement) (w : world) : world :=
  {| wClosed := wClosed w; wCache := wCache w; wCaches := wCaches w; wOpens := wOpens w; wMaker := wMaker w;
     wKey := wKey w; wConns := wConns w; wInstr := wInstr w; wTasks := wTasks w; wReports := rs; wMetrics := ms;
     wPool := wPool w |}.
Definition setClosed (w : world) : world :=
  {| wClosed := true; wCache := wCache w; wCaches := wCaches w; wOpens := wOpens w; wMaker := wMaker w; wKey := wKey w;
     wConns := wConns w; wInstr := wInstr w; wTasks := wTasks w; wReports := wReports w; wMetrics := wMetrics w; wPool := wPool w |}.

(** The world of a new dialer. *)
Definition newWorld (g : keyGenerator PrivateKey) (m : M) : world :=
  {| wClosed := false; wCache := ∅; wCaches := []; wOpens := []; wMaker := m; wKey := g;
     wConns := []; wInstr := []; wTasks := []; wReports := []; wMetrics := []; wPool := newBuffer |}.

Abbreviation prog := (thread world dialEnv).

(** ** Actions on the caches *)

Definition isClosed : prog bool := act (fun _ w => (wClosed w, w)).

(** [c, ok := d.cache[uri]] under the read lock. *)
Definition lookupCache (uri : InstanceURI) : prog (option nat) := act (fun _ w => (wCache w !! uri, w)).

(** The section under the write lock: look again, then make and store a cache. *)
Definition createCache (uri : InstanceURI) (e : dialEnv) (w : world) : res nat * world :=
  match wCache w !! uri with
  | Some p => (Ret p, w)
  | None =>
    let '(k, g) := rsaKey (eKey e) (wKey w) in
    let w := setKey g w in
    match k with
    | Fail err => (Fail err, w)
    | Panic t => (Panic t, w)
    | Ret k =>
      let '(c, m) := cacheNew (eCache e) k uri (wMaker w) in
      let w := setMaker m w in
      match c with
      | Fail err => (Fail err, w)
      | Panic t => (Panic t, w)
      | Ret c =>
        let p := length (wCaches w) in
        (Ret p, setOpens (wOpens w ++ [0]) (wTasks w)
                  (setCaches (<[uri := p]> (wCache w)) (wCaches w ++ [(uri, c)]) w))
      end
    end
  end.

Definition connectionInfoCache (uri : InstanceURI) : prog (res nat) :=
  c ←! lookupCache uri;
  match c with Some p => TDone (Ret p) | None => act (createCache uri) end.

(** A call of cache [p]; there is no such pointer to nothing. *)
Definition callCache {A} (none : A) (f : CE -> C -> A * C) (p : nat) (e : dialEnv) (w : world) : A * world :=
  match wCaches w !! p with
  | Some (i, c) => let '(r, c') := f (eCache e) c in
                   (r, setCaches (wCache w) (<[p := (i, c')]> (wCaches w)) w)
  | None => (none, w)
  end.

(** The return of call [n] of [ConnectionInfo], when it can. *)
Definition awaitCache (p n : nat) (e : dialEnv) (w : world) : option (res ConnectionInfo * world) :=
  match wCaches w !! p with
  | Some (i, c) =>
      '(r, c') ← cacheAwait (eCache e) n c;
      Some (r, setCaches (wCache w) (<[p := (i, c')]> (wCaches w)) w)
  | None => Some (Panic "invalid memory address or nil pointer dereference", w)
  end.

(** [ForceRefresh] of the cache [p]; blocked while the cache's is. *)
Definition forceCache (p : nat) (e : dialEnv) (w : world) : option (unit * world) :=
  match wCaches w !! p with
  | Some (i, c) =>
      c' ← cacheForceRefresh (eCache e) c;
      Some ((), setCaches (wCache w) (<[p := (i, c')]> (wCaches w)) w)
  | None => Some ((), w)
  end.

Definition cacheInfo (p : nat) : prog (res ConnectionInfo) :=
  n ←! act (callCache 0%nat cacheBegin p);
  await (awaitCache p n).
Definition cacheForce (p : nat) : prog unit := await (forceCache p).

(** [removeCached]: close the cache, delete the entry of the map. *)
Definition removeCached (i : InstanceURI) (p : nat) : prog unit := act (fun e w =>
  let w := (callCache () (fun e c => ((), cacheClose e c)) p e w).2 in
  ((), setCaches (delete i (wCache w)) (wCaches w) w)).

(** ** Actions on connections *)

Definition updConn (id : nat) (f : netconn -> netconn) (w : world) : world :=
  setConns (alter f id (wConns w)) w.

Definition withStatus (st : connStatus) (c : netconn) : netconn :=
  {| cFunc := cFunc c; cHost := cHost c; cNet := cNet c;
     cStatus := match cStatus c with ConnOpen => st | s => s end;
     cHandshakes := cHandshakes c; cExchanged := cExchanged c |}.

(** [conn, err = f(ctx, "tcp", hostPort)] *)
Definition netDial (f : F) (hostPort : string) : prog (res (nat * bool)) := act (fun e w =>
  match eDial e f hostPort with
  | Fail err => (Fail err, w)
  | Panic t => (Panic t, w)
  | Ret (tcp, n) =>
      (Ret (length (wConns w), tcp),
       setConns (wConns w ++ [{| cFunc := f; cHost := hostPort; cNet := n; cStatus := ConnOpen;
                                 cHandshakes := []; cExchanged := false |}]) w)
  end).

(** [tlsConn.HandshakeContext(ctx)] *)
Definition handshake (id : nat) (cfg : tlsConfig) : prog (option error) := act (fun e w =>
  match wConns w !! id with
  | None => (Some (ErrorsNew "use of closed network connection"), w)
  | Some c =>
    let '(err, n) := eHandshake e cfg (cNet c) in
    (err, updConn id (fun c =>
       {| cFunc := cFunc c; cHost := cHost c; cNet := n; cStatus := cStatus c;
          cHandshakes := match err with None => cHandshakes c ++ [cfg] | Some _ => cHandshakes c end;
          cExchanged := cExchanged c |}) w)
  end).

(** [_ = tlsConn.Close()] *)
Definition closeConn (id : nat) : prog unit := act (fun _ w => ((), updConn id (withStatus ConnClosed_) w)).

Definition exchangeCfg (d : Dialer) (e : dialEnv) : exchangeConfig :=
  {| xToken := eToken e; xUseIAMAuthN := dUseIAMAuthN d; xUserAgent := dUserAgent d |}.

(** [d.metadataExchange(tlsConn)] *)
Definition exchange (d : Dialer) (id : nat) : prog (res unit) := act (fun e w =>
  match wConns w !! id with
  | None => (Fail (ErrorsNew "use of closed network connection"), w)
  | Some c =>
    let '(r, s) := metadataExchange (exchangeCfg d e) (eChoice e) (eGrow e) (eNow e) (eNow2 e)
                     {| xConn := cNet c; xPool := wPool w; xBuf := []; xFresh := None |} in
    (r, setPool (xPool s) (updConn id (fun c =>
       {| cFunc := cFunc c; cHost := cHost c; cNet := xConn s; cStatus := cStatus c;
          cHandshakes := cHandshakes c; cExchanged := cExchanged c || isRet r |}) w))
  end).

(** The goroutine that counts the connection is started, and the connection is handed
    to the caller inside an [instrumentedConn]. *)
Definition handOver (id : nat) (cfg : tlsConfig) (i : InstanceURI) (p : nat) (latency : list measurement) : prog nat := act (fun _ w =>
  (length (wInstr w),
   setInstr (wInstr w ++ [{| icConn := id; icTLS := cfg; icInst := i; icCache := p;
                             icOpen := true; icDone := false |}])
            (wTasks w ++ [{| tkCache := p; tkDelta := 1; tkInst := i; tkLatency := latency |}])
            (updConn id (withStatus ConnHanded) w))).

(** ** [Dial] *)

(** [invalidClientCert] *)
Definition invalidClientCert (now expiration : Time) : bool := After now expiration.

(** [go tel.Record...(...)]: the goroutine is there. *)
Definition goRecord (ms : list measurement) : prog unit :=
  act (fun _ w => ((), setReports (wReports w ++ ms) (wMetrics w) w)).

Definition readClock : prog Time := act (fun e w => (eNow e, w)).

(** What [Dial] returns, the network connection it has made, if any, and the spans it
    has started. *)
Record dialOut := { dRes : res nat; dConn : option nat; dSpans : list span }.

Definition returns (r : res nat) (conn : option nat) : prog dialOut :=
  TDone {| dRes := r; dConn := conn; dSpans := [] |}.
Definition fails (e : error) (conn : option nat) : prog dialOut := returns (Fail e) conn.

(** [defer end(err)]: the span ends with the error that is returned. *)
Definition deferEnd (s : span) (t : prog dialOut) : prog dialOut :=
  o ←! t;
  TDone {| dRes := dRes o; dConn := dConn o; dSpans := EndSpan (errOf (dRes o)) s :: dSpans o |}.

(** [end(err)] without [defer], before [t] goes on. A panic goes past it. *)
Definition thenEnd {A} (r : res A) (s : span) (t : prog dialOut) : prog dialOut :=
  o ←! t;
  TDone {| dRes := dRes o; dConn := dConn o;
           dSpans := match r with Panic _ => s | _ => EndSpan (errOf r) s end :: dSpans o |}.

(** The error path of [cache.ConnectionInfo]. *)
Definition infoOr (i : InstanceURI) (p : nat) (r : res ConnectionInfo)
    (k : ConnectionInfo -> prog dialOut) : prog dialOut :=
  match r with
  | Ret ci => k ci
  | Fail err => _ ←! removeCached i p; fails err None
  | Panic t => returns (Panic t) None
  end.

(** From the connection info to the address; a client certificate that has expired is
    refreshed first. *)
Definition dialAddr (cfg : dialCfg F) (i : InstanceURI) (p : nat)
    (k : ConnectionInfo -> string -> prog dialOut) (ci : ConnectionInfo) : prog dialOut :=
  now ←! readClock;
  let use ci :=
    match IPAddrs ci !! ipType cfg with
    | None =>
        _ ←! removeCached i p;
        fails (NewConfigError ("instance does not have IP of type " +:+ quote isPrint (ipType cfg))
                 (URI_String i)) None
    | Some addr => k ci addr
    end in
  if invalidClientCert now (Expiration ci) then
    _ ←! cacheForce p;
    r ←! cacheInfo p;
    infoOr i p r use
  else use ci.

(** The keep-alive settings, for TCP connections. *)
Definition setKeepAlive (cfg : dialCfg F) (i : InstanceURI) (tcp : bool) (id : nat)
    (k : prog dialOut) : prog dialOut :=
  if tcp then
    e1 ←! act (fun e w => (eKeepAlive e, w));
    match e1 with
    | Some err => fails (NewDialError "failed to set keep-alive" (URI_String i) (Some err)) (Some id)
    | None =>
      e2 ←! act (fun e w => (eKeepAlivePeriod e (tcpKeepAlive cfg), w));
      match e2 with
      | Some err => fails (NewDialError "failed to set keep-alive period" (URI_String i) (Some err)) (Some id)
      | None => k
      end
    end
  else k.

(** From the address to the connection. *)
Definition dialConnect (d : Dialer) (cfg : dialCfg F) (i : InstanceURI) (p : nat)
    (instance : string) (start : Time) (ci : ConnectionInfo) (addr : string) : prog dialOut :=
  let f := default (dDialFunc d) (dcDialFunc cfg) in
  r ←! netDial f (JoinHostPort addr serverProxyPort);
  match r with
  | Panic t => returns (Panic t) None
  | Fail err =>
      _ ←! cacheForce p;
      fails (NewDialError "failed to dial" (URI_String i) (Some err)) None
  | Ret (id, tcp) =>
    setKeepAlive cfg i tcp id (
      let c := {| tlsCertificate_ := ClientCert ci; tlsRootCAs := RootCAs ci; tlsServerName := addr |} in
      h ←! handshake id c;
      match h with
      | Some err =>
          _ ←! cacheForce p;
          _ ←! closeConn id;
          fails (NewDialError "handshake failed" (URI_String i) (Some err)) (Some id)
      | None =>
        let finish :=
          now ←! readClock;
          let latency := Milliseconds (Sub now start) in
          k ←! handOver id c i p (RecordDialLatency instance (dDialerID d) latency);
          returns (Ret k) (Some id) in
        if dDisableMetadataExchange d then finish
        else
          m ←! exchange d id;
          match m with
          | Panic t => returns (Panic t) (Some id)
          | Fail err => _ ←! closeConn id; fails err (Some id)
          | Ret _ => finish
          end
      end)
  end.

Definition infoSpan : span := StartSpan "cloud.google.com/go/alloydbconn/internal.InstanceInfo" [].
Definition connectSpan : span := StartSpan "cloud.google.com/go/alloydbconn/internal.Connect" [].
Definition dialSpan (d : Dialer) (instance : string) : span :=
  StartSpan "cloud.google.com/go/alloydbconn.Dial" [AddInstanceName instance; AddDialerID (dDialerID d)].

(** The part of [Dial] that the deferred call reports on. *)
Definition dialOpen (d : Dialer) (instance : string) (opts : list (DialOption F)) (start : Time) : prog dialOut :=
  let cfg := DialOptions opts (defaultDialCfg d) in
  match ParseInstURI instance with
  | Fail err => fails err None
  | Panic t => returns (Panic t) None
  | Ret inst =>
    c ←! connectionInfoCache inst;
    match c with
    | Fail err => thenEnd c infoSpan (fails err None)
    | Panic t => thenEnd c infoSpan (returns (Panic t) None)
    | Ret p =>
      r ←! cacheInfo p;
      thenEnd r infoSpan (infoOr inst p r (dialAddr cfg inst p (fun ci addr =>
        deferEnd connectSpan (dialConnect d cfg inst p instance start ci addr))))
    end
  end.

Definition Dial (d : Dialer) (instance : string) (opts : list (DialOption F)) : prog dialOut :=
  closed ←! isClosed;
  if closed then fails ErrDialerClosed None
  else
    start ←! readClock;
    o ←! deferEnd (dialSpan d instance) (dialOpen d instance opts start);
    _ ←! goRecord (RecordDialError instance (dDialerID d) (errOf (dRes o)));
    TDone o.

(** ** The other threads *)

(** [Dialer.Close] *)
Definition closeAll (e : dialEnv) (w : world) : unit * world :=
  let ps := (map_to_list (wCache w)).*2 in
  ((), setCaches (wCache w)
         (imap (fun p ic => if bool_decide (p ∈ ps) then (ic.1, cacheClose (eCache e) ic.2) else ic)
               (wCaches w)) w).

Definition closeChan : prog (res unit) := act (fun _ w =>
  if wClosed w then (Panic "close of closed channel", w) else (Ret (), setClosed w)).

Definition Close : prog dialOut :=
  closed ←! isClosed;
  if closed then returns (Ret 0%nat) None
  else
    r ←! closeChan;
    match r with
    | Ret _ => _ ←! act closeAll; returns (Ret 0%nat) None
    | Fail e => fails e None
    | Panic t => returns (Panic t) None
    end.

Definition errClosed : error := ErrorsNew "use of closed network connection".

(** [instrumentedConn.Close]: the underlying [Close] and the start of the goroutine that
    takes the connection off the count, if it returned no error. *)
Definition instrClose (k : nat) (e : dialEnv) (w : world) : option error * world :=
  match wInstr w !! k with
  | None => (Some errClosed, w)
  | Some ic =>
    if icOpen ic then
      let done := match eClose e with None => true | Some _ => false end in
      (eClose e,
       setInstr (<[k := {| icConn := icConn ic; icTLS := icTLS ic; icInst := icInst ic;
                           icCache := icCache ic; icOpen := false; icDone := done |}]> (wInstr w))
                (wTasks w ++ if done then [{| tkCache := icCache ic; tkDelta := -1; tkInst := icInst ic; tkLatency := [] |}]
                           else []) w)
    else (Some errClosed, w)
  end.

Definition ConnClose (k : nat) : prog dialOut :=
  r ←! act (instrClose k);
  match r with
  | None => returns (Ret 0%nat) None
  | Some err => fails err None
  end.

(** [instrumentedConn.Read] and [Write]: the underlying call, and the start of the
    goroutine that records the number of bytes if it returned no error. *)
Definition instrIO (record : Z -> string -> string -> list measurement) (d : Dialer) (k : nat)
    (e : dialEnv) (w : world) : (Z * option error) * world :=
  match wInstr w !! k with
  | None => ((0, Some errClosed), w)
  | Some ic =>
    (eIO e,
     match (eIO e).2 with
     | None => setReports (wReports w ++ record (eIO e).1 (URI_String (icInst ic)) (dDialerID d)) (wMetrics w) w
     | Some _ => w
     end)
  end.

Definition ConnRead (d : Dialer) (k : nat) : prog dialOut :=
  r ←! act (instrIO RecordBytesReceived d k);
  match r.2 with
  | None => returns (Ret (Z.to_nat r.1)) None
  | Some err => fails err None
  end.
Definition ConnWrite (d : Dialer) (k : nat) : prog dialOut :=
  r ←! act (instrIO RecordBytesSent d k);
  match r.2 with
  | None => returns (Ret (Z.to_nat r.1)) None
  | Some err => fails err None
  end.

(** One of the counting goroutines runs: [n := atomic.AddUint64(cache.openConns, delta)],
    and then, in a second action, it records [n]. *)
Definition runTask (t : nat) (e : dialEnv) (w : world) : option (countTask * Z) * world :=
  match wTasks w !! t with
  | None => (None, w)
  | Some k =>
    let opens := alter (fun x => uint_wrap 64 (x + tkDelta k)) (tkCache k) (wOpens w) in
    (Some (k, default 0 (opens !! tkCache k)), setOpens opens (delete t (wTasks w)) w)
  end.

Definition recordOpens (d : Dialer) (r : option (countTask * Z)) (e : dialEnv) (w : world) : unit * world :=
  match r with
  | None => ((), w)
  | Some (k, n) =>
    ((), setReports (wReports w)
           (wMetrics w ++ RecordOpenConnections (int_wrap 64 n) (dDialerID d) (URI_String (tkInst k)) ++ tkLatency k) w)
  end.

Definition CountTask (d : Dialer) (t : nat) : prog dialOut :=
  r ←! act (runTask t);
  _ ←! act (recordOpens d r);
  returns (Ret 0%nat) None.

(** One of the other recording goroutines runs. *)
Definition runReport (t : nat) (e : dialEnv) (w : world) : unit * world :=
  match wReports w !! t with
  | None => ((), w)
  | Some m => ((), setReports (delete t (wReports w)) (wMetrics w ++ [m]) w)
  end.

Definition ReportTask (t : nat) : prog dialOut :=
  _ ←! act (runReport t); returns (Ret 0%nat) None.

(** The background work of a cache. *)
Definition Background (p : nat) : prog dialOut :=
  _ ←! act (callCache () (fun e c => ((), cacheTick e c)) p); returns (Ret 0%nat) None.
End Dialer.
