(* ===== verification/DialerInv.v ===== *)
(** * The dialer: the invariant of its shared state

    [winv] holds on every schedule of dials, closes and background work; [wle] relates
    a world to the later ones: caches and connections are never forgotten, what was
    closed stays closed. *)
From S2P Require Import Prelude GoTime ErrType InstanceURI Refresh GoIO Metadata MetadataProps KeyGen Options Cache Tel Threads Dialer.
#[local] Open Scope list_scope.
#[local] Open Scope Z_scope.

Section Inv.
Context `{CryptoLib} `{ProtoLib}.
Context {C CE M N F : Type} `{!InfoCache C CE, !CacheMaker C CE M, !NetConn N}.
Context `{!InfoCacheLaws C CE, !CacheMakerLaws C CE M, !NetConnLaws N}.
Implicit Types w : world (C := C) (M := M) (N := N) (F := F).
Implicit Types e : dialEnv (CE := CE) (N := N) (F := F).

(** ** Counting open connections *)

(** Connections handed out for cache [p] and not yet closed. *)
Definition openCount (p : nat) (l : list instrumentedConn) : Z :=
  Z.of_nat (length (filter (fun ic => icCache ic = p /\ icDone ic = false) l)).

(** What the counting goroutines still have to add to the counter of [p]. *)
Definition pending (p : nat) (ts : list countTask) : Z :=
  foldr Z.add 0 (tkDelta <$> filter (fun t => tkCache t = p) ts).

Definition counterOK (x open pend : Z) : Prop :=
  0 <= x < 2 ^ 64 /\ (x + pend) mod 2 ^ 64 = open mod 2 ^ 64.

(** ** The invariant *)

Record winv w : Prop := {
  wi_len : length (wOpens w) = length (wCaches w);
  wi_map : forall i p, wCache w !! i = Some p -> exists c, wCaches w !! p = Some (i, c);
  wi_caches : forall p i c, wCaches w !! p = Some (i, c) -> cacheFor i c;
  wi_pool : poolOK (wPool w);
  wi_instr : Forall (fun ic => (icDone ic = true -> icOpen ic = false) /\
                               (icCache ic < length (wCaches w))%nat) (wInstr w);
  wi_tasks : Forall (fun t => tkCache t < length (wCaches w))%nat (wTasks w);
  wi_count : forall p x, wOpens w !! p = Some x ->
               counterOK x (openCount p (wInstr w)) (pending p (wTasks w));
  wi_maker : makerOK (C := C) (E := CE) (wMaker w) }.

(** ** Later worlds *)

Definition connLe (c c' : netconn (N := N) (F := F)) : Prop :=
  cFunc c' = cFunc c /\ cHost c' = cHost c /\ (cStatus c <> ConnOpen -> cStatus c' = cStatus c) /\
  (forall t, t ∈ cHandshakes c -> t ∈ cHandshakes c') /\ (cExchanged c = true -> cExchanged c' = true).

Definition instrLe (ic ic' : instrumentedConn) : Prop :=
  icConn ic' = icConn ic /\ icTLS ic' = icTLS ic /\ icInst ic' = icInst ic /\
  icCache ic' = icCache ic /\ (icOpen ic = false -> icOpen ic' = false).

Definition cacheLe (ic ic' : InstanceURI * C) : Prop :=
  ic'.1 = ic.1 /\ cacheLater (E := CE) ic.2 ic'.2.

(** Every element of a list is still there, in a later state. *)
Definition listLe {A} (R : A -> A -> Prop) (l l' : list A) : Prop :=
  forall k a, l !! k = Some a -> exists a', l' !! k = Some a' /\ R a a'.

(** A measurement that has been recorded, or that a goroutine is there to record. *)
Definition reported (m : measurement) w : Prop := m ∈ wReports w \/ m ∈ wMetrics w.

Record wle w w' : Prop := {
  wle_closed : wClosed w = true -> wClosed w' = true;
  wle_caches : listLe cacheLe (wCaches w) (wCaches w');
  wle_conns : listLe connLe (wConns w) (wConns w');
  wle_instr : listLe instrLe (wInstr w) (wInstr w');
  wle_reported : forall m, reported m w -> reported m w' }.

#[export] Instance connLe_preorder : PreOrder connLe.
Proof.
  split; [by intros c|]. intros c1 c2 c3 (? & ? & S1 & L1 & X1) (? & ? & S2 & L2 & X2).
  split_and!; try congruence; auto. intros Hs. rewrite S2; [by apply S1|]. by rewrite S1.
Qed.

#[export] Instance instrLe_preorder : PreOrder instrLe.
Proof. split; [by intros c|]. intros c1 c2 c3 (? & ? & ? & ? & O1) (? & ? & ? & ? & O2). split_and!; [congruence..|auto]. Qed.

#[export] Instance cacheLe_preorder : PreOrder cacheLe.
Proof. split; [by intros c|]. intros c1 c2 c3 [? S1] [? S2]. split; [congruence|by etransitivity]. Qed.

#[export] Instance listLe_preorder {A} (R : A -> A -> Prop) `{!PreOrder R} : PreOrder (listLe R).
Proof.
  split.
  - intros l k a Ha. by exists a.
  - intros l1 l2 l3 L1 L2 k a Ha. destruct (L1 k a Ha) as (a2 & Ha2 & R2).
    destruct (L2 k a2 Ha2) as (a3 & Ha3 & R3). exists a3. split; [done|]. by transitivity a2.
Qed.

#[export] Instance wle_preorder : PreOrder wle.
Proof.
  split.
  - intros w. split; done || reflexivity.
  - intros w1 w2 w3 [] []. split; [auto|by etransitivity..|auto].
Qed.

Lemma listLe_app {A} (R : A -> A -> Prop) `{!PreOrder R} l l' : listLe R l (l ++ l').
Proof. intros k a Ha. exists a. split; [by apply lookup_app_l_Some|done]. Qed.

Lemma listLe_insert {A} (R : A -> A -> Prop) `{!PreOrder R} l k a a' :
  l !! k = Some a -> R a a' -> listLe R l (<[k := a']> l).
Proof.
  intros Hk HR j b Hj. destruct (decide (k = j)) as [<-|Hne].
  - exists a'. rewrite list_lookup_insert_eq by (by eapply lookup_lt_Some). split; [done|]. by simplify_eq.
  - exists b. rewrite list_lookup_insert_ne by done. by split.
Qed.

Lemma listLe_alter {A} (R : A -> A -> Prop) `{!PreOrder R} l k f :
  (forall a, R a (f a)) -> listLe R l (alter f k l).
Proof.
  intros HR j b Hj. destruct (decide (k = j)) as [<-|Hne].
  - exists (f b). by rewrite list_lookup_alter_eq, Hj.
  - exists b. rewrite list_lookup_alter_ne by done. by split.
Qed.

(** ** Frame lemmas *)

(** The invariant looks at these fields only. *)
Lemma winv_frame w w' :
  winv w -> wCache w' = wCache w -> wCaches w' = wCaches w -> wOpens w' = wOpens w ->
  wInstr w' = wInstr w -> wTasks w' = wTasks w -> wMaker w' = wMaker w -> poolOK (wPool w') -> winv w'.
Proof. intros [] E1 E2 E3 E4 E5 E6 Hp. split; rewrite ?E1, ?E2, ?E3, ?E4, ?E5, ?E6; done. Qed.

(** Making a cache changes the maker. *)
Lemma winv_setMaker w m : winv w -> makerOK (C := C) (E := CE) m -> winv (setMaker m w).
Proof. by intros []. Qed.

Lemma wle_frame w w' :
  (wClosed w = true -> wClosed w' = true) -> wCaches w' = wCaches w -> wConns w' = wConns w ->
  wInstr w' = wInstr w -> (forall m, reported m w -> reported m w') -> wle w w'.
Proof. intros Hc E1 E2 E3 Hm. split; rewrite ?E1, ?E2, ?E3; done || reflexivity. Qed.

(** Changing one cache in place. *)
Lemma winv_setCache w p i c c' m :
  winv w -> wCaches w !! p = Some (i, c) -> cacheFor i c' ->
  (forall j q, m !! j = Some q -> wCache w !! j = Some q) ->
  winv (setCaches m (<[p := (i, c')]> (wCaches w)) w).
Proof.
  intros [Hlen Hmap Hc Hp Hi Ht Hn] Hk Hc' Hm. split; simpl; rewrite ?length_insert; auto.
  - intros j q Hj. destruct (Hmap j q (Hm j q Hj)) as [d Hd].
    destruct (decide (p = q)) as [<-|Hne].
    + exists c'. rewrite list_lookup_insert_eq by (by eapply lookup_lt_Some). by simplify_eq.
    + exists d. by rewrite list_lookup_insert_ne.
  - intros q j d. destruct (decide (p = q)) as [<-|Hne].
    + rewrite list_lookup_insert_eq by (by eapply lookup_lt_Some). by intros [= <- <-].
    + rewrite list_lookup_insert_ne by done. apply Hc.
Qed.

Lemma wle_setCache w p i c c' m :
  wCaches w !! p = Some (i, c) -> cacheLater (E := CE) c c' ->
  wle w (setCaches m (<[p := (i, c')]> (wCaches w)) w).
Proof.
  intros Hk Hs. split; simpl; [done| |reflexivity..|done]. by eapply listLe_insert; [apply _|exact Hk|].
Qed.

(** A call of a cache that keeps it well formed. *)
Lemma callCache_ok {A} (none : A) f p e w :
  (forall i c, cacheFor i c -> cacheFor i (f (eCache e) c).2) ->
  (forall c, cacheLater (E := CE) c (f (eCache e) c).2) ->
  winv w -> winv (callCache none f p e w).2 /\ wle w (callCache none f p e w).2.
Proof.
  intros Hf Hs Hw. unfold callCache. destruct (wCaches w !! p) as [[i c]|] eqn:Hp; [|by split].
  specialize (Hf i c (wi_caches w Hw p i c Hp)). specialize (Hs c).
  destruct (f (eCache e) c) as [r c']; simpl in *.
  split; [by eapply winv_setCache|by eapply wle_setCache].
Qed.

Lemma updConn_ok id f w :
  (forall c, connLe c (f c)) -> winv w -> winv (updConn id f w) /\ wle w (updConn id f w).
Proof.
  intros Hf Hw. split; [by eapply winv_frame; try done; apply Hw|].
  split; simpl; try done || reflexivity. by apply listLe_alter; [apply _|].
Qed.

Lemma withStatus_le st c : connLe c (withStatus st c).
Proof. split_and!; simpl; auto. by destruct (cStatus c). Qed.

(** ** The counters *)

Lemma pending_app p ts t :
  pending p (ts ++ [t]) = pending p ts + (if decide (tkCache t = p) then tkDelta t else 0).
Proof.
  unfold pending. rewrite list.filter_app, fmap_app, foldr_app. cbn [fmap].
  rewrite list.filter_cons, filter_nil. destruct (decide (tkCache t = p)); simpl; [|by rewrite Z.add_0_r].
  generalize (tkDelta <$> filter (fun t0 => tkCache t0 = p) ts) as l.
  induction l as [|x l IH]; simpl; [lia|]. rewrite IH. lia.
Qed.

Lemma pending_delete p ts k t :
  ts !! k = Some t -> pending p ts = pending p (delete k ts) + (if decide (tkCache t = p) then tkDelta t else 0).
Proof.
  revert k. induction ts as [|x ts IH]; intros [|k] Hk; simplify_eq/=.
  - unfold pending; simpl delete. rewrite list.filter_cons.
    destruct (decide (tkCache t = p)); rewrite ?fmap_cons; cbn [foldr]; lia.
  - specialize (IH k Hk). unfold pending in *. change (delete (S k) (x :: ts)) with (x :: delete k ts).
    rewrite !list.filter_cons. destruct (decide (tkCache x = p)); rewrite ?fmap_cons; cbn [foldr]; lia.
Qed.

Lemma openCount_app p l ic :
  openCount p (l ++ [ic]) = openCount p l + (if decide (icCache ic = p /\ icDone ic = false) then 1 else 0).
Proof.
  unfold openCount. rewrite list.filter_app, length_app, list.filter_cons, filter_nil.
  destruct (decide _); simpl; lia.
Qed.

Lemma openCount_close p l k ic ic' :
  l !! k = Some ic -> icDone ic = false -> icDone ic' = true ->
  openCount p (<[k := ic']> l) = openCount p l - (if decide (icCache ic = p) then 1 else 0).
Proof.
  revert k. induction l as [|x l IH]; intros [|k] Hk Hd Hd'; simplify_eq/=.
  - unfold openCount. rewrite !list.filter_cons.
    destruct (decide (icCache ic' = p /\ icDone ic' = false)) as [[_ ?]|_]; [congruence|].
    destruct (decide (icCache ic = p)) as [Hp|Hp].
    + rewrite decide_True by done. simpl. lia.
    + rewrite decide_False by (by intros []). lia.
  - specialize (IH k Hk Hd Hd'). unfold openCount in *. rewrite !list.filter_cons.
    destruct (decide (icCache x = p /\ icDone x = false)); simpl; lia.
Qed.

Lemma openCount_keep p l k ic ic' :
  l !! k = Some ic -> icDone ic' = icDone ic -> icCache ic' = icCache ic ->
  openCount p (<[k := ic']> l) = openCount p l.
Proof.
  revert k. induction l as [|x l IH]; intros [|k] Hk Hd Hc; simplify_eq/=; unfold openCount in *;
    rewrite !list.filter_cons.
  - rewrite Hd, Hc. by destruct (decide _).
  - specialize (IH k Hk Hd Hc). destruct (decide (icCache x = p /\ icDone x = false)); simpl; lia.
Qed.

(** Nothing is counted for a cache that does not exist yet. *)
Lemma openCount_fresh p l : Forall (fun ic => icCache ic < p)%nat l -> openCount p l = 0.
Proof.
  intros Hl. unfold openCount. induction Hl as [|x l Hx Hl IH]; [done|].
  rewrite list.filter_cons, decide_False; [done|]. intros [? _]. lia.
Qed.

Lemma pending_fresh p ts : Forall (fun t => tkCache t < p)%nat ts -> pending p ts = 0.
Proof.
  intros Hl. unfold pending. induction Hl as [|x l Hx Hl IH]; [done|].
  rewrite list.filter_cons, decide_False by lia. done.
Qed.

(** A connection and its counting goroutine appear, or leave, together. *)
Lemma counterOK_shift x o p d : counterOK x o p -> counterOK x (o + d) (p + d).
Proof.
  intros [Hx E]. split; [done|]. rewrite Z.add_assoc, Z.add_mod, E, <- Z.add_mod by lia. done.
Qed.

(** The goroutine has run. *)
Lemma counterOK_run x o p d : counterOK x o (p + d) -> counterOK (uint_wrap 64 (x + d)) o p.
Proof.
  intros [Hx E]. split; [apply uint_wrap_range; lia|]. unfold uint_wrap.
  rewrite Z.add_mod_idemp_l by lia. rewrite <- E. f_equal. lia.
Qed.
End Inv.
