(* ===== verification/DialerProps.v ===== *)
(** * The dialer: what dials return, on every schedule

    Every action keeps [winv] and moves up in [wle]; the postconditions of [Dial] and of
    the other threads follow by the rules of [Threads.rg], and hold for any number of
    concurrent dials, closes and background refreshes. *)
From S2P Require Import Prelude GoTime ErrType InstanceURI Refresh GoIO Metadata MetadataProps KeyGen Options Cache Tel Threads Dialer DialerInv.
#[local] Open Scope string_scope.
#[local] Open Scope list_scope.
#[local] Open Scope Z_scope.

Section Acts.
Context `{CryptoLib} `{ProtoLib}.
Context {C CE M N F : Type} `{!InfoCache C CE, !CacheMaker C CE M, !NetConn N}.
Context `{!InfoCacheLaws C CE, !CacheMakerLaws C CE M, !NetConnLaws N}.
Context (isPrint : Z -> bool).
Implicit Types w : world (C := C) (M := M) (N := N) (F := F).
Implicit Types e : dialEnv (CE := CE) (N := N) (F := F).

Definition envOK e : Prop := cacheEnv (eCache e).
Definition ctxDone e : Prop := cacheCtxDone (eCache e).

(** Every thread relies on and guarantees that the world moves up in [wle], and is not
    blocked when its context is done. *)
Abbreviation Safe := (rg (W := world (C := C) (M := M) (N := N) (F := F))
                         (E := dialEnv (CE := CE) (N := N) (F := F)) envOK ctxDone winv wle wle).

(** The rule for sequences, at these parameters. *)
Abbreviation prog := (thread (world (C := C) (M := M) (N := N) (F := F)) (dialEnv (CE := CE) (N := N) (F := F))).

Lemma Safe_bind {A B} w (t : prog A) (h : A -> prog B) Q Q' :
  Safe w t Q -> (forall a w', wle w w' -> Q a w' -> Safe w' (h a) Q') -> Safe w (tbind t h) Q'.
Proof. by apply rg_bind with (le := wle); [apply _|..]. Qed.

(** Facts that later worlds keep. *)
Definition hasCache (p : nat) (i : InstanceURI) w : Prop := exists c, wCaches w !! p = Some (i, c).
Definition hasConn (id : nat) (P : netconn (N := N) (F := F) -> Prop) w : Prop :=
  exists c, wConns w !! id = Some c /\ P c.

Lemma hasCache_le p i w w' : wle w w' -> hasCache p i w -> hasCache p i w'.
Proof.
  intros Hle [c Hc]. destruct (wle_caches w w' Hle p (i, c) Hc) as ([j c'] & Hc' & [Hj _]).
  simpl in Hj. subst. by exists c'.
Qed.

Lemma hasConn_le id P w w' :
  (forall c c', connLe c c' -> P c -> P c') -> wle w w' -> hasConn id P w -> hasConn id P w'.
Proof.
  intros HP Hle (c & Hc & Hp). destruct (wle_conns w w' Hle id c Hc) as (c' & Hc' & Hle').
  exists c'. eauto.
Qed.

(** *** Caches *)

Lemma winv_newCache w uri c :
  winv w -> wCache w !! uri = None -> cacheFor uri c ->
  winv (setOpens (wOpens w ++ [0]) (wTasks w)
          (setCaches (<[uri := length (wCaches w)]> (wCache w)) (wCaches w ++ [(uri, c)]) w)).
Proof.
  intros [Hlen Hmap Hc Hp Hi Ht Hn] Hnone Hfor. split; simpl; rewrite ?length_app; simpl; auto.
  - intros j q. rewrite lookup_insert_Some. intros [[<- <-]|[Hne Hj]].
    + exists c. by rewrite list_lookup_middle.
    + destruct (Hmap j q Hj) as [d Hd]. exists d. by apply lookup_app_l_Some.
  - intros q j d [Hl|[_ Hl]]%lookup_app_Some; [by eapply Hc|].
    apply list_lookup_singleton_Some in Hl as [_ [= <- <-]]. done.
  - eapply list.Forall_impl; [exact Hi|]. intros ic [? ?]. split; [done|lia].
  - eapply list.Forall_impl; [exact Ht|]. intros t ?; simpl in *. lia.
  - intros q x [Hl|[Hge Hl]]%lookup_app_Some; [by apply Hn|].
    apply list_lookup_singleton_Some in Hl as [Hz <-].
    assert (q = length (wCaches w)) as -> by lia.
    rewrite openCount_fresh, pending_fresh; [|exact Ht|eapply list.Forall_impl; [exact Hi|by intros ? []]].
    done.
Qed.

Lemma createCache_ok uri e w :
  envOK e -> winv w ->
  winv (createCache uri e w).2 /\ wle w (createCache uri e w).2 /\
  forall p, (createCache uri e w).1 = Ret p -> hasCache p uri (createCache uri e w).2.
Proof.
  intros He Hw. unfold createCache. destruct (wCache w !! uri) as [p|] eqn:Hu.
  { split_and!; [done|reflexivity|]. simpl. intros q [= <-]. by apply (wi_map w Hw). }
  destruct (rsaKey (eKey e) (wKey w)) as [k g].
  assert (winv (setKey g w)) as Hw' by (by eapply winv_frame; try done; apply Hw).
  assert (wle w (setKey g w)) as Hle by (by apply wle_frame).
  destruct k as [k|err|t]; simpl fst; simpl snd; [|by split_and!..].
  pose proof (cache_new_for (eCache e) k uri (wMaker w) (C := C)) as Hnew.
  pose proof (cache_new_keeps (eCache e) k uri (wMaker w) (C := C) He (wi_maker w Hw)) as Hkeep.
  destruct (cacheNew (eCache e) k uri (wMaker w)) as [c m].
  assert (winv (setMaker m (setKey g w))) as Hm by (by apply winv_setMaker).
  assert (wle w (setMaker m (setKey g w))) as Hlem by (by apply wle_frame).
  destruct c as [c|err|t]; simpl fst; simpl snd; [|by split_and!..].
  specialize (Hnew c He (wi_maker w Hw) eq_refl) as Hfor.
  split_and!.
  - by apply (winv_newCache (setMaker m (setKey g w))).
  - split; simpl; try done || reflexivity. apply listLe_app, _.
  - intros p [= <-]. exists c. simpl. by rewrite list_lookup_middle.
Qed.

Lemma safe_connectionInfoCache w uri :
  Safe w (connectionInfoCache uri) (fun r w' => forall p, r = Ret p -> hasCache p uri w').
Proof.
  unfold connectionInfoCache.
  apply (Safe_bind _ _ _ (fun r w' => forall p, r = Some p -> hasCache p uri w')).
  - apply rg_act. intros e w1 _ _ Hw; simpl. split_and!; [done|reflexivity|]. intros p Hp. by apply (wi_map w1 Hw).
  - intros [p|] w' _ Hq.
    + intros q [= <-]. by apply Hq.
    + apply rg_act. intros e w1 He _ Hw. destruct (createCache_ok uri e w1 He Hw) as (? & ? & ?). by split_and!.
Qed.

(** A call of [ConnectionInfo] has begun on cache [p]. *)
Definition hasCall (p n : nat) (i : InstanceURI) w : Prop :=
  exists c, wCaches w !! p = Some (i, c) /\ cacheWaiting n c.

Lemma hasCall_le p n i w w' : wle w w' -> hasCall p n i w -> hasCall p n i w'.
Proof.
  intros Hle (c & Hc & Hn). destruct (wle_caches w w' Hle p (i, c) Hc) as ([j c'] & Hc' & [Hj [_ Hw]]).
  simpl in *. subst. exists c'. auto.
Qed.

Lemma safe_cacheBegin w p i :
  hasCache p i w -> Safe w (act (callCache 0%nat cacheBegin p)) (fun n w' => hasCall p n i w').
Proof.
  intros Hp. apply rg_act. intros e w1 He Hle Hw.
  destruct (callCache_ok 0%nat cacheBegin p e w1) as [Hw' Hle'];
    [intros; by apply cache_begin_inv|intros; apply cache_begin_later|done|]. split_and!; [done..|].
  destruct (hasCache_le p i w w1 Hle Hp) as [c Hc]. unfold callCache. rewrite Hc.
  pose proof (cache_begin_waiting (eCache e) c) as Hn. destruct (cacheBegin (eCache e) c) as [n c']; simpl in *.
  exists c'. split; [|done]. apply list_lookup_insert_eq. by eapply lookup_lt_Some.
Qed.

(** A return: a step of the cache, with a well-formed info if it succeeds, and not blocked
    when the context is done. *)
Lemma awaitCache_ok p n i e w :
  envOK e -> winv w -> hasCall p n i w ->
  match awaitCache p n e w with
  | Some (r, w') => winv w' /\ wle w w' /\ forall ci, r = Ret ci -> cacheInfoOK i ci
  | None => ~ ctxDone e
  end.
Proof.
  intros He Hw (c & Hc & Hn). unfold awaitCache. rewrite Hc.
  pose proof (wi_caches w Hw p i c Hc) as Hfor.
  destruct (cacheAwait (eCache e) n c) as [[r c']|] eqn:E; simpl.
  - split_and!.
    + eapply winv_setCache; [done|exact Hc|by eapply cache_await_inv|done].
    + eapply wle_setCache; [exact Hc|by eapply cache_await_later].
    + intros ci ->. by eapply cache_await_OK.
  - intros Hgo. destruct (cache_await_go (eCache e) n c Hn Hgo) as [? ?]. congruence.
Qed.

Lemma safe_cacheInfo w p i :
  hasCache p i w -> Safe w (cacheInfo p) (fun r w' => forall ci, r = Ret ci -> cacheInfoOK i ci).
Proof.
  intros Hp. unfold cacheInfo. eapply Safe_bind; [by apply (safe_cacheBegin _ p i)|]. intros n w1 _ Hn.
  apply rg_await. intros e w2 He Hle Hw. apply awaitCache_ok; [done..|]. by eapply hasCall_le.
Qed.

Lemma forceCache_ok p e w1 :
  envOK e -> winv w1 ->
  match forceCache p e w1 with
  | Some (_, w') => winv w' /\ wle w1 w' /\ True
  | None => ~ ctxDone e
  end.
Proof.
  intros He Hw. unfold forceCache. destruct (wCaches w1 !! p) as [[i c]|] eqn:Hc; [|by split_and!].
  pose proof (wi_caches w1 Hw p i c Hc) as Hfor.
  destruct (cacheForceRefresh (eCache e) c) as [c'|] eqn:E; simpl.
  - split_and!; [|by eapply wle_setCache; [exact Hc|by eapply cache_force_later]|done].
    eapply winv_setCache; [done|exact Hc|by eapply cache_force_inv|done].
  - intros Hgo. destruct (cache_force_go (eCache e) c Hgo) as [? ?]. congruence.
Qed.

Lemma safe_cacheForce w p : Safe w (cacheForce p) (fun _ _ => True).
Proof. apply rg_await. intros e w1 He _ Hw. by apply forceCache_ok. Qed.

Lemma removeCached_ok i p e w :
  envOK e -> winv w ->
  let w1 := (callCache () (fun x c => ((), cacheClose x c)) p e w).2 in
  let w' := setCaches (delete i (wCache w1)) (wCaches w1) w1 in
  winv w' /\ wle w w'.
Proof.
  intros He Hw. cbv zeta.
  destruct (callCache_ok () (fun x c => ((), cacheClose x c)) p e w) as [Hw1 Hle1];
    [by intros; apply cache_close_inv|intros; apply cache_close_later|done|].
  set (w1 := (callCache _ _ _ _ _).2) in *. split.
  - destruct Hw1. split; simpl; auto. intros j q [_ Hj]%lookup_delete_Some. eauto.
  - etransitivity; [exact Hle1|]. split; simpl; done || reflexivity.
Qed.

Lemma safe_removeCached w i p : Safe w (removeCached i p) (fun _ _ => True).
Proof.
  apply rg_act. intros e w1 He _ Hw. destruct (removeCached_ok i p e w1 He Hw). by split_and!.
Qed.

(** *** Connections *)

Definition connFor (f : F) (host : string) (c : netconn (N := N) (F := F)) : Prop :=
  cFunc c = f /\ cHost c = host.

Lemma safe_netDial w f host :
  Safe w (netDial f host) (fun r w' => forall id tcp, r = Ret (id, tcp) -> hasConn id (connFor f host) w').
Proof.
  apply rg_act. intros e w1 _ _ Hw. destruct (eDial e f host) as [[tcp n]|err|t]; simpl.
  - split_and!.
    + by eapply winv_frame; try done; apply Hw.
    + split; simpl; try done || reflexivity. apply listLe_app, _.
    + intros id tcp' [= <- <-]. eexists. simpl. rewrite list_lookup_middle by done. by split.
  - split_and!; [done|reflexivity|by intros].
  - split_and!; [done|reflexivity|by intros].
Qed.

Lemma safe_handshake w id cfg :
  Safe w (handshake id cfg) (fun r w' => r = None -> hasConn id (fun c => cfg ∈ cHandshakes c) w').
Proof.
  apply rg_act. intros e w1 _ _ Hw. destruct (wConns w1 !! id) as [c|] eqn:Hc; simpl;
    [|split_and!; [done|reflexivity|done]].
  destruct (eHandshake e cfg (cNet c)) as [err n]; simpl.
  match goal with |- context [updConn id ?f w1] => destruct (updConn_ok id f w1) as [? ?]; [|done|] end.
  { intros c0. split_and!; simpl; auto. intros t Ht. destruct err; [done|]. apply elem_of_app. by left. }
  split_and!; [done..|]. intros ->. eexists. simpl. rewrite list_lookup_alter_eq, Hc. split; [done|].
  simpl. apply elem_of_app. right. by apply list_elem_of_singleton.
Qed.

Lemma safe_closeConn w id P :
  hasConn id P w -> Safe w (closeConn id) (fun _ w' => hasConn id (fun c => cStatus c <> ConnOpen) w').
Proof.
  intros Hid. apply rg_act. intros e w1 _ Hle Hw; simpl.
  destruct (updConn_ok id (withStatus ConnClosed_) w1) as [? ?]; [apply withStatus_le|done|].
  split_and!; [done..|]. destruct Hid as (c & Hc & _).
  destruct (wle_conns w w1 Hle id c Hc) as (c1 & Hc1 & _).
  eexists. simpl. rewrite list_lookup_alter_eq, Hc1. split; [done|]. simpl. by destruct (cStatus c1).
Qed.

Lemma safe_exchange w d id :
  Safe w (exchange d id) (fun r w' => r = Ret () -> hasConn id (fun c => cExchanged c = true) w').
Proof.
  apply rg_act. intros e w1 _ _ Hw. destruct (wConns w1 !! id) as [c|] eqn:Hc; simpl;
    [|split_and!; [done|reflexivity|done]].
  set (s0 := {| xConn := cNet c; xPool := wPool w1; xBuf := []; xFresh := None |}).
  destruct (metadataExchange_pool (exchangeCfg d e) (eChoice e) (eGrow e) (eNow e) (eNow2 e) s0
    (wi_pool w1 Hw)) as [Hpool _].
  destruct (metadataExchange _ _ _ _ _ s0) as [r s]; simpl in *.
  match goal with |- context [updConn id ?f w1] => destruct (updConn_ok id f w1) as [Hw' Hle']; [|done|] end.
  { intros c0. split_and!; simpl; auto. intros ->. done. }
  split_and!.
  - by eapply winv_frame; [exact Hw'|done..|].
  - etransitivity; [exact Hle'|]. by apply wle_frame.
  - intros ->. eexists. simpl. rewrite list_lookup_alter_eq, Hc. split; [done|]. simpl. apply orb_true_r.
Qed.

(** A connection handed out: its fields that do not change. *)
Definition hasInstr (k id : nat) (cfg : tlsConfig) (i : InstanceURI) (p : nat) w : Prop :=
  exists ic, wInstr w !! k = Some ic /\ icConn ic = id /\ icTLS ic = cfg /\ icInst ic = i /\ icCache ic = p.

Lemma hasInstr_le k id cfg i p w w' : wle w w' -> hasInstr k id cfg i p w -> hasInstr k id cfg i p w'.
Proof.
  intros Hle (ic & Hic & <- & <- & <- & <-).
  destruct (wle_instr w w' Hle k ic Hic) as (ic' & Hic' & E1 & E2 & E3 & E4 & _). by exists ic'.
Qed.

Lemma hasCache_lt p i w : hasCache p i w -> (p < length (wCaches w))%nat.
Proof. intros [c Hc]. by eapply lookup_lt_Some. Qed.

Lemma safe_handOver w id cfg i p latency :
  hasCache p i w -> Safe w (handOver id cfg i p latency) (fun k w' => hasInstr k id cfg i p w').
Proof.
  intros Hp. apply rg_act. intros e w1 _ Hle Hw; simpl.
  destruct (updConn_ok id (withStatus ConnHanded) w1) as [Hw' Hle']; [apply withStatus_le|done|].
  set (ic := {| icConn := id; icTLS := cfg; icInst := i; icCache := p; icOpen := true; icDone := false |}).
  assert (p < length (wCaches w1))%nat as Hlt by (by eapply hasCache_lt, hasCache_le).
  split_and!.
  - destruct Hw' as [Hlen Hmap Hc Hpool Hi Ht Hn]. split; simpl in *; auto.
    + apply list.Forall_app; split; [done|]. constructor; [|done]. by split.
    + apply list.Forall_app; split; [done|]. by constructor.
    + intros q x Hq. rewrite openCount_app, pending_app; simpl. specialize (Hn q x Hq).
      destruct (decide (p = q)) as [->|Hne].
      * rewrite decide_True by done. by apply counterOK_shift.
      * rewrite decide_False by (by intros []). by rewrite !Z.add_0_r.
  - etransitivity; [exact Hle'|]. split; simpl; try done || reflexivity. apply listLe_app, _.
  - exists ic. simpl. by rewrite list_lookup_middle.
Qed.

(** *** The clock and the recording goroutines *)

Lemma safe_readClock w : Safe w readClock (fun _ _ => True).
Proof. apply rg_act. intros e w1 _ _ Hw. split_and!; [done|reflexivity|done]. Qed.

(** Changing what is to be recorded and what has been. *)
Lemma setReports_ok rs ms w :
  winv w -> (forall m, reported m w -> m ∈ rs \/ m ∈ ms) -> winv (setReports rs ms w) /\ wle w (setReports rs ms w).
Proof. intros Hw Hm. split; [by eapply winv_frame; try done; apply Hw|by apply wle_frame]. Qed.

Lemma safe_goRecord w ms : Safe w (goRecord ms) (fun _ w' => forall m, m ∈ ms -> reported m w').
Proof.
  apply rg_act. intros e w1 _ _ Hw; simpl.
  destruct (setReports_ok (wReports w1 ++ ms) (wMetrics w1) w1 Hw) as [? ?].
  { intros m [Hm|Hm]; [left; apply elem_of_app; by left|by right]. }
  split_and!; [done..|]. intros m Hm. left. apply elem_of_app. by right.
Qed.

(** *** [Dial] *)

Definition keepAliveError (i : InstanceURI) (err : error) : Prop :=
  exists cause, err = NewDialError "failed to set keep-alive" (URI_String i) (Some cause) \/
                err = NewDialError "failed to set keep-alive period" (URI_String i) (Some cause).

(** The connection a successful dial returns: a connection to the instance's own proxy,
    at the address of the requested type from connection info [ci] of the instance, over
    which a TLS handshake with that info's certificates succeeded, and then, unless it
    is disabled, the metadata exchange. *)
Definition dialedWith (d : Dialer) (cfg : dialCfg F) (i : InstanceURI) (ci : ConnectionInfo) (k id : nat) w : Prop :=
  exists addr p,
    let tls := {| tlsCertificate_ := ClientCert ci; tlsRootCAs := RootCAs ci; tlsServerName := addr |} in
    IPAddrs ci !! ipType cfg = Some addr /\ hasCache p i w /\
    hasInstr k id tls i p w /\
    hasConn id (fun c => connFor (default (dDialFunc d) (dcDialFunc cfg)) (JoinHostPort addr serverProxyPort) c /\
      tls ∈ cHandshakes c /\ (dDisableMetadataExchange d = true \/ cExchanged c = true)) w.

(** The same with an info that is well formed. *)
Definition dialed (d : Dialer) (cfg : dialCfg F) (i : InstanceURI) (k id : nat) w : Prop :=
  exists ci, infoOK i ci /\ dialedWith d cfg i ci k id w.

Definition dialPost (d : Dialer) (cfg : dialCfg F) (i : InstanceURI) (o : dialOut) w : Prop :=
  match dRes o with
  | Ret k => exists id ci, dConn o = Some id /\ cacheInfoOK i ci /\ dialedWith d cfg i ci k id w
  | Fail err => match dConn o with
                | None => True
                | Some id => hasConn id (fun c => cStatus c <> ConnOpen) w \/ keepAliveError i err
                end
  | Panic _ => True
  end.

(** Postconditions that do not look at the spans. *)
Definition spanless (Q : dialOut -> world -> Prop) : Prop := forall o sp w,
  Q o w -> Q {| dRes := dRes o; dConn := dConn o; dSpans := sp |} w.

Lemma safe_deferEnd w s t Q : spanless Q -> Safe w t Q -> Safe w (deferEnd s t) Q.
Proof. intros HQ Ht. eapply Safe_bind; [exact Ht|]. intros o w' _ Ho. by apply HQ. Qed.

Lemma safe_thenEnd {A} w (r : res A) s t Q : spanless Q -> Safe w t Q -> Safe w (thenEnd r s t) Q.
Proof. intros HQ Ht. eapply Safe_bind; [exact Ht|]. intros o w' _ Ho. by apply HQ. Qed.

Lemma safe_infoOr w i p r k Q :
  (forall ci, r = Ret ci -> cacheInfoOK i ci) -> (forall ci, cacheInfoOK i ci -> Safe w (k ci) Q) ->
  (forall r w', (forall k', r <> Ret k') -> Q {| dRes := r; dConn := None; dSpans := [] |} w') ->
  Safe w (infoOr i p r k) Q.
Proof.
  intros Hr Hk HQ. unfold infoOr. destruct r as [ci|err|t]; [by apply Hk, Hr| |by apply HQ].
  eapply Safe_bind; [apply safe_removeCached|].
  intros _ w' _ _; simpl. by apply HQ.
Qed.

Lemma safe_dialAddr w cfg i p k ci Q :
  hasCache p i w -> cacheInfoOK i ci ->
  (forall ci addr w', wle w w' -> cacheInfoOK i ci -> IPAddrs ci !! ipType cfg = Some addr -> Safe w' (k ci addr) Q) ->
  (forall r w', (forall k', r <> Ret k') -> Q {| dRes := r; dConn := None; dSpans := [] |} w') ->
  Safe w (dialAddr isPrint cfg i p k ci) Q.
Proof.
  intros Hp Hci0 Hk HQ. unfold dialAddr. rename ci into ci0.
  assert (forall w' ci, wle w w' -> cacheInfoOK i ci -> Safe w'
    match IPAddrs ci !! ipType cfg with
    | None => _ ←! removeCached i p;
        fails (NewConfigError ("instance does not have IP of type " +:+ quote isPrint (ipType cfg))
                 (URI_String i)) None
    | Some addr => k ci addr
    end Q) as Huse.
  { intros w' ci Hle Hci. destruct (IPAddrs ci !! ipType cfg) as [addr|] eqn:Ha; [by apply Hk|].
    eapply Safe_bind; [apply safe_removeCached|].
    intros _ w2 _ _; simpl. by apply HQ. }
  eapply Safe_bind; [apply safe_readClock|].
  intros now w2 Hle _.
  destruct (invalidClientCert now (Expiration ci0)); [|by apply Huse].
  eapply Safe_bind; [apply safe_cacheForce|]. intros _ w3 Hle3 _.
  assert (wle w w3) as Hle' by (by etransitivity).
  eapply Safe_bind; [apply (safe_cacheInfo _ p i); by eapply hasCache_le|].
  intros r' w4 Hle4 Hr'. apply safe_infoOr; [done| |done].
  intros ci' Hci'. apply Huse; [by etransitivity|done].
Qed.

Lemma safe_setKeepAlive w cfg i tcp id k Q :
  (forall w', wle w w' -> Safe w' k Q) ->
  (forall err w', keepAliveError i err -> Q {| dRes := Fail err; dConn := Some id; dSpans := [] |} w') ->
  Safe w (setKeepAlive cfg i tcp id k) Q.
Proof.
  intros Hk HQ. unfold setKeepAlive. destruct tcp; [|by apply Hk].
  assert (forall w' (f : dialEnv -> option error), Safe w' (act (fun e w => (f e, w))) (fun _ _ => True)) as Hact.
  { intros w' f. apply rg_act. intros e w2 _ _ Hw. split_and!; [done|reflexivity|done]. }
  eapply Safe_bind; [apply Hact|]. intros e1 w1 Hle1 _. destruct e1 as [err|].
  { apply HQ. exists err. by left. }
  eapply Safe_bind; [apply (Hact _ (fun e => eKeepAlivePeriod e (tcpKeepAlive cfg)))|]. intros e2 w2 Hle2 _.
  destruct e2 as [err|]; simpl.
  { apply HQ. exists err. by right. }
  apply Hk. by etransitivity.
Qed.

(** What a thread knows about its connection survives what others do. *)
Lemma connFor_le f host (c c' : netconn (N := N) (F := F)) : connLe c c' -> connFor f host c -> connFor f host c'.
Proof. intros (E1 & E2 & _) [<- <-]. by split. Qed.
Lemma handshakes_le (t : tlsConfig) (c c' : netconn (N := N) (F := F)) : connLe c c' -> t ∈ cHandshakes c -> t ∈ cHandshakes c'.
Proof. intros (_ & _ & _ & Ht & _). apply Ht. Qed.
Lemma exchanged_le (c c' : netconn (N := N) (F := F)) : connLe c c' -> cExchanged c = true -> cExchanged c' = true.
Proof. intros (_ & _ & _ & _ & He). apply He. Qed.
Lemma notOpen_le (c c' : netconn (N := N) (F := F)) : connLe c c' -> cStatus c <> ConnOpen -> cStatus c' <> ConnOpen.
Proof. intros (_ & _ & Hs & _) Hne. by rewrite Hs. Qed.

Lemma hasConn_and id P Q w : hasConn id P w -> hasConn id Q w -> hasConn id (fun c => P c /\ Q c) w.
Proof. intros (c & Hc & Hp) (c' & Hc' & Hq). simplify_eq. exists c. by split_and!. Qed.

Lemma dialedWith_le d cfg i ci k id w w' : wle w w' -> dialedWith d cfg i ci k id w -> dialedWith d cfg i ci k id w'.
Proof.
  intros Hle (addr & p & Ha & Hp & Hk & Hid). exists addr, p.
  split_and!; [done..|by eapply hasCache_le|by eapply hasInstr_le|].
  eapply hasConn_le; [|exact Hle|exact Hid]. intros c c' Hcc (Hf & Ht & Hx).
  split_and!; [by eapply connFor_le|by eapply handshakes_le|].
  destruct Hx as [|Hx]; [by left|right]. by eapply exchanged_le.
Qed.

Lemma dialPost_stable d cfg i : stable wle (dialPost d cfg i).
Proof.
  intros o w w' Hle. unfold dialPost. destruct (dRes o) as [k|err|t]; [| |done].
  - intros (id & ci & Hid & Hci & Hd). exists id, ci. split_and!; [done..|]. by eapply dialedWith_le.
  - destruct (dConn o) as [id|]; [|done]. intros [Hid|Hk]; [left|by right].
    eapply hasConn_le; [apply notOpen_le|exact Hle|exact Hid].
Qed.

Lemma safe_handOut d cfg i p ci addr id latency w :
  let tls := {| tlsCertificate_ := ClientCert ci; tlsRootCAs := RootCAs ci; tlsServerName := addr |} in
  hasCache p i w -> cacheInfoOK i ci -> IPAddrs ci !! ipType cfg = Some addr ->
  hasConn id (fun c => connFor (default (dDialFunc d) (dcDialFunc cfg)) (JoinHostPort addr serverProxyPort) c /\
    tls ∈ cHandshakes c /\ (dDisableMetadataExchange d = true \/ cExchanged c = true)) w ->
  Safe w (now ←! readClock; k ←! handOver id tls i p (latency now);
          returns (Ret k) (Some id)) (dialPost d cfg i).
Proof.
  intros tls Hp Hci Ha Hid. eapply Safe_bind; [apply safe_readClock|]. intros now w0 Hle0 _.
  eapply Safe_bind; [by eapply safe_handOver, hasCache_le|]. intros k w1 Hle1' Hk.
  assert (wle w w1) as Hle1 by (by etransitivity).
  simpl. exists id, ci. split_and!; [done..|]. exists addr, p. split_and!; try done.
  - by eapply hasCache_le.
  - eapply hasConn_le; [|exact Hle1|exact Hid]. intros c c' Hcc (Hf & Ht & Hx).
    split_and!; [by eapply connFor_le|by eapply handshakes_le|].
    destruct Hx as [|Hx]; [by left|right]. by eapply exchanged_le.
Qed.

Lemma safe_dialConnect w d cfg i p instance start ci addr :
  hasCache p i w -> cacheInfoOK i ci -> IPAddrs ci !! ipType cfg = Some addr ->
  Safe w (dialConnect d cfg i p instance start ci addr) (dialPost d cfg i).
Proof.
  intros Hp Hci Ha. unfold dialConnect.
  eapply Safe_bind; [apply safe_netDial|]. intros r w1 Hle1 Hdial.
  destruct r as [[id tcp]|err|t]; [| |done].
  2:{ eapply Safe_bind; [apply safe_cacheForce|]. by intros _ w2 _ _. }
  specialize (Hdial id tcp eq_refl).
  apply safe_setKeepAlive; [|by intros err w' Hk; right]. intros w2 Hle2. cbv zeta.
  assert (hasConn id (connFor (default (dDialFunc d) (dcDialFunc cfg)) (JoinHostPort addr serverProxyPort)) w2)
    as Hid by (by eapply hasConn_le; [apply connFor_le|..]).
  set (tls := {| tlsCertificate_ := _; tlsRootCAs := _; tlsServerName := _ |}).
  eapply Safe_bind; [apply safe_handshake|]. intros h w3 Hle3 Hh.
  assert (hasConn id (connFor (default (dDialFunc d) (dcDialFunc cfg)) (JoinHostPort addr serverProxyPort)) w3)
    as Hid3 by (by eapply hasConn_le; [apply connFor_le|..]).
  assert (hasCache p i w3) as Hp3.
  { eapply hasCache_le; [|exact Hp]. etransitivity; [exact Hle1|]. by etransitivity. }
  destruct h as [err|].
  { eapply Safe_bind; [apply safe_cacheForce|]. intros _ w4 Hle4 _.
    eapply Safe_bind; [eapply safe_closeConn, hasConn_le; [apply connFor_le|exact Hle4|exact Hid3]|].
    intros ? w5 ? Hcl. left. exact Hcl. }
  specialize (Hh eq_refl). pose proof (hasConn_and id _ _ w3 Hid3 Hh) as Hboth.
  destruct (dDisableMetadataExchange d) eqn:Hdis.
  - apply safe_handOut; try done. destruct Hboth as (c & Hc & Hf & Ht). exists c. by split_and!; auto.
  - eapply Safe_bind; [apply safe_exchange|]. intros m w4 Hle4 Hm.
    destruct m as [[]|err|t]; [| |done].
    + specialize (Hm eq_refl).
      assert (hasConn id (fun c => connFor (default (dDialFunc d) (dcDialFunc cfg))
        (JoinHostPort addr serverProxyPort) c /\ tls ∈ cHandshakes c) w4) as Hboth4.
      { eapply hasConn_le; [|exact Hle4|exact Hboth]. intros c c' Hcc [? ?].
        split; [by eapply connFor_le|by eapply handshakes_le]. }
      apply safe_handOut; try done; [by eapply hasCache_le|].
      destruct (hasConn_and id _ _ w4 Hboth4 Hm) as (c & Hc & [Hf Ht] & Hx). exists c. by split_and!; auto.
    + eapply Safe_bind; [eapply safe_closeConn, hasConn_le; [apply connFor_le|exact Hle4|exact Hid3]|].
      intros ? w5 ? Hcl. left. exact Hcl.
Qed.

(** [Dial], for any instance and options. *)
Definition dialSpec (d : Dialer) (instance : string) (opts : list (DialOption F)) (o : dialOut) w : Prop :=
  match ParseInstURI instance with
  | Ret i => dialPost d (DialOptions opts (defaultDialCfg d)) i o w
  | Fail err => dConn o = None /\ (dRes o = Fail err \/ dRes o = Fail ErrDialerClosed)
  | Panic t => dConn o = None /\ (dRes o = Panic t \/ dRes o = Fail ErrDialerClosed)
  end.

Lemma dialSpec_spanless d instance opts : spanless (dialSpec d instance opts).
Proof. intros o sp w. unfold dialSpec. by destruct (ParseInstURI instance). Qed.

Lemma safe_dialOpen w d instance opts start :
  Safe w (dialOpen isPrint d instance opts start) (dialSpec d instance opts).
Proof.
  unfold dialOpen, dialSpec. cbv zeta. destruct (ParseInstURI instance) as [i|err|t]; [|simpl; by auto..].
  eapply Safe_bind; [apply safe_connectionInfoCache|]. intros c w2 _ Hc.
  destruct c as [p|err|t]; [|by apply safe_thenEnd; [intros []|]..]. specialize (Hc p eq_refl).
  eapply Safe_bind; [by apply (safe_cacheInfo _ p i)|]. intros r w3 Hle3 Hr.
  apply safe_thenEnd; [by intros []|]. apply safe_infoOr; [done| |by intros [] w' Hr'; try done; destruct (Hr' a)].
  intros ci Hci. apply safe_dialAddr; [by eapply hasCache_le|done| |by intros [] w' Hr'; try done; destruct (Hr' a)].
  intros ci' addr w' Hle Hci' Ha. apply safe_deferEnd; [by intros []|]. apply safe_dialConnect; try done.
  eapply hasCache_le; [|exact Hc]. by etransitivity.
Qed.

(** The failure of a dial that got past the test of [d.closed] is reported. *)
Definition dialReported (d : Dialer (F := F)) (instance : string) (o : dialOut) w : Prop :=
  forall err, dRes o = Fail err ->
    (err = ErrDialerClosed /\ dConn o = None) \/
    reported {| msMeasure := mDialError; msValue := 1; msTags := baseTags instance (dDialerID d) |} w.

Definition dialDone (d : Dialer) (instance : string) (opts : list (DialOption F)) (o : dialOut) w : Prop :=
  dialSpec d instance opts o w /\ dialReported d instance o w.

Lemma dialSpec_stable d instance opts : stable wle (dialSpec d instance opts).
Proof.
  intros o w w' Hle. unfold dialSpec. destruct (ParseInstURI instance); [|done..]. by apply dialPost_stable.
Qed.

Lemma dialDone_stable d instance opts : stable wle (dialDone d instance opts).
Proof.
  intros o w w' Hle [Hs Hr]. split; [by eapply dialSpec_stable|]. intros err E.
  destruct (Hr err E) as [|Hm]; [by left|right]. by eapply wle_reported.
Qed.

Lemma safe_Dial w d instance opts : Safe w (Dial isPrint d instance opts) (dialDone d instance opts).
Proof.
  unfold Dial. eapply (Safe_bind _ isClosed _ (fun _ _ => True)).
  { apply rg_act. intros e w1 _ _ Hw. split_and!; [done|reflexivity|done]. }
  intros [] w1 _ _.
  { split; [|intros err [= <-]; by left]. unfold dialSpec.
    destruct (ParseInstURI instance); simpl; unfold dialPost; simpl; auto. }
  eapply Safe_bind; [apply safe_readClock|]. intros start w2 _ _.
  eapply Safe_bind; [apply safe_deferEnd; [apply dialSpec_spanless|apply safe_dialOpen]|]. intros o w3 _ Hspec.
  eapply Safe_bind; [apply safe_goRecord|]. intros u w4 Hle Hm.
  split; [by eapply dialSpec_stable|]. intros err E. right. apply Hm. rewrite E; simpl.
  by apply list_elem_of_singleton.
Qed.
End Acts.
