(* ===== verification/DialerThms.v ===== *)
(** * The dialer: theorems over all schedules

    Any number of goroutines call [Dial], [Close] and the [Close] of the connections,
    while the caches refresh in the background and the counters are updated. *)
From S2P Require Import Prelude GoTime ErrType InstanceURI Refresh GoIO Metadata KeyGen Options Cache Tel Threads Dialer DialerInv DialerProps.
#[local] Open Scope string_scope.
#[local] Open Scope list_scope.
#[local] Open Scope Z_scope.

Section Threads.
Context `{CryptoLib} `{ProtoLib}.
Context {C CE M N F : Type} `{!InfoCache C CE, !CacheMaker C CE M, !NetConn N}.
Context `{!InfoCacheLaws C CE, !CacheMakerLaws C CE M, !NetConnLaws N}.
Context (isPrint : Z -> bool).
Implicit Types w : world (C := C) (M := M) (N := N) (F := F).
Implicit Types e : dialEnv (CE := CE) (N := N) (F := F).
Implicit Types m : M.

Abbreviation Safe := (rg (W := world (C := C) (M := M) (N := N) (F := F))
                         (E := dialEnv (CE := CE) (N := N) (F := F)) envOK ctxDone winv wle wle).

Lemma closeAll_lookup e w p i c' :
  wCaches (closeAll e w).2 !! p = Some (i, c') ->
  exists c, wCaches w !! p = Some (i, c) /\ (c' = c \/ c' = cacheClose (eCache e) c).
Proof.
  simpl. rewrite list_lookup_imap. destruct (wCaches w !! p) as [[j c]|]; simpl; [|done].
  case_bool_decide; intros [= <- <-]; exists c; auto.
Qed.

Lemma closeAll_ok e w : envOK e -> winv w -> winv (closeAll e w).2 /\ wle w (closeAll e w).2.
Proof.
  intros He [Hlen Hmap Hc Hp Hi Ht Hn]. split.
  - split; try (simpl; rewrite ?length_imap; done).
    + intros i p Hip. destruct (Hmap i p Hip) as [c Hc']. simpl. rewrite list_lookup_imap, Hc'; simpl.
      case_bool_decide; eauto.
    + intros p i c' Hp'. destruct (closeAll_lookup e w p i c' Hp') as (c & Hc' & [-> | ->]); [eauto|].
      apply cache_close_inv; [by eapply Hc|exact He].
  - split; try (simpl; done || reflexivity). intros p [i c] Hp'. simpl. rewrite list_lookup_imap, Hp'; simpl.
    case_bool_decide; eexists; (split; [done|]); split; simpl; [done|apply cache_close_later|done|reflexivity].
Qed.

Lemma instrClose_ok k e w : winv w -> winv (instrClose k e w).2 /\ wle w (instrClose k e w).2.
Proof.
  intros Hw. unfold instrClose. destruct (wInstr w !! k) as [ic|] eqn:Hk; [|by split].
  destruct (icOpen ic) eqn:Ho; [|by split]. simpl.
  pose proof Hw as [Hlen Hmap Hc Hp Hi Ht Hn].
  destruct (list.Forall_lookup_1 _ _ _ _ Hi Hk) as [Hdone Hlt]. simpl in Hdone, Hlt.
  assert (icDone ic = false) as Hd by (destruct (icDone ic); [by rewrite Hdone in Ho|done]).
  split.
  - split; simpl; auto.
    + apply Forall_insert; [done|]. simpl. by destruct (eClose e).
    + apply list.Forall_app; split; [done|]. destruct (eClose e); by repeat constructor.
    + intros q x Hq. specialize (Hn q x Hq). destruct (eClose e) as [err|].
      * rewrite app_nil_r. by erewrite openCount_keep.
      * erewrite openCount_close by done. rewrite pending_app; simpl.
        destruct (decide (icCache ic = q)); [by apply (counterOK_shift _ _ _ (-1))|].
        by rewrite Z.sub_0_r, Z.add_0_r.
  - split; simpl; try done || reflexivity.
    eapply listLe_insert; [apply _|exact Hk|]. by split_and!.
Qed.

Lemma runTask_ok t e w : winv w -> winv (runTask t e w).2 /\ wle w (runTask t e w).2.
Proof.
  intros Hw. unfold runTask. destruct (wTasks w !! t) as [k|] eqn:Ht; [|by split].
  pose proof Hw as [Hlen Hmap Hc Hp Hi Hts Hn]. simpl. split; [|by apply wle_frame].
  split; simpl; auto.
  - by rewrite length_alter.
  - by apply Forall_delete.
  - intros q x Hq. destruct (decide (tkCache k = q)) as [<-|Hne].
    + rewrite list_lookup_alter_eq in Hq. destruct (wOpens w !! tkCache k) as [y|] eqn:Hy; simplify_eq/=.
      specialize (Hn _ y Hy). rewrite (pending_delete _ _ t k Ht), decide_True in Hn by done.
      by apply counterOK_run.
    + rewrite list_lookup_alter_ne in Hq by done. specialize (Hn q x Hq).
      by rewrite (pending_delete q _ t k Ht), decide_False, Z.add_0_r in Hn by done.
Qed.

Lemma recordOpens_ok d r e w : winv w -> winv (recordOpens d r e w).2 /\ wle w (recordOpens d r e w).2.
Proof.
  intros Hw. unfold recordOpens. destruct r as [[k n]|]; [|by split]. apply setReports_ok; [done|].
  intros m [Hm|Hm]; [by left|right]. apply elem_of_app. by left.
Qed.

Lemma runReport_ok t e w : winv w -> winv (runReport t e w).2 /\ wle w (runReport t e w).2.
Proof.
  intros Hw. unfold runReport. destruct (wReports w !! t) as [m|] eqn:Ht; [|by split]. apply setReports_ok; [done|].
  intros m' [Hm|Hm]; [|right; apply elem_of_app; by left].
  rewrite <- (take_drop_middle _ _ _ Ht) in Hm. rewrite delete_take_drop.
  apply elem_of_app in Hm as [Hm|[->|Hm]%elem_of_cons].
  - left. apply elem_of_app. by left.
  - right. apply elem_of_app. right. by apply list_elem_of_singleton.
  - left. apply elem_of_app. by right.
Qed.

Lemma instrIO_ok record d k e w : winv w -> winv (instrIO record d k e w).2 /\ wle w (instrIO record d k e w).2.
Proof.
  intros Hw. unfold instrIO. destruct (wInstr w !! k) as [ic|]; [|by split]; simpl.
  destruct (eIO e).2; [by split|]. apply setReports_ok; [done|].
  intros m [Hm|Hm]; [left; apply elem_of_app; by left|by right].
Qed.

(** ** Calls *)

Inductive call :=
| CallDial (instance : string) (opts : list (DialOption F))
| CallClose
| CallConnClose (k : nat)
| CallConnRead (k : nat)
| CallConnWrite (k : nat)
| CallCountTask (t : nat)
| CallReportTask (t : nat)
| CallBackground (p : nat).

Definition progOf (d : Dialer) (c : call) : thread (world (C := C) (M := M) (N := N) (F := F)) dialEnv dialOut :=
  match c with
  | CallDial instance opts => Dial isPrint d instance opts
  | CallClose => Close
  | CallConnClose k => ConnClose k
  | CallConnRead k => ConnRead d k
  | CallConnWrite k => ConnWrite d k
  | CallCountTask t => CountTask d t
  | CallReportTask t => ReportTask t
  | CallBackground p => Background p
  end.

Definition callPost (d : Dialer) (c : call) (o : dialOut) w : Prop :=
  match c with
  | CallDial instance opts => dialDone d instance opts o w
  | CallClose => isRet (dRes o) = true -> wClosed w = true
  | _ => True
  end.

Lemma safe_Close w : Safe w Close (fun o w' => isRet (dRes o) = true -> wClosed w' = true).
Proof.
  unfold Close. eapply (Safe_bind _ isClosed _ (fun r w' => r = true -> wClosed w' = true)).
  { apply rg_act. intros e w1 _ _ Hw. split_and!; [done|reflexivity|done]. }
  intros [] w1 _ Hcl; [by intros _; apply Hcl|].
  eapply (Safe_bind _ closeChan _ (fun r w' => isRet r = true -> wClosed w' = true)).
  { apply rg_act. intros e w2 _ _ Hw. simpl. destruct (wClosed w2) eqn:E; [split_and!; done || reflexivity|].
    split_and!; [by eapply winv_frame; try done; apply Hw|by apply wle_frame|done]. }
  intros r w2 _ Hcl2. destruct r; [|done..]. specialize (Hcl2 eq_refl).
  eapply (Safe_bind _ (act closeAll) _ (fun _ w' => wClosed w' = true)); [|intros ? w4 _ Hc4; simpl; by intros _].
  apply rg_act. intros e w3 He Hle Hw. destruct (closeAll_ok e w3 He Hw).
  split_and!; [done..|]. simpl. by apply (wle_closed w2 w3 Hle).
Qed.

(** An action of which only the invariant matters. *)
Lemma safe_plain {A} w (f : dialEnv -> world -> A * world) :
  (forall e w1, envOK e -> winv w1 -> winv (f e w1).2 /\ wle w1 (f e w1).2) -> Safe w (act f) (fun _ _ => True).
Proof. intros Hf. apply rg_act. intros e w1 He _ Hw. by destruct (Hf e w1 He Hw). Qed.

Lemma safe_call w d c : Safe w (progOf d c) (callPost d c).
Proof.
  destruct c as [instance opts| |k|k|k|t|t|p]; simpl progOf; unfold callPost.
  - apply safe_Dial.
  - apply safe_Close.
  - eapply Safe_bind; [apply safe_plain; intros; by apply instrClose_ok|by intros []].
  - eapply Safe_bind; [apply safe_plain; intros; by apply instrIO_ok|by intros [? []]].
  - eapply Safe_bind; [apply safe_plain; intros; by apply instrIO_ok|by intros [? []]].
  - eapply Safe_bind; [apply safe_plain; intros; by apply runTask_ok|intros r w1 _ _].
    eapply Safe_bind; [apply safe_plain; intros; by apply recordOpens_ok|done].
  - eapply Safe_bind; [apply safe_plain; intros; by apply runReport_ok|done].
  - eapply Safe_bind; [apply safe_plain; intros|done].
    apply callCache_ok; simpl; [|intros; apply cache_tick_later|done]. intros. by apply cache_tick_inv.
Qed.

Lemma callPost_stable d c : stable wle (callPost d c).
Proof.
  destruct c; try done; intros o w w' Hle; unfold callPost; [by apply dialDone_stable|].
  intros Hc Hr. by apply (wle_closed w w' Hle), Hc.
Qed.

Lemma winv_new g m : makerOK (C := C) (E := CE) m -> winv (newWorld (C := C) (M := M) (N := N) (F := F) g m).
Proof. split; simpl; try done. constructor. Qed.

(** The state after a schedule of calls of a new dialer, and what the calls still do. *)
Definition postOf (d : Dialer) (calls : list call) (n : nat) : dialOut -> world -> Prop :=
  match calls !! n with Some c => callPost d c | None => fun _ _ => True end.

Lemma pool_safe d g m calls sched w ts :
  makerOK (C := C) (E := CE) m -> Forall envOK sched.*2 -> runPool sched (newWorld g m) (progOf d <$> calls) = Some (w, ts) ->
  winv w /\ forall n t, ts !! n = Some t -> Safe w t (postOf d calls n).
Proof.
  intros Hm He Hrun.
  destruct (rg_pool envOK ctxDone winv (fun _ => wle) (fun _ => wle) (postOf d calls) sched (newWorld g m) (progOf d <$> calls) w ts)
    as (Hw & Hs); [by intros _; apply _| |by intros i j w1 w2 _ _ _|done|by apply winv_new| |done|done].
  - intros n. unfold postOf. destruct (calls !! n); [apply callPost_stable|done].
  - intros n t Ht. rewrite list_lookup_fmap in Ht. unfold postOf.
    destruct (calls !! n) as [c|]; simplify_eq/=. apply safe_call.
Qed.

Lemma pool_sound d g m calls sched w ts :
  makerOK (C := C) (E := CE) m -> Forall envOK sched.*2 -> runPool sched (newWorld g m) (progOf d <$> calls) = Some (w, ts) ->
  winv w /\ forall n c o, calls !! n = Some c -> ts !! n = Some (TDone o) -> callPost d c o w.
Proof.
  intros Hm He Hrun. destruct (pool_safe d g m calls sched w ts Hm He Hrun) as [Hw Hs].
  split; [done|]. intros n c o Hc Ho. specialize (Hs n _ Ho). unfold postOf in Hs. by rewrite Hc in Hs.
Qed.
End Threads.

(** ** Theorems *)

Section Theorems.
Context `{CryptoLib} `{ProtoLib}.
Context {C CE M N F : Type} `{!InfoCache C CE, !CacheMaker C CE M, !NetConn N}.
Context `{!InfoCacheLaws C CE, !CacheMakerLaws C CE M, !NetConnLaws N}.
(** A new dialer, calls made on it, and a schedule of them. *)
Context (isPrint : Z -> bool) (d : Dialer (F := F)) (g : keyGenerator PrivateKey) (m : M).
Context (calls : list (call (F := F))) (sched : list (nat * dialEnv (CE := CE) (N := N) (F := F))).
Context (w : world (C := C) (M := M) (N := N) (F := F)) (ts : list (thread (world (C := C) (M := M) (N := N) (F := F)) (dialEnv (CE := CE) (N := N) (F := F)) dialOut)).
Hypothesis Hmaker : makerOK (C := C) (E := CE) m.
Hypothesis Henv : Forall envOK sched.*2.
Hypothesis Hrun : runPool sched (newWorld g m) (progOf isPrint d <$> calls) = Some (w, ts).

(** C2: what a successful [Dial] returns, on every schedule. The argument is an instance
    URI; the connection goes to the address of the requested type in a well-formed
    connection info of that instance, on the server proxy's port, made by the dial
    function of the call or else of the dialer; a TLS handshake succeeded over it with
    the client certificate and the roots of that same info and the address as server
    name; and, unless it is disabled, the metadata exchange succeeded. *)
Theorem dial_sound n instance opts o k
    (Hc : calls !! n = Some (CallDial instance opts)) (Ho : ts !! n = Some (TDone o)) (Hk : dRes o = Ret k) :
  exists i id, ParseInstURI instance = Ret i /\ dConn o = Some id /\
    dialed d (DialOptions opts (defaultDialCfg d)) i k id w.
Proof.
  destruct (pool_sound isPrint d g m calls sched w ts Hmaker Henv Hrun) as [_ Hpost].
  destruct (Hpost n _ o Hc Ho) as [Hspec _]. unfold dialSpec in Hspec.
  destruct (ParseInstURI instance) as [i|err|t].
  - unfold dialPost in Hspec. rewrite Hk in Hspec. destruct Hspec as (id & ci & ? & Hci & ?).
    exists i, id. split_and!; [done..|]. exists ci. split; [by apply cache_info_OK|done].
  - destruct Hspec as [_ [Hr|Hr]]; congruence.
  - destruct Hspec as [_ [Hr|Hr]]; congruence.
Qed.

(** C14: no connection is left behind. When [Dial] fails after it has opened a network
    connection, that connection has been closed, on every schedule, with one
    exception: setting the keep-alive options failed. *)
Theorem dial_error_closes n instance opts o err id
    (Hc : calls !! n = Some (CallDial instance opts)) (Ho : ts !! n = Some (TDone o))
    (Herr : dRes o = Fail err) (Hid : dConn o = Some id) :
  hasConn id (fun c => cStatus c <> ConnOpen) w \/
  exists i, ParseInstURI instance = Ret i /\ keepAliveError i err.
Proof.
  destruct (pool_sound isPrint d g m calls sched w ts Hmaker Henv Hrun) as [_ Hpost].
  destruct (Hpost n _ o Hc Ho) as [Hspec _]. unfold dialSpec in Hspec.
  destruct (ParseInstURI instance) as [i|e|t].
  - unfold dialPost in Hspec. rewrite Herr, Hid in Hspec. destruct Hspec; [by left|right]. by exists i.
  - destruct Hspec; congruence.
  - destruct Hspec; congruence.
Qed.

(** Failed dials are counted. On every schedule, when a dial that got past the test
    of [d.closed] has failed, one dial error tagged with the argument and the dialer has
    been recorded, or the goroutine that will record it is there; so it has been recorded
    once the recording goroutines have run. *)
Theorem dial_reports n instance opts o err
    (Hc : calls !! n = Some (CallDial instance opts)) (Ho : ts !! n = Some (TDone o))
    (Herr : dRes o = Fail err) (Hopen : err <> ErrDialerClosed) :
  let m := {| msMeasure := mDialError; msValue := 1; msTags := baseTags instance (dDialerID d) |} in
  reported m w /\ (wReports w = [] -> m ∈ wMetrics w).
Proof.
  destruct (pool_sound isPrint d g m calls sched w ts Hmaker Henv Hrun) as [_ Hpost].
  destruct (Hpost n _ o Hc Ho) as [_ Hrep]. destruct (Hrep err Herr) as [[? _]|Hm]; [done|]. cbv zeta.
  split; [done|]. intros E. destruct Hm as [Hm|Hm]; [|done]. rewrite E in Hm. by apply not_elem_of_nil in Hm.
Qed.

(** C9: the counters. When the counting goroutines have run, the counter of every cache is
    the number of connections handed out for it and not closed successfully, whatever
    the order in which the goroutines ran (the counter may wrap below zero meanwhile). *)
Theorem open_conns_counted p x
    (Hidle : wTasks w = []) (Hx : wOpens w !! p = Some x)
    (Hfew : Z.of_nat (length (wInstr w)) < 2 ^ 64) :
  x = openCount p (wInstr w).
Proof.
  destruct (pool_sound isPrint d g m calls sched w ts Hmaker Henv Hrun) as [Hw _].
  destruct (wi_count w Hw p x Hx) as [Hr E]. rewrite Hidle in E.
  assert (openCount p (wInstr w) <= Z.of_nat (length (wInstr w))) as Hle.
  { unfold openCount. apply inj_le, length_filter. }
  unfold pending in E; simpl in E. rewrite Z.add_0_r, !Z.mod_small in E; [done|unfold openCount in *; lia|done].
Qed.

(** C31: one cache per instance. On every schedule the map holds, for each of its
    instances, a cache of that instance: dials of different instances never share a
    cache, and its content is well formed. *)
Theorem caches_by_instance i p (Hp : wCache w !! i = Some p) :
  hasCache p i w /\ (forall c, wCaches w !! p = Some (i, c) -> cacheFor i c) /\
  (exists x, wOpens w !! p = Some x) /\
  forall j, wCache w !! j = Some p -> j = i.
Proof.
  destruct (pool_sound isPrint d g m calls sched w ts Hmaker Henv Hrun) as [Hw _].
  destruct (wi_map w Hw i p Hp) as [c Hc]. split_and!.
  - by exists c.
  - intros c'. apply (wi_caches w Hw).
  - apply lookup_lt_is_Some. rewrite (wi_len w Hw). by eapply lookup_lt_Some.
  - intros j Hj. destruct (wi_map w Hw j p Hj) as [c' Hc']. congruence.
Qed.

(** C34: closed for good. In every state in which some call of [Close] has returned, a dial
    that begins fails at once with [ErrDialerClosed] and changes nothing. *)
Theorem closed_for_good n o e instance opts
    (Hc : calls !! n = Some CallClose) (Ho : ts !! n = Some (TDone o)) (Hr : isRet (dRes o) = true) :
  tstep e w (Dial isPrint d instance opts) =
    Some (w, TDone {| dRes := Fail ErrDialerClosed; dConn := None; dSpans := [] |}).
Proof.
  destruct (pool_sound isPrint d g m calls sched w ts Hmaker Henv Hrun) as [_ Hpost].
  specialize (Hpost n _ o Hc Ho Hr). unfold Dial; simpl. by rewrite Hpost.
Qed.

End Theorems.
