(* ===== verification/DialerClient.v ===== *)
(** * The dialer used from one goroutine

    Dials that overlap can leak a cache ([DialerToy.remove_leaks_cache]) and so can a
    [Close] that overlaps a dial. Here the dials and closes are made by one goroutine,
    one after the other, while any number of other goroutines close connections, update
    the counters and refresh the caches: then no cache is ever leaked, and after [Close]
    no cache works on. *)
From S2P Require Import Prelude GoTime ErrType InstanceURI Refresh GoIO Metadata KeyGen Options Cache Threads Dialer DialerInv DialerProps DialerThms.
#[local] Open Scope string_scope.
#[local] Open Scope list_scope.
#[local] Open Scope Z_scope.

Section Client.
Context `{CryptoLib} `{ProtoLib}.
Context {C CE M N F : Type} `{!InfoCache C CE, !CacheMaker C CE M, !NetConn N}.
Context `{!InfoCacheLaws C CE, !CacheMakerLaws C CE M, !NetConnLaws N}.
Context (isPrint : Z -> bool).
Abbreviation W := (world (C := C) (M := M) (N := N) (F := F)).
Abbreviation Env := (dialEnv (CE := CE) (N := N) (F := F)).
Implicit Types w : W.
Implicit Types e : Env.

(** ** The invariant *)

(** Every cache is in the map or has stopped its background work. *)
Definition noLeak w : Prop := forall p i c,
  wCaches w !! p = Some (i, c) -> cacheStopped c \/ wCache w !! i = Some p.

Definition allStopped w : Prop := forall p i c, wCaches w !! p = Some (i, c) -> cacheStopped c.

Definition clientInv w : Prop := winv w /\ noLeak w.

(** What the other goroutines may do: not make caches, not touch the map or the flag. *)
Record quiet w w' : Prop := {
  quiet_le : wle w w';
  quiet_map : wCache w' = wCache w;
  quiet_len : length (wCaches w') = length (wCaches w);
  quiet_closed : wClosed w' = wClosed w }.

(** What the client may do while the dialer is open. *)
Definition dialing w w' : Prop := wle w w' /\ wClosed w' = wClosed w.

#[export] Instance quiet_preorder : PreOrder quiet.
Proof.
  split.
  - intros w. split; done || reflexivity.
  - intros w1 w2 w3 [] []. split; [by etransitivity|congruence..].
Qed.

#[export] Instance dialing_preorder : PreOrder dialing.
Proof.
  split; [intros w; split; done || reflexivity|]. intros w1 w2 w3 [] []. split; [by etransitivity|congruence].
Qed.

Lemma quiet_dialing w w' : quiet w w' -> dialing w w'.
Proof. intros []. by split. Qed.

(** A cache of a later quiet world was there before, and has not been restarted. *)
Lemma quiet_cache w w' p i c' :
  quiet w w' -> wCaches w' !! p = Some (i, c') ->
  exists c, wCaches w !! p = Some (i, c) /\ (cacheStopped c -> cacheStopped c').
Proof.
  intros [Hle _ Hlen _] Hp'.
  destruct (lookup_lt_is_Some_2 (wCaches w) p) as [[j c] Hp]; [rewrite <- Hlen; by eapply lookup_lt_Some|].
  destruct (wle_caches w w' Hle p (j, c) Hp) as ([j' c''] & Hp'' & [Hj [Hs _]]).
  simplify_eq/=. by exists c.
Qed.

Lemma noLeak_quiet w w' : quiet w w' -> noLeak w -> noLeak w'.
Proof.
  intros Hq Hn p i c' Hp'. destruct (quiet_cache w w' p i c' Hq Hp') as (c & Hp & Hs).
  rewrite (quiet_map w w' Hq). destruct (Hn p i c Hp); auto.
Qed.

Lemma allStopped_quiet w w' : quiet w w' -> allStopped w -> allStopped w'.
Proof.
  intros Hq Hn p i c' Hp'. destruct (quiet_cache w w' p i c' Hq Hp') as (c & Hp & Hs). by eapply Hs, Hn.
Qed.

(** ** Quiet threads *)

Abbreviation Quiet w t := (rg (W := W) (E := Env) envOK ctxDone clientInv quiet quiet w t (fun _ _ => True)).
Abbreviation Client w t := (rg (W := W) (E := Env) envOK ctxDone clientInv quiet dialing w t (fun _ _ => True)).

Definition frame {B} (f : Env -> W -> B * W) : Prop :=
  forall e w, wCache (f e w).2 = wCache w /\ length (wCaches (f e w).2) = length (wCaches w) /\
              wClosed (f e w).2 = wClosed w.

(** An action with a specification of [DialerProps] that leaves the map alone. *)
Lemma background_act {B} (f : Env -> W -> B * W) Q w :
  rg envOK ctxDone winv wle wle w (act f) Q -> frame f ->
  rg envOK ctxDone clientInv wle quiet w (act f) (fun _ _ => True).
Proof.
  intros Hs Hf. apply rg_act. intros e w1 He Hq [Hw Hn].
  destruct (rg_act_inv _ _ _ _ _ _ _ _ _ _ Hs He Hq Hw) as (Hw' & Hle & _). destruct (Hf e w1) as (Hm & Hl & Hc).
  assert (quiet w1 (f e w1).2) as Hq' by (by split).
  split_and!; [by split; [|by eapply noLeak_quiet]|done|done].
Qed.

Lemma quiet_act {B} (f : Env -> W -> B * W) Q w :
  rg envOK ctxDone winv wle wle w (act f) Q -> frame f -> Quiet w (act f).
Proof. intros Hs Hf. eapply rg_rely; [apply quiet_le|by eapply background_act]. Qed.

Lemma callCache_frame {A} (none : A) g p : frame (callCache none g p).
Proof.
  intros e w. unfold callCache. destruct (wCaches w !! p) as [[i c]|]; [|done].
  destruct (g (eCache e) c); simpl. by rewrite length_insert.
Qed.

(** The map holds [p] for [i]. *)
Definition mapped (i : InstanceURI) (p : nat) w : Prop := wCache w !! i = Some p.

Lemma mapped_quiet i p w w' : quiet w w' -> mapped i p w -> mapped i p w'.
Proof. intros Hq. unfold mapped. by rewrite (quiet_map w w' Hq). Qed.

(** A quiet thread followed by another. *)
Lemma quiet_then {A B} w (t : thread W Env A) (h : A -> thread W Env B) :
  Quiet w t -> (forall a w', quiet w w' -> Quiet w' (h a)) -> Quiet w (tbind t h).
Proof. intros Ht Hh. eapply rg_bind with (le := quiet); [apply _|done..|exact Ht|]. intros a w' Hw' _. by apply Hh. Qed.

Lemma client_then {A B} i p w (t : thread W Env A) (h : A -> thread W Env B) :
  mapped i p w -> Quiet w t -> (forall a w', mapped i p w' -> Client w' (h a)) -> Client w (tbind t h).
Proof.
  intros Hm Ht Hh. eapply rg_bind with (le := quiet) (guar := quiet);
    [apply _|done|done|by intros ? ? ?%quiet_dialing|exact Ht|].
  intros a w' Hw' _. apply Hh. by eapply mapped_quiet.
Qed.

Lemma client_quiet {A} w (t : thread W Env A) : Quiet w t -> Client w t.
Proof. apply rg_impl with (le := quiet); [apply _|done|done|by intros ? ? ?%quiet_dialing|done]. Qed.

(** *** The actions of [Dial] *)

Lemma quiet_cacheInfo w p i : mapped i p w -> Quiet w (cacheInfo p).
Proof.
  intros Hm. unfold cacheInfo.
  eapply (rg_bind envOK ctxDone clientInv quiet quiet quiet quiet) with (Q := fun n w' => hasCall p n i w');
    [apply _|done|done|done|..].
  - apply rg_act. intros e w1 He Hq [Hw Hn].
    assert (hasCache p i w1) as Hp by (apply (wi_map w1 Hw), (mapped_quiet i p w w1 Hq Hm)).
    destruct (rg_act_inv _ _ _ _ _ _ _ _ _ _ (safe_cacheBegin w1 p i Hp) He ltac:(reflexivity) Hw) as (Hw' & Hle & Hcall).
    assert (quiet w1 (callCache 0%nat cacheBegin p e w1).2) as Hq' by (split; [done|apply callCache_frame..]).
    split_and!; [split; [done|by eapply noLeak_quiet]|done|done].
  - intros n w1 _ Hcall. apply rg_await. intros e w2 He Hq [Hw Hn].
    pose proof (awaitCache_ok p n i e w2 He Hw (hasCall_le p n i w1 w2 (quiet_le w1 w2 Hq) Hcall)) as Ha.
    destruct (awaitCache p n e w2) as [[r w3]|] eqn:E; [|done]. destruct Ha as (Hw' & Hle & _).
    assert (quiet w2 w3) as Hq'.
    { unfold awaitCache in E. destruct (wCaches w2 !! p) as [[j c]|]; [|by simplify_eq].
      destruct (cacheAwait (eCache e) n c) as [[r' c']|]; simplify_eq/=. split; [done|done|simpl; by rewrite length_insert|done]. }
    split_and!; [split; [done|by eapply noLeak_quiet]|done|done].
Qed.

Lemma quiet_cacheForce w p : Quiet w (cacheForce p).
Proof.
  apply rg_await. intros e w2 He Hq [Hw Hn].
  pose proof (forceCache_ok p e w2 He Hw) as Ha. destruct (forceCache p e w2) as [[u w3]|] eqn:E; [|done].
  destruct Ha as (Hw' & Hle & _). assert (quiet w2 w3) as Hq'.
  { unfold forceCache in E. destruct (wCaches w2 !! p) as [[j c]|]; [|by simplify_eq].
    destruct (cacheForceRefresh (eCache e) c) as [c'|]; simplify_eq/=. split; [done|done|simpl; by rewrite length_insert|done]. }
  split_and!; [split; [done|by eapply noLeak_quiet]|done|done].
Qed.

Lemma quiet_netDial w f host : Quiet w (netDial f host).
Proof.
  eapply quiet_act; [apply safe_netDial|]. intros e w1. by destruct (eDial e f host) as [[]| |].
Qed.

Lemma quiet_handshake w id cfg : Quiet w (handshake id cfg).
Proof.
  eapply quiet_act; [apply safe_handshake|]. intros e w1. destruct (wConns w1 !! id); [|done].
  by destruct (eHandshake e cfg _).
Qed.

Lemma quiet_closeConn w id : Quiet w (closeConn id).
Proof.
  apply (quiet_act _ (fun _ _ => True)); [|done]. apply rg_act. intros e w1 _ _ Hw.
  destruct (updConn_ok id (withStatus ConnClosed_) w1) as [? ?]; [apply withStatus_le|done|]. by split_and!.
Qed.

Lemma quiet_exchange w d id : Quiet w (exchange d id).
Proof.
  eapply quiet_act; [apply safe_exchange|]. intros e w1. destruct (wConns w1 !! id) as [c|]; [|done].
  by destruct (metadataExchange _ _ _ _ _ _).
Qed.

Lemma quiet_handOver w id cfg i p latency : mapped i p w -> Quiet w (handOver id cfg i p latency).
Proof.
  intros Hm. apply rg_act. intros e w1 He Hq Hi.
  assert (hasCache p i w1) as Hp by (apply (wi_map w1 (proj1 Hi)), (mapped_quiet i p w w1 Hq Hm)).
  by refine (quiet_act _ _ w1 (safe_handOver w1 id cfg i p latency Hp) _ e w1 He _ Hi).
Qed.

Lemma quiet_read {B} w (f : Env -> B) : Quiet w (act (fun (e : Env) (w : W) => (f e, w))).
Proof. apply (quiet_act _ (fun _ _ => True)); [|done]. apply rg_act. intros. split_and!; done || reflexivity. Qed.

Lemma quiet_goRecord w ms : Quiet w (goRecord ms).
Proof. eapply quiet_act; [apply safe_goRecord|done]. Qed.

(** Removing the cache that the map holds. *)
Lemma client_removeCached w i p : mapped i p w -> Client w (removeCached i p).
Proof.
  intros Hm. apply rg_act. intros e w1 He Hq [Hw Hn].
  destruct (removeCached_ok i p e w1 He Hw) as [Hw' Hle'].
  apply (mapped_quiet i p w w1 Hq) in Hm. cbn [fst snd].
  destruct (wi_map w1 Hw i p Hm) as [c0 Hp]. unfold callCache in *. rewrite Hp in *; simpl in *.
  split; [split; [done|]|split; [by split|done]]. intros q j c Hq'; simpl in Hq' |- *.
  destruct (decide (p = q)) as [->|Hne].
  - rewrite list_lookup_insert_eq in Hq' by (by eapply lookup_lt_Some). simplify_eq. left. apply cache_close_stops.
  - rewrite list_lookup_insert_ne in Hq' by done. destruct (Hn q j c Hq') as [|Hj]; [by left|right].
    apply lookup_delete_Some. split; [|done]. intros ->. unfold mapped in Hm. congruence.
Qed.

(** *** [Dial] *)

Lemma client_removeFails w i p err : mapped i p w -> Client w (_ ←! removeCached i p; fails err None).
Proof.
  intros Hm. eapply (rg_bind envOK ctxDone clientInv quiet dialing dialing dialing);
    [apply _|apply quiet_dialing|done|done|by apply client_removeCached|done].
Qed.

Lemma client_infoOr w i p r k :
  mapped i p w -> (forall ci w', mapped i p w' -> Client w' (k ci)) -> Client w (infoOr i p r k).
Proof.
  intros Hm Hk. destruct r as [ci|err|t]; [by apply Hk|by apply client_removeFails|done].
Qed.

Lemma client_dialAddr w cfg i p k ci0 :
  mapped i p w -> (forall ci addr w', mapped i p w' -> Client w' (k ci addr)) ->
  Client w (dialAddr isPrint cfg i p k ci0).
Proof.
  intros Hm Hk. unfold dialAddr.
  eapply client_then; [done|apply quiet_read|]. intros now w3 Hm3.
  assert (forall ci w', mapped i p w' -> Client w'
    (match IPAddrs ci !! ipType cfg with
     | None => _ ←! removeCached i p;
               fails (NewConfigError ("instance does not have IP of type " +:+ quote isPrint (ipType cfg)) (URI_String i)) None
     | Some addr => k ci addr
     end)) as Huse.
  { intros ci' w' Hm'. destruct (IPAddrs ci' !! ipType cfg); [by apply Hk|by apply client_removeFails]. }
  destruct (invalidClientCert now (Expiration ci0)); [|by apply Huse].
  eapply client_then; [done|apply quiet_cacheForce|]. intros _ w4 Hm4.
  eapply client_then; [done|by eapply quiet_cacheInfo|]. intros r' w5 Hm5. by apply client_infoOr.
Qed.

Lemma client_dialConnect w d cfg i p instance start ci addr :
  mapped i p w -> Client w (dialConnect d cfg i p instance start ci addr).
Proof.
  intros Hm. unfold dialConnect. eapply client_then; [done|apply quiet_netDial|]. intros r w1 Hm1.
  destruct r as [[id tcp]|err|t]; [| |done].
  2:{ eapply client_then; [done|apply quiet_cacheForce|]. done. }
  cbv zeta. set (tls := {| tlsCertificate_ := _ |}).
  set (finish := tbind readClock _).
  assert (forall w', mapped i p w' -> Client w' finish) as Hfin.
  { intros w' Hm'. eapply client_then; [done|apply quiet_read|]. intros now w2 Hm2.
    eapply client_then; [done|by apply quiet_handOver|]. done. }
  match goal with |- Client _ (setKeepAlive _ _ _ _ ?k) => assert (forall w', mapped i p w' -> Client w' k) as Hk end.
  { intros w2 Hm2. eapply client_then; [done|apply quiet_handshake|]. intros h w3 Hm3.
    destruct h as [err|].
    - eapply client_then; [done|apply quiet_cacheForce|]. intros _ w4 Hm4.
      eapply client_then; [done|apply quiet_closeConn|]. done.
    - destruct (dDisableMetadataExchange d); [by apply Hfin|].
      eapply client_then; [done|apply quiet_exchange|]. intros m w4 Hm4. destruct m as [u|err|t]; [by apply Hfin| |done].
      eapply client_then; [done|apply quiet_closeConn|]. done. }
  unfold setKeepAlive. destruct tcp; [|by apply Hk].
  eapply client_then; [done|apply quiet_read|]. intros e1 w2 Hm2. destruct e1; [done|].
  eapply client_then; [done|apply quiet_read|]. intros e2 w3 Hm3. destruct e2; [done|]. by apply Hk.
Qed.

(** Looking a cache up, or making it: afterwards the map holds it. *)
Lemma client_connectionInfoCache w uri :
  rg envOK ctxDone clientInv quiet dialing w (connectionInfoCache uri : thread W Env _)
    (fun r w' => forall p, r = Ret p -> mapped uri p w').
Proof.
  unfold connectionInfoCache.
  eapply (rg_bind envOK ctxDone clientInv quiet dialing dialing dialing) with (Q := fun r w' => forall p, r = Some p -> mapped uri p w');
    [apply _|apply quiet_dialing|done|done|..].
  - apply rg_act. intros e w1 _ _ Hi. by split_and!.
  - intros [p|] w1 _ Hp; simpl; [intros q [= <-]; by apply Hp|].
    intros e w2 He _ [Hw Hn]. destruct (createCache_ok uri e w2 He Hw) as (Hw' & Hle & _).
    unfold createCache in *. destruct (wCache w2 !! uri) as [q|] eqn:Hu.
    { split_and!; try done. by intros p [= <-]. }
    destruct (rsaKey (eKey e) (wKey w2)) as [k g]. destruct k as [k|err|t]; [|by split_and!..].
    destruct (cacheNew (eCache e) k uri (wMaker (setKey g w2))) as [c m].
    destruct c as [c|err|t]; [|by split_and!..]. simpl in *.
    split; [split; [done|]|split; [by split|]].
    + intros p j c' Hp'; simpl in Hp' |- *. apply lookup_app_Some in Hp' as [Hp'|[Hge Hp']].
      * destruct (Hn p j c' Hp') as [|Hj]; [by left|right]. rewrite lookup_insert_ne; [done|]. intros ->. congruence.
      * apply list_lookup_singleton_Some in Hp' as [Hz [= <- <-]]. right.
        rewrite lookup_insert_eq. f_equal. simpl in Hge, Hz. lia.
    + intros p [= <-]. unfold mapped; simpl. by rewrite lookup_insert_eq.
Qed.

(** ** Calls *)

Definition isQuiet (c : call (F := F)) : bool :=
  match c with CallDial _ _ | CallClose => false | _ => true end.

Lemma background {B} w (f : Env -> W -> B * W) :
  (forall e w1, envOK e -> winv w1 -> winv (f e w1).2 /\ wle w1 (f e w1).2) -> frame f ->
  rg envOK ctxDone clientInv wle quiet w (act f) (fun _ _ => True).
Proof. intros Hf. apply background_act with (fun _ _ => True). by apply safe_plain. Qed.

Lemma instrIO_frame record d k : frame (instrIO record d k).
Proof. intros e w. unfold instrIO. destruct (wInstr w !! k); [|done]. by destruct (eIO e).2. Qed.

(** The calls that other goroutines make. *)
Lemma background_call w d c :
  isQuiet c = true -> rg envOK ctxDone clientInv wle quiet w (progOf isPrint d c : thread W Env _) (fun _ _ => True).
Proof.
  assert (forall B w (f : Env -> W -> B * W) (h : B -> thread W Env dialOut),
    rg envOK ctxDone clientInv wle quiet w (act f) (fun _ _ => True) ->
    (forall a w', rg envOK ctxDone clientInv wle quiet w' (h a) (fun _ _ => True)) ->
    rg envOK ctxDone clientInv wle quiet w (tbind (act f) h) (fun _ _ => True)) as Hthen.
  { intros B w0 f h Hf Hh. eapply (rg_bind envOK ctxDone clientInv wle quiet quiet wle);
      [apply _|done|apply quiet_le|done|exact Hf|]. intros a w' _ _. apply Hh. }
  destruct c as [instance opts| |k|k|k|t|t|p]; try done; intros _; simpl progOf.
  - apply Hthen; [|by intros []]. apply background; [intros; by apply instrClose_ok|].
    intros e w1. unfold instrClose. destruct (wInstr w1 !! k) as [ic|]; [|done]. by destruct (icOpen ic).
  - apply Hthen; [|by intros [? []]]. apply background; [intros; by apply instrIO_ok|apply instrIO_frame].
  - apply Hthen; [|by intros [? []]]. apply background; [intros; by apply instrIO_ok|apply instrIO_frame].
  - apply Hthen.
    + apply background; [intros; by apply runTask_ok|].
      intros e w1. unfold runTask. by destruct (wTasks w1 !! t).
    + intros r w1. apply Hthen; [|done]. apply background; [intros; by apply recordOpens_ok|].
      intros e w2. by destruct r as [[]|].
  - apply Hthen; [|done]. apply background; [intros; by apply runReport_ok|].
    intros e w1. unfold runReport. by destruct (wReports w1 !! t).
  - apply Hthen; [|done]. apply background; [intros|apply callCache_frame].
    apply callCache_ok; simpl; [|intros; apply cache_tick_later|done]. intros. by apply cache_tick_inv.
Qed.

(** What holds between two calls of the client. *)
Definition between w : Prop := wClosed w = true -> allStopped w.

Lemma between_quiet w w' : quiet w w' -> between w -> between w'.
Proof. intros Hq Hb Hc. rewrite (quiet_closed w w' Hq) in Hc. by eapply allStopped_quiet, Hb. Qed.

(** The test at the start of [Dial] and of [Close]. *)
Lemma client_isClosed w :
  between w -> rg envOK ctxDone clientInv quiet quiet w (isClosed : thread W Env _)
                 (fun b w' => wClosed w' = b /\ between w').
Proof. intros Hb. apply rg_act. intros e w1 _ Hq Hi. split_and!; [done|reflexivity|done|by eapply between_quiet]. Qed.

Lemma client_seq {A B} w (t : thread W Env A) (h : A -> thread W Env B) :
  Client w t -> (forall a w', Client w' (h a)) -> Client w (tbind t h).
Proof.
  intros Ht Hh. eapply (rg_bind envOK ctxDone clientInv quiet dialing dialing dialing);
    [apply _|apply quiet_dialing|done|done|exact Ht|]. intros a w' _ _. apply Hh.
Qed.

Lemma client_dialOpen w d instance opts start : Client w (dialOpen isPrint d instance opts start).
Proof.
  unfold dialOpen. cbv zeta. destruct (ParseInstURI instance) as [i|err|t]; [|done..].
  eapply (rg_bind envOK ctxDone clientInv quiet dialing dialing dialing);
    [apply _|apply quiet_dialing|done|done|apply client_connectionInfoCache|].
  intros c w2 _ Hm. destruct c as [p|err|t]; [|done..]. specialize (Hm p eq_refl).
  eapply client_then; [done|by eapply quiet_cacheInfo|]. intros r w3 Hm3. apply client_seq; [|done].
  apply client_infoOr; [done|]. intros ci w4 Hm4. apply client_dialAddr; [done|].
  intros ci' addr w5 Hm5. apply client_seq; [by apply client_dialConnect|done].
Qed.

Lemma client_Dial w d instance opts :
  between w -> rg envOK ctxDone clientInv quiet wle w (Dial isPrint d instance opts) (fun _ => between).
Proof.
  intros Hb. unfold Dial.
  eapply (rg_bind envOK ctxDone clientInv quiet quiet wle quiet); [apply _|done|done|apply quiet_le|by apply client_isClosed|].
  intros [] w1 _ [Hc Hb1]; [done|].
  assert (forall t : thread W Env dialOut, Client w1 t -> rg envOK ctxDone clientInv quiet wle w1 t (fun _ => between)) as Hopen.
  { intros t. apply rg_impl with (le := dialing); [apply _|apply quiet_dialing|done|by intros ? ? []|].
    intros o w2 [_ Hc2] _ Hc'. congruence. }
  apply Hopen. apply client_seq; [apply client_quiet, quiet_read|]. intros start w2.
  apply client_seq; [apply client_seq; [apply client_dialOpen|done]|]. intros o w3.
  apply client_seq; [apply client_quiet, quiet_goRecord|done].
Qed.

Lemma client_Close w :
  between w -> rg envOK ctxDone clientInv quiet wle w (Close : thread W Env _) (fun _ w' => between w' /\ wClosed w' = true).
Proof.
  intros Hb. unfold Close.
  eapply (rg_bind envOK ctxDone clientInv quiet quiet wle quiet); [apply _|done|done|apply quiet_le|by apply client_isClosed|].
  intros [] w1 _ [Hc Hb1]; [done|].
  eapply (rg_bind envOK ctxDone clientInv quiet wle wle wle) with (Q := fun r w' => r = Ret () /\ wClosed w' = true);
    [apply _|apply quiet_le|done|done|..].
  { apply rg_act. intros e w2 _ Hq [Hw Hn]. rewrite <- (quiet_closed w1 w2 Hq) in Hc. rewrite Hc.
    split_and!; [split; [by eapply winv_frame; try done; apply Hw|done]|by apply wle_frame|done|done]. }
  intros r w2 _ [-> Hc2].
  eapply (rg_bind envOK ctxDone clientInv quiet wle wle wle) with (Q := fun _ w' => between w' /\ wClosed w' = true);
    [apply _|apply quiet_le|done|done| |done].
  apply rg_act. intros e w3 He Hq [Hw Hn]. destruct (closeAll_ok e w3 He Hw) as [Hw' Hle].
  rewrite <- (quiet_closed w2 w3 Hq) in Hc2.
  assert (allStopped (closeAll e w3).2) as Hall.
  { intros p i c Hp. simpl in Hp. rewrite list_lookup_imap in Hp.
    destruct (wCaches w3 !! p) as [[j c0]|] eqn:Hp0; simplify_eq/=.
    case_bool_decide as Hin; simplify_eq/=; [apply cache_close_stops|].
    destruct (Hn p i c Hp0) as [|Hj]; [done|]. exfalso. apply Hin.
    apply list_elem_of_fmap. exists (i, p). split; [done|]. by apply elem_of_map_to_list. }
  split_and!; [split; [done|]|done|by intros _|done]. intros p i c Hp. left. by eapply Hall.
Qed.

Definition callDone (c : call (F := F)) w : Prop := between w /\ (c = CallClose -> wClosed w = true).

Lemma client_call w d c :
  between w -> rg envOK ctxDone clientInv quiet wle w (progOf isPrint d c : thread W Env _) (fun _ => callDone c).
Proof.
  intros Hb. destruct (isQuiet c) eqn:Hq.
  - eapply (rg_impl envOK ctxDone clientInv quiet quiet wle quiet); [apply _|done|done|apply quiet_le| |].
    2: eapply rg_rely; [apply quiet_le|by apply background_call].
    intros o w' Hle _. split; [by eapply between_quiet|]. by intros ->.
  - destruct c as [instance opts| | | | | | |]; try done; simpl progOf.
    + eapply (rg_impl envOK ctxDone clientInv quiet wle wle wle); [apply _|apply quiet_le|done|done| |by apply client_Dial].
      intros o w' _ Hb'. by split.
    + eapply (rg_impl envOK ctxDone clientInv quiet wle wle wle); [apply _|apply quiet_le|done|done| |by apply client_Close].
      intros o w' _ [? ?]. by split.
Qed.

(** ** The client and the other goroutines *)

Fixpoint client (d : Dialer) (calls : list (call (F := F))) : thread W Env (list dialOut) :=
  match calls with
  | [] => TDone []
  | c :: calls => o ←! progOf isPrint d c; os ←! client d calls; TDone (o :: os)
  end.

Definition other (d : Dialer) (c : call (F := F)) : thread W Env (list dialOut) :=
  o ←! progOf isPrint d c; TDone [o].

Lemma client_all w d calls :
  between w -> rg envOK ctxDone clientInv quiet wle w (client d calls)
    (fun _ w' => between w' /\ (CallClose ∈ calls -> wClosed w' = true)).
Proof.
  revert w. induction calls as [|c calls IH]; intros w Hb; [split; [done|]; by intros ?%not_elem_of_nil|].
  eapply (rg_bind envOK ctxDone clientInv quiet wle wle wle); [apply _|apply quiet_le|done|done|by apply client_call|].
  intros o w1 _ [Hb1 Hc1].
  eapply (rg_bind envOK ctxDone clientInv quiet wle wle wle); [apply _|apply quiet_le|done|done|by apply IH|].
  intros os w2 Hle [Hb2 Hc2]. split; [done|].
  intros [<-|Hin]%elem_of_cons; [by apply (wle_closed w1 w2 Hle), Hc1|by apply Hc2].
Qed.

Lemma other_call w d c : isQuiet c = true -> rg envOK ctxDone clientInv wle quiet w (other d c) (fun _ _ => True).
Proof.
  intros Hc. eapply (rg_bind envOK ctxDone clientInv wle quiet quiet wle);
    [apply _|done|apply quiet_le|done|by apply background_call|done].
Qed.

Lemma clientInv_new g m : makerOK (C := C) (E := CE) m -> clientInv (newWorld (C := C) (M := M) (N := N) (F := F) g m).
Proof. split; [by apply winv_new|]. intros p i c Hp. by apply lookup_nil_Some in Hp || done. Qed.
End Client.

(** C5: no cache is leaked. One goroutine makes any sequence of calls, dials and closes of
    the dialer included, each after the one before; other goroutines close connections,
    update the counters and run the caches' background work, on any schedule. Then, at
    every moment, a cache that still works in the background is the one the map holds
    for its instance; and when the goroutine is done and has called [Close], every cache
    ever made has stopped. *)
Theorem client_never_leaks `{CryptoLib} `{ProtoLib} {C CE M N F : Type}
    `{!InfoCache C CE, !CacheMaker C CE M, !NetConn N}
    `{!InfoCacheLaws C CE, !CacheMakerLaws C CE M, !NetConnLaws N} isPrint
    (d : Dialer (F := F)) g (m : M) (calls others : list (call (F := F)))
    (sched : list (nat * dialEnv (CE := CE) (N := N) (F := F))) (w : world (C := C)) ts
    (Hmaker : makerOK (C := C) (E := CE) m) (Henv : Forall envOK sched.*2) (Hothers : forallb isQuiet others = true)
    (Hrun : runPool sched (newWorld g m) (client isPrint d calls :: (other isPrint d <$> others)) = Some (w, ts)) :
  noLeak w /\
  forall os, ts !! 0%nat = Some (TDone os) -> CallClose ∈ calls -> allStopped w.
Proof.
  pose (rely := fun i : nat => match i with O => quiet | S _ => wle end : world (C := C) (M := M) (N := N) (F := F) -> world -> Prop).
  pose (guar := fun i : nat => match i with O => wle | S _ => quiet end : world (C := C) (M := M) (N := N) (F := F) -> world -> Prop).
  pose (Q := fun (i : nat) (_ : list dialOut) w' => match i with
             | O => between (C := C) (M := M) (N := N) (F := F) w' /\ (CallClose ∈ calls -> wClosed w' = true)
             | S _ => True end).
  destruct (rg_pool envOK ctxDone clientInv rely guar Q sched (newWorld g m)
    (client isPrint d calls :: (other isPrint d <$> others)) w ts) as [[_ Hn] Hts].
  - intros []; apply _.
  - intros [|i] os w1 w2 Hq; [|done]. intros [Hb Hc]. split; [by eapply between_quiet|].
    intros Hin. by apply (wle_closed w1 w2 (quiet_le w1 w2 Hq)), Hc.
  - intros [|i] [|j] w1 w2 _ _ Hne Hg; [done|done|done|by apply quiet_le].
  - done.
  - by apply clientInv_new.
  - intros [|i] t Ht; simpl in Ht.
    + injection Ht as <-. by apply client_all.
    + rewrite list_lookup_fmap in Ht. destruct (others !! i) as [c|] eqn:Hc; simplify_eq/=.
      apply other_call. rewrite forallb_forall in Hothers. apply Hothers.
      by apply list_elem_of_In, list_elem_of_lookup_2 with i.
  - done.
  - split; [done|]. intros os Hos Hin. destruct (Hts 0%nat _ Hos) as [Hb Hc]. by apply Hb, Hc.
Qed.
