(* ===== verification/DialerToy.v ===== *)
(** * The dialer on concrete inputs

    Schedules of a dialer with refresh-ahead caches: the theorems applied, and the
    interleavings in which the code does not do what it means to. *)
From S2P Require Import Prelude GoTime ErrType InstanceURI Refresh GoIO Metadata MetadataProps KeyGen Options Cache Tel Ahead AheadInv AheadProps AheadCache Threads Dialer DialerInv DialerProps DialerThms DialerClient.
#[local] Open Scope string_scope.
#[local] Open Scope list_scope.
#[local] Open Scope Z_scope.
#[local] Existing Instance Toy.lib.
#[local] Existing Instance ToyProto.lib.

Module ToyDialer.
Definition instance : string := "projects/p/locations/r/clusters/c/instances/n".

Definition W : Type := world (C := RefreshAheadCache) (M := aheadMaker) (N := script) (F := nat).
Definition Env : Type := dialEnv (CE := aheadEnv) (N := script) (F := nat).

Definition dialer : Dialer (F := nat) :=
  {| defaultDialCfg := {| dcDialFunc := None; ipType := PrivateIP; tcpKeepAlive := defaultTCPKeepAlive |};
     dDialFunc := 7%nat; dDisableMetadataExchange := false; dUseIAMAuthN := true; dUserAgent := "ua"; dDialerID := "id" |}.

Definition key : keyGenerator PrivateKey :=
  {| onceDone := true; genKey := Some (0 : PrivateKey); genErr := None; gens := 1 |}.

(** What its caches are made from. *)
Definition conf : aheadMaker :=
  {| amClient := Toy.api; amTimeout := RefreshTimeout; amDialerID := "id"; amDisable := false |}.

Definition notPrint (r : Z) : bool := false.

(** In this environment the cache's threads do [acts], a call of the cache returns by
    [sel], the network and the server are fine, and the keep-alive setting yields [ka]. *)
Definition env (acts : list aheadAction) (sel : selectCase) (ka : option error) : Env :=
  {| eNow := 0; eNow2 := 0;
     eCache := {| aWait := ToyAhead.limiter;
                  aSched := fun _ i => if decide (i = Toy.uri) then acts else [];
                  aSelect := sel; aMono := 0; aWall := 0 |};
     eKey := Ret (0 : PrivateKey);
     eDial := fun _ _ => Ret (true, xConn (ToyProto.peer {| ResponseCode := RespOK; respError := "" |}));
     eKeepAlive := ka;
     eKeepAlivePeriod := fun _ => None;
     eHandshake := fun _ n => (None, n);
     eToken := Ret "tok";
     eChoice := None; eGrow := ToyProto.grow;
     eIO := (0, None);
     eClose := None |}.

(** The context of the call is done; the operation it waits for is ready; the first
    refresh completes; setting the keep-alive fails. *)
Definition idle : Env := env [] (SelCtx ContextDeadlineExceeded) None.
Definition served : Env := env [] SelReady None.
Definition fetched : Env := env (ToyAhead.fetch 0 (Ret ToyAhead.info) ++ [Finish 0]) SelReady None.
Definition noKeepAlive : Env := env [] SelReady (Some (ErrorsNew "setsockopt")).

Lemma env_OK acts sel ka : Forall (actOK (infoOK Toy.uri)) acts -> envOK (env acts sel ka).
Proof. intros Ha r i _; simpl. destruct (decide (i = Toy.uri)) as [->|]; [done|constructor]. Qed.

Lemma quiet_OK sel ka : envOK (env [] sel ka).
Proof. apply env_OK. constructor. Qed.

Lemma info_OK : infoOK Toy.uri ToyAhead.info.
Proof.
  split_and!; [vm_compute; reflexivity|vm_compute; discriminate|eexists; split; vm_compute; reflexivity|].
  eexists. vm_compute. reflexivity.
Qed.

Lemma fetched_OK : envOK fetched.
Proof. apply env_OK. repeat constructor; apply info_OK. Qed.

Definition run (calls : list (call (F := nat))) (sched : list (nat * Env)) : W * list (thread W Env dialOut) :=
  match runPool sched (newWorld key conf) (progOf notPrint dialer <$> calls) with
  | Some r => r
  | None => (newWorld key conf, [])
  end.

(** One client and other goroutines. *)
Definition runClient (calls others : list (call (F := nat))) (sched : list (nat * Env)) : W * list (thread W Env (list dialOut)) :=
  match runPool sched (newWorld key conf) (client notPrint dialer calls :: (other notPrint dialer <$> others)) with
  | Some r => r
  | None => (newWorld key conf, [])
  end.

(** Which calls of the client have succeeded, once it is done. *)
Definition clientOutcomes (r : W * list (thread W Env (list dialOut))) : option (list bool) :=
  t ← r.2 !! 0%nat; os ← result t; Some (map (fun o => isRet (dRes o)) os).

(** Thread [n] takes [k] steps in environment [e]. *)
Definition steps (n k : nat) (e : Env) : list (nat * Env) := replicate k (n, e).

Lemma steps_OK n k (e : Env) : envOK e -> Forall envOK (steps n k e).*2.
Proof. intros He. unfold steps. rewrite fmap_replicate. by apply Forall_replicate. Qed.

(** A dial by thread [n], from start to end: it waits for the first refresh, which thread
    [b] performs. *)
Definition dialAt (n b : nat) : list (nat * Env) := steps n 5 served ++ steps b 1 fetched ++ steps n 10 served.
Definition dialCalls : list (call (F := nat)) := [CallDial instance []; CallBackground 0].
Definition oneDial : list (nat * Env) := dialAt 0 1.

(** The server rejects the client's token. *)
Definition rejected : Env :=
  {| eNow := 0; eNow2 := 0; eCache := eCache served; eKey := eKey served; eDial := eDial served;
     eKeepAlive := None; eKeepAlivePeriod := fun _ => None; eHandshake := fun _ n => (None, n);
     eToken := Fail ErrInvalidPEM; eChoice := None; eGrow := ToyProto.grow; eIO := (0, None); eClose := None |}.
Definition badDial : list (nat * Env) := steps 0 5 rejected ++ steps 1 1 fetched ++ steps 0 9 rejected.

Lemma rejected_OK : envOK rejected.
Proof. exact (quiet_OK SelReady None). Qed.

(** All these schedules are in the environments considered. *)
Ltac envs_OK :=
  unfold oneDial, dialAt, badDial; rewrite ?fmap_app; repeat apply Forall_app_2; apply steps_OK;
  first [apply quiet_OK | apply fetched_OK | apply rejected_OK].
End ToyDialer.
Import ToyDialer.

Lemma dial_sound_witness :
  let r := run dialCalls oneDial in
  exists o k, r.2 !! 0%nat = Some (TDone o) /\ dRes o = Ret k /\
  exists i id, ParseInstURI instance = Ret i /\ dConn o = Some id /\
    dialed dialer (DialOptions [] (defaultDialCfg dialer)) i k id r.1.
Proof.
  intros r. eexists _, _. split; [vm_compute; reflexivity|]. split; [vm_compute; reflexivity|].
  eapply (dial_sound notPrint dialer key conf dialCalls oneDial r.1 r.2) with (n := 0%nat).
  - done.
  - envs_OK.
  - vm_compute. reflexivity.
  - reflexivity.
  - vm_compute. reflexivity.
  - vm_compute. reflexivity.
Defined.

(** The server rejects the client: the connection is closed. *)
Lemma dial_error_closes_witness :
  let r := run dialCalls badDial in
  exists o err id, r.2 !! 0%nat = Some (TDone o) /\ dRes o = Fail err /\ dConn o = Some id /\
  (hasConn id (fun c => cStatus c <> ConnOpen) r.1 \/
   exists i, ParseInstURI instance = Ret i /\ keepAliveError i err).
Proof.
  intros r. eexists _, _, _. split; [vm_compute; reflexivity|].
  split; [vm_compute; reflexivity|]. split; [vm_compute; reflexivity|].
  eapply (dial_error_closes notPrint dialer key conf dialCalls badDial r.1 r.2) with (n := 0%nat).
  - done.
  - envs_OK.
  - vm_compute. reflexivity.
  - reflexivity.
  - vm_compute. reflexivity.
  - vm_compute. reflexivity.
  - vm_compute. reflexivity.
Defined.

(** The same dial, and then the goroutine that records its failure. *)
Lemma dial_reports_witness :
  let r := run [CallDial instance []; CallBackground 0; CallReportTask 0] (badDial ++ steps 2 1 idle) in
  let m := {| msMeasure := mDialError; msValue := 1; msTags := baseTags instance "id" |} in
  wReports r.1 = [] /\ reported m r.1 /\ (wReports r.1 = [] -> m ∈ wMetrics r.1).
Proof.
  intros r m. split; [vm_compute; reflexivity|].
  apply (dial_reports notPrint dialer key conf [CallDial instance []; CallBackground 0; CallReportTask 0]
          (badDial ++ steps 2 1 idle) r.1 r.2) with (n := 0%nat) (opts := [])
          (o := default {| dRes := Ret 0%nat; dConn := None; dSpans := [] |} (t ← r.2 !! 0%nat; result t)) (err := ErrInvalidPEM).
  - done.
  - envs_OK.
  - vm_compute. reflexivity.
  - reflexivity.
  - vm_compute. reflexivity.
  - vm_compute. reflexivity.
  - discriminate.
Defined.

(** The connection is closed before its goroutine has counted it: the counter wraps to
    the largest [uint64] and back. *)
Lemma open_conns_counted_witness :
  let calls := [CallDial instance []; CallBackground 0; CallConnClose 0; CallCountTask 1; CallCountTask 0] in
  let start := oneDial ++ steps 2 1 idle ++ steps 3 2 idle in
  let r := run calls (start ++ steps 4 2 idle) in
  wOpens (run calls start).1 !! 0%nat = Some (2 ^ 64 - 1) /\
  exists x, wOpens r.1 !! 0%nat = Some x /\ x = openCount 0 (wInstr r.1).
Proof.
  intros calls start r. split; [vm_compute; reflexivity|].
  eexists. split; [vm_compute; reflexivity|].
  eapply (open_conns_counted notPrint dialer key conf calls (start ++ steps 4 2 idle) r.1 r.2).
  - done.
  - unfold start. envs_OK.
  - vm_compute. reflexivity.
  - vm_compute. reflexivity.
  - vm_compute. reflexivity.
  - vm_compute. reflexivity.
Defined.

Lemma caches_by_instance_witness :
  let r := run dialCalls oneDial in
  hasCache 0 Toy.uri r.1 /\ (forall c, wCaches r.1 !! 0%nat = Some (Toy.uri, c) -> cacheFor Toy.uri c) /\
  (exists x, wOpens r.1 !! 0%nat = Some x) /\
  forall j, wCache r.1 !! j = Some 0%nat -> j = Toy.uri.
Proof.
  intros r. eapply (caches_by_instance notPrint dialer key conf dialCalls oneDial r.1 r.2).
  - done.
  - envs_OK.
  - vm_compute. reflexivity.
  - vm_compute. reflexivity.
Defined.

Lemma closed_for_good_witness :
  let r := run [CallClose] (steps 0 3 idle) in
  tstep idle r.1 (Dial notPrint dialer instance []) =
    Some (r.1, TDone {| dRes := Fail ErrDialerClosed; dConn := None; dSpans := [] |}).
Proof.
  intros r. eapply (closed_for_good notPrint dialer key conf [CallClose] (steps 0 3 idle) r.1 r.2) with (n := 0%nat).
  - done.
  - envs_OK.
  - vm_compute. reflexivity.
  - reflexivity.
  - vm_compute. reflexivity.
  - reflexivity.
Defined.


(** A client whose first dial fails, and so closes and removes the cache, whose second
    makes another cache and succeeds, and which then closes the dialer; meanwhile a
    counter is updated and the first cache gets to run once more. *)
Lemma client_never_leaks_witness :
  let calls := [CallDial instance []; CallDial instance []; CallClose] in
  let others := [CallBackground 0; CallCountTask 0; CallBackground 1] in
  let sched := steps 0 8 idle ++ steps 1 1 idle ++ dialAt 0 3 ++ steps 2 2 idle ++ steps 0 3 idle in
  let r := runClient calls others sched in
  clientOutcomes r = Some [false; true; true] /\
  noLeak r.1 /\ exists os, r.2 !! 0%nat = Some (TDone os) /\ allStopped r.1.
Proof.
  intros calls others sched r. split; [vm_compute; reflexivity|].
  destruct (client_never_leaks notPrint dialer key conf calls others sched r.1 r.2) as [Hn Hs].
  - done.
  - unfold sched. envs_OK.
  - reflexivity.
  - vm_compute. reflexivity.
  - split; [exact Hn|]. eexists. split; [vm_compute; reflexivity|].
    eapply Hs; [vm_compute; reflexivity|right; right; left].
Defined.

(** ** Where the code does not do what it means to *)

(** The outcome of every thread. *)
Definition outcomes (r : W * list (thread W Env dialOut)) : list (option (res nat)) :=
  (fun t => dRes <$> result t) <$> r.2.

(** A connection is leaked. [Dial] opens a network connection, fails to set its
    keep-alive option, and returns the error with the connection still open. *)
Theorem keep_alive_leaks_conn :
  let r := run dialCalls (steps 0 5 served ++ steps 1 1 fetched ++ steps 0 5 noKeepAlive) in
  outcomes r = [Some (Fail (NewDialError "failed to set keep-alive" (URI_String Toy.uri)
                              (Some (ErrorsNew "setsockopt")))); Some (Ret 0%nat)] /\
  cStatus <$> wConns r.1 !! 0%nat = Some ConnOpen.
Proof. vm_compute. split_and!; reflexivity. Qed.

(** A cache is leaked. Two dials wait on the same cache; one fails (its context is
    done) and removes the cache; a third makes a new one; the second, whose cache was
    closed under it, then removes the new cache's entry without closing that cache. Its
    refresh cycle goes on, and [Close] does not reach it. *)
Theorem remove_leaks_cache :
  let calls := [CallDial instance []; CallDial instance []; CallDial instance []; CallClose] in
  let sched := steps 0 5 idle ++ steps 1 4 idle ++ steps 0 3 idle ++ steps 2 5 idle ++
               steps 1 3 idle ++ steps 3 3 idle in
  let r := run calls sched in
  Forall envOK sched.*2 /\
  outcomes r = [Some (Fail ContextDeadlineExceeded); Some (Fail ContextDeadlineExceeded); None; Some (Ret 0%nat)] /\
  wCache r.1 = ∅ /\
  ((fun ic => (ic.1, ctxCanceled ic.2)) <$> wCaches r.1 !! 1%nat) = Some (Toy.uri, false).
Proof.
  intros calls sched r. split_and!.
  - unfold sched. envs_OK.
  - vm_compute. reflexivity.
  - vm_compute. reflexivity.
  - vm_compute. reflexivity.
Qed.

(** [Close] races. Two concurrent calls of [Close] can both pass the check and the
    second then closes a closed channel, which panics; and a dial that passed the check
    before [Close] makes a cache that nobody will close. *)
Theorem close_races :
  outcomes (run [CallClose; CallClose] (steps 0 1 idle ++ steps 1 1 idle ++ steps 0 1 idle ++ steps 1 1 idle))
    = [None; Some (Panic "close of closed channel")] /\
  let r := run [CallDial instance []; CallClose] (steps 0 1 idle ++ steps 1 3 idle ++ steps 0 3 idle) in
  outcomes r = [None; Some (Ret 0%nat)] /\
  ((fun ic => (ic.1, ctxCanceled ic.2)) <$> wCaches r.1 !! 0%nat) = Some (Toy.uri, false).
Proof. vm_compute. split_and!; reflexivity. Qed.
