(* ===== verification/DialerTel.v ===== *)
(** * The dialer: what its dials report

    The spans a dial starts and ends, whatever the other goroutines do; and the gauge of
    open connections, which concurrent updates can leave behind. *)
From S2P Require Import Prelude GoTime ErrType InstanceURI Refresh GoIO Metadata MetadataProps KeyGen Options Cache Tel Ahead AheadCache Threads Dialer DialerInv DialerProps DialerThms DialerToy.
#[local] Open Scope string_scope.
#[local] Open Scope list_scope.
#[local] Open Scope Z_scope.

#[local] Existing Instance Toy.lib.
#[local] Existing Instance ToyProto.lib.

Section Spans.
Context `{CryptoLib} `{ProtoLib}.
Context {C CE M N F : Type} `{!InfoCache C CE, !CacheMaker C CE M, !NetConn N}.
Context (isPrint : Z -> bool).
Abbreviation W := (world (C := C) (M := M) (N := N) (F := F)).
Abbreviation Env := (dialEnv (CE := CE) (N := N) (F := F)).
Implicit Types w : W.

(** What a thread can yield, in any company: rely and guarantee nothing. *)
Abbreviation Yields w t P := (rg (W := W) (E := Env) (fun _ => True) (fun _ => False) (fun _ => True)
                                 (fun _ _ => True) (fun _ _ => True) w t (fun a _ => P a)).

#[local] Instance any_preorder : PreOrder (fun _ _ : W => True).
Proof. by split. Qed.




Lemma yields_impl {A} w (t : thread W Env A) (P Q : A -> Prop) :
  (forall a, P a -> Q a) -> Yields w t P -> Yields w t Q.
Proof. intros HPQ. apply rg_impl with (le := fun _ _ => True); [apply _|done..|]. intros a w' _. apply HPQ. Qed.

(** ** The spans of the parts of a dial *)








End Spans.


Import ToyDialer.


(** The gauge of open connections. Adding to the counter and recording it are two
    actions, so when two of the counting goroutines overlap the last value recorded can
    be the older one: two connections are open, all goroutines have run, and the view
    says one. And the two measurements of a dial carry different instance tags: the
    open connections the short name of the URI, the latency the argument. *)
Theorem open_connections_stale :
  let calls := [CallDial instance []; CallDial instance []; CallCountTask 0; CallCountTask 0; CallBackground 0] in
  let sched := dialAt 0 4 ++ steps 1 14 served ++
               steps 2 1 idle ++ steps 3 2 idle ++ steps 2 1 idle in
  let r := run calls sched in
  outcomes r = [Some (Ret 0%nat); Some (Ret 1%nat); Some (Ret 0%nat); Some (Ret 0%nat); Some (Ret 0%nat)] /\
  wTasks r.1 = [] /\ wOpens r.1 !! 0%nat = Some 2 /\ openCount 0 (wInstr r.1) = 2 /\
  ((fun m => (msMeasure m, msValue m, snd <$> msTags m)) <$> wMetrics r.1) =
    [(mConnections, 2, ["p/r/c/n"; "id"]); (mLatencyMS, 0, [instance; "id"]);
     (mConnections, 1, ["p/r/c/n"; "id"]); (mLatencyMS, 0, [instance; "id"])].
Proof. vm_compute. split_and!; reflexivity. Qed.
