(* ===== verification/DialerLedger.v ===== *)
(** * The dialer: its telemetry adds up

    On every schedule, what has been recorded, together with what recording goroutines
    still hold, is what the calls that have returned account for: a latency for every
    connection handed out, a failure for every failed dial, the bytes that reads and
    writes have reported. *)
From S2P Require Import Prelude GoTime ErrType InstanceURI Refresh GoIO Metadata MetadataProps KeyGen Options Cache Tel Ahead AheadCache Threads Dialer DialerInv DialerProps DialerThms DialerToy.
#[local] Open Scope string_scope.
#[local] Open Scope list_scope.
#[local] Open Scope Z_scope.

(** ** Weighing measurements *)
Definition weigh (wt : measurement -> Z) (ms : list measurement) : Z := foldr (fun m n => wt m + n) 0 ms.

Lemma weigh_app wt a b : weigh wt (a ++ b) = weigh wt a + weigh wt b.
Proof. induction a as [|m a IH]; simpl; [done|]. rewrite IH. lia. Qed.

#[export] Instance weigh_perm wt : Proper ((≡ₚ) ==> (=)) (weigh wt).
Proof. intros a b Hp. induction Hp; simpl; lia. Qed.

Section Ledger.
Context `{CryptoLib} `{ProtoLib}.
Context {C CE M N F : Type} `{!InfoCache C CE, !CacheMaker C CE M, !NetConn N}.
Context (isPrint : Z -> bool).
Abbreviation W := (world (C := C) (M := M) (N := N) (F := F)).
Abbreviation Env := (dialEnv (CE := CE) (N := N) (F := F)).
Implicit Types w : W.

(** Recorded, or in the hands of a goroutine that will record it. *)
Definition posted w : list measurement :=
  wReports w ++ wMetrics w ++ concat (map tkLatency (wTasks w)).

(** A weight that does not look at the gauge of open connections or the value of a
    latency. *)
Record fair (wt : measurement -> Z) : Prop := {
  fair_opens n d i : weigh wt (RecordOpenConnections n d i) = 0;
  fair_latency i d n : weigh wt (RecordDialLatency i d n) = weigh wt (RecordDialLatency i d 0);
}.

(** The instances of the connections handed out. *)
Definition instances w : list InstanceURI := icInst <$> wInstr w.

(** What a call that returned [o] accounts for, when the connections are to [insts]. A
    dial on a closed dialer, which starts no span, is not reported. *)
Definition contribution (wt : measurement -> Z) (d : Dialer (F := F)) (insts : list InstanceURI)
    (c : call (F := F)) (o : dialOut) : Z :=
  match c, dRes o with
  | CallDial instance _, Ret _ => weigh wt (RecordDialLatency instance (dDialerID d) 0)
  | CallDial instance _, Fail err =>
      match dSpans o with [] => 0 | _ => weigh wt (RecordDialError instance (dDialerID d) (Some err)) end
  | CallConnRead k, Ret n =>
      from_option (fun i => weigh wt (RecordBytesReceived (Z.of_nat n) (URI_String i) (dDialerID d))) 0 (insts !! k)
  | CallConnWrite k, Ret n =>
      from_option (fun i => weigh wt (RecordBytesSent (Z.of_nat n) (URI_String i) (dDialerID d))) 0 (insts !! k)
  | _, _ => 0
  end.

Section Weight.
Context (wt : measurement -> Z) (Hfair : fair wt) (insts : list InstanceURI).

(** Connections are added and keep their instance; [insts] are those of a later world. *)
Definition later w w' : Prop := instances w `prefix_of` instances w'.
Definition earlier w : Prop := instances w `prefix_of` insts.
#[export] Instance later_preorder : PreOrder later.
Proof. split; [intros w; unfold later; reflexivity|]. intros w1 w2 w3 H1 H2. unfold later. by transitivity (instances w2). Qed.

(** Byte counts are not negative. *)
Definition countOK (e : Env) : Prop := 0 <= (eIO e).1.

Definition phi w : Z := weigh wt (posted w).
Abbreviation Adds acc t Q := (adds countOK phi earlier later acc t Q).

Lemma phi_posted w w' : posted w' = posted w -> phi w' - phi w = 0.
Proof. intros E. unfold phi. rewrite E. lia. Qed.

Lemma later_same w w' : instances w' = instances w -> later w w'.
Proof. intros E. unfold later. rewrite E. reflexivity. Qed.

(** An action that adds [n], whatever the world. *)
Lemma adds_act_same {B} acc (f : Env -> W -> B * W) Q :
  (forall e w, countOK e -> instances (f e w).2 = instances w /\ Q (f e w).1 (acc + (phi (f e w).2 - phi w))) ->
  Adds acc (act f) Q.
Proof.
  intros Hf. apply adds_act. intros e w He. destruct (Hf e w He) as [E HQ]. split; [by apply later_same|]. eauto.
Qed.

Lemma adds_same {A B} acc (f : Env -> W -> B * W) (h : B -> thread W Env A) Q :
  (forall e w, phi (f e w).2 = phi w /\ instances (f e w).2 = instances w) -> (forall b, Adds acc (h b) Q) ->
  Adds acc (tbind (act f) h) Q.
Proof.
  intros Hf Hh. eapply (adds_bind _ _ _ _ _ _ _ (fun _ acc' => acc' = acc)); [|intros b acc' ->; apply Hh].
  apply adds_act_same. intros e w _. destruct (Hf e w) as [E1 E2]. split; [done|]. rewrite E1. lia.
Qed.

Lemma adds_silent {A B} acc (f : Env -> W -> B * W) (h : B -> thread W Env A) Q :
  (forall e w, posted (f e w).2 = posted w /\ instances (f e w).2 = instances w) -> (forall b, Adds acc (h b) Q) ->
  Adds acc (tbind (act f) h) Q.
Proof.
  intros Hf. apply adds_same. intros e w. destruct (Hf e w) as [E1 E2]. unfold phi. by rewrite E1.
Qed.

Lemma adds_done {A} acc (a : A) Q : Q a acc -> Adds acc (TDone a) Q.
Proof. done. Qed.

(** An action keeps what is posted. *)
Ltac keeps := intros; unfold createCache, callCache in *; repeat case_match; simplify_eq/=; done.

Lemma adds_lookup {A} acc uri (h : res nat -> thread W Env A) Q :
  (forall r, Adds acc (h r) Q) -> Adds acc (tbind (connectionInfoCache uri) h) Q.
Proof.
  intros Hh. apply adds_silent; [done|]. intros [p|]; [apply Hh|].
  change (Adds acc (tbind (act (createCache uri)) h) Q). apply adds_silent; [keeps|apply Hh].
Qed.

(** Neither does one that can be blocked. *)
Lemma adds_await {A B} acc (f : Env -> W -> option (B * W)) (h : B -> thread W Env A) Q :
  (forall e w b w', f e w = Some (b, w') -> posted w' = posted w /\ instances w' = instances w) ->
  (forall b, Adds acc (h b) Q) -> Adds acc (tbind (await f) h) Q.
Proof.
  intros Hf Hh. eapply (adds_bind _ _ _ _ _ _ _ (fun _ acc' => acc' = acc)); [|intros r acc' ->; apply Hh].
  intros e w _. destruct (f e w) as [[b w']|] eqn:Ha; [|done]. destruct (Hf e w b w' Ha) as [E1 E2].
  split; [by apply later_same|]. exists 0. split; [by rewrite phi_posted|]. simpl. lia.
Qed.

Lemma adds_cacheForce {A} acc p (h : unit -> thread W Env A) Q :
  (forall u, Adds acc (h u) Q) -> Adds acc (tbind (cacheForce p) h) Q.
Proof.
  apply adds_await. unfold forceCache. intros e w [] w' Ha. destruct (wCaches w !! p) as [[i c]|]; [|by simplify_eq].
  destruct (cacheForceRefresh (eCache e) c) as [c'|]; by simplify_eq/=.
Qed.

Ltac silent := first [apply adds_cacheForce | apply adds_silent; [keeps|]].

Lemma adds_cacheInfo {A} acc p (h : res ConnectionInfo -> thread W Env A) Q :
  (forall r, Adds acc (h r) Q) -> Adds acc (tbind (cacheInfo p) h) Q.
Proof.
  intros Hh. change (Adds acc (tbind (act (callCache 0%nat cacheBegin p)) (fun n => tbind (await (awaitCache p n)) h)) Q).
  silent. intros n. apply adds_await; [|done]. unfold awaitCache. intros e w r w' Ha.
  destruct (wCaches w !! p) as [[i c]|]; [|by simplify_eq].
  destruct (cacheAwait (eCache e) n c) as [[r' c']|]; by simplify_eq/=.
Qed.

Lemma adds_weaken {A} acc (t : thread W Env A) (P Q : A -> Z -> Prop) :
  (forall a acc', P a acc' -> Q a acc') -> Adds acc t P -> Adds acc t Q.
Proof.
  intros HPQ. revert acc. induction t as [a|D f k IH]; intros acc; simpl; [by apply HPQ|].
  intros Ht e w He. specialize (Ht e w He). destruct (f e w) as [[b w']|]; [|done].
  destruct Ht as (Hle & n & Hn & Ht). split; [done|]. exists n. split; [done|]. by apply IH.
Qed.

Lemma adds_returns {A} acc (t : thread W Env A) (f : A -> dialOut) Q :
  Adds acc t (fun a acc' => Q (f a) acc') -> Adds acc (tbind t (fun a => TDone (f a))) Q.
Proof. intros Ht. eapply adds_bind; [exact Ht|]. intros a acc' HQ. exact HQ. Qed.

(** What a part of a dial adds: a latency if it hands over a connection. *)
Definition handedOnly instance (d : Dialer (F := F)) (o : dialOut) (acc : Z) : Prop :=
  acc = match dRes o with Ret _ => weigh wt (RecordDialLatency instance (dDialerID d) 0) | _ => 0 end.

Lemma adds_connect d cfg i p instance start ci addr :
  Adds 0 (dialConnect d cfg i p instance start ci addr) (handedOnly instance d).
Proof.
  unfold dialConnect. silent. intros [[id tcp]|err|t]; [|by silent|done].
  cbv zeta. set (finish := tbind readClock _).
  assert (Adds 0 finish (handedOnly instance d)) as Hfin.
  { unfold finish. silent. intros now.
    eapply (adds_bind _ _ _ _ _ _ _ (fun _ acc => acc = weigh wt (RecordDialLatency instance (dDialerID d) 0)));
      [|by intros k acc ->].
    apply adds_act. intros e w _. unfold later, instances, phi, posted, handOver, updConn, setInstr, setConns.
    cbn [fst snd wReports wMetrics wTasks wInstr]. split; [rewrite fmap_app; by apply prefix_app_r|].
    eexists. split; [done|]. rewrite map_app, concat_app, !weigh_app. cbn [map concat tkLatency].
    rewrite app_nil_r, (fair_latency wt Hfair). lia. }
  match goal with |- Adds _ (setKeepAlive _ _ _ _ ?k) _ => assert (Adds 0 k (handedOnly instance d)) as Hk end.
  { silent. intros [err|]; [silent; intros; by silent|].
    destruct (dDisableMetadataExchange d); [done|].
    apply adds_silent.
    { intros e w. unfold exchange. destruct (wConns w !! id) as [c|]; [|done]. by destruct (metadataExchange _ _ _ _ _ _). }
    intros [u|err|t]; [done|by silent|done]. }
  unfold setKeepAlive. destruct tcp; [|done]. silent. intros [e1|]; [done|]. silent. by intros [e2|].
Qed.

Lemma adds_infoOr i p r k instance d :
  (forall ci, Adds 0 (k ci) (handedOnly instance d)) -> Adds 0 (infoOr i p r k) (handedOnly instance d).
Proof. intros Hk. destruct r as [ci|err|t]; [apply Hk|by silent|done]. Qed.

Lemma adds_addr d cfg i p instance start ci :
  Adds 0 (dialAddr isPrint cfg i p (fun ci addr =>
    deferEnd connectSpan (dialConnect d cfg i p instance start ci addr)) ci) (handedOnly instance d).
Proof.
  unfold dialAddr. silent. intros now.
  assert (forall ci, Adds 0
    match IPAddrs ci !! ipType cfg with
    | None => _ ←! removeCached i p;
        fails (NewConfigError ("instance does not have IP of type " +:+ quote isPrint (ipType cfg)) (URI_String i)) None
    | Some addr => deferEnd connectSpan (dialConnect d cfg i p instance start ci addr)
    end (handedOnly instance d)) as Huse.
  { intros ci'. destruct (IPAddrs ci' !! ipType cfg) as [addr|]; [|by silent].
    apply adds_returns, adds_connect. }
  destruct (invalidClientCert now (Expiration ci)); [|apply Huse].
  silent. intros ?. apply adds_cacheInfo. intros r. by apply adds_infoOr.
Qed.

Lemma adds_open d instance opts start : Adds 0 (dialOpen isPrint d instance opts start) (handedOnly instance d).
Proof.
  unfold dialOpen. cbv zeta. destruct (ParseInstURI instance) as [i|err|t]; [|done..].
  apply adds_lookup. intros [p|err|t]; [|done..]. apply adds_cacheInfo. intros r.
  apply adds_returns. by apply adds_infoOr; intros; apply adds_addr.
Qed.

Lemma phi_reports ms w : phi (setReports (wReports w ++ ms) (wMetrics w) w) - phi w = weigh wt ms.
Proof. unfold phi, posted; simpl. rewrite !weigh_app. lia. Qed.

Lemma adds_dial d instance opts :
  Adds 0 (Dial isPrint d instance opts) (fun o acc => acc = contribution wt d insts (CallDial instance opts) o).
Proof.
  unfold Dial. silent. intros []; [done|]. silent. intros start.
  eapply (adds_bind _ _ _ _ _ _ _ (fun o acc => handedOnly instance d o acc /\ exists s l, dSpans o = s :: l)).
  { apply adds_returns. eapply adds_weaken; [|apply adds_open]. intros o acc Ho. by split; [|eexists _, _]. }
  intros o acc [Ho (sp & l & Hs)].
  eapply (adds_bind _ _ _ _ _ _ _ (fun _ acc' => acc' = contribution wt d insts (CallDial instance opts) o)); [|by intros ? ? ->].
  apply adds_act_same. intros e w _. cbn [snd]. split; [done|]. rewrite phi_reports, Ho. unfold contribution. rewrite Hs.
  destruct (dRes o); simpl; lia.
Qed.

(** The other calls. *)
(** A read or a write, whose report is for the instance of its connection. *)
Lemma adds_io record (d : Dialer (F := F)) k :
  Adds 0 (act (instrIO record d k)) (fun r acc => 0 <= r.1 /\
    acc = match r.2 with
          | None => from_option (fun i => weigh wt (record r.1 (URI_String i) (dDialerID d))) 0 (insts !! k)
          | Some _ => 0
          end).
Proof.
  apply adds_act. intros e w He. unfold instrIO, countOK in *.
  assert (forall ic, wInstr w !! k = Some ic -> earlier w -> insts !! k = Some (icInst ic)) as Hinst.
  { intros ic Hk Hw. eapply prefix_lookup_Some; [|exact Hw]. unfold instances. by rewrite list_lookup_fmap, Hk. }
  destruct (wInstr w !! k) as [ic|] eqn:Hk; cbn [fst snd].
  2:{ split; [by apply later_same|]. exists 0. split; [intros _; lia|]. split; lia. }
  destruct (eIO e) as [n [err|]]; cbn [fst snd] in *.
  { split; [by apply later_same|]. exists 0. split; [intros _; lia|]. split; lia. }
  split; [by apply later_same|]. eexists. split; [|split; [done|apply Z.add_0_l]].
  intros Hw. by rewrite phi_reports, (Hinst ic eq_refl Hw).
Qed.

Lemma concat_delete t (ts : list countTask) k :
  ts !! t = Some k -> weigh wt (concat (map tkLatency ts)) = weigh wt (tkLatency k) + weigh wt (concat (map tkLatency (delete t ts))).
Proof.
  intros Hk. rewrite <- (take_drop_middle _ _ _ Hk) at 1. rewrite delete_take_drop, !map_app, !concat_app, !weigh_app.
  cbn [map concat]. rewrite weigh_app. lia.
Qed.

Lemma adds_call d c : Adds 0 (progOf isPrint d c) (fun o acc => acc = contribution wt d insts c o).
Proof.
  destruct c as [instance opts| |k|k|k|t|t|p]; simpl progOf.
  - apply adds_dial.
  - unfold Close. silent. intros []; [done|]. unfold closeChan. apply adds_silent.
    { intros e w. by destruct (wClosed w). }
    intros [u|err|t]; [by silent|done..].
  - unfold ConnClose. apply adds_silent; [|by intros [err|]]. intros e w. unfold instrClose, posted, instances.
    destruct (wInstr w !! k) as [ic|] eqn:Hk; [|done]. destruct (icOpen ic); [|done]. simpl. split.
    + by destruct (eClose e); simpl; rewrite ?app_nil_r, ?map_app, ?concat_app, ?app_nil_r.
    + rewrite list_fmap_insert. apply list_insert_id. simpl. by rewrite list_lookup_fmap, Hk.
  - eapply adds_bind; [apply adds_io|].
    intros [n err] acc [Hn ->]. cbn [fst snd] in *. destruct err; [done|]. simpl. by rewrite Z2Nat.id.
  - eapply adds_bind; [apply adds_io|].
    intros [n err] acc [Hn ->]. cbn [fst snd] in *. destruct err; [done|]. simpl. by rewrite Z2Nat.id.
  - unfold CountTask.
    eapply (adds_bind _ _ _ _ _ _ _ (fun r acc => acc = match r with Some (k, _) => - weigh wt (tkLatency k) | None => 0 end)).
    { apply adds_act_same. intros e w _. unfold runTask, phi, posted.
      destruct (wTasks w !! t) as [k|] eqn:Hk; cbn [fst snd]; (split; [done|]); [|lia].
      cbn [wReports wMetrics wTasks setOpens]. rewrite !weigh_app, (concat_delete t (wTasks w) k Hk). lia. }
    intros r acc ->. eapply (adds_bind _ _ _ _ _ _ _ (fun _ acc => acc = 0)); [|by intros ? ? ->].
    apply adds_act_same. intros e w _. unfold recordOpens, phi, posted.
    destruct r as [[k n]|]; cbn [fst snd]; (split; [done|]); [|lia].
    cbn [wReports wMetrics wTasks setReports]. rewrite !weigh_app, (fair_opens wt Hfair). lia.
  - unfold ReportTask. apply adds_same; [|done]. intros e w. unfold runReport, phi, posted.
    destruct (wReports w !! t) as [m|] eqn:Hm; [|done]. split; [|done]. cbn [snd wReports wMetrics wTasks setReports].
    rewrite !weigh_app. rewrite <- (take_drop_middle _ _ _ Hm) at 2. rewrite delete_take_drop, !weigh_app.
    simpl. lia.
  - unfold Background. apply adds_silent; [keeps|done].
Qed.
End Weight.

Lemma total_replicate n : total (replicate n 0) = 0.
Proof. induction n; simpl; lia. Qed.

(** Every weight: what is posted weighs what the calls account for. *)
Lemma ledger wt d g (m : M) (calls : list (call (F := F))) sched w' outs :
  fair wt -> Forall countOK sched.*2 ->
  runPool sched (newWorld g m : W) (map (progOf isPrint d) calls) = Some (w', map TDone outs) ->
  weigh wt (posted w') = total (zip_with (contribution wt d (instances w')) calls outs).
Proof.
  intros Hfair Henv Hrun.
  edestruct (adds_pool countOK (phi wt) (earlier (instances w')) later
    (fun i o acc => forall c, calls !! i = Some c -> acc = contribution wt d (instances w') c o))
    as (_ & accs & Hlen & Htot & Hall); [|exact Henv| | |exact Hrun|unfold earlier; reflexivity|].
  - intros w1 w2 H1 H2. unfold earlier, later in *. by transitivity (instances w2).
  - instantiate (1 := replicate (length calls) 0). by rewrite length_replicate, length_map.
  - intros i t acc Ht Hacc. change (map (progOf isPrint d) calls) with (progOf isPrint d <$> calls) in Ht.
    rewrite list_lookup_fmap in Ht. destruct (calls !! i) as [c|] eqn:Hc; simplify_eq/=.
    apply lookup_replicate in Hacc as [-> _]. eapply adds_weaken; [|by apply adds_call].
    intros o acc -> c' Hc'. congruence.
  - rewrite total_replicate in Htot.
    assert (weigh wt (posted w') = total accs) as -> by (unfold phi in Htot; simpl in Htot; lia).
    pose proof (runPool_length _ _ _ _ _ Hrun) as Hl. rewrite !length_map in *.
    f_equal. apply list_eq. intros i. rewrite lookup_zip_with.
    destruct (calls !! i) as [c|] eqn:Hc; simpl.
    2:{ apply lookup_ge_None. apply lookup_ge_None in Hc. lia. }
    destruct (lookup_lt_is_Some_2 outs i) as [o Ho]; [rewrite Hl; by eapply lookup_lt_Some|].
    destruct (lookup_lt_is_Some_2 accs i) as [acc Hacc]; [rewrite Hlen, Hl; by eapply lookup_lt_Some|].
    rewrite Ho, Hacc. simpl. f_equal.
    apply (Hall i (TDone o) acc); [|done|done].
    change (map TDone outs) with (@TDone W Env dialOut <$> outs). by rewrite list_lookup_fmap, Ho.
Qed.
End Ledger.

(** ** What the views show *)

(** The sum of a measure, and how often it was recorded, for an instance's name. *)
Definition tagged (k : measure) (instance id : string) (m : measurement) : Prop :=
  msMeasure m = k /\ msTags m = baseTags instance id.
#[export] Instance tagged_dec k instance id m : Decision (tagged k instance id m).
Proof. unfold tagged. apply _. Defined.
Definition sumOf (k : measure) (instance id : string) (m : measurement) : Z :=
  if decide (tagged k instance id m) then msValue m else 0.
Definition countOf (k : measure) (instance id : string) (m : measurement) : Z :=
  if decide (tagged k instance id m) then 1 else 0.

Lemma fair_sumOf k instance id : k <> mConnections -> k <> mLatencyMS -> fair (sumOf k instance id).
Proof. intros H1 H2. split; intros; simpl; unfold sumOf, tagged; simpl; repeat case_decide; destruct_and?; done || congruence. Qed.

Lemma fair_countOf k instance id : k <> mConnections -> fair (countOf k instance id).
Proof.
  intros H1. split; intros; simpl; unfold countOf, tagged; simpl; repeat case_decide; try done; destruct_and?; congruence.
Qed.

Section Views.
Context {F : Type}.

(** What the calls have done for an instance, as their callers see it, when the
    connections are to [insts]. *)
Definition connTo (insts : list InstanceURI) (instance : string) (k : nat) : bool :=
  match insts !! k with Some i => bool_decide (URI_String i = instance) | None => false end.
Definition bytesRead (insts : list InstanceURI) (instance : string) (c : call (F := F)) (o : dialOut) : Z :=
  match c, dRes o with
  | CallConnRead k, Ret n => if connTo insts instance k then Z.of_nat n else 0
  | _, _ => 0
  end.
Definition bytesWritten (insts : list InstanceURI) (instance : string) (c : call (F := F)) (o : dialOut) : Z :=
  match c, dRes o with
  | CallConnWrite k, Ret n => if connTo insts instance k then Z.of_nat n else 0
  | _, _ => 0
  end.
Definition dialled (instance : string) (c : call (F := F)) (o : dialOut) : Z :=
  match c, dRes o with
  | CallDial i _, Ret _ => if decide (i = instance) then 1 else 0
  | _, _ => 0
  end.
Definition dialFailed (instance : string) (c : call (F := F)) (o : dialOut) : Z :=
  match c, dRes o, dSpans o with
  | CallDial i _, Fail _, _ :: _ => if decide (i = instance) then 1 else 0
  | _, _, _ => 0
  end.

Lemma total_ext (f g : call (F := F) -> dialOut -> Z) calls outs :
  (forall c o, f c o = g c o) -> total (zip_with f calls outs) = total (zip_with g calls outs).
Proof. intros Hfg. f_equal. by apply zip_with_ext. Qed.

Ltac pointwise := intros c [r ? sp]; destruct c as [| |k|k|k| | |], r, sp; simpl; unfold connTo;
  try match goal with |- context [?l !! k] => destruct (l !! k) end; simpl;
  unfold sumOf, countOf, tagged, baseTags; simpl; repeat case_decide; repeat case_bool_decide;
  destruct_and?; simplify_eq/=; done || lia || tauto.

Section Lines.
Context (d : Dialer (F := F)) (insts : list InstanceURI) (instance : string).

Lemma received_line c o :
  contribution (sumOf mBytesReceived instance (dDialerID d)) d insts c o = bytesRead insts instance c o.
Proof. revert c o. pointwise. Qed.
Lemma sent_line c o :
  contribution (sumOf mBytesSent instance (dDialerID d)) d insts c o = bytesWritten insts instance c o.
Proof. revert c o. pointwise. Qed.
Lemma latency_line c o :
  contribution (countOf mLatencyMS instance (dDialerID d)) d insts c o = dialled instance c o.
Proof. revert c o. pointwise. Qed.
Lemma failure_line c o :
  contribution (countOf mDialError instance (dDialerID d)) d insts c o = dialFailed instance c o.
Proof. revert c o. pointwise. Qed.
End Lines.
End Views.

(** C10: the telemetry adds up. On every schedule, when all calls have returned, take the
    measurements that have been recorded and those that a recording goroutine still
    holds; once these goroutines have run they are exactly the recorded ones. For each
    instance and under this dialer's id there are one latency for every dial that
    succeeded and one failure for every dial that failed (but for those a closed dialer
    turned away), and bytes received and sent in the amount that the reads and writes of
    the connections to that instance have reported without an error, whatever the order
    in which the goroutines run. (The name of an instance is the argument of [Dial] for
    the first two, and the short form of its URI for bytes.) *)
Theorem telemetry_adds_up `{CryptoLib} `{ProtoLib} {C CE M N F : Type}
    `{!InfoCache C CE, !CacheMaker C CE M, !NetConn N} isPrint (d : Dialer (F := F)) g (m : M)
    (calls : list (call (F := F))) (sched : list (nat * dialEnv (CE := CE) (N := N) (F := F)))
    (w' : world (C := C)) outs
    (Henv : Forall countOK sched.*2)
    (Hrun : runPool sched (newWorld g m) (map (progOf isPrint d) calls) = Some (w', map TDone outs)) :
  (forall instance,
    weigh (sumOf mBytesReceived instance (dDialerID d)) (posted w') =
      total (zip_with (bytesRead (instances w') instance) calls outs) /\
    weigh (sumOf mBytesSent instance (dDialerID d)) (posted w') =
      total (zip_with (bytesWritten (instances w') instance) calls outs) /\
    weigh (countOf mLatencyMS instance (dDialerID d)) (posted w') = total (zip_with (dialled instance) calls outs) /\
    weigh (countOf mDialError instance (dDialerID d)) (posted w') = total (zip_with (dialFailed instance) calls outs)) /\
  (wReports w' = [] -> wTasks w' = [] -> posted w' = wMetrics w').
Proof.
  split; [|intros Hr Ht; unfold posted; rewrite Hr, Ht; apply app_nil_r].
  intros instance. split_and!.
  - rewrite (ledger isPrint _ d g m calls sched w' outs) by (done || by apply fair_sumOf).
    apply total_ext, received_line.
  - rewrite (ledger isPrint _ d g m calls sched w' outs) by (done || by apply fair_sumOf).
    apply total_ext, sent_line.
  - rewrite (ledger isPrint _ d g m calls sched w' outs) by (done || by apply fair_countOf).
    apply total_ext, latency_line.
  - rewrite (ledger isPrint _ d g m calls sched w' outs) by (done || by apply fair_countOf).
    apply total_ext, failure_line.
Qed.

(** ** Concrete inputs *)
#[local] Existing Instance Toy.lib.
#[local] Existing Instance ToyProto.lib.

Module ToyLedger.
Import ToyDialer.

Definition io (n : Z) (err : option error) : Env :=
  {| eNow := 0; eNow2 := 0; eCache := eCache served; eKey := eKey served; eDial := eDial served;
     eKeepAlive := None; eKeepAlivePeriod := fun _ => None; eHandshake := fun _ n => (None, n);
     eToken := Ret "tok"; eChoice := None; eGrow := ToyProto.grow; eIO := (n, err); eClose := None |}.

Lemma steps_count n k (e : Env) : countOK e -> Forall countOK (steps n k e).*2.
Proof. intros He. unfold steps. rewrite fmap_replicate. by apply Forall_replicate. Qed.

(** A dial that succeeds and one that cannot be parsed; a read, and a write that fails
    after some bytes. *)
Definition calls : list (call (F := nat)) :=
  [CallDial instance []; CallBackground 0; CallDial "bad" []; CallConnRead 0; CallConnWrite 0; CallCountTask 0].
Definition schedule : list (nat * Env) :=
  dialAt 0 1 ++ steps 2 3 idle ++ steps 3 1 (io 5 None) ++ steps 4 1 (io 3 (Some EOF)) ++ steps 5 2 idle.
Definition run : option (W * list (thread W Env dialOut)) :=
  runPool schedule (newWorld key conf) (map (progOf notPrint dialer) calls).

Definition outs : list dialOut :=
  match run with Some (_, ts) => omap result ts | None => [] end.
Definition allDone : bool :=
  match run with Some (_, ts) => forallb finished ts | None => false end.
End ToyLedger.
Import ToyLedger.

Lemma telemetry_adds_up_witness :
  match ToyLedger.run with
  | Some (w', _) =>
      weigh (sumOf mBytesReceived (URI_String Toy.uri) "id") (posted w') = 5 /\
      weigh (sumOf mBytesSent (URI_String Toy.uri) "id") (posted w') = 0 /\
      weigh (countOf mLatencyMS ToyDialer.instance "id") (posted w') = 1 /\
      weigh (countOf mDialError "bad" "id") (posted w') = 1
  | None => False
  end.
Proof.
  assert (allDone = true) as Hf by (vm_compute; reflexivity). unfold allDone in Hf.
  destruct ToyLedger.run as [[w' ts]|] eqn:Hrun; [|discriminate Hf].
  assert (map TDone outs = ts) as Hts by (unfold outs; rewrite Hrun; symmetry; by apply all_finished).
  assert (instances w' = [Toy.uri]) as Hi.
  { assert (match ToyLedger.run with Some (w, _) => instances w | None => [] end = [Toy.uri]) as E
      by (vm_compute; reflexivity). by rewrite Hrun in E. }
  destruct (telemetry_adds_up ToyDialer.notPrint ToyDialer.dialer ToyDialer.key ToyDialer.conf calls schedule w' outs)
    as [Hd _].
  - unfold schedule, ToyDialer.dialAt. rewrite ?fmap_app. repeat apply Forall_app_2; apply steps_count; by vm_compute.
  - transitivity (Some (w', ts)); [exact Hrun|]. do 2 f_equal. symmetry. exact Hts.
  - destruct (Hd (URI_String Toy.uri)) as (Hr & Hs & _), (Hd ToyDialer.instance) as (_ & _ & Hl & _),
      (Hd "bad") as (_ & _ & _ & Hb). rewrite Hi in Hr, Hs.
    change "id" with (dDialerID ToyDialer.dialer). rewrite Hr, Hs, Hl, Hb. split_and!; vm_compute; reflexivity.
Defined.
