(* ===== verification/DialerLive.v ===== *)
(** * The dialer: how long a call is, and when it returns

    A call makes a bounded number of actions, on every branch, whatever the other
    goroutines and the environment do in between. The only actions that can be blocked are
    those of its cache, [ForceRefresh] and the return of [ConnectionInfo]; they are not
    when the cache heeds the call's context and that is done. The lazy cache does not heed
    it while it waits for its mutex ([Lazy.lazy_waits_for_fetch]). *)
From S2P Require Import Prelude GoTime ErrType InstanceURI Refresh GoIO Metadata MetadataProps KeyGen Options Cache Tel Ahead AheadCache Threads Dialer DialerInv DialerProps DialerThms DialerToy.
#[local] Open Scope string_scope.
#[local] Open Scope list_scope.
#[local] Open Scope nat_scope.

Section Returns.
Context `{CryptoLib} `{ProtoLib}.
Context {C CE M N F : Type} `{!InfoCache C CE, !CacheMaker C CE M, !NetConn N}.
Context (isPrint : Z -> bool).
Abbreviation prog A := (thread (world (C := C) (M := M) (N := N) (F := F)) (dialEnv (CE := CE) (N := N) (F := F)) A).

(** One action less. *)
Ltac acts := repeat first [apply within_done | apply within_act; intros ? | apply within_await; intros ?].

Lemma within_cacheInfo p : within 2 (cacheInfo p : prog _).
Proof. apply (within_act 1). by intros n ?. Qed.

Lemma within_infoOr n i p r (k : ConnectionInfo -> prog dialOut) :
  (forall ci, within (S n) (k ci)) -> within (S n) (infoOr i p r k).
Proof. intros Hk. destruct r; simpl; [apply Hk| |done]. intros ?. apply within_done. Qed.

Lemma within_keepAlive n cfg i tcp id (k : prog dialOut) :
  within n k -> within (2 + n) (setKeepAlive cfg i tcp id k).
Proof.
  intros Hk. unfold setKeepAlive. destruct tcp; [|apply (within_mono n); [lia|done]].
  apply (within_act (S n)). intros [e1|]; [apply within_done|]. apply within_act. intros [e2|]; [apply within_done|done].
Qed.

Lemma within_end n s (t : prog dialOut) : within n t -> within n (deferEnd s t).
Proof. intros Ht. rewrite <- (Nat.add_0_r n). apply within_bind; [done|]. intros; apply within_done. Qed.

Lemma within_thenEnd {A} n (r : res A) s (t : prog dialOut) : within n t -> within n (thenEnd r s t).
Proof. intros Ht. rewrite <- (Nat.add_0_r n). apply within_bind; [done|]. intros; apply within_done. Qed.

Lemma within_connect d cfg i p instance start ci addr :
  within 7 (dialConnect d cfg i p instance start ci addr : prog dialOut).
Proof.
  unfold dialConnect. apply (within_act 6). intros [[id tcp]|err|t]; [|by acts|apply within_done].
  apply (within_keepAlive 4). cbv zeta. set (finish := tbind readClock _).
  assert (within 2 finish) as Hfin by (unfold finish; acts).
  apply (within_act 3). intros [err|]; [by acts|].
  destruct (dDisableMetadataExchange d); [apply (within_mono 2); [lia|done]|].
  apply (within_act 2). intros [u|err|t]; [done|by acts|apply within_done].
Qed.

Lemma within_addr cfg i p (k : ConnectionInfo -> string -> prog dialOut) n ci :
  (forall ci addr, within (S n) (k ci addr)) -> within (5 + n) (dialAddr isPrint cfg i p k ci).
Proof.
  intros Hk. unfold dialAddr. apply (within_act (4 + n)). intros now.
  assert (forall ci, within (S n)
    match IPAddrs ci !! ipType cfg with
    | None => _ ←! removeCached i p;
        fails (NewConfigError ("instance does not have IP of type " +:+ quote isPrint (ipType cfg)) (URI_String i)) None
    | Some addr => k ci addr
    end) as Huse.
  { intros ci'. destruct (IPAddrs ci' !! ipType cfg); [apply Hk|]. by acts. }
  destruct (invalidClientCert now (Expiration ci)); [|apply (within_mono (S n)); [lia|apply Huse]].
  apply (within_await (3 + n)). intros ?. apply (within_bind 2 (S n)); [apply within_cacheInfo|]. intros r. by apply within_infoOr.
Qed.

(** The most actions a call makes. *)
Definition maxActions (c : call (F := F)) : nat :=
  match c with
  | CallDial _ _ => 18
  | CallClose => 3
  | CallCountTask _ => 2
  | _ => 1
  end.

Lemma within_Dial d instance opts : within 18 (Dial isPrint d instance opts : prog dialOut).
Proof.
  unfold Dial. apply (within_act 17). intros []; [apply within_done|]. apply (within_act 16). intros start.
  apply (within_bind 15 1); [|intros o; by acts]. apply within_end. unfold dialOpen. cbv zeta.
  destruct (ParseInstURI instance) as [i|err|t]; [|apply within_done..].
  apply (within_bind 2 13).
  { unfold connectionInfoCache. apply (within_act 1). intros [p|]; [apply within_done|done]. }
  intros [p|err|t]; [|by apply within_thenEnd, within_done..].
  apply (within_bind 2 11); [apply within_cacheInfo|]. intros r. apply within_thenEnd, within_infoOr.
  intros ci. apply (within_addr _ _ _ _ 6). intros ci' addr. by apply within_end, within_connect.
Qed.

Lemma within_call d c : within (maxActions c) (progOf isPrint d c : prog dialOut).
Proof.
  destruct c; simpl progOf; unfold maxActions; [apply within_Dial|..].
  - unfold Close. apply (within_act 2). intros []; [apply within_done|]. apply (within_act 1).
    intros [[]|err|t]; [by acts|apply within_done..].
  - unfold ConnClose. apply (within_act 0). by intros [].
  - unfold ConnRead. apply (within_act 0). by intros [? []].
  - unfold ConnWrite. apply (within_act 0). by intros [? []].
  - by acts.
  - by acts.
  - by acts.
Qed.
End Returns.

(** Every call returns. On any schedule no call of [Dial] makes more than eighteen
    actions, of [Close] three, of the others two, and after that many it has returned; and
    from every state reached it returns when it is run on and its context is done, if the
    cache heeds contexts ([ctxDone], which no environment of the lazy cache satisfies):
    then the other goroutines cannot block it, whatever they have done. *)
Theorem calls_return `{CryptoLib} `{ProtoLib} {C CE M N F : Type}
    `{!InfoCache C CE, !CacheMaker C CE M, !NetConn N}
    `{!InfoCacheLaws C CE, !CacheMakerLaws C CE M, !NetConnLaws N} isPrint (d : Dialer (F := F)) g (m : M)
    (calls : list (call (F := F))) (sched : list (nat * dialEnv (CE := CE) (N := N) (F := F)))
    (w : world (C := C)) ts n c t
    (Hmaker : makerOK (C := C) (E := CE) m) (Henv : Forall envOK sched.*2)
    (Hrun : runPool sched (newWorld g m) (progOf isPrint d <$> calls) = Some (w, ts))
    (Hc : calls !! n = Some c) (Ht : ts !! n = Some t) :
  turns n sched <= maxActions c /\
  (turns n sched = maxActions c -> exists o, t = TDone o) /\
  (forall es, length es = maxActions c - turns n sched -> Forall (fun e => envOK e /\ ctxDone e) es ->
     exists o, (runAlone es w t).2 = TDone o).
Proof.
  destruct (within_pool (fun k => from_option maxActions 0 (calls !! k)) sched (newWorld g m) (progOf isPrint d <$> calls) w ts)
    with (i := n) (t := t) as [Hle Hin]; [|done|done|].
  { intros k u Hk. rewrite list_lookup_fmap in Hk. destruct (calls !! k) as [c'|]; simplify_eq/=. apply within_call. }
  destruct (pool_safe isPrint d g m calls sched w ts Hmaker Henv Hrun) as [Hw Hs].
  rewrite Hc in Hle, Hin. simpl in Hle, Hin. split_and!; [done| |].
  - intros E. rewrite E, Nat.sub_diag in Hin. destruct t as [o|]; [by exists o|done].
  - intros es Hl Hes. eapply (rg_alone envOK ctxDone winv); [|exact Hin|by apply Hs|done|done|done]. apply _.
Qed.

Import ToyDialer.
#[local] Existing Instance Toy.lib.
#[local] Existing Instance ToyProto.lib.

(** A dial that waits in its cache when the dialer is closed: it returns all the same. *)
Lemma calls_return_witness :
  let calls := [CallDial instance []; CallClose] in
  let sched := steps 0 5 served ++ steps 1 3 idle in
  exists (w : W) (ts : list (thread W Env dialOut)) (t : thread W Env dialOut),
  runPool sched (newWorld key conf : W) (progOf notPrint dialer <$> calls) = Some (w, ts) /\
  ts !! 0 = Some t /\ turns 0 sched = 5 /\ exists o, (runAlone (steps 0 13 idle).*2 w t).2 = TDone o.
Proof.
  intros calls sched.
  assert (match runPool sched (newWorld key conf : W) (progOf notPrint dialer <$> calls) with
          | Some (_, _ :: _) => true | _ => false end = true) as Hsome by (vm_compute; reflexivity).
  destruct (runPool sched (newWorld key conf : W) (progOf notPrint dialer <$> calls)) as [[w [|t ts]]|] eqn:Hrun;
    [discriminate Hsome| |discriminate Hsome].
  exists w, (t :: ts), t. split; [done|]. split; [done|]. split; [reflexivity|].
  assert (makerOK (C := RefreshAheadCache) (E := aheadEnv) conf) as Hm by done.
  assert (Forall envOK sched.*2) as Henv by (unfold sched; envs_OK).
  destruct (calls_return notPrint dialer key conf calls sched w (t :: ts) 0 (CallDial instance []) t Hm Henv Hrun
    eq_refl eq_refl) as (_ & _ & Hes).
  apply (Hes (steps 0 13 idle).*2); [reflexivity|]. unfold steps. rewrite fmap_replicate. apply Forall_replicate.
  split; [apply quiet_OK|]. by eexists.
Defined.
