(* ===== verification/DialerOrigin.v ===== *)
(** * The dialer: where its connection infos come from

    The laws of the cache interface hold for any property of the infos that the answers
    of the Admin API have ([AnyCache.any_laws_of]). Here the property is their origin:
    the API was asked for this instance, or the dialer's file of static data has an entry
    for it. So a connection of the dialer goes where the API, or the file, says. *)
From S2P Require Import Prelude GoTime ErrType GoJSON GoJSONProps InstanceURI Refresh GoIO Metadata MetadataProps KeyGen Options Cache Static Lazy Ahead AheadInv AheadProps AheadCache AnyCache Threads Dialer DialerInv DialerProps DialerThms DialerToy.
#[local] Open Scope string_scope.
#[local] Open Scope list_scope.
#[local] Open Scope Z_scope.

Section Origin.
Context `{CryptoLib}.

(** The clients of the Admin API, as they answer at the moments of the run, and what the
    dialer's caches are made from. *)
Context (asked : AlloyDBAdminClient -> Prop) (m : makerState).

(** An info that a refresh yields: its two requests are made at two moments. *)
Definition refreshed (i : InstanceURI) (ci : ConnectionInfo) : Prop :=
  exists a b k, asked a /\ asked b /\
    connectionInfoResult i (fetchInstanceInfo a i) (fetchClientCertificate b i k (mkDisable m)) = Ret ci.

(** An info that the dialer's file of static data yields. *)
Definition inFile (i : InstanceURI) (ci : ConnectionInfo) : Prop :=
  exists file iter c, mkStatic m = Some file /\ visitsAll iter /\
    (NewStaticConnectionInfoCache iter i file).1 = Ret c /\ staticInfo c = ci.

Definition origin (i : InstanceURI) (ci : ConnectionInfo) : Prop := refreshed i ci \/ inFile i ci.

Lemma origin_infoOK i ci : origin i ci -> infoOK i ci.
Proof.
  intros [(a & b & k & _ & _ & Hci)|(file & iter & c & _ & _ & Hc & <-)];
    [by eapply result_infoOK|by eapply static_infoOK].
Qed.

(** The client of a refresh is one the dialer made. *)
Definition ownClient (r : adminAPIClient) : Prop :=
  Refresh.client r = mkClient m /\ Refresh.disableMetadataExchange r = mkDisable m.

(** The reader of the file is where it was, or at its end. *)
Definition madeFrom (m' : makerState) : Prop :=
  mkClient m' = mkClient m /\ mkDisable m' = mkDisable m /\
  (mkStatic m' = mkStatic m \/ mkStatic m' = Some []).

(** Environments in which refreshes that succeed, with a client of the dialer's, have
    asked the API. *)
Definition honest (e : anyEnv) : Prop :=
  zeroTime <= lazyNow (anyLazy e) /\
  (forall r i ci, ownClient r -> lazyFetch (anyLazy e) r i = Ret ci -> refreshed i ci) /\
  (forall r i k ci, ownClient r -> Reply k (Ret ci) ∈ aSched (anyAhead e) r i -> refreshed i ci) /\
  visitsAll (anyIter e).

Lemma honest_OK e : honest e -> anyEnvOK origin ownClient e.
Proof.
  intros (Hnow & Hlazy & Hahead & Hiter). split_and!; [split; [done|]| |done].
  - intros r i ci Hr Hci. left. by eapply Hlazy.
  - intros r i Hr. apply list.Forall_forall. intros a Ha.
    destruct a as [| | | | |k [ci|e'|t]| | | | | | | |]; try done. left. by eapply Hahead, Ha.
Qed.

(** A reader at its end yields nothing. *)
Lemma static_at_end iter i : (NewStaticConnectionInfoCache iter i []).1 = Fail unexpectedEnd.
Proof. reflexivity. Qed.

Context (Hfile : forall r, mkStatic m = Some r -> (ReadAll [] r).2 = []).

#[local] Instance origin_laws : InfoCacheLaws anyCache anyEnv := any_laws_of origin origin_infoOK ownClient.

#[local] Program Instance origin_maker_laws : CacheMakerLaws anyCache anyEnv makerState :=
  any_maker_laws_of origin origin_infoOK ownClient madeFrom _ _ _.
Next Obligation. intros m' k (Hc & Hd & _). by split. Qed.
Next Obligation.
  intros m' r iter i c (_ & _ & Hs) Hr Hi Hc. destruct Hs as [Hs|Hs]; rewrite Hr in Hs.
  - right. by exists r, iter, c.
  - injection Hs as ->. by rewrite static_at_end in Hc.
Qed.
Next Obligation.
  intros m' r iter i (Hc & Hd & Hs) Hr. split_and!; [done..|]. right. simpl. f_equal.
  unfold NewStaticConnectionInfoCache. destruct (ReadAll [] r) as [data r'] eqn:E; simpl.
  destruct Hs as [Hs|Hs]; rewrite Hr in Hs; [specialize (Hfile r (eq_sym Hs)); by rewrite E in Hfile|].
  injection Hs as ->. simpl in E. by simplify_eq.
Qed.

Context `{ProtoLib} {N F : Type} `{!NetConn N, !NetConnLaws N}.

Lemma dial_origin isPrint (d : Dialer (F := F)) g calls
    (sched : list (nat * dialEnv (CE := anyEnv) (N := N) (F := F))) w ts n instance opts o k :
  Forall (fun e => honest (eCache e)) sched.*2 ->
  runPool sched (newWorld g m) (progOf isPrint d <$> calls) = Some (w, ts) ->
  calls !! n = Some (CallDial instance opts) -> ts !! n = Some (TDone o) -> dRes o = Ret k ->
  exists i id ci, ParseInstURI instance = Ret i /\ dConn o = Some id /\ origin i ci /\
    dialedWith d (DialOptions opts (defaultDialCfg d)) i ci k id w.
Proof.
  intros Henv Hrun Hc Ho Hk.
  destruct (pool_sound isPrint d g m calls sched w ts) as [_ Hpost]; [by repeat split; left| |done|].
  { eapply list.Forall_impl; [exact Henv|]. intros e He. by apply honest_OK. }
  destruct (Hpost n _ o Hc Ho) as [Hspec _]. unfold dialSpec in Hspec.
  destruct (ParseInstURI instance) as [i|err|t].
  - unfold dialPost in Hspec. rewrite Hk in Hspec. destruct Hspec as (id & ci & ? & ? & ?). by exists i, id, ci.
  - destruct Hspec as [_ [Hr|Hr]]; congruence.
  - destruct Hspec as [_ [Hr|Hr]]; congruence.
Qed.
End Origin.

(** C3: every connection is where the Admin API says. On every schedule, if the refreshes
    that succeed have asked the API, a successful [Dial] of an instance went to the
    server proxy's port at the address of the requested type that the API gave for that
    instance (its four names, and no other's), with the client certificate that the API
    issued for the instance's cluster and the roots it gave with it; or both are those of
    the instance's entry in the dialer's file of static data. This holds for all three
    caches, whatever was cached, refreshed, removed or dialed before. *)
Theorem dial_traced `{CryptoLib} `{ProtoLib} {N F : Type} `{!NetConn N, !NetConnLaws N}
    isPrint (d : Dialer (F := F)) g (m : makerState) (asked : AlloyDBAdminClient -> Prop)
    (calls : list (call (F := F))) (sched : list (nat * dialEnv (CE := anyEnv) (N := N) (F := F)))
    w ts n instance opts o k
    (Hfile : forall r, mkStatic m = Some r -> (ReadAll [] r).2 = [])
    (Henv : Forall (fun e => honest asked m (eCache e)) sched.*2)
    (Hrun : runPool sched (newWorld g m) (progOf isPrint d <$> calls) = Some (w, ts))
    (Hc : calls !! n = Some (CallDial instance opts)) (Ho : ts !! n = Some (TDone o)) (Hk : dRes o = Ret k) :
  exists i id ci, ParseInstURI instance = Ret i /\ dConn o = Some id /\
    dialedWith d (DialOptions opts (defaultDialCfg d)) i ci k id w /\
    ((exists a b key, asked a /\ asked b /\ issued a b key (mkDisable m) i ci) \/ inFile m i ci).
Proof.
  destruct (dial_origin asked m Hfile isPrint d g calls sched w ts n instance opts o k)
    as (i & id & ci & Hi & Hid & Hci & Hd); [done..|].
  exists i, id, ci. split_and!; [done..|].
  destruct Hci as [(a & b & key & Ha & Hb & Hci)|Hci]; [left|by right].
  exists a, b, key. split_and!; [done..|]. by apply result_issued.
Qed.

(** ** Concrete inputs

    A dialer with lazy caches, whose refreshes ask one client. *)
#[local] Existing Instance Toy.lib.
#[local] Existing Instance ToyProto.lib.

Module ToyOrigin.
Import ToyDialer.

Definition maker : makerState :=
  {| mkLazyRefresh := true; mkStatic := None; mkClient := Toy.api; mkTimeout := RefreshTimeout; mkDialerID := "id"; mkDisable := false |}.

Definition env : dialEnv (CE := anyEnv) (N := script) (F := nat) :=
  {| eNow := 0; eNow2 := 0;
     eCache := {| anyLazy := {| lazyNow := 0; lazyFetch := connectionInfo; lazyGo := None |};
                  anyAhead := ToyAny.aheadE; anyIter := ToyStatic.inOrder |};
     eKey := Ret (0 : PrivateKey); eDial := eDial served;
     eKeepAlive := None; eKeepAlivePeriod := fun _ => None; eHandshake := fun _ n => (None, n);
     eToken := Ret "tok"; eChoice := None; eGrow := ToyProto.grow; eIO := (0, None); eClose := None |}.

Definition calls : list (call (F := nat)) := [CallDial instance []].
Definition sched := replicate 15 (0%nat, env).
Definition run := runPool sched (newWorld key maker) (progOf notPrint dialer <$> calls).

Lemma env_honest : honest (eq Toy.api) maker (eCache env).
Proof.
  split_and!.
  - vm_compute. discriminate.
  - intros r i ci [Hr Hd] Hci. exists Toy.api, Toy.api, (Refresh.key r). split_and!; [done..|].
    destruct r; simpl in Hr, Hd. by subst.
  - intros r i k ci _ Hin. by apply elem_of_nil in Hin.
  - apply ToyStatic.inOrder_all.
Qed.
End ToyOrigin.

Lemma dial_traced_witness :
  exists w ts o k, ToyOrigin.run = Some (w, ts) /\ ts !! 0%nat = Some (TDone o) /\ dRes o = Ret k /\
  exists i id ci, ParseInstURI ToyDialer.instance = Ret i /\ dConn o = Some id /\
    dialedWith ToyDialer.dialer (DialOptions [] (defaultDialCfg ToyDialer.dialer)) i ci k id w /\
    ((exists a b key, Toy.api = a /\ Toy.api = b /\ issued a b key false i ci) \/ inFile ToyOrigin.maker i ci).
Proof.
  eexists _, _, _, _. split; [vm_compute; reflexivity|]. split; [reflexivity|]. split; [reflexivity|].
  eapply (dial_traced ToyDialer.notPrint ToyDialer.dialer ToyDialer.key ToyOrigin.maker (eq Toy.api)
    ToyOrigin.calls ToyOrigin.sched) with (n := 0%nat).
  - by intros r.
  - unfold ToyOrigin.sched. rewrite fmap_replicate. apply Forall_replicate, ToyOrigin.env_honest.
  - vm_compute. reflexivity.
  - reflexivity.
  - reflexivity.
  - reflexivity.
Defined.
