(* ===== verification/DialerStatic.v ===== *)
(** * The dialer with static data, on concrete inputs

    The theorems on the dialer hold for any of its three caches ([AnyCache.any_laws]);
    here a dialer whose caches are made from one reader of static data. *)
From S2P Require Import Prelude GoTime ErrType GoJSON InstanceURI Refresh GoIO Metadata MetadataProps KeyGen Options Cache Static AnyCache Threads Dialer DialerInv DialerProps DialerThms DialerToy.
#[local] Open Scope string_scope.
#[local] Open Scope list_scope.
#[local] Open Scope Z_scope.
#[local] Existing Instance Toy.lib.
#[local] Existing Instance ToyProto.lib.

Module ToyStaticDialer.
Definition W : Type := world (C := anyCache) (M := makerState) (N := script) (F := nat).
Definition Env : Type := dialEnv (CE := anyEnv) (N := script) (F := nat).

(** The network and the server are fine. *)
Definition env : Env :=
  {| eNow := 0; eNow2 := 0; eCache := ToyAny.env; eKey := Ret (0 : PrivateKey);
     eDial := fun _ _ => Ret (true, xConn (ToyProto.peer {| ResponseCode := RespOK; respError := "" |}));
     eKeepAlive := None; eKeepAlivePeriod := fun _ => None; eHandshake := fun _ n => (None, n);
     eToken := Ret "tok"; eChoice := None; eGrow := ToyProto.grow; eIO := (0, None); eClose := None |}.

Definition run (calls : list (call (F := nat))) (sched : list (nat * Env)) : W * list (thread W Env dialOut) :=
  match runPool sched (newWorld ToyDialer.key ToyAny.maker) (progOf ToyDialer.notPrint ToyDialer.dialer <$> calls) with
  | Some r => r
  | None => (newWorld ToyDialer.key ToyAny.maker, [])
  end.

Definition outcomes (r : W * list (thread W Env dialOut)) : list (option (res nat)) :=
  (fun t => dRes <$> result t) <$> r.2.

(** The second instance of the data. *)
Definition instance2 : string := "projects/p/locations/r/clusters/c/instances/m".
End ToyStaticDialer.
Import ToyStaticDialer.

(** The data hold two instances, but the dialer connects to the first one asked for only:
    its reader is at its end when the other's cache is made. *)
Theorem static_second_instance :
  let calls := [CallDial ToyDialer.instance []; CallDial instance2 []] in
  let r := run calls (replicate 15 (0%nat, env) ++ replicate 5 (1%nat, env)) in
  outcomes r = [Some (Ret 0%nat); Some (Fail unexpectedEnd)] /\
  outcomes (run [CallDial instance2 []] (replicate 15 (0%nat, env))) = [Some (Ret 0%nat)].
Proof. vm_compute. split_and!; reflexivity. Qed.

(** The data of the second instance have no public address, which the static cache keeps
    as an empty one: a dial that asks for it does not fail, as with the other caches,
    but connects to the server proxy's port of the local host. *)
Theorem static_empty_address :
  let r := run [CallDial instance2 [WithPublicIP]] (replicate 15 (0%nat, env)) in
  outcomes r = [Some (Ret 0%nat)] /\ cHost <$> wConns r.1 !! 0%nat = Some ":5433".
Proof. vm_compute. split_and!; reflexivity. Qed.
