(* ===== verification/NewDialer.v ===== *)
(** * Making a dialer ([NewDialer], [src/dialer.go])

    The configuration from the options, the checks, and the dialer made of it. What
    other packages do along the way (credentials, the Admin API client, the
    registration of the metrics, RSA key generation) are inputs. *)
From S2P Require Import Prelude GoTime ErrType InstanceURI Refresh GoIO Metadata KeyGen Options Cache Threads Dialer.
#[local] Open Scope string_scope.
#[local] Open Scope list_scope.
#[local] Open Scope Z_scope.

Section NewDialer.
(** Dial functions, RSA keys, token sources, client options, loggers, readers, clients. *)
Context {F K TS AO LG RD CL : Type}.

Record newEnv := {
  nvProxyDial : F;                         (* [proxy.Dial] *)
  nvNullLogger : LG;                       (* [nullLogger{}] *)
  nvUserAgent : string;                    (* the package's own user agent *)
  nvWithUserAgent : string -> AO;          (* [option.WithUserAgent] *)
  nvDefaultTokenSource : res TS;           (* [google.DefaultTokenSource] *)
  nvRESTClient : list AO -> CL + string;   (* [NewAlloyDBAdminRESTClient], or the text of its error *)
  nvInitMetrics : option error;
  nvGenerateKey : res K;
  nvUUID : string }.                       (* [uuid.New().String()] *)

(** The fields of the new [Dialer]. *)
Record newDialerOut := {
  ndDialer : Dialer (F := F);
  ndKey : keyGenerator K;
  ndClient : CL;
  ndLazyRefresh : bool;
  ndStatic : option RD;
  ndRefreshTimeout : Duration;
  ndLogger : LG;
  ndTokenSource : TS }.

Definition defaultConfig (v : newEnv) : dialerConfig F K TS AO LG RD :=
  {| rsaKeyOpt := None; adminOpts := []; dialOpts := []; dialFunc := nvProxyDial v;
     refreshTimeout := RefreshTimeout; tokenSource := None; userAgents := [nvUserAgent v];
     useIAMAuthN := false; logger := nvNullLogger v; lazyRefresh := false;
     disableMetadataExchange := false; staticConnInfo := None; cfgErr := None |}.

Definition incompatible : error :=
  ErrorsNew ("incompatible options: WithOptOutOfAdvancedConnection " +:+
             "check cannot be used with WithIAMAuthN").

Definition NewDialer (v : newEnv) (opts : list (Option_ F K TS AO LG RD)) : res newDialerOut :=
  applyOptions opts (defaultConfig v) ≫= fun cfg =>
  if (Options.disableMetadataExchange cfg && useIAMAuthN cfg)%bool then Fail incompatible else
  let userAgent := String.concat " " (userAgents cfg) in
  let cfg := addAdminOpt (nvWithUserAgent v userAgent) cfg in
  match tokenSource cfg with
  | Some ts => Ret ts
  | None => nvDefaultTokenSource v
  end ≫= fun ts =>
  match nvRESTClient v (adminOpts cfg) with
  | inr text => Fail (ErrorsNew ("failed to create AlloyDB Admin API client: " +:+ text))
  | inl client =>
    let dc := DialOptions (dialOpts cfg)
                {| dcDialFunc := None; ipType := PrivateIP; tcpKeepAlive := defaultTCPKeepAlive |} in
    match nvInitMetrics v with
    | Some err => Fail err
    | None =>
      newKeyGenerator (rsaKeyOpt cfg) (lazyRefresh cfg) (nvGenerateKey v) ≫= fun g =>
      Ret {| ndDialer := {| defaultDialCfg := dc; dDialFunc := dialFunc cfg;
                            dDisableMetadataExchange := Options.disableMetadataExchange cfg;
                            dUseIAMAuthN := useIAMAuthN cfg; dUserAgent := userAgent; dDialerID := nvUUID v |};
             ndKey := g; ndClient := client; ndLazyRefresh := lazyRefresh cfg;
             ndStatic := staticConnInfo cfg; ndRefreshTimeout := refreshTimeout cfg;
             ndLogger := logger cfg; ndTokenSource := ts |}
    end
  end.

Lemma applyOptions_Ret (opts : list (Option_ F K TS AO LG RD)) cfg c :
  applyOptions opts cfg = Ret c -> c = WithOptions opts cfg.
Proof.
  unfold WithOptions. revert cfg. induction opts as [|opt opts IH]; intros cfg; simpl; [by intros [= <-]|].
  destruct (cfgErr (opt cfg)); [done|]. apply IH.
Qed.
End NewDialer.
Arguments newEnv : clear implicits.

(** ** What the options mean

    The calls of the functions of [options.go], each with its arguments; one argument of
    [NewDialer] is a [WithOptions] of any number of them (of one, it is that one, and
    nested ones are their concatenation). The specification of [NewDialer] reads the
    settings off the list of calls: the last call of an option that sets something wins,
    those that add something add up in order. *)
Section Spec.
Context {F K TS AO LG RD CL : Type}.

Inductive optionCall :=
| CallCredentialsFile (file : bytes + string) (parse : bytes -> TS * AO + string)
| CallCredentialsJSON (creds : TS * AO + string)
| CallUserAgent (ua : string)
| CallDefaultDialOptions (opts : list (DialOption F))
| CallTokenSource (ts : TS) (ao : AO)
| CallRSAKey (k : option K)
| CallRefreshTimeout (t : Duration)
| CallHTTPClient (ao : AO)
| CallAdminAPIEndpoint (ao : AO)
| CallDialFunc (f : F)
| CallIAMAuthN
| CallContextLogger (l : LG)
| CallDebugLogger (adapter : LG)
| CallLazyRefresh
| CallStaticConnectionInfo (r : RD)
| CallOptOut.

Definition optionOf (c : optionCall) : Option_ F K TS AO LG RD :=
  match c with
  | CallCredentialsFile file parse => WithCredentialsFile file parse
  | CallCredentialsJSON creds => WithCredentialsJSON creds
  | CallUserAgent ua => WithUserAgent ua
  | CallDefaultDialOptions opts => WithDefaultDialOptions opts
  | CallTokenSource ts ao => WithTokenSource ts ao
  | CallRSAKey k => WithRSAKey k
  | CallRefreshTimeout t => WithRefreshTimeout t
  | CallHTTPClient ao => WithHTTPClient ao
  | CallAdminAPIEndpoint ao => WithAdminAPIEndpoint ao
  | CallDialFunc f => WithDialFunc f
  | CallIAMAuthN => WithIAMAuthN
  | CallContextLogger l => WithContextLogger l
  | CallDebugLogger l => WithDebugLogger l
  | CallLazyRefresh => WithLazyRefresh
  | CallStaticConnectionInfo r => WithStaticConnectionInfo r
  | CallOptOut => WithOptOutOfAdvancedConnectionCheck
  end.

(** The credentials of a call, or the text of what is wrong with them. *)
Definition credsOf (c : optionCall) : option (TS * AO + string) :=
  match c with
  | CallCredentialsFile (inl b) parse => Some (parse b)
  | CallCredentialsFile (inr text) _ => Some (inr text)
  | CallCredentialsJSON creds => Some creds
  | _ => None
  end.

(** What one call sets or adds. *)
Definition errorIn (c : optionCall) : option error :=
  match credsOf c with Some (inr text) => Some (NewConfigError text "n/a") | _ => None end.
Definition tokenIn (c : optionCall) : option TS :=
  match credsOf c, c with
  | Some (inl (ts, _)), _ => Some ts
  | _, CallTokenSource ts _ => Some ts
  | _, _ => None
  end.
Definition adminOptIn (c : optionCall) : option AO :=
  match credsOf c, c with
  | Some (inl (_, ao)), _ => Some ao
  | _, CallTokenSource _ ao | _, CallHTTPClient ao | _, CallAdminAPIEndpoint ao => Some ao
  | _, _ => None
  end.
Definition userAgentIn (c : optionCall) : option string := match c with CallUserAgent ua => Some ua | _ => None end.
Definition dialOptsIn (c : optionCall) : list (DialOption F) := match c with CallDefaultDialOptions l => l | _ => [] end.
Definition rsaKeyIn (c : optionCall) : option (option K) := match c with CallRSAKey k => Some k | _ => None end.
Definition timeoutIn (c : optionCall) : option Duration := match c with CallRefreshTimeout t => Some t | _ => None end.
Definition dialFuncIn (c : optionCall) : option F := match c with CallDialFunc f => Some f | _ => None end.
Definition loggerIn (c : optionCall) : option LG :=
  match c with CallContextLogger l | CallDebugLogger l => Some l | _ => None end.
Definition staticIn (c : optionCall) : option RD := match c with CallStaticConnectionInfo r => Some r | _ => None end.
Definition isIAM (c : optionCall) : bool := match c with CallIAMAuthN => true | _ => false end.
Definition isLazy (c : optionCall) : bool := match c with CallLazyRefresh => true | _ => false end.
Definition isOptOut (c : optionCall) : bool := match c with CallOptOut => true | _ => false end.

(** The last value set. *)
Definition lastIn {A} (f : optionCall -> option A) (cs : list optionCall) : option A := list.last (omap f cs).

(** The first argument with an error fails; of several errors in it, its last. *)
Fixpoint firstError (groups : list (list optionCall)) : option error :=
  match groups with
  | [] => None
  | g :: groups => match lastIn errorIn g with Some e => Some e | None => firstError groups end
  end.

Definition newDialerSpec (v : newEnv F K TS AO LG CL) (groups : list (list optionCall))
    : res (newDialerOut (F := F) (K := K) (TS := TS) (LG := LG) (RD := RD) (CL := CL)) :=
  let cs := concat groups in
  match firstError groups with
  | Some e => Fail e
  | None =>
    if (existsb isOptOut cs && existsb isIAM cs)%bool then Fail incompatible else
    let userAgent := String.concat " " (nvUserAgent v :: omap userAgentIn cs) in
    (match lastIn tokenIn cs with Some ts => Ret ts | None => nvDefaultTokenSource v end) ≫= fun ts =>
    match nvRESTClient v (omap adminOptIn cs ++ [nvWithUserAgent v userAgent]), nvInitMetrics v with
    | inr text, _ => Fail (ErrorsNew ("failed to create AlloyDB Admin API client: " +:+ text))
    | inl _, Some err => Fail err
    | inl client, None =>
      newKeyGenerator (default None (lastIn rsaKeyIn cs)) (existsb isLazy cs) (nvGenerateKey v) ≫= fun g =>
      Ret {| ndDialer := {|
               defaultDialCfg := DialOptions (concat (map dialOptsIn cs))
                 {| dcDialFunc := None; ipType := PrivateIP; tcpKeepAlive := 30 * Second |};
               dDialFunc := default (nvProxyDial v) (lastIn dialFuncIn cs);
               dDisableMetadataExchange := existsb isOptOut cs; dUseIAMAuthN := existsb isIAM cs;
               dUserAgent := userAgent; dDialerID := nvUUID v |};
             ndKey := g; ndClient := client; ndLazyRefresh := existsb isLazy cs;
             ndStatic := lastIn staticIn cs; ndRefreshTimeout := default (60 * Second) (lastIn timeoutIn cs);
             ndLogger := default (nvNullLogger v) (lastIn loggerIn cs); ndTokenSource := ts |}
    end
  end.

(** *** The settings of a configuration, as a function of the calls *)

Definition configSpec (v : newEnv F K TS AO LG CL) (cs : list optionCall) : dialerConfig F K TS AO LG RD :=
  {| rsaKeyOpt := default None (lastIn rsaKeyIn cs); adminOpts := omap adminOptIn cs;
     dialOpts := concat (map dialOptsIn cs); dialFunc := default (nvProxyDial v) (lastIn dialFuncIn cs);
     refreshTimeout := default (60 * Second) (lastIn timeoutIn cs); tokenSource := lastIn tokenIn cs;
     userAgents := nvUserAgent v :: omap userAgentIn cs; useIAMAuthN := existsb isIAM cs;
     logger := default (nvNullLogger v) (lastIn loggerIn cs); lazyRefresh := existsb isLazy cs;
     disableMetadataExchange := existsb isOptOut cs; staticConnInfo := lastIn staticIn cs;
     cfgErr := lastIn errorIn cs |}.

Lemma lastIn_snoc {A} (f : optionCall -> option A) cs c :
  lastIn f (cs ++ [c]) = match f c with Some a => Some a | None => lastIn f cs end.
Proof. unfold lastIn. rewrite omap_app. simpl. destruct (f c); [by rewrite last_snoc|by rewrite app_nil_r]. Qed.

Lemma lastIn_app {A} (f : optionCall -> option A) cs cs' :
  lastIn f (cs ++ cs') = match lastIn f cs' with Some a => Some a | None => lastIn f cs end.
Proof.
  induction cs' as [|c cs' IH] using rev_ind; [by rewrite app_nil_r|].
  rewrite app_assoc, !lastIn_snoc, IH. by destruct (f c).
Qed.

Lemma existsb_snoc (f : optionCall -> bool) cs c : existsb f (cs ++ [c]) = (existsb f cs || f c)%bool.
Proof. by rewrite existsb_app; simpl; rewrite orb_false_r. Qed.

(** One more call. *)
Lemma optionOf_spec v cs c : optionOf c (configSpec v cs) = configSpec v (cs ++ [c]).
Proof.
  unfold configSpec at 2. rewrite !lastIn_snoc, !omap_app, !existsb_snoc, map_app, concat_app.
  assert (forall creds, credsOf c = Some creds ->
    optionOf c (configSpec v cs) = WithCredentialsJSON creds (configSpec v cs)) as Hcreds.
  { by destruct c as [[b|text] parse| | | | | | | | | | | | | | |]; intros ? [= <-]. }
  destruct (credsOf c) as [creds|] eqn:E.
  - rewrite (Hcreds creds eq_refl).
    destruct c as [[b|text] parse|creds'| | | | | | | | | | | | | |]; try discriminate E; injection E as <-;
      simpl; unfold errorIn, tokenIn, adminOptIn; simpl;
      try (destruct (parse b) as [[ts ao]|text]); try (destruct creds' as [[ts ao]|text]); simpl;
      unfold configSpec, addAdminOpt, setTokenSource, setErr; simpl; rewrite ?app_nil_r, ?orb_false_r; done.
  - destruct c as [[b|text] parse|creds'| | | | | | | | | | | | | |]; try discriminate E; simpl;
      unfold configSpec, addAdminOpt, setTokenSource; simpl; rewrite ?app_nil_r, ?orb_false_r, ?orb_true_r; done.
Qed.

Lemma group_spec v cs g : WithOptions (map optionOf g) (configSpec v cs) = configSpec v (cs ++ g).
Proof.
  unfold WithOptions. revert cs. induction g as [|c g IH]; intros cs; simpl; [by rewrite app_nil_r|].
  by rewrite optionOf_spec, IH, <- app_assoc.
Qed.

Lemma applyOptions_spec v groups cs :
  lastIn errorIn cs = None ->
  applyOptions (map (fun g => WithOptions (map optionOf g)) groups) (configSpec v cs) =
    match firstError groups with Some e => Fail e | None => Ret (configSpec v (cs ++ concat groups)) end.
Proof.
  revert cs. induction groups as [|g groups IH]; intros cs Hok; simpl; [by rewrite app_nil_r|].
  rewrite group_spec. cbn [cfgErr configSpec]. rewrite lastIn_app, Hok.
  destruct (lastIn errorIn g) as [e|] eqn:Hg; [done|].
  rewrite IH by (by rewrite lastIn_app, Hg). by rewrite <- app_assoc.
Qed.
End Spec.
Arguments optionCall : clear implicits.

(** C36: making a dialer. For any arguments, [NewDialer] does what the list of calls
    says: it fails with the first argument's error (and applies no later one), then if
    the options are incompatible, then with the first error of finding credentials,
    making the Admin API client, registering metrics or generating the key; otherwise
    every field of the dialer is the last one set for it, or all that were added, in
    order, or the default. The client's last option is the joined user agents. *)
Theorem newDialer_spec {F K TS AO LG RD CL} (v : newEnv F K TS AO LG CL) (groups : list (list (optionCall F K TS AO LG RD))) :
  NewDialer v (map (fun g => WithOptions (map optionOf g)) groups) = newDialerSpec v groups.
Proof.
  unfold NewDialer, newDialerSpec. assert (defaultConfig (RD := RD) v = configSpec (RD := RD) v []) as -> by reflexivity.
  rewrite applyOptions_spec by done. change ([] ++ concat groups) with (concat groups).
  destruct (firstError groups) as [e|]; [reflexivity|]. generalize (concat groups) as cs. intros cs. clear groups.
  unfold configSpec, addAdminOpt, mbind, res_bind.
  cbn [Options.disableMetadataExchange useIAMAuthN tokenSource userAgents adminOpts dialOpts dialFunc rsaKeyOpt
    lazyRefresh staticConnInfo refreshTimeout logger].
  destruct (existsb isOptOut cs && existsb isIAM cs)%bool; [reflexivity|].
  destruct (match lastIn tokenIn cs with Some ts => Ret ts | None => nvDefaultTokenSource v end) as [ts|e|t]; [|reflexivity..].
  destruct (nvRESTClient v _); [|reflexivity]. destruct (nvInitMetrics v); reflexivity.
Qed.

(** The first error wins. When an option reports an error, [NewDialer] returns it and
    applies none of the later options. *)
Theorem newDialer_first_error {F K TS AO LG RD CL} (v : newEnv F K TS AO LG CL)
    (pre post : list (Option_ F K TS AO LG RD)) opt c e
    (Hpre : applyOptions pre (defaultConfig v) = Ret c) (Herr : cfgErr (opt c) = Some e) :
  NewDialer v (pre ++ opt :: post) = Fail e.
Proof.
  unfold NewDialer. enough (applyOptions (pre ++ opt :: post) (defaultConfig v) = Fail e) as ->; [done|].
  revert Hpre. generalize (defaultConfig (RD := RD) v) as cfg. induction pre as [|o pre IH]; intros cfg; simpl.
  - intros [= ->]. by rewrite Herr.
  - destruct (cfgErr (o cfg)); [done|]. apply IH.
Qed.

(** ** Concrete inputs *)
Definition toyNew : newEnv nat Z nat string unit nat :=
  {| nvProxyDial := 0%nat; nvNullLogger := (); nvUserAgent := "alloydb-go-connector/1";
     nvWithUserAgent := fun ua => ua; nvDefaultTokenSource := Ret 7%nat;
     nvRESTClient := fun l => inl (length l); nvInitMetrics := None; nvGenerateKey := Ret 5; nvUUID := "id" |}.

(** A fragment that sets, overrides and adds. *)
Example newDialer_example :
  let groups := [[CallUserAgent "app/2"]; [CallDialFunc 1%nat; CallIAMAuthN; CallDialFunc 2%nat]; [CallLazyRefresh]] in
  exists d, NewDialer (RD := unit) toyNew (map (fun g => WithOptions (map optionOf g)) groups) = Ret d /\
    dDialFunc (ndDialer d) = 2%nat /\ dUserAgent (ndDialer d) = "alloydb-go-connector/1 app/2" /\
    dUseIAMAuthN (ndDialer d) = true /\ ndLazyRefresh d = true.
Proof. eexists. split; [reflexivity|]. by split_and!. Qed.

Lemma newDialer_first_error_witness :
  NewDialer (RD := unit) toyNew
    ([WithUserAgent "app/2"] ++ WithCredentialsJSON (inr "bad json") :: [WithLazyRefresh])
    = Fail (NewConfigError "bad json" "n/a").
Proof. eapply (newDialer_first_error (RD := unit) toyNew [WithUserAgent "app/2"]); reflexivity. Defined.
