(* ===== verification/PgDriver.v ===== *)
(** * The database/sql drivers ([src/driver/pgxv4/postgres.go], [src/driver/pgxv5/postgres.go])

    The two packages differ in the version of pgx only. A driver turns each data source
    name into a configuration registered with pgx once, and remembers under which name;
    pgx then connects with the dial function of that configuration, a dial of the
    driver's own dialer. *)
From stdpp Require Import pretty.
From S2P Require Import Prelude GoTime ErrType InstanceURI Refresh GoIO Metadata MetadataProps KeyGen Options Cache Tel Ahead AheadCache Threads Dialer NewDialer.
#[local] Open Scope string_scope.
#[local] Open Scope list_scope.
#[local] Open Scope Z_scope.

Section Driver.
(** The rest of a pgx configuration, and [pgx.ParseConfig]. *)
Context {X : Type}.
Record connConfig := { cfgHost : string; cfgRest : X }.
Context (ParseConfig : string -> res connConfig).

(** A registered configuration and the instance its dial function dials. *)
Record registration := { regConfig : connConfig; regInstance : string }.

(** [pgDriver] and the registry of package [stdlib]; [RegisterConnConfig] names the
    configurations by a counter. *)
Record pgDriver := { dbURIs : gmap string string; registry : list registration }.
Context (regName : nat -> string).

Definition newDriver : pgDriver := {| dbURIs := ∅; registry := [] |}.

Definition RegisterConnConfig (r : registration) (p : pgDriver) : string * pgDriver :=
  (regName (length (registry p)), {| dbURIs := dbURIs p; registry := registry p ++ [r] |}).

Definition dbURI (name : string) (p : pgDriver) : res string * pgDriver :=
  match dbURIs p !! name with
  | Some uri => (Ret uri, p)
  | None =>
    match ParseConfig name with
    | Fail err => (Fail err, p)
    | Panic t => (Panic t, p)
    | Ret config =>
        let instConnName := cfgHost config in
        let config := {| cfgHost := "localhost"; cfgRest := cfgRest config |} in
        let '(uri, p) := RegisterConnConfig {| regConfig := config; regInstance := instConnName |} p in
        (Ret uri, {| dbURIs := <[name := uri]> (dbURIs p); registry := registry p |})
    end
  end.

(** Calls of [Open], each up to the point where pgx takes over. *)
Fixpoint opens (names : list string) (p : pgDriver) : list (res string) * pgDriver :=
  match names with
  | [] => ([], p)
  | n :: names => let '(r, p) := dbURI n p in let '(rs, p) := opens names p in (r :: rs, p)
  end.

(** Every remembered name stands for the configuration of its data source name: local
    host, and the instance named as host dialed. *)
Definition driverOK (p : pgDriver) : Prop :=
  forall name uri, dbURIs p !! name = Some uri ->
  exists k r config, registry p !! k = Some r /\ uri = regName k /\ ParseConfig name = Ret config /\
    regInstance r = cfgHost config /\
    regConfig r = {| cfgHost := "localhost"; cfgRest := cfgRest config |}.

Lemma dbURI_OK name p :
  driverOK p ->
  driverOK (dbURI name p).2 /\ prefix (registry p) (registry (dbURI name p).2) /\
  (forall n uri, dbURIs p !! n = Some uri -> dbURIs (dbURI name p).2 !! n = Some uri) /\
  (forall uri, (dbURI name p).1 = Ret uri -> dbURIs (dbURI name p).2 !! name = Some uri).
Proof.
  intros Hp. unfold dbURI. destruct (dbURIs p !! name) as [uri|] eqn:Hn.
  { split_and!; [done..|]. by intros uri' [= <-]. }
  destruct (ParseConfig name) as [config|err|t] eqn:Hc; simpl; [|split_and!; done..].
  split_and!.
  - intros n uri. simpl. rewrite lookup_insert_Some. intros [[<- <-]|[Hne Hu]].
    + eexists (length (registry p)), _, config. simpl. rewrite list_lookup_middle by done. by split_and!.
    + destruct (Hp n uri Hu) as (k & r & cfg & Hk & Hr). exists k, r, cfg. split; [|done].
      by apply lookup_app_l_Some.
  - by eexists.
  - intros n uri Hu. simpl. rewrite lookup_insert_ne; [done|]. intros ->. congruence.
  - intros uri [= <-]. simpl. by rewrite lookup_insert_eq.
Qed.

Lemma opens_OK names p :
  driverOK p ->
  driverOK (opens names p).2 /\
  (forall n uri, dbURIs p !! n = Some uri -> dbURIs (opens names p).2 !! n = Some uri) /\
  (forall k n uri, names !! k = Some n -> (opens names p).1 !! k = Some (Ret uri) ->
     dbURIs (opens names p).2 !! n = Some uri).
Proof.
  revert p. induction names as [|m names IH]; intros p Hp; simpl; [done|].
  destruct (dbURI_OK m p Hp) as (H1 & _ & H2 & H3). destruct (dbURI m p) as [r p1]; simpl in *.
  destruct (IH p1 H1) as (G1 & G2 & G3). destruct (opens names p1) as [rs p2]; simpl in *.
  split_and!; [done|by auto|]. intros [|k] n uri Hn Hr; simplify_eq/=; eauto.
Qed.

Lemma dbURI_parsed name p config :
  ParseConfig name = Ret config ->
  exists uri, (dbURI name p).1 = Ret uri /\ (is_Some (dbURIs p !! name) -> (dbURI name p).2 = p).
Proof.
  intros Hc. unfold dbURI. destruct (dbURIs p !! name) as [uri|]; [by exists uri|].
  rewrite Hc. eexists. split; [done|]. by intros [].
Qed.

Lemma dbURI_unparsed name p :
  driverOK p -> (forall config, ParseConfig name <> Ret config) -> dbURIs p !! name = None.
Proof.
  intros Hp Hc. destruct (dbURIs p !! name) as [uri|] eqn:Hn; [|done].
  destruct (Hp name uri Hn) as (_ & _ & config & _ & _ & E & _). by destruct (Hc config).
Qed.

(** A name that has been opened is remembered. *)
Lemma opens_known names p name config :
  driverOK p -> ParseConfig name = Ret config -> name ∈ names -> is_Some (dbURIs (opens names p).2 !! name).
Proof.
  intros Hp Hc. revert p Hp. induction names as [|m names IH]; intros p Hp; [by intros ?%not_elem_of_nil|]. simpl.
  destruct (dbURI_OK m p Hp) as (H1 & _ & _ & H3).
  pose proof (dbURI_parsed m p) as Hret. destruct (dbURI m p) as [r p1]; simpl in *.
  destruct (opens_OK names p1 H1) as (_ & Hkeep & _). specialize (IH p1 H1).
  destruct (opens names p1) as [rs p2]; simpl in *. intros [->|Hin]%elem_of_cons; [|by apply IH].
  destruct (Hret config Hc) as (uri & -> & _). exists uri. by apply Hkeep, H3.
Qed.
End Driver.

(** ** The driver and its dialer *)

Section Register.
Context `{CryptoLib} `{ProtoLib}.
Context {C CE M N F : Type} `{!InfoCache C CE, !CacheMaker C CE M, !NetConn N}.
Context {K TS AO LG RD CL X : Type}.
Context (isPrint : Z -> bool).
Abbreviation prog := (thread (world (C := C) (M := M) (N := N) (F := F)) (dialEnv (CE := CE) (N := N) (F := F)) dialOut).
Abbreviation dialer := (newDialerOut (F := F) (K := K) (TS := TS) (LG := LG) (RD := RD) (CL := CL)).

(** The drivers registered with [database/sql], by name. *)
Abbreviation drivers := (gmap string (dialer * pgDriver (X := X))).

(** [RegisterDriver]: the function it returns, the error, the registered drivers.
    [sql.Register] does not accept a name twice. *)
Definition RegisterDriver (v : newEnv F K TS AO LG CL) (name : string) (opts : list (Option_ F K TS AO LG RD))
    (ds : drivers) : res prog * option error * drivers :=
  match NewDialer v opts with
  | Fail err => (Ret (returns (Ret 0%nat) None), Some err, ds)
  | Panic t => (Panic t, None, ds)
  | Ret d =>
    match ds !! name with
    | Some _ => (Panic ("sql: Register called twice for driver " +:+ name), None, ds)
    | None => (Ret Close, None, <[name := (d, newDriver)]> ds)
    end
  end.

(** The dial function of a registered configuration: its arguments are not used. *)
Definition DialFunc (d : dialer) (r : registration (X := X)) (network addr : string) : prog :=
  Dial isPrint (ndDialer d) (regInstance r) [].

(** The configuration registered under a name, as pgx looks it up. *)
Definition registered (regName : nat -> string) (p : pgDriver (X := X)) (uri : string) : option (registration (X := X)) :=
  '(_, (_, r)) ← list_find (fun kr => regName kr.1 = uri) (imap pair (registry p)); Some r.

(** [Open]; [connect] is pgx's driver, which is given the configuration it has under the
    name and that configuration's dial function. *)
Definition Open {R} (ParseConfig : string -> res (connConfig (X := X))) (regName : nat -> string)
    (connect : option (registration (X := X) * (string -> string -> prog)) -> res R)
    (name : string) (d : dialer) (p : pgDriver (X := X)) : res R * pgDriver (X := X) :=
  match dbURI ParseConfig regName name p with
  | (Ret uri, p) => (connect ((fun r => (r, DialFunc d r)) <$> registered regName p uri), p)
  | (Fail err, p) => (Fail err, p)
  | (Panic t, p) => (Panic t, p)
  end.

Lemma registered_lookup regName `{!Inj (=) (=) regName} p k r :
  registry p !! k = Some r -> registered regName p (regName k) = Some r.
Proof.
  intros Hr. unfold registered.
  assert (imap pair (registry p) !! k = Some (k, r)) as Hk by (by rewrite list_lookup_imap, Hr).
  destruct (list_find_elem_of (fun kr => regName kr.1 = regName k) (imap pair (registry p)) (k, r)) as [[j [k' r']] Hj];
    [by eapply list_elem_of_lookup_2|done|]. rewrite Hj. simpl.
  apply list_find_Some in Hj as (Hj & E & _). simpl in E. apply (inj regName) in E as ->.
  rewrite list_lookup_imap in Hj. destruct (registry p !! j) as [r''|] eqn:Hjr; simplify_eq/=. congruence.
Qed.
End Register.
(** C37: opening a data source. A driver that [RegisterDriver] has registered belongs to
    the dialer made with the options. After any sequence of opens, opening a name that pgx
    can parse makes pgx connect with the name's configuration, its host replaced by
    localhost, and a dial function that, whatever pgx passes it, is a dial of that dialer to
    the instance the name has as host; a name opened before is not registered again; and a
    name that pgx cannot parse fails with its error and changes nothing. *)
Theorem driver_opens `{CryptoLib} `{ProtoLib} {C CE M N F K TS AO LG RD CL X R : Type}
    `{!InfoCache C CE, !CacheMaker C CE M, !NetConn N} isPrint (v : newEnv F K TS AO LG CL) name
    (opts : list (Option_ F K TS AO LG RD)) ds ds' cleanup d p0
    ParseConfig regName `{!Inj (=) (=) regName}
    (connect : option (registration (X := X) * (string -> string -> thread (world (C := C) (M := M) (N := N) (F := F)) (dialEnv (CE := CE) (N := N) (F := F)) dialOut)) -> res R)
    (Hreg : RegisterDriver v name opts ds = (Ret cleanup, None, ds')) (Hd : ds' !! name = Some (d, p0)) names n :
  let p := (opens ParseConfig regName names p0).2 in
  let open := Open isPrint ParseConfig regName connect n d p in
  NewDialer v opts = Ret d /\ cleanup = Close (C := C) (CE := CE) (M := M) (N := N) (F := F) /\
  match ParseConfig n with
  | Ret config =>
      (exists reg, open.1 = connect (Some (reg, fun _ _ => Dial isPrint (ndDialer d) (cfgHost config) [])) /\
                   regConfig reg = {| cfgHost := "localhost"; cfgRest := cfgRest config |}) /\
      (n ∈ names -> open.2 = p)
  | Fail err => open = (Fail err, p)
  | Panic t => open = (Panic t, p)
  end.
Proof.
  cbv zeta. unfold RegisterDriver in Hreg. destruct (NewDialer v opts) as [d'|err|t] eqn:Hnew; simplify_eq/=.
  destruct (ds !! name) eqn:Hname; simplify_eq/=. rewrite lookup_insert_eq in Hd. simplify_eq.
  destruct (opens_OK ParseConfig regName names newDriver) as (Hok & _ & Hr); [by intros ??|].
  set (p := (opens ParseConfig regName names newDriver).2) in *. split_and!; [done..|].
  destruct (dbURI_OK ParseConfig regName n p Hok) as (Hok' & _ & _ & Hn). unfold Open.
  destruct (ParseConfig n) as [config|err|t] eqn:Hp.
  - destruct (dbURI_parsed ParseConfig regName n p config Hp) as (uri & E & Hsame).
    destruct (dbURI ParseConfig regName n p) as [r p'] eqn:Hdb; simpl in *. subst r.
    destruct (Hok' n uri (Hn uri eq_refl)) as (k & reg & config' & Hk & -> & Hc & Hi & Hrc).
    assert (config' = config) as -> by congruence.
    split; [|intros Hin; by eapply Hsame, opens_known].
    exists reg. rewrite (registered_lookup regName p' k reg Hk). by destruct reg; simplify_eq/=.
  - unfold dbURI. rewrite (dbURI_unparsed ParseConfig regName n p), Hp; [done|done|intros ?; by rewrite Hp].
  - unfold dbURI. rewrite (dbURI_unparsed ParseConfig regName n p), Hp; [done|done|intros ?; by rewrite Hp].
Qed.

(** ** Concrete inputs: a name opened twice, and another one *)
#[local] Existing Instance Toy.lib.
#[local] Existing Instance ToyProto.lib.

Module ToyPg.
Definition opts : list (Option_ nat Z nat string unit unit) := [WithUserAgent "app/2"; WithIAMAuthN].
Definition parse (s : string) : res (connConfig (X := unit)) :=
  if decide (s = "") then Fail ErrInvalidPEM else Ret {| cfgHost := s; cfgRest := () |}.
Definition regName (k : nat) : string := "registeredConnConfig" +:+ pretty k.
Definition noPrint (r : Z) : bool := false.

#[export] Instance regName_inj : Inj (=) (=) regName.
Proof. intros j k E. apply (inj pretty). by apply (inj (String.append "registeredConnConfig")) in E. Qed.

Abbreviation thr := (thread (world (C := RefreshAheadCache) (M := aheadMaker) (N := script) (F := nat)) (dialEnv (CE := aheadEnv) (N := script) (F := nat)) dialOut).

(** What pgx does with a configuration: report its host. *)
Definition connect (r : option (registration (X := unit) * (string -> string -> thr))) : res string :=
  match r with Some (reg, _) => Ret (cfgHost (regConfig reg)) | None => Fail ErrInvalidPEM end.

Definition registeredDrivers : res thr * option error * gmap string _ :=
  RegisterDriver (X := unit) toyNew "alloydb" opts ∅.

(** The dialer they are made with. *)
Definition made : newDialerOut :=
  ltac:(let r := eval hnf in (NewDialer toyNew opts) in match r with Ret ?d => exact d end).
End ToyPg.
Import ToyPg.

Lemma driver_opens_witness :
  let p := (opens parse regName ["a"; "b"; "a"] newDriver).2 in
  let open n := Open noPrint parse regName connect n made p in
  length (registry p) = 2%nat /\ NewDialer toyNew opts = Ret made /\
  (open "a").1 = Ret "localhost" /\ (open "a").2 = p.
Proof.
  intros p open. split; [vm_compute; reflexivity|].
  unshelve epose proof (driver_opens (R := string) (X := unit) noPrint toyNew "alloydb" opts ∅ registeredDrivers.2 Close
    made newDriver parse regName connect _ _ ["a"; "b"; "a"] "a") as (Hnew & _ & (reg & E & Hreg) & Hsame).
  - reflexivity.
  - reflexivity.
  - split; [exact Hnew|]. split; [etransitivity; [exact E|]; simpl; by rewrite Hreg|]. apply Hsame. left.
Defined.
